(* ===== verification/_CoqProject ===== *)
-Q . S2P
Prelude.v
FloatSpec.v
Rounding.v
SumBounds.v
Monotone.v
Control.v
MathOps.v
HoldChecker.v
DmStatus.v
SafeMode.v
Filters.v
Robotiq.v
FR3Controller.v
CurrentEstimation.v
CanBus.v
Servo.v
DmCodec.v
DriverCanMit.v
DriverCanMitFacts.v
DriverCanMitProtocol.v
ServoConfig.v
Joint.v
ServoDm.v
ServoDmFacts.v
JointFacts.v
Device.v
JointOwner.v
Wire.v
Topic.v
DeviceArm.v
DeviceEffector.v
ControlNode.v
Simulation.v
DeviceRecovery.v
TopicFacts.v
JointOwnerFacts.v
DeviceArmFacts.v
NodeRecovery.v
ReadyMoveFacts.v
ArmTopicFacts.v
EffectorFacts.v
ArxEncoder.v
PassiveEncoder.v
SerialPort.v
DriverFt.v
ServoFt.v
FtProtocol.v
FtFacts.v
FtBus.v
Threads.v
DriverController.v
DriverTrossen.v
DriverControllerFacts.v
ControllerInvariant.v
ServoController.v
TrossenFacts.v
MotionGenerator.v
DriverFr3.v
MotionFacts.v
Fr3Facts.v
DeviceFr3.v
Fr3DeviceFacts.v
TextNumber.v
Exceptions.v
CommandLine.v
CommandLineFacts.v
DeviceConfig.v
JointFactory.v
JointFactoryFacts.v
TopicInit.v
TopicInitFacts.v
DeviceInit.v
ArmInit.v
ArmInitFacts.v
EffectorInit.v
EffectorInitFacts.v
ControlMain.v
ControlMainFacts.v
