(* ===== verification/Prelude.v ===== *)
(** * openpi-control: verification of the native robot-control library

    The program (src/native/pi_control) drives teleoperated robot arms and grippers:
    a control node runs one loop per device; a device owns joints, a joint owns
    servos, a servo talks to its motor through a driver, and drivers share buses.
    This development models the servo and driver layers of the CAN family, of the
    FeeTech serial family and of whole-arm controllers, the safety machinery around
    them, joints, arms and grippers with their control loop and emergency recovery, the
    topics they talk over, the control node's main loop, the FR3 arm with its driver,
    controller and reset motion, the Robotiq gripper transport, and how a process comes
    to its device: command line, configuration files, creation and initialisation; and
    it proves what makes them correct.

    ** Files and the code they model

    - [Prelude] (this file): record update, a state monad, weakest preconditions
      ([wp]) and a relational frame ([steps R]: a computation moves the state along
      the preorder [R]), fixed-width integers, bit fields, tactics, hints.
    - [FloatSpec], [Rounding]: IEEE-754 single and double precision over the
      Standard Library's [SpecFloat], comparisons and clamps on floats with NaN, and
      the rounding bounds (monotone, exact on a grid) the codec proofs use.
      [SumBounds]: signs, sums and conversions of floats.  [Monotone]: rounding to
      nearest, and with it addition and multiplication, is monotone.
    - [Control]: enumerations and constants of pi_control.hpp, the clock
      (pi_profile.hpp), what servos and drivers read of their [Device].
    - [MathOps]: can/math_ops.cpp.  [HoldChecker]: pi_hold_checker.cpp.
      [DmStatus]: pi_servo_dm_status.cpp.  [SafeMode]: pi_safe_mode.cpp, over the
      class [ServoView] of the servo readings it uses.
      [Filters]: pi_filter.cpp, pi_stall_detect.cpp, pi_force_feedback.cpp.
      [CurrentEstimation]: pi_current_estimation.cpp.
      [Robotiq]: pi_robotiq.cpp.  [FR3Controller]: pi_fr3_controller.cpp.
    - [CanBus]: the servo registry of pi_driver.cpp and the socket and reception
      lifecycle of pi_driver_can.cpp.
    - [Servo]: pi_servo.cpp, the base class: frames of reference, position wrap, the
      ladder of safety checks of [read_hardware_values].  [ServoConfig]: its two
      configuration steps, over the class [JsonReader].
    - [DmCodec]: the frame builders and reply parsers of pi_servo_dm.cpp and the
      receive cache.  [DriverCanMit]: the whole of pi_driver_can_mit.cpp;
      [DriverCanMitFacts] and [DriverCanMitProtocol] hold its theorems.
    - [ServoDm]: the operations of pi_servo_dm.cpp, written against the class
      [CanMitDriver] of driver operations with its laws [CanMitDriverLaws];
      [ServoDmFacts] instantiates it with the MIT driver and proves its theorems.
      [ArxEncoder]: pi_driver_arx_encoder.cpp, a second instance.
    - [PassiveEncoder]: pi_servo_can_encoder.cpp, the polled trigger encoder.
    - [SerialPort]: pi_driver_serial.cpp, over the class [Tty] of the calls into the
      kernel.  [DriverFt]: pi_driver_ft.cpp, the packet protocol and the group calls,
      with the conversions of pi_servo_ft.hpp.  [ServoFt]: pi_servo_ft.cpp, a second
      instance of [JointServos].  [FtProtocol], [FtFacts]: their theorems on any line
      ([Logged] records what it carried).  [FtBus]: a simulated bus of servos that obey
      the protocol, and what the driver's calls do to it.
    - [Threads]: threads that share a state, alone and interleaved.
      [DriverController]: pi_driver_controller.cpp, the base of drivers for arms with a
      controller of their own, as threads over the class [Vendor] of the vendor's hooks.
      [DriverTrossen]: pi_driver_trossen.cpp and pi_trossen_shim.cpp, an instance of
      [Vendor] over the class [TrossenArm] of the vendor's object.  [ServoController]:
      pi_servo_controller.cpp, a third instance of [JointServos].
      [DriverControllerFacts], [ControllerInvariant], [TrossenFacts]: their theorems.
    - [MotionGenerator]: the reset motion of pi_driver_fr3.cpp.  [DriverFr3]: the rest of
      that file, the callers and libfranka's control loop as threads over the class
      [Franka] of libfranka and std::thread.  [MotionFacts], [Fr3Facts]: their theorems.
    - [Joint]: pi_joint.cpp, against the class [JointServos] of what a joint asks of
      its servos; [JointFacts] makes DM and ENCOS servos an instance of it.
    - [Device]: pi_device.cpp, the base class: [step], the move-to-ready command, the
      emergency recovery, the client watchdog.  What a concrete device overrides, its
      driver and its topic are the class [DeviceObject].  [JointOwner]: what arms and
      effectors share (reads, holding, parking, the ready move of several joints),
      over the class [DeviceWorld] of driver, clock and topic.  [DeviceArm]:
      pi_device_arm.cpp with its CAN and serial subclasses and the spring control of
      pi_algo.cpp; joints are its own, the rest of the program is [ArmWorld].
      [DeviceEffector]: pi_device_effector.cpp with its CAN, controller and serial
      subclasses; the rest of the program is [EffectorWorld].  [DeviceFr3]:
      pi_device_fr3.cpp over the class [Fr3DeviceWorld] of its driver, its gripper, the
      clock and the topic, another instance of [DeviceObject]; [Fr3DeviceFacts]: its
      theorems.
    - [Wire]: the message layouts of pi_topic_zmq.hpp.  [Topic]: pi_topic.cpp and
      pi_topic_zmq.cpp; the device a topic calls back is the class [TopicDevice].
    - [ControlNode]: an arm together with its topic, and the main loop of
      pi_control_node.cpp over the class [NodeDevice].
    - [Simulation]: a small world of servos that obey or fail, a clock and a topic, on
      which the witnesses run.  [DeviceRecovery], [JointOwnerFacts], [DeviceArmFacts],
      [TopicFacts], [NodeRecovery], [ReadyMoveFacts], [ArmTopicFacts],
      [EffectorFacts]: the theorems on devices.
    - [Exceptions]: a state monad with exceptions and [exit], and [ends], its weakest
      preconditions.  [TextNumber]: [std::stof], [std::stod] and [std::getline].
      [CommandLine]: pi_command_line_args.cpp; [CommandLineFacts]: its theorems.
    - [DeviceConfig]: pi_device_config.cpp over the class [JsonDocument], and plain JSON
      values as an instance of it.  [JointFactory]: [Servo::new_servos] and
      [Joint::new_joints] over the class [ServoFactory] of the servos they make, with its
      laws [ServoFactoryLaws]; [JointFactoryFacts]: theorems, and a bench of CAN servos.
    - [TopicInit]: [Topic::new_topic], the constructor and [init_port] of
      pi_topic_zmq.cpp; [TopicInitFacts]: theorems, and a host with its ports.
    - [DeviceInit]: [Device::init], [new_device], [Driver::new_driver] and the set-up of
      pi_algo.cpp over the class [DeviceParts].  [ArmInit]: [DeviceArm::init].
      [EffectorInit]: [DeviceEffector::init], [DeviceEffectorSerial::init],
      [DeviceFR3::init] and the FR3's [parse_array].  [ArmInitFacts],
      [EffectorInitFacts]: their theorems.
    - [ControlMain]: [main] of pi_control_node.cpp with its exception handlers and the
      monitor of the parent, over the class [MainDevice]; [ControlMainFacts]: theorems.

    A definition keeps the name of the C++ member it models; where two classes share
    a name the file or a prefix tells them apart ([ServoDm_read_hardware_values],
    [enc_move], [arx_enable]).  A member's state is a [Record] with the C++ fields; an
    assignment is the update [r <| f := v |>]; a method that changes state is a
    computation of [St].  Servos live in a heap keyed by pointers, so that the
    registry, the driver and the servo itself see one object.

    ** What the theorems show

    - Thermal safety: the force-stop at 93 C cannot be masked by another violation and
      comes with the hundredth hot reading in a row, whatever went before; after an exit
      it comes back sooner than documented ([Servo.temperature_stop_first]); an
      effector's thermal fault is final, and its stop reaches the motor once
      ([ServoDmFacts.thermal_fault_is_final], [thermal_stop_frames]); a successful read
      is a healthy one ([read_success_is_healthy], [verify_operational_healthy]).
    - Commands: limits are respected ([commands_within_limits],
      [FR3Controller.compute_safe]), in a safe mode with the exceptions that
      [SafeMode.safe_command_in_limits] names (a hold anchor outside, NaN), and the hold
      anchor gives way to a limit only ([hold_anchor_captured_once]); commands reach the
      wire as commanded ([DmCodec.dm_command_encodes], [encos_command_encodes]) and are
      not taken for service frames ([command_not_service_frame]).
    - The bus: staleness detection is exact ([group_read_reports_dead]), a frame
      touches its own slot ([frame_touches_own_slot]), [enable] reports what the servo
      said, or for an ENCOS only that a command was sent ([enable_reports_servo]), the
      communication-loss pass enables the registered DM servos, asserts the device's policy
      and sends nothing else ([comm_loss_policy]), lifecycle and registry invariants
      ([driver_invariant], [unregister_no_dangling]), read-only arms never write
      ([arx_never_sends]), waits end ([passive_wait_ends]) and a silent encoder is
      restarted once and stops the arm in time ([silent_encoder_ladder]).
    - Recovery: a failed step opens the emergency recovery, or leaves the one that is
      running as it was ([NodeRecovery.failed_step_recovers]); from start to stop it is
      announced once and ends in at most one shutdown message ([arm_recovery_history]),
      only goes forward ([arm_recovery_forward]), obeys nobody meanwhile
      ([ArmTopicFacts.recovering_arm_ignores_commands]), and the move it makes ends
      however the servos behave, counted in the calls that got their gravity torques
      ([ReadyMoveFacts.parallel_ready_move_ends]).
    - Grippers: published positions stay between closed and open
      ([EffectorFacts.normalized_position_in_unit]); commands stay in the range, follow
      the wanted position monotonically and hold the gripper on what is no number
      ([gripper_command_follows], [apply_action_safe]); torques stay within the grip
      limit ([can_torque_bounded]).
    - Joints and topics: the grip limiter and the stuck detector do what they say
      ([JointFacts.grip_torque_limited], [stuck_latched_iff]); a leader acts on the
      newest state of its follower that arrived, never on an older one after it, though
      queues of two messages lose states ([TopicFacts.newest_state_received]); publisher and
      subscriber probe the same distinct ports ([port_candidates_distinct]).
    - FeeTech: a status packet is accepted only as the line carried it
      ([FtProtocol.accepted_status_genuine]); every call returns ([FtFacts.ft_calls_return])
      and keeps the driver's books ([ft_driver_books]); a leader is let go only on the
      servo's own word, save by a read-only device, which does nothing
      ([passive_leader_released]); on a bus, register and group writes
      land ([FtBus.register_write_lands], [group_write_reaches_servos]) and the bulk
      read marks exactly the silent servos ([group_read_finds_silent]).
    - Whole-arm controllers: modes and commands go out one for every joint, a command
      only to a joint in the mode it was queued for, and a connection is only dropped over
      an idle arm ([DriverControllerFacts.controller_history_right]); a stalled loop is
      noticed in time ([stalled_arm_idled]) and the arm then left alone
      ([watchdog_trip_final]; [watchdog_trip_races] shows the one window this leaves).
      On a Trossen arm a flush reaches the joints ([TrossenFacts.write_reaches_joints]) and
      nothing the driver sends is refused ([arm_never_refuses]).
    - FR3: however callers and control loop interleave, the torques sent are within the
      limits or NaN, save the last ones of a stopped motion, and targets within the
      joints' range ([Fr3Facts.commanded_torques_limited]); the newest request is the
      one applied ([newest_request_applied]); the reset motion ends
      ([MotionFacts.reset_motion_ends]). A command is taken whole or not at all
      ([Fr3DeviceFacts.apply_action_whole]) and a ready move has four outcomes, of which
      the failure of the driver's own move leaves nothing held ([ready_move_outcomes]);
      its waits end ([fr3_waits_end]).
    - The process: whatever it is started with, reading the command line ends with code
      2 or with arguments the rest can work with
      ([CommandLineFacts.accepted_arguments_valid]); joints and servos are made all or
      none ([JointFactoryFacts.new_joints_all_or_nothing]); the nodes of a session
      connect to the ports the others bound ([TopicInitFacts.topics_meet]); an arm that
      is initialised has what its control loop uses and no role its hardware cannot take
      ([ArmInitFacts.initialised_arms_fit]); and no end of the process leaves a device
      behind ([ControlMainFacts.device_lifecycle]). [monitor_spec] is the monitor of the
      parent, [torq_rescale_whole] the rescale list, [initialised_effectors_fit] the
      effectors.
    - Components: the hold checker against its documented hysteresis
      ([is_holding_meets_contract], and [is_holding_reentry] for what happens after
      an exit), the status table, filters and stall detection, half precision, the
      gripper's position byte and failure handling, the current estimate.

    ** Modelling choices, bounds and fuel

    - Floats are evaluated operation by operation, each rounded to its type, without
      contraction into fused operations; [std::fabs] of a [float] is exact.  An
      integer cast that C++ leaves undefined (NaN, out of range) is [None]; where the
      code goes on with the value the parameter [undefined_cast] supplies an
      arbitrary one, and the theorems hold for all of them.
    - Integers are [Z] with the wrap-around of their width written out ([u8], [u16],
      [u32], [i16], ...).
    - The kernel (select, read, write), the clock, libmodbus, the JSON library and
      the joystick publisher are parameters ([BusEnv], [Modbus], [JsonReader]):
      functions of the number of the call.  The theorems quantify over them.
    - So are the file system ([read_file]: no file, no JSON, or a document), what ZMQ says
      to a bind or connect ([zmq_bind], [zmq_connect]) and Boost's parser of options; of
      the parser the theorems assume what it documents: a value of the declared type for
      each option given, the default for one that is not ([conforms]).  Whether
      [strtof] calls an underflow an error is left open ([underflow_is_error]).
    - The initialisation runs on [DeviceParts] and [ServoFactory]: making a topic, a
      driver, a servo.  A servo made is one nobody has and a servo destroyed is gone from
      the registry ([ServoFactoryLaws]); the CAN servos of the bench satisfy it.  What
      [init] leaves of an effector is told to the arm as its numbers of joints and servos.
    - A joint whose servo list is empty or whose reference index is out of range, and
      a float that does not fit [long], are undefined behaviour: the parameters
      [undefined_servo] and [undefined_long] stand for what it gives.
    - A socket is a queue of frames; what the peers send is in the queue of the state.  A
      publisher drops a message when its queue holds [kZmqSndHwm] of them, the high-water
      mark that [init_port] sets.  What lies between a publisher and a subscriber is
      [TopicFacts.Link]: messages are carried and delivered in their order, the
      subscriber's queue takes no more than [kZmqRcvHwm], and a connection may break.
      Messages are their bytes; the payload of a NaN is not modelled.
    - The main loop takes a number of rounds as its fuel and the theorems hold for
      every number: it is a server that runs until it is stopped.
    - [graceful_management] calls itself at most once, so its fuel 2 is enough
      ([SafeMode.graceful_management_fuel]).  The half-precision normalisation
      takes at most eleven rounds.  The loops that run until a deadline take the
      fuel [poll_fuel]; [until_deadline_fuel] and [passive_wait_ends] show that
      more fuel than polls before the deadline does not change the result.  The
      byte loops and retries of the serial line take [io_fuel]; [ft_calls_return]
      gives, for every call and state, a fuel beyond which the result is the same.
    - The driver of a whole-arm controller and its watchdog are modelled as threads: a
      critical section, an access of an atomic and a vendor call are atomic steps, and
      [watchdog_trip_final] is about every interleaving.  A section of [stop_watchdog]
      waits for the loop to return; [solo] runs it at once.
    - The FR3 driver likewise: sections of its two mutexes, of which the control thread
      only tries to take them, are spelled out lock by lock; the device above it is
      sequential and sees its driver's and its gripper's threads in the states they give
      it.  The control loop takes the number of its cycles as fuel and ends without an
      answer when it runs out; [commanded_torques_limited] holds for every number, and
      [reset_motion_ends] gives the number of the reset motion.
    - The rest of the model is sequential: one caller at a time, mutexes and sleeps have
      no effect on its state, and a frame delivered by the reception thread is a step of
      its own ([handle_received_message]), which may come between any two calls in
      the theorems about histories ([driver_run], [servo_run], [transport_run]).
      Log output is not modelled; the [defer_effector_thermal_fault] flag of
      [enable] selects only whether a line is logged and is left out.

    ** Not modelled

    The dynamics of pi_algo_pino.cpp, which are calls of Pinocchio and Eigen (whether its
    [init] succeeds is a parameter), and pi_info.cpp, which writes log lines; the insides
    of libfranka, ZeroMQ, libmodbus, Boost and the JSON library (include/json/json.hpp is
    a copy of the latter); the kernel's USB latency settings; the waiting of several
    threads on [lifecycle_cv_]. *)

From stdpp Require Export base tactics numbers list gmap strings.
From Stdlib Require Export ZArith Lia.

#[global] Open Scope Z_scope.

(** ** Functional update of record fields

    [r <| f := v |>] is the record [r] with field [f] replaced, the model of an
    assignment [this->f = v].  The updater of a field is computed from the
    eta-expansion of the record by abstracting over the projection. *)

Class Eta (R : Type) := eta_expand : R -> R.

Class Upd {R T : Type} (proj : R -> T) := upd : (T -> T) -> R -> R.
Arguments upd {R T} proj {Upd} f r /.

Ltac build_upd proj :=
  lazymatch type of proj with
  | ?R -> ?T =>
      let inst := constr:(_ : Eta R) in
      let e := eval hnf in inst in
      lazymatch eval pattern proj in e with
      | ?body _ => exact (fun (f : T -> T) (r : R) => body (fun r' : R => f (proj r')) r)
      end
  end.

#[global] Hint Extern 0 (Upd ?proj) => build_upd proj : typeclass_instances.

Declare Scope rec_scope.
#[global] Open Scope rec_scope.
Notation "r <| f := v |>" := (upd f (fun _ => v) r)
  (at level 1, left associativity, f at next level, v at level 99) : rec_scope.

(** ** A state monad

    Member functions that read and write their object, or talk to the bus, are
    computations of type [St S A]: they take the state and give the result
    together with the new state. *)

Definition St (S A : Type) : Type := S → A * S.

#[global] Instance St_ret {S} : MRet (St S) := λ A a s, (a, s).
#[global] Instance St_bind {S} : MBind (St S) :=
  λ A B (k : A → St S B) (m : St S A) s, let '(a, s') := m s in k a s'.

Section state_monad.
Context {S : Type}.

Definition get_state : St S S := λ s, (s, s).
Definition gets {A} (f : S → A) : St S A := λ s, (f s, s).
Definition modify (f : S → S) : St S unit := λ s, (tt, f s).
Definition when_ (b : bool) (m : St S unit) : St S unit :=
  if b then m else mret tt.

Lemma bind_ret_l {A B} (a : A) (k : A → St S B) s : (mret a ≫= k) s = k a s.
Proof. reflexivity. Qed.

Lemma bind_run {A B} (m : St S A) (k : A → St S B) s :
  (m ≫= k) s = k (fst (m s)) (snd (m s)).
Proof. unfold mbind, St_bind. by destruct (m s). Qed.
End state_monad.

(** [lift_into] runs a computation on a component of a larger state. *)
Definition lift_into {S T A} (proj : S → T) (inj : T → S → S) (m : St T A) : St S A :=
  λ s, let '(a, t) := m (proj s) in (a, inj t s).

(** ** Weakest preconditions

    [wp m Q s]: run from [s], [m] gives a value and a state related by [Q].  Every
    computation terminates, so this is total correctness. *)

Section wp.
Context {S : Type}.

Definition wp {A} (m : St S A) (Q : A → S → Prop) (s : S) : Prop := Q (fst (m s)) (snd (m s)).

Lemma wp_ret {A} (a : A) Q s : Q a s → wp (mret a) Q s.
Proof. done. Qed.

Lemma wp_bind {A B} (m : St S A) (k : A → St S B) Q s :
  wp m (λ a s', wp (k a) Q s') s → wp (m ≫= k) Q s.
Proof. unfold wp. by rewrite bind_run. Qed.

Lemma wp_gets {A} (f : S → A) Q s : Q (f s) s → wp (gets f) Q s.
Proof. done. Qed.

Lemma wp_get_state (Q : S → S → Prop) s : Q s s → wp get_state Q s.
Proof. done. Qed.

Lemma wp_modify (f : S → S) Q s : Q tt (f s) → wp (modify f) Q s.
Proof. done. Qed.

Lemma wp_when b (m : St S unit) Q s :
  (b = true → wp m Q s) → (b = false → Q tt s) → wp (when_ b m) Q s.
Proof. destruct b; intros H1 H2; [by apply H1|by apply H2]. Qed.

Lemma wp_if {A} (b : bool) (m1 m2 : St S A) Q s :
  (b = true → wp m1 Q s) → (b = false → wp m2 Q s) → wp (if b then m1 else m2) Q s.
Proof. destruct b; auto. Qed.

Lemma wp_mono {A} (m : St S A) (Q Q' : A → S → Prop) s :
  wp m Q s → (∀ a s', Q a s' → Q' a s') → wp m Q' s.
Proof. unfold wp. auto. Qed.

Lemma wp_let {A} (m : St S A) (Q : A → S → Prop) s : wp m Q s → let '(a, s') := m s in Q a s'.
Proof. unfold wp. by destruct (m s). Qed.

Lemma wp_and {A} (m : St S A) (Q Q' : A → S → Prop) s :
  wp m Q s → wp m Q' s → wp m (λ a s', Q a s' ∧ Q' a s') s.
Proof. done. Qed.

Lemma wp_run {A} (m : St S A) (Q : A → S → Prop) s : wp m Q s → Q (fst (m s)) (snd (m s)).
Proof. done. Qed.
End wp.

Lemma wp_lift_into {S T A} (proj : S → T) (inj : T → S → S) (m : St T A) (Q : A → S → Prop) s :
  wp m (λ a t, Q a (inj t s)) (proj s) → wp (lift_into proj inj m) Q s.
Proof. unfold wp, lift_into. by destruct (m (proj s)). Qed.

(** One step of symbolic execution. *)
Ltac wp_step :=
  lazymatch goal with
  | |- wp (_ ≫= _) _ _ => apply wp_bind
  | |- wp (mret _) _ _ => apply wp_ret
  | |- wp (gets _) _ _ => apply wp_gets
  | |- wp get_state _ _ => apply wp_get_state
  | |- wp (modify _) _ _ => apply wp_modify
  | |- wp (when_ _ _) _ _ => apply wp_when; intros ?
  | |- wp (lift_into _ _ _) _ _ => apply wp_lift_into
  | |- wp (if _ then _ else _) _ _ => apply wp_if; intros ?
  end.
Ltac wp_steps := repeat (wp_step; cbv beta).

(** *** Relations that every step keeps

    [steps R m]: whatever state [m] starts in, it ends in an [R]-later one.  For
    a preorder this composes along the program. *)

Section steps.
Context {S : Type} (R : relation S) `{!PreOrder R}.

Definition steps {A} (m : St S A) : Prop := ∀ s, R s (snd (m s)).

Lemma steps_ret {A} (a : A) : steps (mret a).
Proof. intros s. cbn. reflexivity. Qed.

Lemma steps_bind {A B} (m : St S A) (k : A → St S B) :
  steps m → (∀ a, steps (k a)) → steps (m ≫= k).
Proof. intros Hm Hk s. rewrite bind_run. etrans; [apply Hm|apply Hk]. Qed.

Lemma steps_gets {A} (f : S → A) : steps (gets f).
Proof. intros s. cbn. reflexivity. Qed.

Lemma steps_get_state : steps get_state.
Proof. intros s. cbn. reflexivity. Qed.

Lemma steps_modify f : (∀ s, R s (f s)) → steps (modify f).
Proof. intros H s. apply H. Qed.

Lemma steps_when b (m : St S unit) : (b = true → steps m) → steps (when_ b m).
Proof. intros H s. destruct b; [by apply H|]. cbn. reflexivity. Qed.

Lemma steps_wp {A} (m : St S A) s : steps m → wp m (λ _ s', R s s') s.
Proof. intros H. apply H. Qed.
End steps.

(** Keeping a property is such a relation. *)
Definition keeps {S : Type} (P : S → Prop) : relation S := λ s s', P s → P s'.

#[export] Instance keeps_preorder {S} (P : S → Prop) : PreOrder (keeps P).
Proof. split; [by intros s Hs|]. intros s1 s2 s3 H12 H23 H1. by apply H23, H12. Qed.

Lemma steps_lift_into {S T A} (R : relation T) (R' : relation S) (proj : S → T) (inj : T → S → S)
    (m : St T A) :
  steps R m → (∀ s t, R (proj s) t → R' s (inj t s)) → steps R' (lift_into proj inj m).
Proof.
  intros Hm H s. unfold lift_into. specialize (Hm (proj s)).
  destruct (m (proj s)) as [a t]. by apply H.
Qed.

Create HintDb steps.

Ltac steps_step :=
  lazymatch goal with
  | |- steps _ (_ ≫= _) => apply steps_bind; [try exact _|..|intros ?]
  | |- steps _ (mret _) => apply steps_ret; exact _
  | |- steps _ (gets _) => apply steps_gets; exact _
  | |- steps _ get_state => apply steps_get_state; exact _
  | |- steps _ (when_ _ _) => apply steps_when; [try exact _|intros ?]
  | |- steps _ (if ?b then _ else _) => destruct b eqn:?
  | |- steps _ (match ?x with _ => _ end) => destruct x eqn:?
  | |- steps _ (let x := ?e in _) => cbv zeta
  end.
(** Follow the program; the named operations are left to their hints. *)
Ltac steps_go := repeat (first [steps_step | progress cbv beta | solve [eauto with steps]]).

(** ** Machine integers

    An unsigned w-bit value is a [Z] in [0, 2^w); conversions wrap. *)

Definition wrap (w z : Z) : Z := z `mod` 2 ^ w.
Definition swrap (w z : Z) : Z := (z + 2 ^ (w - 1)) `mod` 2 ^ w - 2 ^ (w - 1).

Abbreviation u8 := (wrap 8).
Abbreviation u16 := (wrap 16).
Abbreviation u32 := (wrap 32).
Abbreviation u64 := (wrap 64).
Abbreviation i16 := (swrap 16).
Abbreviation i32 := (swrap 32).

Definition is_unsigned (w z : Z) : Prop := 0 ≤ z < 2 ^ w.
Abbreviation is_byte := (is_unsigned 8).

Create HintDb pi.

Lemma wrap_range w z : 0 ≤ w → is_unsigned w (wrap w z).
Proof. intros. apply Z.mod_pos_bound, Z.pow_pos_nonneg; lia. Qed.

Lemma wrap_small w z : is_unsigned w z → wrap w z = z.
Proof. intros H. by apply Z.mod_small. Qed.

Lemma wrap_land w z : 0 ≤ w → wrap w z = Z.land z (Z.ones w).
Proof. intros. unfold wrap. by rewrite Z.land_ones. Qed.

Lemma swrap_range w z : 0 < w → - 2 ^ (w - 1) ≤ swrap w z < 2 ^ (w - 1).
Proof.
  intros Hw. unfold swrap.
  assert (2 ^ w = 2 * 2 ^ (w - 1)) as E.
  { rewrite <- Z.pow_succ_r by lia. f_equal. lia. }
  pose proof (Z.mod_pos_bound (z + 2 ^ (w - 1)) (2 ^ w) ltac:(lia)). lia.
Qed.

Lemma swrap_small w z : 0 < w → - 2 ^ (w - 1) ≤ z < 2 ^ (w - 1) → swrap w z = z.
Proof.
  intros Hw Hz. unfold swrap.
  assert (2 ^ w = 2 * 2 ^ (w - 1)) as E.
  { rewrite <- Z.pow_succ_r by lia. f_equal. lia. }
  rewrite Z.mod_small by lia. lia.
Qed.

Lemma land_ones_range n z : 0 ≤ n → is_unsigned n (Z.land z (Z.ones n)).
Proof. intros. rewrite Z.land_ones by done. apply Z.mod_pos_bound. lia. Qed.

Lemma shiftr_range a b n z : 0 ≤ b → a = n + b → 0 ≤ n → is_unsigned a z →
  is_unsigned n (Z.shiftr z b).
Proof.
  intros Hb -> Hn [H0 H1]. rewrite Z.shiftr_div_pow2 by lia. split.
  - apply Z.div_pos; lia.
  - apply Z.div_lt_upper_bound; [lia|]. rewrite <- Z.pow_add_r by lia.
    by rewrite (Z.add_comm b n).
Qed.

(** Splitting a word into a high and a low field and joining them again. *)
Lemma lor_split k n : 0 ≤ k →
  Z.lor (Z.shiftl (Z.shiftr n k) k) (Z.land n (Z.ones k)) = n.
Proof.
  intros Hk. apply Z.bits_inj'. intros i Hi.
  rewrite Z.lor_spec, Z.land_spec, Z.shiftl_spec by lia.
  destruct (decide (i < k)).
  - rewrite Z.ones_spec_low, (Z.testbit_neg_r _ (i - k)) by lia.
    by rewrite andb_true_r.
  - rewrite Z.ones_spec_high, Z.shiftr_spec by lia.
    rewrite andb_false_r, orb_false_r. f_equal. lia.
Qed.

(** Joining fields that do not overlap and taking each of them back. *)
Lemma join_high k a b : 0 ≤ k → is_unsigned k b →
  Z.shiftr (Z.lor (Z.shiftl a k) b) k = a.
Proof.
  intros Hk [Hb0 Hb]. rewrite Z.shiftr_lor, Z.shiftr_shiftl_r by lia.
  replace (k - k) with 0 by lia. rewrite Z.shiftr_0_r.
  rewrite (Z.shiftr_div_pow2 b) by lia. rewrite Z.div_small by lia. apply Z.lor_0_r.
Qed.

Lemma join_low k a b : 0 ≤ k → is_unsigned k b →
  Z.land (Z.lor (Z.shiftl a k) b) (Z.ones k) = b.
Proof.
  intros Hk [Hb0 Hb]. rewrite Z.land_lor_distr_l, (Z.land_ones b) by lia.
  rewrite (Z.mod_small b) by lia.
  rewrite Z.land_ones, Z.shiftl_mul_pow2, Z.mod_mul by lia. done.
Qed.

Lemma lor_lt_pow2 n a b : 0 ≤ n → is_unsigned n a → is_unsigned n b →
  is_unsigned n (Z.lor a b).
Proof.
  intros Hn Ha Hb. unfold is_unsigned in *.
  rewrite <- (Z.mod_small a (2 ^ n)), <- (Z.mod_small b (2 ^ n)) by lia.
  rewrite <- !Z.land_ones, <- Z.land_lor_distr_l, Z.land_ones by lia.
  apply Z.mod_pos_bound. lia.
Qed.

Lemma shiftl_range a k n z : 0 ≤ k → 0 ≤ a → n = a + k → is_unsigned a z →
  is_unsigned n (Z.shiftl z k).
Proof.
  intros Hk Ha -> [H0 H1]. rewrite Z.shiftl_mul_pow2 by lia. split; [nia|].
  rewrite Z.pow_add_r by lia. nia.
Qed.

(** Words as arithmetic: with these equations a statement on masks, shifts and
    unions of disjoint fields becomes one on divisions by constants, for [lia]. *)
Lemma lor_add k a b : 0 ≤ k → is_unsigned k b → Z.lor (Z.shiftl a k) b = a * 2 ^ k + b.
Proof.
  intros Hk Hb. rewrite <- Z.shiftl_mul_pow2, Z.add_nocarry_lxor, Z.lxor_lor; try done.
  all: apply Z.bits_inj'; intros i Hi; rewrite Z.land_spec, Z.shiftl_spec, Z.bits_0 by done.
  all: destruct (decide (i < k)); [by rewrite (Z.testbit_neg_r _ (i - k)) by lia|].
  all: rewrite <- (wrap_small k b), wrap_land, Z.land_spec, Z.ones_spec_high by (done || lia).
  all: by rewrite !andb_false_r.
Qed.

Lemma land_mask k n z : 0 ≤ k → 0 ≤ n →
  Z.land z (Z.shiftl (Z.ones n) k) = (z `div` 2 ^ k) `mod` 2 ^ n * 2 ^ k.
Proof.
  intros Hk Hn. rewrite <- Z.shiftr_div_pow2, <- Z.land_ones, <- Z.shiftl_mul_pow2 by done.
  apply Z.bits_inj'. intros i Hi. rewrite Z.land_spec, !Z.shiftl_spec, Z.land_spec by lia.
  destruct (decide (i < k)).
  - rewrite !(Z.testbit_neg_r _ (i - k)) by lia. by rewrite andb_false_r.
  - rewrite Z.shiftr_spec by lia. do 2 f_equal. lia.
Qed.

#[export] Hint Resolve wrap_range land_ones_range lor_lt_pow2 : pi.

(** ** Exhaustive checks over a range of integers *)

Fixpoint forall_below (n : nat) (k : Z) (p : Z → bool) : bool :=
  match n with
  | O => true
  | S n => p k && forall_below n (k + 1) p
  end.

Lemma forall_below_spec n : ∀ k p, forall_below n k p = true →
  ∀ z, k ≤ z < k + Z.of_nat n → p z = true.
Proof.
  induction n as [|n IH]; intros k p H z Hz; [lia|].
  cbn in H. apply andb_true_iff in H as [H1 H2].
  destruct (decide (z = k)) as [->|]; [done|]. apply (IH (k + 1)); [done|lia].
Qed.

(** ** The smallest element of a set of integers, [std::set::begin()] *)

Definition set_begin (X : gset Z) : option Z :=
  foldr (λ x o, Some match o with None => x | Some y => Z.min x y end) None (elements X).

Lemma set_begin_spec (X : gset Z) :
  match set_begin X with
  | None => X = ∅
  | Some x => x ∈ X ∧ ∀ y, y ∈ X → x ≤ y
  end.
Proof.
  unfold set_begin. assert (∀ x, x ∈ X ↔ x ∈ elements X) as H by (intros; by rewrite elem_of_elements).
  revert H. generalize (elements X). clear. intros l H.
  assert (match foldr (λ x o, Some match o with None => x | Some y => Z.min x y end) None l with
          | None => l = [] | Some x => x ∈ l ∧ ∀ y, y ∈ l → x ≤ y end) as Hl.
  { clear. induction l as [|a l IH]; [done|]. cbn [foldr].
    destruct (foldr _ _ _) as [x|].
    - destruct IH as [Hx Hm]. split.
      + destruct (Z.min_spec a x) as [[_ ->]|[_ ->]]; [by left|by right].
      + intros y [->|Hy]%elem_of_cons; [lia|]. specialize (Hm y Hy). lia.
    - subst l. split; [by left|]. intros y [->|Hy]%elem_of_cons; [done|by apply elem_of_nil in Hy]. }
  destruct (foldr _ _ _) as [x|].
  - destruct Hl as [Hx Hm]. split; [by apply H|]. intros y Hy. by apply Hm, H.
  - subst l. apply set_eq. intros x. rewrite H. set_solver.
Qed.

(** ** Tactics *)

(** Case analysis on every boolean test the goal still branches on. *)
Ltac split_ifs :=
  repeat match goal with
  | |- context [if ?b then _ else _] => destruct b eqn:?
  end.

(** Compute the read of a field after updates of other fields. *)
Ltac upd_simpl := cbn [upd fst snd mret mbind St_ret St_bind] in *.
