(* ===== verification/FloatSpec.v ===== *)
(** * IEEE-754 floating point

    C++ [float] and [double] values are [spec_float]s of the Standard Library
    (binary32 and binary64 through the precision parameters), so every model
    that computes with floats rounds exactly as the code does.  The file gives

    - the operations, comparisons, conversions and literals the code uses;
    - the total order of the non-NaN values ([SFleb]);
    - the two-sided clamps ([clipping], [std::clamp]) and their bounds.

    [Rounding] adds that rounding never moves a value past a representable
    bound. *)

From Stdlib Require Export Floats.SpecFloat.
From S2P Require Import Prelude.

(** ** Formats, operations, conversions *)

Abbreviation f32 := spec_float (only parsing).
Abbreviation f64 := spec_float (only parsing).

Definition prec32 : Z := 24.
Definition emax32 : Z := 128.
Definition prec64 : Z := 53.
Definition emax64 : Z := 1024.

Definition fadd : f32 → f32 → f32 := SFadd prec32 emax32.
Definition fsub : f32 → f32 → f32 := SFsub prec32 emax32.
Definition fmul : f32 → f32 → f32 := SFmul prec32 emax32.
Definition fdiv : f32 → f32 → f32 := SFdiv prec32 emax32.
Definition fsqrt : f32 → f32 := SFsqrt prec32 emax32.
Definition dadd : f64 → f64 → f64 := SFadd prec64 emax64.
Definition dsub : f64 → f64 → f64 := SFsub prec64 emax64.
Definition dmul : f64 → f64 → f64 := SFmul prec64 emax64.
Definition ddiv : f64 → f64 → f64 := SFdiv prec64 emax64.

Declare Scope f32_scope.
Declare Scope f64_scope.
Infix "+" := fadd : f32_scope.
Infix "-" := fsub : f32_scope.
Infix "*" := fmul : f32_scope.
Infix "/" := fdiv : f32_scope.
Notation "- x" := (SFopp x) : f32_scope.
Infix "+" := dadd : f64_scope.
Infix "-" := dsub : f64_scope.
Infix "*" := dmul : f64_scope.
Infix "/" := ddiv : f64_scope.
Notation "- x" := (SFopp x) : f64_scope.
Delimit Scope f32_scope with f32.
Delimit Scope f64_scope with f64.

(** Comparisons are the same for both formats (mixed comparisons promote first). *)
Infix "<?." := SFltb (at level 69).
Infix "<=?." := SFleb (at level 69).
Infix "=?." := SFeqb (at level 69).
Notation "x >?. y" := (SFltb y x) (at level 69, only parsing).
Notation "x >=?. y" := (SFleb y x) (at level 69, only parsing).

(** Rounding a float to another format: [(float)d] and the promotion of a float. *)
Definition convert (prec emax : Z) (x : spec_float) : spec_float :=
  match x with
  | S754_finite s m e => binary_round prec emax s m e
  | _ => x
  end.
Definition to_f32 (x : f64) : f32 := convert prec32 emax32 x.
Definition to_f64 (x : f32) : f64 := convert prec64 emax64 x.

(** Integers converted to floating point. *)
Definition f32_of_Z (z : Z) : f32 := binary_normalize prec32 emax32 z 0 false.
Definition f64_of_Z (z : Z) : f64 := binary_normalize prec64 emax64 z 0 false.

(** Decimal literals: [n / d] correctly rounded ([n] and [d] are exact). *)
Definition lit32 (n d : Z) : f32 := fdiv (f32_of_Z n) (f32_of_Z d).
Definition lit64 (n d : Z) : f64 := ddiv (f64_of_Z n) (f64_of_Z d).

Definition f0 : spec_float := S754_zero false.
Definition f1 : f32 := f32_of_Z 1.

(** Conversion to an integer truncates toward zero; it has no value on NaN and
    infinities ([None]: undefined behaviour in C++). *)
Definition SF_trunc (x : spec_float) : option Z :=
  match x with
  | S754_zero _ => Some 0
  | S754_finite s m e =>
      Some (cond_Zopp s (if 0 <=? e then Zpos m * 2 ^ e else Zpos m / 2 ^ (- e)))
  | _ => None
  end.

(** [(int)x]: undefined as well when the truncated value is not an [int]. *)
Definition int_of_float (x : spec_float) : option Z :=
  z ← SF_trunc x;
  if (- 2 ^ 31 <=? z) && (z <? 2 ^ 31) then Some z else None.

(** Rounding half away from zero, [std::lround]. *)
Definition SF_lround (x : spec_float) : option Z :=
  match x with
  | S754_zero _ => Some 0
  | S754_finite s m e =>
      Some (cond_Zopp s (if 0 <=? e then Zpos m * 2 ^ e
                         else (Zpos m + 2 ^ (- e - 1)) / 2 ^ (- e)))
  | _ => None
  end.

(** [std::ceil] and [std::floor] as the integer they round to. *)
Definition SF_floorZ (s : bool) (m : positive) (e : Z) : Z :=
  if 0 <=? e then cond_Zopp s (Zpos m * 2 ^ e) else cond_Zopp s (Zpos m) / 2 ^ (- e).
Definition d_floor (x : f64) : f64 :=
  match x with
  | S754_finite s m e => binary_normalize prec64 emax64 (SF_floorZ s m e) 0 s
  | _ => x
  end.
Definition d_ceil (x : f64) : f64 :=
  match x with
  | S754_finite s m e =>
      binary_normalize prec64 emax64 (- SF_floorZ (negb s) m e) 0 s
  | _ => x
  end.

Definition is_nan (x : spec_float) : bool :=
  match x with S754_nan => true | _ => false end.
Definition isfinite (x : spec_float) : bool :=
  match x with S754_zero _ | S754_finite _ _ _ => true | _ => false end.

(** [std::max(a, b)] is [(a < b) ? b : a]; [std::min(a, b)] is [(b < a) ? b : a]. *)
Definition fmax_ (a b : spec_float) : spec_float := if a <?. b then b else a.
Definition fmin_ (a b : spec_float) : spec_float := if b <?. a then b else a.

(** [std::clamp(v, lo, hi)]. *)
Definition std_clamp (v lo hi : spec_float) : spec_float :=
  if v <?. lo then lo else if hi <?. v then hi else v.

(** The program's own clamp, [Servo::clipping] and [Joint::clipping]. *)
Definition clipping (value min max : spec_float) : spec_float :=
  if value >?. max then max else if value <?. min then min else value.

(** ** The order of the non-NaN values *)

(** The sign class, exponent and mantissa of a value, as the lexicographic key
    that [SFcompare] compares. *)
Definition key_class (x : spec_float) : Z :=
  match x with
  | S754_infinity true => -2 | S754_finite true _ _ => -1
  | S754_finite false _ _ => 1 | S754_infinity false => 2
  | _ => 0
  end.
Definition key_exp (x : spec_float) : Z :=
  match x with S754_finite s _ e => cond_Zopp s e | _ => 0 end.
Definition key_man (x : spec_float) : Z :=
  match x with S754_finite s m _ => cond_Zopp s (Zpos m) | _ => 0 end.

Definition key_le (x y : spec_float) : Prop :=
  key_class x < key_class y ∨
  (key_class x = key_class y ∧
   (key_exp x < key_exp y ∨ (key_exp x = key_exp y ∧ key_man x ≤ key_man y))).

(** Case analysis on two values, their exponents and mantissas. *)
Ltac key_cases x y :=
  destruct x as [[]|[]| |[] mx ex], y as [[]|[]| |[] my ey]; try discriminate;
  cbn [key_class key_exp key_man cond_Zopp];
  try destruct (Z.compare_spec ex ey);
  try (change (Pos.compare_cont Eq mx my) with (Pos.compare mx my);
       destruct (Pos.compare_spec mx my));
  cbn; split; intros; first [done | lia | exfalso; lia].

Lemma SFleb_key x y : is_nan x = false → is_nan y = false →
  SFleb x y = true ↔ key_le x y.
Proof. intros Hx Hy. unfold SFleb, SFcompare, key_le. key_cases x y. Qed.

Lemma SFltb_key x y : is_nan x = false → is_nan y = false →
  SFltb x y = true ↔ ¬ key_le y x.
Proof. intros Hx Hy. unfold SFltb, SFcompare, key_le. key_cases x y. Qed.

Lemma SFltb_nleb x y : is_nan x = false → is_nan y = false →
  SFltb x y = negb (SFleb y x).
Proof.
  intros Hx Hy. pose proof (SFltb_key x y Hx Hy). pose proof (SFleb_key y x Hy Hx).
  destruct (SFltb x y), (SFleb y x); cbn; intuition congruence.
Qed.

Lemma SFleb_refl x : is_nan x = false → x <=?. x = true.
Proof. intros H. apply SFleb_key; [done..|]. unfold key_le. lia. Qed.

Lemma SFleb_trans x y z : x <=?. y = true → y <=?. z = true → x <=?. z = true.
Proof.
  intros Hxy Hyz.
  assert (is_nan x = false ∧ is_nan y = false ∧ is_nan z = false) as (Hx & Hy & Hz).
  { destruct x, y, z; cbn in *; try done; by destruct s. }
  apply SFleb_key in Hxy, Hyz; [|done..]. apply SFleb_key; [done..|].
  unfold key_le in *. lia.
Qed.

Lemma SFleb_total x y : is_nan x = false → is_nan y = false →
  x <=?. y = true ∨ y <=?. x = true.
Proof.
  intros Hx Hy. rewrite !SFleb_key by done. unfold key_le. lia.
Qed.

Lemma SFltb_SFleb x y : x <?. y = true → x <=?. y = true.
Proof. unfold SFltb, SFleb. by destruct (SFcompare x y) as [[]|]. Qed.

Lemma SFltb_trans x y z : x <?. y = true → y <?. z = true → x <?. z = true.
Proof.
  intros Hxy Hyz.
  assert (is_nan x = false ∧ is_nan y = false ∧ is_nan z = false) as (Hx & Hy & Hz).
  { destruct x, y, z; cbn in *; try done; by destruct s. }
  apply SFltb_key in Hxy, Hyz; [|done..]. apply SFltb_key; [done..|].
  unfold key_le in *. lia.
Qed.

Lemma SFltb_nan_r x : x <?. S754_nan = false.
Proof. by destruct x as [[]|[]| |[]]. Qed.

Lemma SFltb_nan_l x : S754_nan <?. x = false.
Proof. done. Qed.

Lemma SFleb_not_nan x y : x <=?. y = true → is_nan x = false ∧ is_nan y = false.
Proof. by destruct x, y. Qed.

(** A value that is neither below [y] nor above it, of two comparable ones. *)
Lemma SFltb_false_leb x y : is_nan x = false → is_nan y = false →
  x <?. y = false → y <=?. x = true.
Proof. intros Hx Hy H. rewrite SFltb_nleb in H by done. by destruct (y <=?. x). Qed.

#[export] Hint Resolve SFleb_refl SFltb_SFleb SFltb_false_leb : pi.

(** ** Clamps *)

Definition in_range (lo hi x : spec_float) : Prop := lo <=?. x = true ∧ x <=?. hi = true.

#[export] Instance in_range_dec lo hi x : Decision (in_range lo hi x).
Proof. unfold in_range. apply _. Defined.

Lemma clipping_in_range v lo hi : is_nan v = false → lo <=?. hi = true →
  in_range lo hi (clipping v lo hi).
Proof.
  intros Hv Hle. destruct (SFleb_not_nan _ _ Hle). unfold clipping, in_range.
  destruct (hi <?. v) eqn:E1; [eauto with pi|].
  destruct (v <?. lo) eqn:E2; eauto with pi.
Qed.

Lemma clipping_id v lo hi : in_range lo hi v → clipping v lo hi = v.
Proof.
  intros [H1 H2]. destruct (SFleb_not_nan _ _ H1), (SFleb_not_nan _ _ H2).
  unfold clipping. rewrite !SFltb_nleb by done. by rewrite H1, H2.
Qed.

Lemma clipping_nan lo hi : clipping S754_nan lo hi = S754_nan.
Proof. unfold clipping. by rewrite SFltb_nan_r. Qed.

Lemma std_clamp_in_range v lo hi : is_nan v = false → lo <=?. hi = true →
  in_range lo hi (std_clamp v lo hi).
Proof.
  intros Hv Hle. destruct (SFleb_not_nan _ _ Hle). unfold std_clamp, in_range.
  destruct (v <?. lo) eqn:E1; [eauto with pi|].
  destruct (hi <?. v) eqn:E2; eauto with pi.
Qed.
