(* ===== verification/Rounding.v ===== *)
(** * Rounding bounds

    A rounded operation never carries a value past a representable bound.  The
    dyadic values are compared exactly as scaled integers; the result is the
    tool with which [MathOps] bounds the integers of the wire codecs. *)

From S2P Require Import Prelude.
From S2P Require Import FloatSpec.

(** ** Rounding does not cross representable values

    [dy_le m e m' e'] compares the dyadic values [m * 2^e] and [m' * 2^e'],
    brought to a common exponent. *)

Definition dy_le (m e m' e' : Z) : Prop :=
  m * 2 ^ (e - Z.min e e') ≤ m' * 2 ^ (e' - Z.min e e').

Lemma dy_le_refl m e : dy_le m e m e.
Proof. unfold dy_le. lia. Qed.

Lemma dy_le_scale k m e m' e' : k ≤ e → k ≤ e' →
  dy_le m e m' e' ↔ m * 2 ^ (e - k) ≤ m' * 2 ^ (e' - k).
Proof.
  intros Hk Hk'. unfold dy_le. set (c := Z.min e e').
  assert (0 < 2 ^ (c - k)) by (apply Z.pow_pos_nonneg; lia).
  replace (e - k) with ((e - c) + (c - k)) by lia.
  replace (e' - k) with ((e' - c) + (c - k)) by lia.
  rewrite !Z.pow_add_r by lia. nia.
Qed.

Lemma dy_le_trans m1 e1 m2 e2 m3 e3 :
  dy_le m1 e1 m2 e2 → dy_le m2 e2 m3 e3 → dy_le m1 e1 m3 e3.
Proof.
  set (k := Z.min e1 (Z.min e2 e3)).
  rewrite !(dy_le_scale k) by lia. lia.
Qed.

Lemma dy_le_same m e m' : dy_le m e m' e ↔ m ≤ m'.
Proof. rewrite (dy_le_scale e) by lia. rewrite Z.sub_diag. cbn. lia. Qed.

Lemma dy_shift m e n : 0 ≤ n → dy_le (m * 2 ^ n) e m (e + n) ∧ dy_le m (e + n) (m * 2 ^ n) e.
Proof.
  intros Hn. rewrite !(dy_le_scale e) by lia.
  replace (e + n - e) with n by lia. rewrite Z.sub_diag. lia.
Qed.

(** Number of binary digits. *)
Lemma digits2_log2 p : Zpos (digits2_pos p) = Z.log2 (Zpos p) + 1.
Proof.
  induction p as [p IH|p IH|]; cbn [digits2_pos]; [| |done];
    rewrite Pos2Z.inj_succ, IH.
  - rewrite Pos2Z.inj_xI, Z.log2_succ_double by lia. lia.
  - rewrite Pos2Z.inj_xO, Z.log2_double by lia. lia.
Qed.

Lemma Zdigits2_bounds m : 0 < m → 2 ^ (Zdigits2 m - 1) ≤ m < 2 ^ Zdigits2 m.
Proof.
  intros Hm. destruct m as [|p|]; [lia| |lia]. cbn [Zdigits2].
  rewrite digits2_log2. pose proof (Z.log2_spec (Zpos p) ltac:(lia)).
  replace (Z.log2 (Zpos p) + 1 - 1) with (Z.log2 (Zpos p)) by lia. by rewrite Z.add_1_r.
Qed.

Lemma Zdigits2_pos m : 0 < m → 0 < Zdigits2 m.
Proof. destruct m; cbn; lia. Qed.

Lemma Zdigits2_unique m d : 0 < d → 2 ^ (d - 1) ≤ m < 2 ^ d → Zdigits2 m = d.
Proof.
  intros Hd Hm. assert (0 < m) as Hp.
  { pose proof (Z.pow_pos_nonneg 2 (d - 1) ltac:(lia) ltac:(lia)). lia. }
  destruct m as [|p|]; [lia| |lia]. cbn [Zdigits2]. rewrite digits2_log2.
  rewrite (Z.log2_unique (Zpos p) (d - 1)); [lia|lia|].
  replace (Z.succ (d - 1)) with d by lia. lia.
Qed.

Lemma Zdigits2_le_pow m k : 0 ≤ m → 0 ≤ k → m < 2 ^ k → Zdigits2 m ≤ k.
Proof.
  intros Hm Hk Hlt. destruct (decide (m = 0)) as [->|]; [cbn; lia|].
  pose proof (Zdigits2_bounds m ltac:(lia)) as [Hb _].
  pose proof (Zdigits2_pos m ltac:(lia)).
  destruct (Z.le_gt_cases (Zdigits2 m) k); [done|].
  pose proof (Z.pow_le_mono_r 2 k (Zdigits2 m - 1) ltac:(lia) ltac:(lia)). lia.
Qed.

(** The iterated right shift with its two sticky bits. *)
Definition shr_ok (m0 n : Z) (exact : bool) (r : shr_record) : Prop :=
  shr_m r = m0 / 2 ^ n ∧
  (shr_r r || shr_s r = false ↔ m0 mod 2 ^ n = 0 ∧ exact = true).

Lemma shr_1_spec m r s : 0 ≤ m →
  let x := shr_1 (Build_shr_record m r s) in
  shr_m x = m / 2 ∧ (shr_r x || shr_s x = false ↔ m mod 2 = 0 ∧ r || s = false).
Proof.
  intros Hm. destruct m as [|[p|p|]|]; [| | | |lia]; cbn.
  - split; [done|]. destruct r, s; cbn; intuition congruence.
  - split.
    + rewrite Pos2Z.inj_xI. rewrite (Z.mul_comm 2), Z.div_add_l by lia. change (1 / 2) with 0. lia.
    + rewrite Pos2Z.inj_xI. split; [done|]. intros [H _]. exfalso.
      rewrite Z.add_comm, Z.mul_comm, Z.mod_add in H by lia. done.
  - split.
    + rewrite Pos2Z.inj_xO. rewrite (Z.mul_comm 2), Z.div_mul by lia. done.
    + rewrite Pos2Z.inj_xO. rewrite Z.mul_comm, Z.mod_mul by lia. tauto.
  - split; [done|]. split; [done|]. by intros [? _].
Qed.

Lemma shr_1_ok m0 n b r : 0 ≤ m0 → 0 ≤ n → shr_ok m0 n b r → shr_ok m0 (n + 1) b (shr_1 r).
Proof.
  intros Hm Hn [E1 E2]. destruct r as [m rr ss]. cbn in E1, E2.
  assert (0 < 2 ^ n) by lia.
  assert (0 ≤ m) by (subst; apply Z.div_pos; lia).
  destruct (shr_1_spec m rr ss ltac:(done)) as [F1 F2]. unfold shr_ok.
  rewrite Z.pow_add_r by lia. change (2 ^ 1) with 2. split.
  - rewrite F1, E1, Z.div_div by lia. done.
  - rewrite F2, E2, Z.rem_mul_r by lia. rewrite <- E1.
    pose proof (Z.mod_pos_bound m0 (2 ^ n) ltac:(lia)).
    pose proof (Z.mod_pos_bound m 2 ltac:(lia)).
    assert (m0 mod 2 ^ n + 2 ^ n * (m mod 2) = 0 ↔ m0 mod 2 ^ n = 0 ∧ m mod 2 = 0) as ->; [|tauto].
    nia.
Qed.

Lemma iter_shr_ok m0 b p : ∀ r n, 0 ≤ m0 → 0 ≤ n →
  shr_ok m0 n b r → shr_ok m0 (n + Zpos p) b (SpecFloat.iter_pos shr_1 p r).
Proof.
  induction p as [p IH|p IH|]; intros r n Hm Hn H; cbn [iter_pos].
  - replace (n + Zpos p~1) with (((n + 1) + Zpos p) + Zpos p) by lia.
    apply IH; [done|lia|]. apply IH; [done|lia|]. by apply shr_1_ok.
  - replace (n + Zpos p~0) with ((n + Zpos p) + Zpos p) by lia.
    apply IH; [done|lia|]. by apply IH.
  - by apply shr_1_ok.
Qed.

Definition loc_exact (l : location) : bool := match l with loc_Exact => true | _ => false end.

Lemma shr_spec m l e n : 0 ≤ m → 0 ≤ n →
  ∃ r, shr (shr_record_of_loc m l) e n = (r, e + n) ∧ shr_ok m n (loc_exact l) r.
Proof.
  intros Hm Hn.
  assert (shr_ok m 0 (loc_exact l) (shr_record_of_loc m l)) as H0.
  { unfold shr_ok. change (2 ^ 0) with 1. rewrite Z.div_1_r, Z.mod_1_r.
    destruct l as [|[]]; cbn; intuition congruence. }
  destruct n as [|p|]; [| |lia]; cbn [shr].
  - eexists. by rewrite Z.add_0_r.
  - eexists. split; [done|]. apply (iter_shr_ok m _ p _ 0); [done|lia|done].
Qed.

Lemma round_ne_cases r :
  round_nearest_even (shr_m r) (loc_of_shr_record r) = shr_m r ∨
  (round_nearest_even (shr_m r) (loc_of_shr_record r) = shr_m r + 1 ∧ shr_r r || shr_s r = true).
Proof. destruct r as [m [] []]; cbn; try destruct (Z.even m); auto. Qed.

Lemma dy_le_digits m e m' e' : 0 < m → 0 < m' → dy_le m e m' e' →
  Zdigits2 m + e ≤ Zdigits2 m' + e'.
Proof.
  intros Hm Hm' H. unfold dy_le in H. set (k := Z.min e e') in *.
  pose proof (Zdigits2_bounds m Hm) as [H1 _].
  pose proof (Zdigits2_bounds m' Hm') as [_ H2].
  pose proof (Zdigits2_pos m Hm). pose proof (Zdigits2_pos m' Hm').
  assert (0 < 2 ^ (e - k)) by (apply Z.pow_pos_nonneg; lia).
  assert (0 < 2 ^ (e' - k)) by (apply Z.pow_pos_nonneg; lia).
  assert (2 ^ (Zdigits2 m - 1 + (e - k)) < 2 ^ (Zdigits2 m' + (e' - k))) as Hlt.
  { rewrite !Z.pow_add_r by lia. nia. }
  apply Z.pow_lt_mono_r_iff in Hlt; lia.
Qed.

Section rounding.
Context (prec emax : Z) (Hprec : 0 < prec) (Hemax : prec < emax).

Local Abbreviation fexp := (fexp prec emax).
Local Abbreviation emin := (emin prec emax).

Lemma fexp_mono e1 e2 : e1 ≤ e2 → fexp e1 ≤ fexp e2.
Proof. unfold SpecFloat.fexp. lia. Qed.

Lemma bounded_spec b eb : bounded prec emax b eb = true ↔
  fexp (Zdigits2 (Zpos b) + eb) = eb ∧ eb ≤ emax - prec.
Proof.
  unfold bounded, canonical_mantissa. rewrite andb_true_iff, Z.eqb_eq, Z.leb_le. done.
Qed.

(** A value at most a representable one, given by its integer part and location. *)
Definition below (m e : Z) (l : location) (b eb : Z) : Prop :=
  dy_le m e b eb ∧ (loc_exact l = false → e ≤ eb ∧ m < b * 2 ^ (eb - e)).

(** First shift and rounding: the rounded mantissa is still below the bound. *)
Lemma round_below m e l b eb n r q :
  0 < m → n = fexp (Zdigits2 m + e) - e → 0 ≤ n →
  bounded prec emax b eb = true → below m e l (Zpos b) eb →
  shr_ok m n (loc_exact l) r →
  q = round_nearest_even (shr_m r) (loc_of_shr_record r) →
  dy_le q (e + n) (Zpos b) eb.
Proof.
  intros Hm -> Hn [Hb _]%bounded_spec [Hle Hin] [Hq Hex] ->.
  set (n := fexp (Zdigits2 m + e) - e) in *.
  assert (0 < 2 ^ n) by lia.
  assert (dy_le (shr_m r) (e + n) (Zpos b) eb) as Hfloor.
  { apply dy_le_trans with (m2 := m) (e2 := e); [|done].
    apply dy_le_trans with (m2 := shr_m r * 2 ^ n) (e2 := e); [by apply dy_shift|].
    apply dy_le_same. rewrite Hq. rewrite Z.mul_comm. by apply Z.mul_div_le. }
  destruct (round_ne_cases r) as [->|[-> Hinex]]; [done|].
  assert (e + n ≤ eb) as Heb.
  { replace (e + n) with (fexp (Zdigits2 m + e)) by lia. rewrite <- Hb.
    apply fexp_mono, dy_le_digits; [lia..|done]. }
  rewrite (dy_le_scale e) in Hle by lia. rewrite Z.sub_diag, Z.mul_1_r in Hle.
  rewrite (dy_le_scale (e + n)) by lia. rewrite Z.sub_diag, Z.mul_1_r.
  assert (2 ^ (eb - e) = 2 ^ (eb - (e + n)) * 2 ^ n) as Epow.
  { rewrite <- Z.pow_add_r by lia. f_equal. lia. }
  rewrite Hq. apply Z.le_succ_l, Z.div_lt_upper_bound; [done|].
  destruct (loc_exact l) eqn:El.
  - assert (m mod 2 ^ n ≠ 0) as Hne.
    { intros E. assert (shr_r r || shr_s r = false) by (by apply Hex). congruence. }
    rewrite Epow in Hle.
    destruct (decide (m = Zpos b * (2 ^ (eb - (e + n)) * 2 ^ n))) as [E|]; [|nia].
    exfalso. apply Hne. rewrite E, Z.mul_assoc. by apply Z.mod_mul; lia.
  - destruct (Hin eq_refl) as [_ Hlt]. rewrite Epow in Hlt. nia.
Qed.

(** Size of the rounded mantissa: at most one more bit, then a power of two. *)
Lemma round_size m e l n r q :
  0 < m → n = fexp (Zdigits2 m + e) - e → 0 ≤ n →
  shr_ok m n (loc_exact l) r →
  q = round_nearest_even (shr_m r) (loc_of_shr_record r) →
  let k := Z.max (Zdigits2 m - n) 0 in
  0 ≤ q ≤ 2 ^ k ∧ (0 < q → 2 ^ (k - 1) ≤ q).
Proof.
  intros Hm -> Hn [Hq _] -> k.
  set (n := fexp (Zdigits2 m + e) - e) in *.
  pose proof (Zdigits2_bounds m Hm) as [Hlo Hhi].
  pose proof (Zdigits2_pos m Hm).
  assert (0 < 2 ^ n) by lia.
  assert (0 ≤ shr_m r < 2 ^ k) as Hqk.
  { rewrite Hq. split; [apply Z.div_pos; lia|].
    apply Z.div_lt_upper_bound; [done|]. rewrite <- Z.pow_add_r by lia.
    eapply Z.lt_le_trans; [exact Hhi|]. apply Z.pow_le_mono_r; lia. }
  assert (0 < shr_m r → 2 ^ (k - 1) ≤ shr_m r) as Hlow.
  { intros Hpos. destruct (Z.le_gt_cases (Zdigits2 m - n) 0) as [Hle|Hgt].
    - replace (k - 1) with (-1) by lia. cbn. lia.
    - rewrite Hq. apply Z.div_le_lower_bound; [done|]. rewrite <- Z.pow_add_r by lia.
      replace (n + (k - 1)) with (Zdigits2 m - 1) by lia. done. }
  destruct (round_ne_cases r) as [->|[-> _]]; [lia|].
  split; [lia|]. intros _. destruct (decide (shr_m r = 0)) as [E|]; [|lia].
  rewrite E. destruct (Z.le_gt_cases k 0); [replace (k - 1) with (-1) by lia; cbn; lia|].
  destruct (Z.le_gt_cases (Zdigits2 m - n) 0); [lia|].
  exfalso. enough (1 ≤ shr_m r) by lia. rewrite Hq.
  apply Z.div_le_lower_bound; [done|]. rewrite Z.mul_1_r.
  eapply Z.le_trans; [|exact Hlo]. apply Z.pow_le_mono_r; lia.
Qed.

(** The renormalising shift after rounding is by at most one exact bit. *)
Lemma renorm_shift m e n q : 0 < m → n = fexp (Zdigits2 m + e) - e → 0 ≤ n →
  let k := Z.max (Zdigits2 m - n) 0 in
  0 < q ≤ 2 ^ k → 2 ^ (k - 1) ≤ q →
  fexp (Zdigits2 q + (e + n)) = e + n ∨
  (fexp (Zdigits2 q + (e + n)) = e + n + 1 ∧ q = 2 ^ prec).
Proof.
  intros Hm Hn Hn0 k Hq Hlow.
  pose proof (Zdigits2_pos m Hm) as Hd. pose proof (Zdigits2_pos q ltac:(lia)) as Hdq.
  assert (e + n = fexp (Zdigits2 m + e)) as He by lia.
  unfold SpecFloat.fexp in *. fold emin in *.
  destruct (decide (q = 2 ^ k)) as [E|Hne].
  - assert (Zdigits2 q = k + 1) as Eq.
    { apply Zdigits2_unique; [lia|]. replace (k + 1 - 1) with k by lia.
      rewrite Z.pow_add_r by lia. lia. }
    destruct (Z.le_gt_cases (Zdigits2 m - n) 0); [left; lia|].
    destruct (decide (Zdigits2 m - n = prec)) as [Ep|]; [|left; lia].
    right. split; [lia|]. rewrite E. f_equal. lia.
  - left. assert (1 ≤ k) as Hk.
    { destruct (Z.le_gt_cases k 0); [|lia].
      assert (k = 0) as Ek by lia. rewrite Ek in *. cbn in Hq, Hne. lia. }
    assert (Zdigits2 q = k) as ->; [|lia].
    apply Zdigits2_unique; [lia|]. lia.
Qed.

(** What a rounded result is: a zero, or a canonical value below the bound. *)
Definition result_below (s : bool) (b eb : Z) (x : spec_float) : Prop :=
  match x with
  | S754_zero s' => s' = s
  | S754_finite s' m e => s' = s ∧ bounded prec emax m e = true ∧ dy_le (Zpos m) e b eb
  | _ => False
  end.

Lemma shr_exact_result m e n2 : 0 < m → (n2 = 0 ∨ (n2 = 1 ∧ m mod 2 = 0)) →
  ∃ r, shr (shr_record_of_loc m loc_Exact) e n2 = (r, e + n2) ∧
  0 < shr_m r ∧ shr_m r * 2 ^ n2 = m ∧ Zdigits2 (shr_m r) + n2 = Zdigits2 m.
Proof.
  intros Hm Hn2. destruct (shr_spec m loc_Exact e n2) as (r & Er & Hr & _); [lia..|].
  exists r. split; [done|]. destruct Hn2 as [->|[-> Hev]].
  - change (2 ^ 0) with 1 in *. rewrite Z.div_1_r in Hr. rewrite Hr. lia.
  - change (2 ^ 1) with 2 in *. pose proof (Z.div_mod m 2 ltac:(lia)).
    assert (0 < shr_m r) by lia. assert (shr_m r * 2 = m) as E by lia.
    split_and!; [done..|].
    pose proof (Zdigits2_bounds (shr_m r) ltac:(done)).
    pose proof (Zdigits2_pos (shr_m r) ltac:(done)).
    symmetry. apply Zdigits2_unique; [lia|]. rewrite Z.pow_add_r by lia.
    replace (Zdigits2 (shr_m r) + 1 - 1) with (Zdigits2 (shr_m r) - 1 + 1) by lia.
    rewrite Z.pow_add_r by lia. lia.
Qed.

Lemma binary_round_aux_below_pos s m e l b eb :
  0 < m → e ≤ fexp (Zdigits2 m + e) → bounded prec emax b eb = true →
  below m e l (Zpos b) eb →
  result_below s (Zpos b) eb (binary_round_aux prec emax s m e l).
Proof.
  intros Hm He Hb Hbel. unfold binary_round_aux, shr_fexp.
  set (n := fexp (Zdigits2 m + e) - e).
  destruct (shr_spec m l e n ltac:(lia) ltac:(lia)) as (r & -> & Hr).
  set (q := round_nearest_even (shr_m r) (loc_of_shr_record r)).
  pose proof (round_below m e l b eb n r q Hm eq_refl ltac:(lia) Hb Hbel Hr eq_refl) as Hqb.
  pose proof (round_size m e l n r q Hm eq_refl ltac:(lia) Hr eq_refl) as [Hq Hlow].
  destruct (decide (q = 0)) as [->|Hq0].
  - assert (fexp (e + n) - (e + n) ≤ 0) as Hz.
    { unfold n, SpecFloat.fexp. lia. }
    cbn [Zdigits2]. replace (0 + (e + n)) with (e + n) by lia.
    cbn [shr_record_of_loc]. unfold shr.
    destruct (fexp (e + n) - (e + n)) as [|p|p]; [done|lia|done].
  - pose proof (renorm_shift m e n q Hm eq_refl ltac:(lia) ltac:(lia) ltac:(lia)) as Hren.
    set (n2 := fexp (Zdigits2 q + (e + n)) - (e + n)).
    destruct (shr_exact_result q (e + n) n2 ltac:(lia)) as (r2 & -> & Hp2 & E2 & Ed2).
    { destruct Hren as [E|[E ->]]; [left; lia|right]. split; [lia|].
      replace prec with (prec - 1 + 1) by lia. rewrite Z.pow_add_r by lia.
      apply Z.mod_mul. lia. }
    destruct (shr_m r2) as [|p|p]; [lia| |lia].
    assert (dy_le (Zpos p) (e + n + n2) (Zpos b) eb) as Hle.
    { eapply dy_le_trans; [|exact Hqb]. rewrite <- E2. apply dy_shift. lia. }
    assert (fexp (Zdigits2 (Zpos p) + (e + n + n2)) = e + n + n2) as Hcan.
    { replace (Zdigits2 (Zpos p) + (e + n + n2)) with (Zdigits2 q + (e + n)) by lia. lia. }
    apply bounded_spec in Hb as [Hb1 Hb2].
    assert (e + n + n2 ≤ emax - prec) as Hov.
    { rewrite <- Hcan. etransitivity; [|exact Hb2]. rewrite <- Hb1.
      apply fexp_mono, dy_le_digits; [lia..|done]. }
    apply Z.leb_le in Hov as Hov'. rewrite Hov'.
    split_and!; [done| |done]. apply bounded_spec. split; done.
Qed.

(** A quotient below the smallest subnormal rounds to zero or to it. *)
Lemma binary_round_aux_below_0 s e l b eb :
  e ≤ fexp e → bounded prec emax b eb = true →
  result_below s (Zpos b) eb (binary_round_aux prec emax s 0 e l).
Proof.
  intros He Hb. assert (fexp e = emin ∧ e ≤ emin) as [Ee Hle].
  { unfold SpecFloat.fexp in *. lia. }
  unfold binary_round_aux, shr_fexp. cbn [Zdigits2]. rewrite Z.add_0_l, Ee.
  destruct (shr_spec 0 l e (emin - e) ltac:(lia) ltac:(lia)) as (r & -> & Hr & _).
  replace (e + (emin - e)) with emin by lia.
  rewrite Z.div_0_l in Hr by (apply Z.pow_nonzero; lia).
  destruct (round_ne_cases r) as [->|[-> _]]; rewrite Hr.
  - cbn [Zdigits2]. rewrite Z.add_0_l.
    assert (fexp emin - emin = 0) as -> by (unfold SpecFloat.fexp; lia). done.
  - change (0 + 1) with 1. change (Zdigits2 1) with 1.
    assert (fexp (1 + emin) - emin = 0) as -> by (unfold SpecFloat.fexp; lia).
    cbn [shr shr_record_of_loc shr_m].
    assert (emin ≤ emax - prec) as Hov by (unfold SpecFloat.emin; lia).
    apply Z.leb_le in Hov as ->. apply bounded_spec in Hb as [Hb1 Hb2].
    split_and!; [done| |].
    + apply bounded_spec. cbn [Zdigits2 digits2_pos].
      unfold SpecFloat.fexp, SpecFloat.emin in *. lia.
    + assert (emin ≤ eb) by (unfold SpecFloat.fexp in Hb1; lia).
      rewrite (dy_le_scale emin) by lia. rewrite Z.sub_diag.
      assert (0 < 2 ^ (eb - emin)) by (apply Z.pow_pos_nonneg; lia). lia.
Qed.

Lemma binary_round_aux_below s m e l b eb :
  0 ≤ m → e ≤ fexp (Zdigits2 m + e) → bounded prec emax b eb = true →
  below m e l (Zpos b) eb →
  result_below s (Zpos b) eb (binary_round_aux prec emax s m e l).
Proof.
  intros Hm He Hb Hbel. destruct (decide (m = 0)) as [->|].
  - by apply binary_round_aux_below_0.
  - apply binary_round_aux_below_pos; [lia|done..].
Qed.

(** Sums go through [binary_round], which first aligns the exponent. *)
Lemma iter_xO_pow d m : Zpos (Pos.iter xO m d) = Zpos m * 2 ^ Zpos d.
Proof.
  revert m. induction d as [|d IH] using Pos.peano_ind; intros m; [cbn; lia|].
  rewrite Pos.iter_succ, Pos2Z.inj_xO, IH, Pos2Z.inj_succ, Z.pow_succ_r by lia. lia.
Qed.

Lemma shl_align_spec m e e' :
  let '(m', e'') := shl_align m e e' in
  e'' = Z.min e e' ∧ Zpos m' = Zpos m * 2 ^ (e - e'').
Proof.
  unfold shl_align. destruct (e' - e) as [|d|d] eqn:E.
  - split; [lia|]. rewrite Z.sub_diag. lia.
  - split; [lia|]. rewrite Z.sub_diag. lia.
  - split; [lia|]. replace (e - e') with (Zpos d) by lia. apply iter_xO_pow.
Qed.

Lemma shl_align_fst m e k : k ≤ e → Zpos (fst (shl_align m e k)) = Zpos m * 2 ^ (e - k).
Proof.
  intros Hk. pose proof (shl_align_spec m e k) as H.
  destruct (shl_align m e k) as [m' e'']. destruct H as [-> H].
  cbn [fst]. rewrite H. by rewrite Z.min_r by lia.
Qed.

Lemma binary_round_below s m e b eb :
  bounded prec emax b eb = true → dy_le (Zpos m) e (Zpos b) eb →
  result_below s (Zpos b) eb (binary_round prec emax s m e).
Proof.
  intros Hb Hle. unfold binary_round.
  set (f := fexp (Z.pos (digits2_pos m) + e)).
  pose proof (shl_align_spec m e f) as H. destruct (shl_align m e f) as [m' e''].
  destruct H as [-> Hm'].
  assert (dy_le (Zpos m') (Z.min e f) (Zpos m) e) as Hsame.
  { rewrite (dy_le_scale (Z.min e f)) by lia. rewrite Z.sub_diag. lia. }
  assert (dy_le (Zpos m) e (Zpos m') (Z.min e f)) as Hsame'.
  { rewrite (dy_le_scale (Z.min e f)) by lia. rewrite Z.sub_diag. lia. }
  apply binary_round_aux_below; [lia| |done|].
  - change (Z.pos (digits2_pos m)) with (Zdigits2 (Zpos m)) in f.
    assert (Zdigits2 (Zpos m') + Z.min e f = Zdigits2 (Zpos m) + e) as ->.
    { apply Z.le_antisymm; apply dy_le_digits; try lia; done. }
    fold f. lia.
  - split; [|done]. eapply dy_le_trans; done.
Qed.
End rounding.

(** ** Bounds of the operations

    [mag_le x b eb]: [x] is zero or finite canonical with magnitude at most
    [b * 2^eb]. *)

Section op_bounds.
Context (prec emax : Z) (Hprec : 0 < prec) (Hemax : prec < emax).
Local Abbreviation below_r := (result_below prec emax).

(** Products: exact in the first step. *)
Lemma SFmul_below sx mx ex sy my ey b eb :
  bounded prec emax mx ex = true → bounded prec emax my ey = true →
  prec ≤ Zdigits2 (Zpos mx) ∨ prec ≤ Zdigits2 (Zpos my) →
  bounded prec emax b eb = true →
  dy_le (Zpos (mx * my)) (ex + ey) (Zpos b) eb →
  below_r (xorb sx sy) (Zpos b) eb
    (SFmul prec emax (S754_finite sx mx ex) (S754_finite sy my ey)).
Proof.
  intros Hx Hy Hd Hb Hle. cbn [SFmul]. apply binary_round_aux_below; try done.
  apply bounded_spec in Hx as [Hx _], Hy as [Hy _].
  pose proof (Zdigits2_bounds (Zpos mx) ltac:(lia)) as [B1 _].
  pose proof (Zdigits2_bounds (Zpos my) ltac:(lia)) as [B2 _].
  pose proof (Zdigits2_bounds (Zpos (mx * my)) ltac:(lia)) as [_ B3].
  pose proof (Zdigits2_pos (Zpos mx) ltac:(lia)). pose proof (Zdigits2_pos (Zpos my) ltac:(lia)).
  assert (2 ^ (Zdigits2 (Zpos mx) - 1 + (Zdigits2 (Zpos my) - 1)) < 2 ^ Zdigits2 (Zpos (mx * my))) as Hlt.
  { rewrite Z.pow_add_r by lia. rewrite Pos2Z.inj_mul in *. nia. }
  apply Z.pow_lt_mono_r_iff in Hlt; [|lia|apply Z.lt_le_incl, Zdigits2_pos; lia].
  unfold fexp in *. lia.
Qed.

(** Quotients: the location records whether the division was exact. *)
Lemma new_location_exact n k : loc_exact (new_location n k) = (k =? 0).
Proof.
  unfold new_location, new_location_even, new_location_odd.
  by destruct (Z.even n), (k =? 0).
Qed.

Lemma SFdiv_core_below mx ex my ey b eb :
  bounded prec emax b eb = true →
  dy_le (Zpos mx) ex (Zpos b * Zpos my) (eb + ey) →
  let '(q, e, l) := SFdiv_core_binary prec emax (Zpos mx) ex (Zpos my) ey in
  0 ≤ q ∧ e ≤ fexp prec emax (Zdigits2 q + e) ∧ below q e l (Zpos b) eb.
Proof.
  intros Hb Hle. apply bounded_spec in Hb as [Hb1 Hb2].
  assert (Zdigits2 (Zpos mx) + ex - (Zdigits2 (Zpos my) + ey) ≤ Zdigits2 (Zpos b) + eb) as Hmag.
  { pose proof (Zdigits2_bounds (Zpos b) ltac:(lia)) as [_ B1].
    pose proof (Zdigits2_bounds (Zpos my) ltac:(lia)) as [_ B2].
    pose proof (Zdigits2_pos (Zpos b) ltac:(lia)). pose proof (Zdigits2_pos (Zpos my) ltac:(lia)).
    apply dy_le_digits in Hle; [|lia..].
    assert (Zdigits2 (Zpos b * Zpos my) ≤ Zdigits2 (Zpos b) + Zdigits2 (Zpos my)); [|lia].
    apply Zdigits2_le_pow; [lia..|]. rewrite Z.pow_add_r by lia. nia. }
  unfold SFdiv_core_binary. set (d1 := Zdigits2 (Zpos mx)) in *. set (d2 := Zdigits2 (Zpos my)) in *.
  set (e := Z.min (fexp prec emax (d1 + ex - (d2 + ey))) (ex - ey)).
  set (sh := ex - ey - e). assert (0 ≤ sh) as Hsh by lia.
  assert (match sh with Z.pos _ => Z.shiftl (Z.pos mx) sh | 0 => Z.pos mx | Z.neg _ => 0 end
    = Zpos mx * 2 ^ sh) as ->.
  { destruct sh as [|p|p] eqn:E; [lia| |lia]. rewrite Z.shiftl_mul_pow2; lia. }
  pose proof (Z.div_eucl_eq (Zpos mx * 2 ^ sh) (Zpos my) ltac:(lia)) as Hdiv.
  pose proof (Z.mod_pos_bound (Zpos mx * 2 ^ sh) (Zpos my) ltac:(lia)) as Hmod.
  unfold Z.modulo in Hmod.
  destruct (Z.div_eucl (Zpos mx * 2 ^ sh) (Zpos my)) as [q r].
  assert (0 < 2 ^ sh) by lia. assert (0 ≤ q) as Hq by nia.
  assert (e ≤ eb) as Heb.
  { transitivity (fexp prec emax (d1 + ex - (d2 + ey))); [lia|]. rewrite <- Hb1.
    by apply fexp_mono. }
  assert (Zpos mx * 2 ^ sh ≤ Zpos b * Zpos my * 2 ^ (eb - e)) as Hval.
  { set (k := Z.min (ex - sh) (eb + ey)).
    rewrite (dy_le_scale (e + ey)) in Hle by lia.
    replace (ex - (e + ey)) with sh in Hle by lia.
    replace (eb + ey - (e + ey)) with (eb - e) in Hle by lia. done. }
  assert (d1 + sh - d2 ≤ Zdigits2 q) as Hdq.
  { destruct (Z.le_gt_cases (d1 + sh - d2) 0).
    { destruct (decide (q = 0)) as [->|]; [done|].
      pose proof (Zdigits2_pos q ltac:(lia)). lia. }
    pose proof (Zdigits2_bounds (Zpos mx) ltac:(lia)) as [B1 _]. fold d1 in B1.
    pose proof (Zdigits2_bounds (Zpos my) ltac:(lia)) as [_ B2]. fold d2 in B2.
    pose proof (Zdigits2_pos (Zpos mx) ltac:(lia)). pose proof (Zdigits2_pos (Zpos my) ltac:(lia)).
    assert (2 ^ (d1 + sh - d2 - 1) ≤ q) as Hql.
    { assert (2 ^ (d1 - 1) * 2 ^ sh = 2 ^ (d1 + sh - d2 - 1) * 2 ^ d2) as E.
      { rewrite <- !Z.pow_add_r by lia. f_equal. lia. }
      nia. }
    assert (0 < 2 ^ (d1 + sh - d2 - 1)) by (apply Z.pow_pos_nonneg; lia).
    pose proof (Zdigits2_bounds q ltac:(lia)) as [_ B3].
    pose proof (Zdigits2_pos q ltac:(lia)).
    assert (2 ^ (d1 + sh - d2 - 1) < 2 ^ Zdigits2 q) as Hlt by lia.
    apply Z.pow_lt_mono_r_iff in Hlt; lia. }
  split_and!; [done| |].
  - transitivity (fexp prec emax (d1 + ex - (d2 + ey))); [lia|]. apply fexp_mono. lia.
  - assert (0 < 2 ^ (eb - e)) by (apply Z.pow_pos_nonneg; lia). split.
    + rewrite (dy_le_scale e) by lia. rewrite Z.sub_diag, Z.mul_1_r. nia.
    + rewrite new_location_exact. intros Hr%Z.eqb_neq. split; [done|]. nia.
Qed.

Lemma SFdiv_below sx mx ex sy my ey b eb :
  bounded prec emax b eb = true →
  dy_le (Zpos mx) ex (Zpos b * Zpos my) (eb + ey) →
  below_r (xorb sx sy) (Zpos b) eb
    (SFdiv prec emax (S754_finite sx mx ex) (S754_finite sy my ey)).
Proof.
  intros Hb Hle. pose proof (SFdiv_core_below mx ex my ey b eb Hb Hle) as H. cbn [SFdiv].
  destruct (SFdiv_core_binary prec emax (Zpos mx) ex (Zpos my) ey) as [[q e] l].
  destruct H as (Hq & He & Hbel). by apply binary_round_aux_below.
Qed.
End op_bounds.

(** ** Values on the grid of the smallest subnormal

    Every canonical value is an integer multiple of [2^emin]; [grid x] is that
    integer, and it carries the order and the exact differences. *)

Section grid.
Context (prec emax : Z) (Hprec : 0 < prec) (Hemax : prec < emax).
Local Abbreviation emin := (emin prec emax).
Local Abbreviation valid := (valid_binary prec emax).

Definition grid (x : spec_float) : Z :=
  match x with
  | S754_finite s m e => cond_Zopp s (Zpos m * 2 ^ (e - emin))
  | _ => 0
  end.

Lemma valid_exp s m e : valid (S754_finite s m e) = true →
  emin ≤ e ∧ fexp prec emax (Zdigits2 (Zpos m) + e) = e.
Proof.
  cbn [valid_binary]. intros [H1 H2]%bounded_spec. split; [|done].
  unfold fexp in H1. lia.
Qed.

(** Among canonical mantissas a larger exponent is a larger magnitude. *)
Lemma canonical_lt m e m' e' : emin ≤ e → e < e' →
  fexp prec emax (Zdigits2 (Zpos m) + e) = e →
  fexp prec emax (Zdigits2 (Zpos m') + e') = e' →
  Zpos m * 2 ^ (e - emin) < Zpos m' * 2 ^ (e' - emin).
Proof.
  intros Hmin Hlt H H'. unfold fexp in *.
  pose proof (Zdigits2_bounds (Zpos m) ltac:(lia)) as [_ B].
  pose proof (Zdigits2_bounds (Zpos m') ltac:(lia)) as [B' _].
  pose proof (Zdigits2_pos (Zpos m) ltac:(lia)).
  assert (2 ^ Zdigits2 (Zpos m) * 2 ^ (e - emin) ≤ 2 ^ (Zdigits2 (Zpos m') - 1) * 2 ^ (e' - emin)).
  { rewrite <- !Z.pow_add_r by lia. apply Z.pow_le_mono_r; lia. }
  assert (0 < 2 ^ (e - emin)) by (apply Z.pow_pos_nonneg; lia).
  assert (0 < 2 ^ (e' - emin)) by (apply Z.pow_pos_nonneg; lia). nia.
Qed.

Lemma grid_le x y : isfinite x = true → isfinite y = true →
  valid x = true → valid y = true → x <=?. y = true → grid x ≤ grid y.
Proof.
  intros Fx Fy Vx Vy H. apply SFleb_key in H; [|by destruct x|by destruct y].
  unfold key_le in H.
  destruct x as [sx| | |sx mx ex], y as [sy| | |sy my ey]; try discriminate.
  - apply valid_exp in Vy as [Hy _]. assert (0 < 2 ^ (ey - emin)) by (apply Z.pow_pos_nonneg; lia).
    destruct sy; cbn [key_class key_exp key_man grid cond_Zopp] in *; lia.
  - apply valid_exp in Vx as [Hx _]. assert (0 < 2 ^ (ex - emin)) by (apply Z.pow_pos_nonneg; lia).
    destruct sx; cbn [key_class key_exp key_man grid cond_Zopp] in *; lia.
  - apply valid_exp in Vx as [Hx Cx], Vy as [Hy Cy].
    assert (0 < 2 ^ (ex - emin)) by (apply Z.pow_pos_nonneg; lia).
    assert (0 < 2 ^ (ey - emin)) by (apply Z.pow_pos_nonneg; lia).
    destruct sx, sy; cbn [key_class key_exp key_man grid cond_Zopp] in *;
      [|lia|lia|].
    + destruct (decide (ex = ey)) as [->|]; [nia|].
      pose proof (canonical_lt my ey mx ex ltac:(lia) ltac:(lia) Cy Cx). lia.
    + destruct (decide (ex = ey)) as [->|]; [nia|].
      pose proof (canonical_lt mx ex my ey ltac:(lia) ltac:(lia) Cx Cy). lia.
Qed.

(** [nn_below b eb x]: [x] is a zero or a canonical positive value at most [b * 2^eb]. *)
Definition nn_below (b eb : Z) (x : spec_float) : Prop :=
  match x with
  | S754_zero _ => True
  | S754_finite false m e => bounded prec emax m e = true ∧ dy_le (Zpos m) e b eb
  | _ => False
  end.

Lemma result_nn b eb x : result_below prec emax false b eb x → nn_below b eb x.
Proof. destruct x as [| | |[] m e]; cbn; intuition congruence. Qed.

(** A rounded difference of ordered values is not negative and stays below
    every representable bound of the exact difference. *)
Lemma SFsub_nn x y b eb :
  isfinite x = true → isfinite y = true → valid x = true → valid y = true →
  bounded prec emax b eb = true →
  0 ≤ grid x - grid y → dy_le (grid x - grid y) emin (Zpos b) eb →
  nn_below (Zpos b) eb (SFsub prec emax x y).
Proof.
  intros Fx Fy Vx Vy Hb Hnn Hle.
  destruct x as [sx| | |sx mx ex], y as [sy| | |sy my ey]; try discriminate.
  - by destruct sx, sy.
  - pose proof Vy as Wy. apply valid_exp in Wy as [Hy _].
    assert (0 < 2 ^ (ey - emin)) by (apply Z.pow_pos_nonneg; lia).
    cbn [grid] in *. destruct sy; cbn [cond_Zopp] in *; [|lia].
    cbn. split; [done|]. eapply dy_le_trans; [|exact Hle].
    rewrite (dy_le_scale emin) by lia. rewrite Z.sub_diag. lia.
  - pose proof Vx as Wx. apply valid_exp in Wx as [Hx _].
    assert (0 < 2 ^ (ex - emin)) by (apply Z.pow_pos_nonneg; lia).
    cbn [grid] in *. destruct sx; cbn [cond_Zopp] in *; [lia|].
    cbn. split; [done|]. eapply dy_le_trans; [|exact Hle].
    rewrite (dy_le_scale emin) by lia. rewrite Z.sub_diag. lia.
  - pose proof Vx as Wx. pose proof Vy as Wy.
    apply valid_exp in Wx as [Hx _], Wy as [Hy _].
    cbn [SFsub]. set (ez := Z.min ex ey).
    rewrite !shl_align_fst by lia.
    set (z := cond_Zopp sx (Zpos mx * 2 ^ (ex - ez)) - cond_Zopp sy (Zpos my * 2 ^ (ey - ez))).
    assert (grid (S754_finite sx mx ex) - grid (S754_finite sy my ey) = z * 2 ^ (ez - emin)) as Ez.
    { unfold z. cbn [grid].
      replace (ex - emin) with ((ex - ez) + (ez - emin)) by lia.
      replace (ey - emin) with ((ey - ez) + (ez - emin)) by lia.
      rewrite !Z.pow_add_r by lia. destruct sx, sy; cbn [cond_Zopp]; lia. }
    assert (0 < 2 ^ (ez - emin)) by (apply Z.pow_pos_nonneg; lia).
    assert (dy_le z ez (Zpos b) eb) as Hz.
    { eapply dy_le_trans; [|exact Hle]. rewrite Ez.
      rewrite (dy_le_scale emin) by lia. rewrite Z.sub_diag. lia. }
    assert (0 ≤ z) as Hz0 by nia.
    destruct z as [|p|p]; [done| |lia]. cbn [binary_normalize].
    apply result_nn, binary_round_below; done.
Qed.

(** Products and quotients of nonnegative values. *)
Lemma SFmul_nn mx ex y b eb bx ebx :
  bounded prec emax mx ex = true → prec ≤ Zdigits2 (Zpos mx) →
  nn_below bx ebx y → bounded prec emax b eb = true →
  dy_le (Zpos mx * bx) (ex + ebx) (Zpos b) eb → 0 < bx →
  nn_below (Zpos b) eb (SFmul prec emax (S754_finite false mx ex) y).
Proof.
  intros Hx Hd Hy Hb Hle Hbx. destruct y as [sy| | |[] my ey]; try done.
  destruct Hy as [Vy Hy]. apply result_nn.
  apply (SFmul_below prec emax Hprec Hemax false mx ex false my ey b eb); auto.
  eapply dy_le_trans; [|exact Hle]. set (k := Z.min ey ebx).
  rewrite (dy_le_scale k) in Hy by lia.
  rewrite (dy_le_scale (ex + k)) by lia. rewrite Pos2Z.inj_mul.
  replace (ex + ey - (ex + k)) with (ey - k) by lia.
  replace (ex + ebx - (ex + k)) with (ebx - k) by lia. nia.
Qed.

Lemma SFdiv_nn x my ey b eb bx ebx :
  nn_below bx ebx x → bounded prec emax b eb = true →
  dy_le bx ebx (Zpos b * Zpos my) (eb + ey) →
  nn_below (Zpos b) eb (SFdiv prec emax x (S754_finite false my ey)).
Proof.
  intros Hx Hb Hle. destruct x as [sx| | |[] mx ex]; try done.
  destruct Hx as [Vx Hx]. apply result_nn.
  apply (SFdiv_below prec emax Hprec Hemax false mx ex false my ey b eb); [done|].
  by eapply dy_le_trans.
Qed.

(** Truncation of a nonnegative value at most the integer [n]. *)
Lemma SF_trunc_nn x b eb n : nn_below b eb x → 0 ≤ n → dy_le b eb n 0 →
  ∃ z, SF_trunc x = Some z ∧ 0 ≤ z ≤ n.
Proof.
  intros Hx Hn Hle. destruct x as [sx| | |[] mx ex]; try done.
  - exists 0. split; [done|lia].
  - destruct Hx as [_ Hx]. assert (dy_le (Zpos mx) ex n 0) as H by (by eapply dy_le_trans).
    cbn [SF_trunc cond_Zopp]. eexists. split; [done|].
    destruct (Z.leb_spec 0 ex).
    + rewrite (dy_le_scale 0) in H by lia. rewrite !Z.sub_0_r in H.
      assert (0 < 2 ^ ex) by lia. lia.
    + rewrite (dy_le_scale ex) in H by lia. rewrite Z.sub_diag in H.
      replace (0 - ex) with (- ex) in H by lia.
      assert (0 < 2 ^ (- ex)) by (apply Z.pow_pos_nonneg; lia).
      split; [apply Z.div_pos; lia|]. apply Z.div_le_upper_bound; lia.
Qed.

Lemma SF_lround_nn x b eb n : nn_below b eb x → 0 ≤ n → dy_le b eb n 0 →
  ∃ z, SF_lround x = Some z ∧ 0 ≤ z ≤ n.
Proof.
  intros Hx Hn Hle. destruct x as [sx| | |[] mx ex]; try done.
  - exists 0. split; [done|lia].
  - destruct Hx as [_ Hx]. assert (dy_le (Zpos mx) ex n 0) as H by (by eapply dy_le_trans).
    cbn [SF_lround cond_Zopp]. eexists. split; [done|].
    destruct (Z.leb_spec 0 ex).
    + rewrite (dy_le_scale 0) in H by lia. rewrite !Z.sub_0_r in H.
      assert (0 < 2 ^ ex) by lia. lia.
    + rewrite (dy_le_scale ex) in H by lia. rewrite Z.sub_diag in H.
      replace (0 - ex) with (- ex) in H by lia.
      assert (2 ^ (- ex) = 2 * 2 ^ (- ex - 1)) as E.
      { rewrite <- Z.pow_succ_r by lia. f_equal. lia. }
      assert (0 < 2 ^ (- ex - 1)) by (apply Z.pow_pos_nonneg; lia).
      split; [apply Z.div_pos; lia|].
      apply Z.lt_succ_r, Z.div_lt_upper_bound; nia.
Qed.

Lemma nn_below_mono b eb b' eb' x : nn_below b eb x → dy_le b eb b' eb' → nn_below b' eb' x.
Proof.
  destruct x as [| | |[] m e]; try done. intros [Hv H] H'. split; [done|].
  by eapply dy_le_trans.
Qed.

Lemma grid_nn b x : nn_below b 0 x → 0 ≤ b → emin ≤ 0 →
  isfinite x = true ∧ valid x = true ∧ 0 ≤ grid x ≤ b * 2 ^ (- emin).
Proof.
  intros Hx Hb He. assert (0 < 2 ^ (- emin)) by (apply Z.pow_pos_nonneg; lia).
  destruct x as [| | |[] m e]; try done; cbn [grid cond_Zopp].
  - split_and!; [done..|]. nia.
  - destruct Hx as [Hv H']. pose proof (valid_exp false m e Hv) as [Hm _].
    assert (0 < 2 ^ (e - emin)) by (apply Z.pow_pos_nonneg; lia).
    split_and!; [done|done|lia|]. rewrite (dy_le_scale emin) in H' by lia.
    by rewrite Z.sub_0_l in H'.
Qed.
End grid.
