(* ===== verification/SumBounds.v ===== *)
(** * Monotone sums

    A rounded sum stays on the same side of every representable value as the exact
    sum; in particular adding a nonnegative value never decreases and subtracting
    one never increases.  Products, quotients and conversions keep signs, and
    conversions keep representable bounds. *)

From S2P Require Import Prelude.
From S2P Require Import FloatSpec.
From S2P Require Import Rounding.

Section above.
Context (prec emax : Z) (Hprec : 0 < prec) (Hemax : prec < emax).
Local Abbreviation fexp := (fexp prec emax).
Local Abbreviation emin := (emin prec emax).
Local Abbreviation valid := (valid_binary prec emax).
Local Abbreviation grid := (grid prec emax).

(** The first rounding does not fall below a representable bound. *)
Lemma round_above m e l b eb n r q :
  0 < m → n = fexp (Zdigits2 m + e) - e → 0 ≤ n →
  bounded prec emax b eb = true → dy_le (Zpos b) eb m e → shr_ok m n (loc_exact l) r →
  q = round_nearest_even (shr_m r) (loc_of_shr_record r) →
  dy_le (Zpos b) eb q (e + n).
Proof.
  intros Hm Hn Hn0 [Hb Hb2]%bounded_spec Hle [Hq _] ->.
  assert (0 < 2 ^ n) by lia. pose proof (Zdigits2_bounds m Hm) as [Hlo _].
  pose proof (Zdigits2_bounds (Zpos b) ltac:(lia)) as [_ Hbhi].
  pose proof (Zdigits2_pos (Zpos b) ltac:(lia)).
  assert (Zdigits2 (Zpos b) + eb ≤ Zdigits2 m + e) as Hd by (apply dy_le_digits; [lia..|done]).
  assert (eb ≤ e + n) as Heb.
  { replace (e + n) with (fexp (Zdigits2 m + e)) by lia. rewrite <- Hb. apply fexp_mono. lia. }
  enough (dy_le (Zpos b) eb (shr_m r) (e + n)) as Hfl.
  { eapply dy_le_trans; [exact Hfl|]. apply dy_le_same.
    destruct (round_ne_cases r) as [-> | [-> _]]; lia. }
  rewrite Hq. rewrite (dy_le_scale eb) by lia. rewrite Z.sub_diag, Z.mul_1_r.
  destruct (decide (eb = e + n)) as [-> |].
  - rewrite Z.sub_diag, Z.mul_1_r. apply Z.div_le_lower_bound; [done|].
    rewrite (dy_le_scale e) in Hle by lia. rewrite Z.sub_diag, Z.mul_1_r in Hle.
    replace (e + n - e) with n in Hle by lia. lia.
  - assert (Zdigits2 m - n = prec ∧ Zdigits2 (Zpos b) ≤ prec) as [Ep Hbp] by (unfold SpecFloat.fexp in *; lia).
    assert (2 ^ (prec - 1) ≤ m / 2 ^ n) as Hf.
    { apply Z.div_le_lower_bound; [done|]. rewrite <- Z.pow_add_r by lia.
      replace (n + (prec - 1)) with (Zdigits2 m - 1) by lia. done. }
    assert (2 ^ 1 ≤ 2 ^ (e + n - eb)) by (apply Z.pow_le_mono_r; lia).
    assert (2 ^ Zdigits2 (Zpos b) ≤ 2 ^ prec) by (apply Z.pow_le_mono_r; lia).
    assert (2 ^ prec = 2 * 2 ^ (prec - 1)).
    { rewrite <- Z.pow_succ_r by lia. f_equal. lia. }
    nia.
Qed.

(** A result of sign [s] and at least [b * 2^eb] in magnitude. *)
Definition result_above (s : bool) (b eb : Z) (x : spec_float) : Prop :=
  match x with
  | S754_infinity s' => s' = s
  | S754_finite s' m e => s' = s ∧ bounded prec emax m e = true ∧ dy_le b eb (Zpos m) e
  | _ => False
  end.

Lemma binary_round_aux_above s m e l b eb :
  0 < m → e ≤ fexp (Zdigits2 m + e) → bounded prec emax b eb = true → dy_le (Zpos b) eb m e →
  result_above s (Zpos b) eb (binary_round_aux prec emax s m e l).
Proof.
  intros Hm He Hb Hle. unfold binary_round_aux, shr_fexp.
  set (n := fexp (Zdigits2 m + e) - e).
  destruct (shr_spec m l e n ltac:(lia) ltac:(lia)) as (r & -> & Hr).
  set (q := round_nearest_even (shr_m r) (loc_of_shr_record r)).
  pose proof (round_above m e l b eb n r q Hm eq_refl ltac:(lia) Hb Hle Hr eq_refl) as Hqb.
  pose proof (round_size prec emax m e l n r q Hm eq_refl ltac:(lia) Hr eq_refl) as [Hq Hlow].
  assert (0 < q) as Hq0.
  { destruct (decide (q = 0)) as [E|]; [|lia]. exfalso. rewrite E in Hqb. unfold dy_le in Hqb.
    assert (0 < 2 ^ (eb - Z.min eb (e + n))) by (apply Z.pow_pos_nonneg; lia). nia. }
  pose proof (renorm_shift prec emax Hprec m e n q Hm eq_refl ltac:(lia) ltac:(lia) ltac:(lia)) as Hren.
  set (n2 := fexp (Zdigits2 q + (e + n)) - (e + n)).
  destruct (shr_exact_result q (e + n) n2 ltac:(lia)) as (r2 & -> & Hp2 & E2 & Ed2).
  { destruct Hren as [E|[E ->]]; [left; lia|right]. split; [lia|].
    replace prec with (prec - 1 + 1) by lia. rewrite Z.pow_add_r by lia. apply Z.mod_mul. lia. }
  destruct (shr_m r2) as [|p|p]; [lia| |lia].
  destruct (e + n + n2 <=? emax - prec) eqn:Ov; [|done].
  split_and!; [done| |].
  - apply bounded_spec. split; [|lia].
    replace (Zdigits2 (Zpos p) + (e + n + n2)) with (Zdigits2 q + (e + n)) by lia. lia.
  - eapply dy_le_trans; [exact Hqb|]. rewrite <- E2. apply dy_shift. lia.
Qed.

Lemma binary_round_above s m e b eb :
  bounded prec emax b eb = true → dy_le (Zpos b) eb (Zpos m) e →
  result_above s (Zpos b) eb (binary_round prec emax s m e).
Proof.
  intros Hb Hle. unfold binary_round.
  set (f := fexp (Z.pos (digits2_pos m) + e)).
  pose proof (shl_align_spec m e f) as H. destruct (shl_align m e f) as [m' e''].
  destruct H as [-> Hm'].
  assert (dy_le (Zpos m) e (Zpos m') (Z.min e f)) as Hsame.
  { rewrite (dy_le_scale (Z.min e f)) by lia. rewrite Z.sub_diag. lia. }
  assert (dy_le (Zpos m') (Z.min e f) (Zpos m) e) as Hsame'.
  { rewrite (dy_le_scale (Z.min e f)) by lia. rewrite Z.sub_diag. lia. }
  apply binary_round_aux_above; [lia| |done|by eapply dy_le_trans].
  change (Z.pos (digits2_pos m)) with (Zdigits2 (Zpos m)) in f.
  assert (Zdigits2 (Zpos m') + Z.min e f = Zdigits2 (Zpos m) + e) as ->.
  { apply Z.le_antisymm; apply dy_le_digits; try lia; done. }
  fold f. lia.
Qed.

(** ** Comparisons on the grid *)

Lemma grid_leb x y : isfinite x = true → isfinite y = true → valid x = true → valid y = true →
  grid x ≤ grid y → x <=?. y = true.
Proof.
  intros Fx Fy Vx Vy H. apply SFleb_key; [by destruct x|by destruct y|]. unfold key_le.
  destruct x as [sx| | |sx mx ex], y as [sy| | |sy my ey]; try discriminate.
  - cbn. lia.
  - apply (valid_exp prec emax) in Vy as [Hy _].
    assert (0 < 2 ^ (ey - emin)) by (apply Z.pow_pos_nonneg; lia).
    destruct sy; cbn [key_class key_exp key_man Rounding.grid cond_Zopp] in *; lia.
  - apply (valid_exp prec emax) in Vx as [Hx _].
    assert (0 < 2 ^ (ex - emin)) by (apply Z.pow_pos_nonneg; lia).
    destruct sx; cbn [key_class key_exp key_man Rounding.grid cond_Zopp] in *; lia.
  - apply (valid_exp prec emax) in Vx as [Hx Cx], Vy as [Hy Cy].
    assert (0 < 2 ^ (ex - emin)) by (apply Z.pow_pos_nonneg; lia).
    assert (0 < 2 ^ (ey - emin)) by (apply Z.pow_pos_nonneg; lia).
    destruct sx, sy; cbn [key_class key_exp key_man Rounding.grid cond_Zopp] in *; [|lia|lia|].
    + destruct (Z.lt_trichotomy ex ey) as [L|[-> |L]]; [|nia|lia].
      pose proof (canonical_lt prec emax Hprec Hemax mx ex my ey ltac:(lia) L Cx Cy). lia.
    + destruct (Z.lt_trichotomy ex ey) as [L|[-> |L]]; [lia|nia|].
      pose proof (canonical_lt prec emax Hprec Hemax my ey mx ex ltac:(lia) L Cy Cx). lia.
Qed.

(** The exact value [m * 2^e], [emin <= e], against a representable [b]. *)
Lemma normalize_le m e sz b : emin ≤ e → isfinite b = true → valid b = true →
  m * 2 ^ (e - emin) ≤ grid b → binary_normalize prec emax m e sz <=?. b = true.
Proof.
  intros He Fb Vb H. assert (0 < 2 ^ (e - emin)) by (apply Z.pow_pos_nonneg; lia).
  destruct m as [|m|m]; cbn [binary_normalize].
  - apply grid_leb; [done..|]. cbn. lia.
  - destruct b as [sb| | |[] mb eb]; cbn [Rounding.grid cond_Zopp] in *; try discriminate;
      [nia| |].
    { assert (0 < 2 ^ (eb - emin)) by (apply Z.pow_pos_nonneg; [lia|]; apply (valid_exp prec emax) in Vb; lia). nia. }
    pose proof (valid_exp prec emax _ _ _ Vb) as [Heb _].
    assert (dy_le (Zpos m) e (Zpos mb) eb) as Hle by (by apply (dy_le_scale emin)).
    pose proof (binary_round_below prec emax Hprec Hemax false m e mb eb Vb Hle) as R.
    destruct (binary_round prec emax false m e) as [| | |s p ep]; try done.
    destruct R as (-> & Vp & Hp). apply grid_leb; [done..|]. cbn [Rounding.grid cond_Zopp].
    assert (emin ≤ ep) by (by apply (valid_exp prec emax false p)). by apply (dy_le_scale emin).
  - destruct (decide (0 ≤ grid b)) as [Hb|Hb].
    + apply SFleb_trans with (S754_zero false); [|by apply grid_leb].
      assert (bounded prec emax 1 emin = true) as H1.
      { apply bounded_spec. cbn [Zdigits2 digits2_pos]. unfold SpecFloat.fexp, SpecFloat.emin. lia. }
      assert (dy_le 1 emin (Zpos m) e) as Hle by (apply (dy_le_scale emin); [lia|lia|]; rewrite Z.sub_diag; nia).
      pose proof (binary_round_above true m e 1 emin H1 Hle) as R.
      destruct (binary_round prec emax true m e) as [|s| |s p ep]; try done; [cbn in R; by subst|].
      by destruct R as (-> & _).
    + destruct b as [sb| | |[] mb eb]; cbn [Rounding.grid cond_Zopp] in *; try discriminate; [lia| |].
      2: { exfalso. apply Hb. apply (valid_exp prec emax) in Vb as [? _].
           assert (0 < 2 ^ (eb - emin)) by (apply Z.pow_pos_nonneg; lia). lia. }
      pose proof (valid_exp prec emax _ _ _ Vb) as [Heb _].
      assert (dy_le (Zpos mb) eb (Zpos m) e) as Hle by (apply (dy_le_scale emin); lia).
      pose proof (binary_round_above true m e mb eb Vb Hle) as R.
      destruct (binary_round prec emax true m e) as [|s| |s p ep]; try done; [cbn in R; by subst|].
      destruct R as (-> & Vp & Hp). apply grid_leb; [done..|]. cbn [Rounding.grid cond_Zopp].
      assert (emin ≤ ep) by (by apply (valid_exp prec emax true p)).
      apply (dy_le_scale emin) in Hp; [|lia..]. lia.
Qed.

(** Rounding is symmetric in the sign. *)
Lemma SFleb_opp x y : SFopp x <=?. SFopp y = (y <=?. x).
Proof.
  destruct x as [[]|[]| |[] mx ex], y as [[]|[]| |[] my ey]; try done; unfold SFleb, SFcompare; cbn;
    rewrite (Z.compare_antisym ey ex); destruct (ey ?= ex) eqn:E; cbn; try done;
    change Pos.compare_cont with Pos.compare_cont; rewrite ?Pos.compare_cont_antisym; cbn;
    by destruct (Pos.compare_cont Eq my mx).
Qed.

Lemma grid_opp x : grid (SFopp x) = - grid x.
Proof. destruct x as [| | |[] m e]; cbn; lia. Qed.

Lemma SFopp_finite x : isfinite (SFopp x) = isfinite x ∧ valid (SFopp x) = valid x.
Proof. by destruct x. Qed.

Lemma binary_round_opp m e : binary_round prec emax true m e = SFopp (binary_round prec emax false m e).
Proof.
  unfold binary_round, binary_round_aux. destruct (shl_align _ _ _). destruct (shr_fexp _ _ _ _ _).
  destruct (shr_fexp _ _ _ _ _) as [r ?]. destruct (shr_m r); [done| |done]. by destruct (_ <=? _).
Qed.

Lemma normalize_opp m e sz b :
  binary_normalize prec emax (- m) e sz <=?. b = (SFopp b <=?. binary_normalize prec emax m e sz).
Proof.
  rewrite <- (SFleb_opp (binary_normalize prec emax m e sz)).
  assert (SFopp (SFopp b) = b) as -> by (destruct b as [[]|[]| |[]]; done).
  destruct m as [|m|m]; cbn [binary_normalize Z.opp].
  - by destruct b as [[]|[]| |[]].
  - change (- Zpos m) with (Zneg m). cbn [binary_normalize]. by rewrite binary_round_opp.
  - change (- Zneg m) with (Zpos m). cbn [binary_normalize]. rewrite binary_round_opp. by destruct (binary_round prec emax false m e) as [[]|[]| |[]].
Qed.

Lemma normalize_ge m e sz b : emin ≤ e → isfinite b = true → valid b = true →
  grid b ≤ m * 2 ^ (e - emin) → b <=?. binary_normalize prec emax m e sz = true.
Proof.
  intros He Fb Vb H. assert (SFopp (SFopp b) = b) as E by (destruct b as [[]|[]| |[]]; done).
  rewrite <- E, <- normalize_opp. destruct (SFopp_finite b).
  apply normalize_le; [done|congruence..|]. rewrite grid_opp. lia.
Qed.

(** ** Sums and differences *)

Lemma SFadd_side x y b : isfinite x = true → isfinite y = true → isfinite b = true →
  valid x = true → valid y = true → valid b = true →
  (grid x + grid y ≤ grid b → SFadd prec emax x y <=?. b = true) ∧
  (grid b ≤ grid x + grid y → b <=?. SFadd prec emax x y = true).
Proof.
  intros Fx Fy Fb Vx Vy Vb.
  destruct x as [sx| | |sx mx ex], y as [sy| | |sy my ey]; try discriminate.
  - destruct sx, sy; (split; intros H; apply grid_leb; [done..|]); cbn in *; lia.
  - cbn [SFadd]. split; intros H; (apply grid_leb; [done..|]); cbn [Rounding.grid] in *; lia.
  - cbn [SFadd]. split; intros H; (apply grid_leb; [done..|]); cbn [Rounding.grid] in *; lia.
  - pose proof (valid_exp prec emax _ _ _ Vx) as [Hx _]. pose proof (valid_exp prec emax _ _ _ Vy) as [Hy _].
    cbn [SFadd]. set (ez := Z.min ex ey). rewrite !shl_align_fst by lia.
    set (z := cond_Zopp sx (Zpos mx * 2 ^ (ex - ez)) + cond_Zopp sy (Zpos my * 2 ^ (ey - ez))).
    assert (grid (S754_finite sx mx ex) + grid (S754_finite sy my ey) = z * 2 ^ (ez - emin)) as ->.
    { unfold z. cbn [Rounding.grid].
      replace (ex - emin) with ((ex - ez) + (ez - emin)) by lia.
      replace (ey - emin) with ((ey - ez) + (ez - emin)) by lia.
      rewrite !Z.pow_add_r by lia. destruct sx, sy; cbn [cond_Zopp]; lia. }
    split; intros H; [apply normalize_le|apply normalize_ge]; done || lia.
Qed.

Lemma SFsub_opp x y : isfinite x = true → isfinite y = true → SFsub prec emax x y = SFadd prec emax x (SFopp y).
Proof.
  destruct x as [[]| | |sx mx ex], y as [[]| | |sy my ey]; try done. intros _ _. cbn.
  f_equal. destruct sx, sy; cbn; lia.
Qed.

Lemma grid_nonneg w : S754_zero false <=?. w = true → 0 ≤ grid w.
Proof. destruct w as [|[]| |[] m e]; cbn; try done. intros _. lia. Qed.

(** Adding a nonnegative value does not decrease, subtracting one does not increase. *)
Lemma SFadd_ge x w : isfinite x = true → isfinite w = true → valid x = true → valid w = true →
  S754_zero false <=?. w = true → x <=?. SFadd prec emax x w = true.
Proof.
  intros Fx Fw Vx Vw H%grid_nonneg. apply SFadd_side; done || lia.
Qed.

Lemma SFsub_le x w : isfinite x = true → isfinite w = true → valid x = true → valid w = true →
  S754_zero false <=?. w = true → SFsub prec emax x w <=?. x = true.
Proof.
  intros Fx Fw Vx Vw H%grid_nonneg. rewrite SFsub_opp by done. destruct (SFopp_finite w).
  apply SFadd_side; try (done || congruence). rewrite grid_opp. lia.
Qed.
End above.

(** ** Signs *)

Section signs.
Context (prec emax : Z).

(** A numeric value of sign [s]. *)
Definition signed (s : bool) (x : spec_float) : Prop :=
  match x with
  | S754_zero s' | S754_infinity s' | S754_finite s' _ _ => s' = s
  | S754_nan => False
  end.

Lemma shr_nonneg m l e n : 0 ≤ m → 0 ≤ shr_m (fst (shr (shr_record_of_loc m l) e n)).
Proof.
  intros Hm. destruct (Z.le_gt_cases 0 n) as [Hn|Hn].
  - destruct (shr_spec m l e n Hm Hn) as (r & -> & Hq & _).
    cbn [fst]. rewrite Hq. apply Z.div_pos; [done|]. lia.
  - destruct n as [|n|n]; [lia..|]. cbn. destruct l as [|[]]; done.
Qed.

Lemma round_nonneg m l : 0 ≤ m → 0 ≤ round_nearest_even m l.
Proof. intros. destruct l as [|[]]; cbn; try destruct (Z.even m); lia. Qed.

(** Rounding keeps the sign: nothing but an invalid operation makes a NaN. *)
Lemma binary_round_aux_sign s m e l : 0 ≤ m → signed s (binary_round_aux prec emax s m e l).
Proof.
  intros Hm. unfold binary_round_aux, shr_fexp.
  pose proof (shr_nonneg m l e (fexp prec emax (Zdigits2 m + e) - e) Hm) as H1.
  destruct (shr _ _ _) as [r1 e1]. cbn [fst] in H1.
  pose proof (round_nonneg _ (loc_of_shr_record r1) H1) as H2.
  pose proof (shr_nonneg _ loc_Exact e1
    (fexp prec emax (Zdigits2 (round_nearest_even (shr_m r1) (loc_of_shr_record r1)) + e1) - e1) H2) as H3.
  destruct (shr _ _ _) as [r2 e2]. cbn [fst] in H3.
  destruct (shr_m r2); [done| |lia]. by destruct (_ <=? _).
Qed.

Lemma binary_round_sign s m e : signed s (binary_round prec emax s m e).
Proof. unfold binary_round. destruct (shl_align _ _ _). by apply binary_round_aux_sign. Qed.

Lemma SFdiv_core_nonneg mx ex my ey : 0 ≤ fst (fst (SFdiv_core_binary prec emax (Zpos mx) ex (Zpos my) ey)).
Proof.
  unfold SFdiv_core_binary. set (m' := match _ with Z.pos _ => _ | 0 => _ | Z.neg _ => _ end).
  assert (0 ≤ m').
  { subst m'. destruct (_ - _ - _); [lia| |lia]. apply Z.shiftl_nonneg. lia. }
  pose proof (Z.div_eucl_eq m' (Zpos my) ltac:(lia)) as E.
  pose proof (Z.mod_pos_bound m' (Zpos my) ltac:(lia)) as B. unfold Z.modulo in B.
  destruct (Z.div_eucl m' (Zpos my)) as [q r]. cbn. nia.
Qed.

Lemma SFmul_sign sx x sy y : signed sx x → signed sy y → isfinite x = true → isfinite y = true →
  signed (xorb sx sy) (SFmul prec emax x y).
Proof.
  destruct x, y; cbn [signed]; try done; intros -> -> _ _; cbn [SFmul signed]; try done.
  by apply binary_round_aux_sign.
Qed.

Lemma SFdiv_sign sx x m e : signed sx x → signed sx (SFdiv prec emax x (S754_finite false m e)).
Proof.
  destruct x; cbn [signed]; try done; intros ->; cbn [SFdiv]; try by destruct sx.
  pose proof (SFdiv_core_nonneg m0 e0 m e) as H.
  destruct (SFdiv_core_binary _ _ _ _ _ _) as [[q e'] l]. rewrite xorb_false_r.
  by apply binary_round_aux_sign.
Qed.

Lemma convert_sign s x : signed s x → signed s (convert prec emax x).
Proof. destruct x; cbn [signed]; try done. intros ->. cbn [convert]. apply binary_round_sign. Qed.
End signs.

Lemma signed_nonneg x : signed false x → f0 <=?. x = true.
Proof. by destruct x as [[]|[]| |[]]. Qed.

Lemma SFmul_nonneg prec emax x y : f0 <=?. x = true → f0 <=?. y = true →
  isfinite x = true → isfinite y = true → f0 <=?. SFmul prec emax x y = true.
Proof.
  intros Hx Hy Fx Fy.
  destruct x as [| | |[] mx ex], y as [| | |[] my ey]; try done.
  by apply signed_nonneg, (SFmul_sign prec emax false _ false).
Qed.

Lemma SFdiv_nonneg prec emax x m e : f0 <=?. x = true → f0 <=?. SFdiv prec emax x (S754_finite false m e) = true.
Proof.
  intros Hx. destruct x as [|[]| |[] mx ex]; try done.
  by apply signed_nonneg, (SFdiv_sign prec emax false).
Qed.

Lemma convert_nonneg prec emax x : f0 <=?. x = true → f0 <=?. convert prec emax x = true.
Proof.
  intros Hx. destruct x as [|[]| |[] mx ex]; try done. by apply signed_nonneg, convert_sign.
Qed.

(** ** Conversions *)

(** A positive value between two numbers of the target format stays between them. *)
Definition lies_between (prec emax lo elo hi ehi : Z) (x : spec_float) : Prop :=
  match x with
  | S754_finite false m e =>
      bounded prec emax m e = true ∧ dy_le lo elo (Zpos m) e ∧ dy_le (Zpos m) e hi ehi
  | _ => False
  end.

Lemma convert_between prec emax lo elo hi ehi prec' emax' x : 0 < prec → prec < emax →
  bounded prec emax lo elo = true → bounded prec emax hi ehi = true →
  lies_between prec' emax' (Zpos lo) elo (Zpos hi) ehi x →
  lies_between prec emax (Zpos lo) elo (Zpos hi) ehi (convert prec emax x).
Proof.
  intros Hp He Hlo Hhi. destruct x as [| | |[] m e]; try done. intros (Hb & H1 & H2). cbn [convert].
  pose proof (binary_round_below prec emax Hp He false m e hi ehi Hhi H2) as B.
  pose proof (binary_round_above prec emax Hp He false m e lo elo Hlo H1) as A.
  destruct (binary_round _ _ _ _ _) as [| | |[] m' e']; cbn in *; intuition congruence.
Qed.

(** A wider format takes every value of the narrower one. *)
Lemma to_f64_valid x : valid_binary prec32 emax32 x = true →
  valid_binary prec64 emax64 (to_f64 x) = true ∧ isfinite (to_f64 x) = isfinite x.
Proof.
  destruct x as [| | |s m e]; try done. intros Hv. cbn [to_f64 convert].
  pose proof (valid_exp prec32 emax32 s m e Hv) as [_ Hf].
  apply (bounded_spec prec32 emax32) in Hv as [_ He].
  assert (dy_le (Zpos m) e (Zpos 9007198717870080) 75) as Hle.
  { pose proof (Zdigits2_bounds (Zpos m) ltac:(lia)) as [_ B]. unfold fexp, prec32, emax32 in *.
    apply (dy_le_trans _ _ 16777215 104); [|done].
    rewrite (dy_le_scale (Z.min e 0)) by lia.
    assert (2 ^ Zdigits2 (Zpos m) ≤ 2 ^ 24) by (apply Z.pow_le_mono_r; lia).
    assert (2 ^ (e - Z.min e 0) ≤ 2 ^ (104 - Z.min e 0) ∧ 0 < 2 ^ (e - Z.min e 0)) as [? ?]
      by (split; [apply Z.pow_le_mono_r|apply Z.pow_pos_nonneg]; lia).
    change (2 ^ 24) with 16777216 in *. nia. }
  pose proof (binary_round_below prec64 emax64 ltac:(done) ltac:(done) s m e 9007198717870080 75) as B.
  specialize (B eq_refl Hle).
  destruct (binary_round _ _ _ _ _); cbn [result_below valid_binary isfinite] in *; try done.
  by destruct B as (_ & ? & _).
Qed.
