(* ===== verification/Monotone.v ===== *)
(** * Rounding is monotone

    [Rounding] and [SumBounds] compare a rounded result with representable numbers.
    Two exact values between the same neighbours need more: rounding to nearest is
    monotone, so sums, differences and products of ordered numbers are ordered. *)

From S2P Require Import Prelude.
From S2P Require Import FloatSpec.
From S2P Require Import Rounding.
From S2P Require Import SumBounds.

(** ** The nearest integer *)

(** [m / 2^n] lies above the middle of its interval, and not on a multiple of half. *)
Definition halves (m n : Z) (r : shr_record) : Prop :=
  shr_m r = m / 2 ^ n ∧ shr_r r = (2 ^ n <=? 2 * (m mod 2 ^ n)) ∧
  shr_s r = negb ((2 * (m mod 2 ^ n)) mod 2 ^ n =? 0).

Lemma shr_1_halves m n r : 0 ≤ m → 0 ≤ n → halves m n r → halves m (n + 1) (shr_1 r).
Proof.
  intros Hm Hn (E1 & E2 & E3). assert (0 < 2 ^ n) by lia.
  set (t := m mod 2 ^ n) in *. pose proof (Z.mod_pos_bound m (2 ^ n) ltac:(lia)) as Ht. fold t in Ht.
  assert (0 ≤ m / 2 ^ n) as Hq by (apply Z.div_pos; lia).
  pose proof (Z.mod_pos_bound (m / 2 ^ n) 2 ltac:(lia)) as Hodd.
  assert (shr_m (shr_1 r) = shr_m r / 2 ∧ shr_r (shr_1 r) = (shr_m r mod 2 =? 1) ∧
          shr_s (shr_1 r) = shr_r r || shr_s r) as (F1 & F2 & F3).
  { destruct r as [[|[p|p|]|p] b s]; cbn [shr_m shr_r shr_s shr_1] in *; try lia; split_and!; try done.
    - rewrite Pos2Z.inj_xI. Z.div_mod_to_equations; lia.
    - rewrite Pos2Z.inj_xI. symmetry. apply Z.eqb_eq. Z.div_mod_to_equations; lia.
    - rewrite Pos2Z.inj_xO. Z.div_mod_to_equations; lia.
    - rewrite Pos2Z.inj_xO. symmetry. apply Z.eqb_neq. Z.div_mod_to_equations; lia. }
  assert (m mod 2 ^ (n + 1) = t + 2 ^ n * ((m / 2 ^ n) mod 2)) as Et.
  { rewrite Z.pow_add_r by lia. by rewrite Z.rem_mul_r by lia. }
  unfold halves. rewrite F1, F2, F3, E1, E2, E3, Et, Z.pow_add_r by lia. change (2 ^ 1) with 2.
  split_and!.
  - by rewrite Z.div_div by lia.
  - apply eq_true_iff_eq. rewrite Z.eqb_eq, Z.leb_le. nia.
  - set (b := (m / 2 ^ n) mod 2) in *.
    assert ((2 * (t + 2 ^ n * b)) mod (2 ^ n * 2) = 2 * t) as ->.
    { symmetry. apply Z.mod_unique with b; [lia|]. lia. }
    apply eq_true_iff_eq. rewrite orb_true_iff, Z.leb_le, !negb_true_iff, !Z.eqb_neq.
    assert (2 * t < 2 ^ n → (2 * t) mod 2 ^ n = 2 * t) by (intros; apply Z.mod_small; lia). lia.
Qed.

Lemma iter_shr_halves m p : ∀ r n, 0 ≤ m → 0 ≤ n →
  halves m n r → halves m (n + Zpos p) (SpecFloat.iter_pos shr_1 p r).
Proof.
  induction p as [p IH|p IH|]; intros r n Hm Hn H; cbn [iter_pos].
  - replace (n + Zpos p~1) with (((n + 1) + Zpos p) + Zpos p) by lia.
    apply IH; [done|lia|]. apply IH; [done|lia|]. by apply shr_1_halves.
  - replace (n + Zpos p~0) with ((n + Zpos p) + Zpos p) by lia.
    apply IH; [done|lia|]. by apply IH.
  - by apply shr_1_halves.
Qed.

Lemma shr_halves m e n : 0 ≤ m → 0 ≤ n →
  ∃ r, shr (shr_record_of_loc m loc_Exact) e n = (r, e + n) ∧ halves m n r.
Proof.
  intros Hm Hn. assert (halves m 0 (shr_record_of_loc m loc_Exact)) as H0.
  { unfold halves. change (2 ^ 0) with 1. by rewrite Z.div_1_r, Z.mod_1_r. }
  destruct n as [|p|]; [| |lia]; cbn [shr].
  - eexists. by rewrite Z.add_0_r.
  - eexists. split; [done|]. by apply (iter_shr_halves m p _ 0).
Qed.

(** [q] is the integer nearest to [m / 2^n]; the even one in the middle. *)
Definition nearest (m n q : Z) : Prop :=
  2 * Z.abs (q * 2 ^ n - m) ≤ 2 ^ n ∧ (2 * Z.abs (q * 2 ^ n - m) = 2 ^ n → Z.even q = true).

Lemma halves_nearest m n r : 0 ≤ m → 0 ≤ n → halves m n r →
  nearest m n (round_nearest_even (shr_m r) (loc_of_shr_record r)).
Proof.
  intros Hm Hn (E1 & E2 & E3). assert (0 < 2 ^ n) by lia.
  pose proof (Z.mod_pos_bound m (2 ^ n) ltac:(lia)) as Ht.
  pose proof (Z.div_mod m (2 ^ n) ltac:(lia)) as Em. rewrite <- E1 in Em.
  set (t := m mod 2 ^ n) in *. unfold nearest. destruct r as [q b s]. cbn [shr_m shr_r shr_s] in *. clear E1.
  symmetry in E2, E3.
  assert (2 * t < 2 ^ n → (2 * t) mod 2 ^ n = 2 * t) as M1 by (intros; apply Z.mod_small; lia).
  assert (2 ^ n ≤ 2 * t → (2 * t) mod 2 ^ n = 2 * t - 2 ^ n) as M2.
  { intros. symmetry. apply Z.mod_unique with 1; lia. }
  destruct b, s; cbn [loc_of_shr_record round_nearest_even];
    rewrite ?Z.leb_le, ?Z.leb_gt, ?negb_true_iff, ?negb_false_iff, ?Z.eqb_eq, ?Z.eqb_neq in *.
  - split; nia.
  - destruct (Z.even q) eqn:Eq; [split; [nia|done]|]. split; [nia|]. intros _.
    rewrite Z.even_add, Eq. done.
  - split; nia.
  - split; nia.
Qed.

(** The nearest integers of ordered values are ordered. *)
Lemma nearest_mono m n q m' n' q' e e' : 0 ≤ n → 0 ≤ n' → e + n = e' + n' → dy_le m e m' e' →
  nearest m n q → nearest m' n' q' → q ≤ q'.
Proof.
  intros Hn Hn' He Hle [N1 N2] [N1' N2']. destruct (Z.le_gt_cases q q') as [|Hgt]; [done|exfalso].
  set (k := Z.min e e'). rewrite (dy_le_scale k) in Hle by lia.
  set (u := 2 ^ (e - k)) in *. set (u' := 2 ^ (e' - k)) in *.
  assert (0 < u) by (apply Z.pow_pos_nonneg; lia). assert (0 < u') by (apply Z.pow_pos_nonneg; lia).
  assert (2 ^ n * u = 2 ^ n' * u') as Ew by (unfold u, u'; rewrite <- !Z.pow_add_r by lia; f_equal; lia).
  assert (0 < 2 ^ n) by lia. assert (0 < 2 ^ n') by lia.
  set (w := 2 ^ n) in *. set (w' := 2 ^ n') in *. clearbody w w' u u'.
  assert (2 * (q * w - m) ≤ w) as A by lia. assert (2 * (m' - q' * w') ≤ w') as A' by lia.
  assert ((q' + 1) * (w * u) ≤ q * (w * u)) as Hq by (apply Z.mul_le_mono_nonneg_r; nia).
  assert (2 * (q * w - m) * u ≤ w * u) as B by (apply Z.mul_le_mono_nonneg_r; lia).
  assert (2 * (m' - q' * w') * u' ≤ w' * u') as B' by (apply Z.mul_le_mono_nonneg_r; lia).
  assert (q' * (w * u) = q' * (w' * u')) as Ew' by (by rewrite Ew).
  assert (m * u = m' * u') as Em by lia.
  assert (q * (w * u) = (q' + 1) * (w * u)) as Eq by lia.
  apply Z.mul_reg_r in Eq as ->; [|nia].
  assert (2 * ((q' + 1) * w - m) * u = w * u) as C by lia. apply Z.mul_reg_r in C; [|lia].
  assert (2 * (m' - q' * w') * u' = w' * u') as C' by lia. apply Z.mul_reg_r in C'; [|lia].
  specialize (N2 ltac:(lia)). specialize (N2' ltac:(lia)). rewrite Z.even_add, N2' in N2. done.
Qed.

Section monotone.
Context (prec emax : Z) (Hprec : 0 < prec) (Hemax : prec < emax).
Local Abbreviation fexp := (fexp prec emax).
Local Abbreviation emin := (emin prec emax).
Local Abbreviation valid := (valid_binary prec emax).
Local Abbreviation grid := (grid prec emax).

(** What rounds to [q * 2^f]. *)
Definition rounds_to (q f : Z) (x : spec_float) : Prop :=
  match x with
  | S754_zero s => s = false ∧ q = 0
  | S754_infinity s => s = false ∧ 2 ^ (emax - emin) ≤ q * 2 ^ (f - emin)
  | S754_finite s p ep => s = false ∧ bounded prec emax p ep = true ∧
      Zpos p * 2 ^ (ep - emin) = q * 2 ^ (f - emin)
  | S754_nan => False
  end.

Lemma fexp_emin k : emin ≤ fexp k.
Proof. unfold SpecFloat.fexp. lia. Qed.

Lemma aux_value m e : 0 < m → e ≤ fexp (Zdigits2 m + e) →
  let f := fexp (Zdigits2 m + e) in
  ∃ q, nearest m (f - e) q ∧ rounds_to q f (binary_round_aux prec emax false m e loc_Exact) ∧
       (let k := Z.max (Zdigits2 m - (f - e)) 0 in 0 ≤ q ≤ 2 ^ k ∧ (0 < q → 2 ^ (k - 1) ≤ q)).
Proof.
  intros Hm He f. unfold binary_round_aux, shr_fexp. fold f. set (n := f - e).
  destruct (shr_halves m e n ltac:(lia) ltac:(lia)) as (r & -> & Hr).
  destruct (shr_spec m loc_Exact e n ltac:(lia) ltac:(lia)) as (r' & Er' & Hr').
  assert (r' = r) as ->.
  { destruct (shr_halves m e n ltac:(lia) ltac:(lia)) as (r2 & E2 & H2).
    assert (r2 = r') as -> by congruence. destruct Hr as (A1 & A2 & A3), H2 as (B1 & B2 & B3).
    destruct r, r'. cbn in *. congruence. }
  set (q := round_nearest_even (shr_m r) (loc_of_shr_record r)).
  pose proof (halves_nearest m n r ltac:(lia) ltac:(lia) Hr) as Hn.
  pose proof (round_size prec emax m e loc_Exact n r q Hm eq_refl ltac:(lia) Hr' eq_refl) as [Hq Hlow].
  exists q. split; [exact Hn|]. split; [|by split].
  replace (e + n) with f by lia. destruct (decide (q = 0)) as [Eq|Hq0].
  { rewrite Eq. cbn [Zdigits2 shr_record_of_loc]. rewrite Z.add_0_l.
    assert (fexp f - f ≤ 0) as Hz by (unfold f, SpecFloat.fexp; lia). unfold shr.
    destruct (fexp f - f) as [|p|p]; [by split|lia|by split]. }
  pose proof (renorm_shift prec emax Hprec m e n q Hm eq_refl ltac:(lia) ltac:(lia) ltac:(lia)) as Hren.
  replace (e + n) with f in Hren by lia. set (n2 := fexp (Zdigits2 q + f) - f).
  destruct (shr_exact_result q f n2 ltac:(lia)) as (r2 & -> & Hp2 & E2 & Ed2).
  { destruct Hren as [E|[E ->]]; [left; lia|right]. split; [lia|].
    replace prec with (prec - 1 + 1) by lia. rewrite Z.pow_add_r by lia. apply Z.mod_mul. lia. }
  destruct (shr_m r2) as [|p|p]; [lia| |lia]. pose proof (fexp_emin (Zdigits2 m + e)) as Hf. fold f in Hf.
  assert (fexp (Zdigits2 (Zpos p) + (f + n2)) = f + n2) as Hcan.
  { replace (Zdigits2 (Zpos p) + (f + n2)) with (Zdigits2 q + f) by lia. lia. }
  assert (0 ≤ n2) as Hn2 by lia.
  assert (Zpos p * 2 ^ (f + n2 - emin) = q * 2 ^ (f - emin)) as Ev.
  { rewrite <- E2. replace (f + n2 - emin) with (n2 + (f - emin)) by lia. rewrite Z.pow_add_r by lia. lia. }
  destruct (Z.leb_spec (f + n2) (emax - prec)) as [Hov|Hov].
  - split_and!; [done| |done]. by apply bounded_spec.
  - split; [done|]. rewrite <- Ev. assert (Zdigits2 (Zpos p) = prec) as Edp by (unfold SpecFloat.fexp, SpecFloat.emin in *; lia).
    pose proof (Zdigits2_bounds (Zpos p) ltac:(lia)) as [Hlo _]. rewrite Edp in Hlo.
    transitivity (2 ^ (prec - 1) * 2 ^ (f + n2 - emin)).
    + rewrite <- Z.pow_add_r by lia. apply Z.pow_le_mono_r; lia.
    + apply Z.mul_le_mono_nonneg_r; lia.
Qed.

(** Rounded values are ordered when what they round to is. *)
Lemma rounds_to_mono q f x q' f' x' : 0 ≤ q → rounds_to q f x → rounds_to q' f' x' →
  q * 2 ^ (f - emin) ≤ q' * 2 ^ (f' - emin) → x <=?. x' = true.
Proof.
  intros Hq Hx Hx' Hle.
  destruct x' as [s'|s'| |s' p' ep']; [| |done|].
  - destruct Hx' as [-> ->]. rewrite Z.mul_0_l in Hle. destruct x as [s|s| |s p ep]; [done| |done|].
    + destruct Hx as [-> Hx]. assert (0 < 2 ^ (emax - emin)) by (apply Z.pow_pos_nonneg; unfold SpecFloat.emin; lia). lia.
    + destruct Hx as (-> & Hv & E). apply (valid_exp prec emax false) in Hv as [? _].
      assert (0 < 2 ^ (ep - emin)) by (apply Z.pow_pos_nonneg; lia). lia.
  - destruct Hx' as [-> _]. destruct x as [|[]| |[] p ep]; try done; by destruct Hx.
  - destruct Hx' as (-> & Hv' & E'). pose proof (valid_exp prec emax false _ _ Hv') as [? _].
    destruct x as [s|s| |s p ep]; [done| |done|].
    + destruct Hx as [-> Hx]. apply bounded_spec in Hv' as [C' O'].
      pose proof (Zdigits2_bounds (Zpos p') ltac:(lia)) as [_ B].
      pose proof (Zdigits2_pos (Zpos p') ltac:(lia)).
      assert (Zdigits2 (Zpos p') ≤ prec) by (unfold SpecFloat.fexp in C'; lia).
      assert (Zpos p' * 2 ^ (ep' - emin) < 2 ^ (Zdigits2 (Zpos p') + (ep' - emin))).
      { rewrite Z.pow_add_r by lia. apply Z.mul_lt_mono_pos_r; [|done]. apply Z.pow_pos_nonneg; lia. }
      assert (2 ^ (Zdigits2 (Zpos p') + (ep' - emin)) ≤ 2 ^ (emax - emin)) by (apply Z.pow_le_mono_r; lia). lia.
    + destruct Hx as (-> & Hv & E). apply (grid_leb prec emax Hprec Hemax); [done..|].
      cbn [Rounding.grid cond_Zopp]. lia.
Qed.

Lemma aux_mono m e m' e' : 0 < m → 0 < m' → e ≤ fexp (Zdigits2 m + e) → e' ≤ fexp (Zdigits2 m' + e') →
  dy_le m e m' e' →
  binary_round_aux prec emax false m e loc_Exact <=?. binary_round_aux prec emax false m' e' loc_Exact = true.
Proof.
  intros Hm Hm' He He' Hle. destruct (aux_value m e Hm He) as (q & N & R & Hq & Hlow).
  destruct (aux_value m' e' Hm' He') as (q' & N' & R' & Hq' & Hlow').
  eapply rounds_to_mono; [|exact R|exact R'|]; [lia|].
  pose proof (dy_le_digits m e m' e' Hm Hm' Hle) as Hd. pose proof (fexp_mono prec emax _ _ Hd) as Hf.
  pose proof (fexp_emin (Zdigits2 m + e)). pose proof (fexp_emin (Zdigits2 m' + e')).
  set (f := fexp (Zdigits2 m + e)) in *. set (f' := fexp (Zdigits2 m' + e')) in *.
  destruct (decide (f = f')) as [Ef|Hne].
  - rewrite <- Ef in *. apply Z.mul_le_mono_nonneg_r; [apply Z.pow_nonneg; lia|].
    eapply nearest_mono; [| | |exact Hle|exact N|exact N']; lia.
  - assert (Zdigits2 m' - (f' - e') = prec) as Ep by (unfold f', SpecFloat.fexp in *; lia).
    assert (0 < q') as Hq0.
    { destruct (decide (q' = 0)) as [->|]; [|lia]. exfalso. destruct N' as [N' _].
      pose proof (Zdigits2_bounds m' Hm') as [Hlo _]. rewrite Z.mul_0_l in N'.
      assert (2 ^ (f' - e') ≤ 2 ^ (Zdigits2 m' - 1)) by (apply Z.pow_le_mono_r; lia).
      assert (0 < 2 ^ (Zdigits2 m' - 1)) by (apply Z.pow_pos_nonneg; lia). lia. }
    specialize (Hlow' Hq0). rewrite Z.max_l in Hlow' by lia. rewrite Ep in Hlow'.
    transitivity (2 ^ (Z.max (Zdigits2 m - (f - e)) 0) * 2 ^ (f - emin)).
    { apply Z.mul_le_mono_nonneg_r; [apply Z.pow_nonneg; lia|lia]. }
    transitivity (2 ^ (prec - 1) * 2 ^ (f' - emin)).
    { rewrite <- !Z.pow_add_r by lia. apply Z.pow_le_mono_r; [lia|]. unfold f, SpecFloat.fexp in *. lia. }
    apply Z.mul_le_mono_nonneg_r; [apply Z.pow_nonneg; lia|lia].
Qed.

Lemma round_mono m e m' e' : dy_le (Zpos m) e (Zpos m') e' →
  binary_round prec emax false m e <=?. binary_round prec emax false m' e' = true.
Proof.
  assert (∀ m e, ∃ p ep, binary_round prec emax false m e = binary_round_aux prec emax false (Zpos p) ep loc_Exact ∧
    ep ≤ fexp (Zdigits2 (Zpos p) + ep) ∧ dy_le (Zpos p) ep (Zpos m) e ∧ dy_le (Zpos m) e (Zpos p) ep) as Haux.
  { clear m e. intros m e. unfold binary_round. set (f := fexp (Z.pos (digits2_pos m) + e)).
    pose proof (shl_align_spec m e f) as H. destruct (shl_align m e f) as [p ep]. destruct H as [-> Hp].
    assert (dy_le (Zpos p) (Z.min e f) (Zpos m) e ∧ dy_le (Zpos m) e (Zpos p) (Z.min e f)) as [S1 S2].
    { rewrite !(dy_le_scale (Z.min e f)) by lia. rewrite Z.sub_diag. lia. }
    exists p, (Z.min e f). split_and!; [done| |done..].
    change (Z.pos (digits2_pos m)) with (Zdigits2 (Zpos m)) in f.
    assert (Zdigits2 (Zpos p) + Z.min e f = Zdigits2 (Zpos m) + e) as ->; [|fold f; lia].
    apply Z.le_antisymm; apply dy_le_digits; try lia; done. }
  intros Hle. destruct (Haux m e) as (p & ep & -> & He & S1 & S2).
  destruct (Haux m' e') as (p' & ep' & -> & He' & S1' & S2').
  apply aux_mono; [lia|lia|done..|]. eapply dy_le_trans; [exact S1|]. eapply dy_le_trans; [exact Hle|exact S2'].
Qed.

Lemma normalize_mono m e m' e' sz sz' : emin ≤ e → emin ≤ e' →
  m * 2 ^ (e - emin) ≤ m' * 2 ^ (e' - emin) →
  binary_normalize prec emax m e sz <=?. binary_normalize prec emax m' e' sz' = true.
Proof.
  intros He He' Hle. assert (0 < 2 ^ (e - emin)) by (apply Z.pow_pos_nonneg; lia).
  assert (0 < 2 ^ (e' - emin)) by (apply Z.pow_pos_nonneg; lia).
  destruct m as [|m|m].
  - apply (normalize_ge prec emax Hprec Hemax); [done..|]. rewrite Z.mul_0_l in Hle. exact Hle.
  - destruct m' as [|m'|m']; [nia| |nia]. apply round_mono. by apply (dy_le_scale emin).
  - destruct m' as [|m'|m'].
    + apply (normalize_le prec emax Hprec Hemax); [done..|]. rewrite Z.mul_0_l in Hle. exact Hle.
    + cbn [binary_normalize].
      pose proof (binary_round_sign prec emax true m e) as S1. pose proof (binary_round_sign prec emax false m' e') as S2.
      destruct (binary_round prec emax true m e), (binary_round prec emax false m' e'); cbn in S1, S2; by subst.
    + cbn [binary_normalize]. rewrite !(binary_round_opp prec emax), SFleb_opp. apply round_mono.
      apply (dy_le_scale emin); [lia..|]. lia.
Qed.

Local Abbreviation finite x := (isfinite x = true ∧ valid x = true).

Lemma SFadd_value x y : finite x → finite y → x ≠ S754_zero true → x ≠ S754_zero false →
  y ≠ S754_zero true → y ≠ S754_zero false →
  ∃ z e, emin ≤ e ∧ SFadd prec emax x y = binary_normalize prec emax z e false ∧
         z * 2 ^ (e - emin) = grid x + grid y.
Proof.
  intros [Fx Vx] [Fy Vy] ????.
  destruct x as [[]| | |sx mx ex], y as [[]| | |sy my ey]; try done.
  pose proof (valid_exp prec emax _ _ _ Vx) as [Hx _]. pose proof (valid_exp prec emax _ _ _ Vy) as [Hy _].
  cbn [SFadd]. set (ez := Z.min ex ey). rewrite !shl_align_fst by lia. do 2 eexists.
  split; [|split; [reflexivity|]]; [lia|]. cbn [Rounding.grid].
  replace (ex - emin) with ((ex - ez) + (ez - emin)) by lia.
  replace (ey - emin) with ((ey - ez) + (ez - emin)) by lia.
  rewrite !Z.pow_add_r by lia. destruct sx, sy; cbn [cond_Zopp]; lia.
Qed.

(** ** Ordered operands, ordered results *)

Lemma SFadd_mono x x' y : finite x → finite x' → finite y → x <=?. x' = true →
  SFadd prec emax x y <=?. SFadd prec emax x' y = true.
Proof.
  intros Hx Hx' Hy Hle. destruct Hx as [Fx Vx], Hx' as [Fx' Vx'], Hy as [Fy Vy].
  pose proof (grid_le prec emax Hprec Hemax x x' Fx Fx' Vx Vx' Hle) as Hg.
  assert (∀ z, isfinite z = true → (z ≠ S754_zero true ∧ z ≠ S754_zero false) ∨ grid z = 0 ∧ ∃ s, z = S754_zero s) as Hz.
  { intros [s| | |s m e] Fz; try done; [right; eauto|by left]. }
  destruct (Hz y Fy) as [[Y1 Y2]|[Y [s ->]]].
  - destruct (Hz x Fx) as [[X1 X2]|[X [s ->]]].
    + destruct (Hz x' Fx') as [[X1' X2']|[X' [s' ->]]].
      * destruct (SFadd_value x y) as (z & e & He & -> & Ez); [done..|].
        destruct (SFadd_value x' y) as (z' & e' & He' & -> & Ez'); [done..|].
        apply normalize_mono; [done..|]. lia.
      * assert (SFadd prec emax (S754_zero s') y = y) as -> by by destruct y as [[]| | |].
        apply (SFadd_side prec emax Hprec Hemax); done || lia.
    + assert (SFadd prec emax (S754_zero s) y = y) as -> by by destruct y as [[]| | |].
      apply (SFadd_side prec emax Hprec Hemax); done || lia.
  - assert (∀ z, isfinite z = true → valid z = true → ∃ z', SFadd prec emax z (S754_zero s) = z' ∧ grid z' = grid z ∧ finite z') as Hid.
    { intros [[]| | |sz mz ez] Fz Vz; destruct s; try done; cbn [SFadd]; eauto. }
    destruct (Hid x Fx Vx) as (z & -> & E & ? & ?), (Hid x' Fx' Vx') as (z' & -> & E' & ? & ?).
    apply (grid_leb prec emax Hprec Hemax); [done..|lia].
Qed.

Lemma finite_opp x : finite x → finite (SFopp x).
Proof. intros []. destruct (SFopp_finite prec emax x). split; congruence. Qed.

Lemma SFsub_mono x x' y : finite x → finite x' → finite y → x <=?. x' = true →
  SFsub prec emax x y <=?. SFsub prec emax x' y = true.
Proof.
  intros Hx Hx' Hy Hle. rewrite !(SFsub_opp prec emax) by (apply Hx || apply Hx' || apply Hy).
  apply SFadd_mono; auto using finite_opp.
Qed.

Lemma SFadd_comm x y : isfinite x = true → isfinite y = true → SFadd prec emax x y = SFadd prec emax y x.
Proof.
  destruct x as [[]| | |sx mx ex], y as [[]| | |sy my ey]; try done. intros _ _. cbn [SFadd].
  rewrite (Z.min_comm ey ex). f_equal. apply Z.add_comm.
Qed.

Lemma SFsub_antitone x y y' : finite x → finite y → finite y' → y <=?. y' = true →
  SFsub prec emax x y' <=?. SFsub prec emax x y = true.
Proof.
  intros Hx Hy Hy' Hle. rewrite !(SFsub_opp prec emax) by (apply Hx || apply Hy || apply Hy').
  pose proof (finite_opp y Hy) as Hn. pose proof (finite_opp y' Hy') as Hn'.
  rewrite (SFadd_comm x (SFopp y')), (SFadd_comm x (SFopp y)) by (apply Hx || apply Hn || apply Hn').
  apply SFadd_mono; [done..|]. by rewrite SFleb_opp.
Qed.

(** Products: the factors' digits suffice for an exact first step. *)
Lemma mul_exponent mx ex my ey : emin ≤ 0 → bounded prec emax mx ex = true → bounded prec emax my ey = true →
  ex + ey ≤ fexp (Zdigits2 (Zpos (mx * my)) + (ex + ey)).
Proof.
  intros H0 [Hx _]%bounded_spec [Hy _]%bounded_spec.
  pose proof (Zdigits2_bounds (Zpos mx) ltac:(lia)) as [B1 _].
  pose proof (Zdigits2_bounds (Zpos my) ltac:(lia)) as [B2 _].
  pose proof (Zdigits2_bounds (Zpos (mx * my)) ltac:(lia)) as [_ B3].
  pose proof (Zdigits2_pos (Zpos mx) ltac:(lia)). pose proof (Zdigits2_pos (Zpos my) ltac:(lia)).
  assert (2 ^ (Zdigits2 (Zpos mx) - 1 + (Zdigits2 (Zpos my) - 1)) < 2 ^ Zdigits2 (Zpos (mx * my))) as Hlt.
  { rewrite Z.pow_add_r by lia. rewrite Pos2Z.inj_mul in *. nia. }
  apply Z.pow_lt_mono_r_iff in Hlt; [|lia|apply Z.lt_le_incl, Zdigits2_pos; lia].
  unfold SpecFloat.fexp in *. lia.
Qed.

Lemma SFmul_mono x x' y : emin ≤ 0 → finite x → finite x' → finite y →
  f0 <=?. x = true → f0 <=?. y = true → x <=?. x' = true →
  SFmul prec emax x y <=?. SFmul prec emax x' y = true.
Proof.
  intros H0 [Fx Vx] [Fx' Vx'] [Fy Vy] Px Py Hle.
  assert (f0 <=?. x' = true) as Px' by (eapply SFleb_trans; [exact Px|exact Hle]).
  assert (f0 <=?. SFmul prec emax x' y = true) as Hnn by (by apply SFmul_nonneg).
  pose proof (grid_le prec emax Hprec Hemax x x' Fx Fx' Vx Vx' Hle) as Hg.
  destruct x as [sx| | |[] mx ex]; try done.
  { destruct y as [sy| | |[] my ey]; try done; (eapply SFleb_trans; [|exact Hnn]); by destruct sx. }
  destruct x' as [sx'| | |[] mx' ex']; try done; pose proof (valid_exp prec emax _ _ _ Vx) as [Hx _].
  destruct y as [sy| | |[] my ey]; try done. pose proof (valid_exp prec emax _ _ _ Vx') as [Hx' _].
  cbn [SFmul xorb]. apply aux_mono; [done..| | |]; [by apply mul_exponent..|].
  cbn [Rounding.grid cond_Zopp] in Hg. rewrite (dy_le_scale (emin + ey)) by lia. rewrite !Pos2Z.inj_mul.
  replace (ex + ey - (emin + ey)) with (ex - emin) by lia.
  replace (ex' + ey - (emin + ey)) with (ex' - emin) by lia. nia.
Qed.

(** ** Results are numbers of the format *)

Lemma aux_valid s m e : 0 < m → e ≤ fexp (Zdigits2 m + e) →
  valid (binary_round_aux prec emax s m e loc_Exact) = true.
Proof.
  intros Hm He. assert (valid (binary_round_aux prec emax false m e loc_Exact) = true) as Hv.
  { destruct (aux_value m e Hm He) as (q & _ & R & _).
    destruct (binary_round_aux _ _ _ _ _ _); try done. by destruct R as (_ & ? & _). }
  destruct s; [|done]. revert Hv. unfold binary_round_aux. destruct (shr_fexp _ _ _ _ _).
  destruct (shr_fexp _ _ _ _ _) as [r ?]. destruct (shr_m r); [done| |done]. by destruct (_ <=? _).
Qed.

Lemma normalize_valid m e sz : valid (binary_normalize prec emax m e sz) = true.
Proof.
  assert (∀ s p, valid (binary_round prec emax s p e) = true) as Hr; [|destruct m; [done|apply Hr..]].
  clear m. intros s m. unfold binary_round. set (f := fexp (Z.pos (digits2_pos m) + e)).
  pose proof (shl_align_spec m e f) as H. destruct (shl_align m e f) as [p ep]. destruct H as [-> Hp].
  apply aux_valid; [lia|]. change (Z.pos (digits2_pos m)) with (Zdigits2 (Zpos m)) in f.
  assert (Zdigits2 (Zpos p) + Z.min e f = Zdigits2 (Zpos m) + e) as ->; [|fold f; lia].
  apply Z.le_antisymm; apply dy_le_digits; try lia; rewrite (dy_le_scale (Z.min e f)) by lia; rewrite Z.sub_diag; lia.
Qed.

Lemma SFadd_valid x y : valid x = true → valid y = true → valid (SFadd prec emax x y) = true.
Proof.
  intros Vx Vy. destruct x as [[]|[]| |[] mx ex], y as [[]|[]| |[] my ey]; try done; apply normalize_valid.
Qed.
Lemma SFsub_valid x y : valid x = true → valid y = true → valid (SFsub prec emax x y) = true.
Proof.
  intros Vx Vy. destruct x as [[]|[]| |[] mx ex], y as [[]|[]| |[] my ey]; try done; apply normalize_valid.
Qed.
Lemma SFmul_valid x y : emin ≤ 0 → valid x = true → valid y = true → valid (SFmul prec emax x y) = true.
Proof.
  intros H0 Vx Vy. destruct x as [[]|[]| |[] mx ex], y as [[]|[]| |[] my ey]; try done;
    (apply aux_valid; [done|by apply mul_exponent]).
Qed.
End monotone.

Lemma between_finite lo x hi : isfinite lo = true → isfinite hi = true → lo <=?. x = true → x <=?. hi = true →
  isfinite x = true.
Proof. by destruct lo as [|[]| |[]], x as [|[]| |[]], hi as [|[]| |[]]. Qed.
