(* ===== verification/Control.v ===== *)
(** * Core definitions (include/pi_control.hpp, include/pi_profile.hpp and the
    enumerations of the other headers)

    Return codes, roles, servo and device kinds, the tuning constants, the
    monotonic clock and the part of [Device] that its servos and drivers read. *)

From S2P Require Import Prelude.
From S2P Require Import FloatSpec.

(** ** Enumerations *)

Inductive Role := LEADER | FOLLOWER | ROLE_UNKNOWN.

Inductive ReturnCode :=
  | SUCCESS | FAIL | NOT_SUPPORTED | INVALID_PARAM | NOT_INITIALIZED | NOT_FOUND
  | NO_RESPONSE | BUSY | HARDWARE_FAULT
  | SAFE_MODE | SAFE_MODE_POS_BEHIND | SAFE_MODE_POS_EXCEED | SAFE_MODE_VEL
  | SAFE_MODE_TOR | SAFE_MODE_SIG | SAFE_MODE_TEMPERATURE
  | STALL.

(** The integer each code is cast to. *)
Definition ReturnCode_value (rc : ReturnCode) : Z :=
  match rc with
  | SUCCESS => 0 | FAIL => -1 | NOT_SUPPORTED => -2 | INVALID_PARAM => -3
  | NOT_INITIALIZED => -4 | NOT_FOUND => -5 | NO_RESPONSE => -6 | BUSY => -7
  | HARDWARE_FAULT => -8 | SAFE_MODE => -100 | SAFE_MODE_POS_BEHIND => -101
  | SAFE_MODE_POS_EXCEED => -102 | SAFE_MODE_VEL => -103 | SAFE_MODE_TOR => -104
  | SAFE_MODE_SIG => -105 | SAFE_MODE_TEMPERATURE => -106 | STALL => -200
  end.

#[export] Instance ReturnCode_eq_dec : EqDecision ReturnCode.
Proof. solve_decision. Defined.
#[export] Instance Role_eq_dec : EqDecision Role.
Proof. solve_decision. Defined.

Definition ok (rc : ReturnCode) : bool := bool_decide (rc = SUCCESS).

Lemma ok_spec rc : ok rc = true ↔ rc = SUCCESS.
Proof. apply bool_decide_eq_true. Qed.

Lemma ok_false rc : ok rc = false ↔ rc ≠ SUCCESS.
Proof. apply bool_decide_eq_false. Qed.

(** [if (rc != SUCCESS) return rc]. *)
Definition require {S} (m : St S ReturnCode) (k : St S ReturnCode) : St S ReturnCode :=
  rc ← m; if negb (ok rc) then mret rc else k.

Lemma wp_require {S} (m k : St S ReturnCode) (Q : ReturnCode → S → Prop) s :
  wp m (λ rc s', if ok rc then wp k Q s' else Q rc s') s → wp (require m k) Q s.
Proof.
  intros Hm. unfold require. apply wp_bind. eapply wp_mono; [exact Hm|].
  intros rc s' Hs. cbv beta in Hs. destruct (ok rc); cbn [negb]; exact Hs.
Qed.

Lemma steps_require {S} (R : relation S) `{!PreOrder R} (m k : St S ReturnCode) :
  steps R m → steps R k → steps R (require m k).
Proof. intros Hm Hk. unfold require. steps_go; done. Qed.
#[export] Hint Extern 1 (steps _ (require _ _)) => apply steps_require; [exact _|solve [steps_go]..] : steps.

(** Loops of calls over the elements of a vector.  [each m]: in order, until the
    first that does not succeed.  [each_all m]: all of them, and the first error. *)
Section loops.
Context {S I : Type} (m : I → St S ReturnCode).

Fixpoint each (xs : list I) : St S ReturnCode :=
  match xs with
  | [] => mret SUCCESS
  | i :: xs => rc ← m i; if negb (ok rc) then mret rc else each xs
  end.

Fixpoint each_all (xs : list I) (first_error : ReturnCode) : St S ReturnCode :=
  match xs with
  | [] => mret first_error
  | i :: xs =>
      rc ← m i;
      each_all xs (if negb (ok rc) && ok first_error then rc else first_error)
  end.

Lemma steps_each (R : relation S) `{!PreOrder R} xs : (∀ i, steps R (m i)) → steps R (each xs).
Proof.
  intros Hm. induction xs as [|i xs IH]; cbn [each]; [apply steps_ret; exact _|].
  apply steps_bind; [exact _|auto|intros rc]. destruct (negb _); [apply steps_ret; exact _|done].
Qed.

Lemma steps_each_all (R : relation S) `{!PreOrder R} xs : (∀ i, steps R (m i)) →
  ∀ e, steps R (each_all xs e).
Proof.
  intros Hm. induction xs as [|i xs IH]; intros e; cbn [each_all]; [apply steps_ret; exact _|].
  apply steps_bind; [exact _|auto|intros rc; apply IH].
Qed.
End loops.

(** The same without return codes. *)
Fixpoint each_ {S I : Type} (m : I → St S unit) (xs : list I) : St S unit :=
  match xs with
  | [] => mret tt
  | i :: xs => m i;; each_ m xs
  end.

Lemma steps_each_ {S I} (m : I → St S unit) (R : relation S) `{!PreOrder R} xs :
  (∀ i, steps R (m i)) → steps R (each_ m xs).
Proof.
  intros Hm. induction xs as [|i xs IH]; cbn [each_]; [apply steps_ret; exact _|].
  apply steps_bind; [exact _|auto|intros _; apply IH].
Qed.

(** include/pi_servo.hpp *)
Inductive ServoType :=
  | TYPE_NOT_SUPPORTED | ENCOS_A4310 | ARX_ENCODER | DM_4340 | DM_4310
  | FT_STS3215 | CAN_PASSIVE_ENCODER | CONTROLLER_JOINT.

Definition ServoType_value (t : ServoType) : Z :=
  match t with
  | TYPE_NOT_SUPPORTED => 0 | ENCOS_A4310 => 101 | ARX_ENCODER => 103
  | DM_4340 => 151 | DM_4310 => 152 | FT_STS3215 => 301
  | CAN_PASSIVE_ENCODER => 701 | CONTROLLER_JOINT => 801
  end.

#[export] Instance ServoType_eq_dec : EqDecision ServoType.
Proof. solve_decision. Defined.

#[export] Instance ServoType_value_inj : Inj (=) (=) ServoType_value.
Proof. intros x y. by destruct x, y. Qed.

(** include/pi_device.hpp, include/pi_topic.hpp *)
Inductive DeviceType := DEVICE_UNKNOWN | ARM | EFFECTOR.
Inductive DeviceMode := MODE_INVALID | MODE_NORMAL | MODE_PASSIVE.
Inductive MsgType := MSG_INVALID | JOINT_INFO.
Inductive EmergencyRecoveryState :=
  EMERGENCY_NONE | EMERGENCY_REQUESTED | EMERGENCY_MOVING_SLOW | EMERGENCY_COMPLETED
  | EMERGENCY_TIMED_OUT.
Inductive MoveToReadyCmdState := MTR_IDLE | MTR_REQUESTED | MTR_MOVING | MTR_RESTORE.

#[export] Instance DeviceType_eq_dec : EqDecision DeviceType.
Proof. solve_decision. Defined.
#[export] Instance DeviceMode_eq_dec : EqDecision DeviceMode.
Proof. solve_decision. Defined.
#[export] Instance MsgType_eq_dec : EqDecision MsgType.
Proof. solve_decision. Defined.
#[export] Instance EmergencyRecoveryState_eq_dec : EqDecision EmergencyRecoveryState.
Proof. solve_decision. Defined.
#[export] Instance MoveToReadyCmdState_eq_dec : EqDecision MoveToReadyCmdState.
Proof. solve_decision. Defined.

(** ** Constants

    Double literals of the header; where the code stores one in a [float] the
    using definition converts it. *)

Definition DEFAULT_VDC : f64 := f64_of_Z 24.
Definition MAX_VELOCITY_THRESHOLD : f64 := f64_of_Z 30.
Definition TEMPERATURE_THRESHOLD_CAUTIOUS : f64 := f64_of_Z 60.
Definition TEMPERATURE_THRESHOLD_CRITICAL : f64 := f64_of_Z 90.
Definition TEMPERATURE_THRESHOLD_RANGE : f64 :=
  (TEMPERATURE_THRESHOLD_CRITICAL - TEMPERATURE_THRESHOLD_CAUTIOUS)%f64.
Definition TEMPERATURE_THRESHOLD_FORCE_STOP : f64 := f64_of_Z 93.
Definition MAX_POS_DIFFERENCE_RAD : f64 := lit64 3 10.
Definition DEFAULT_TOLERABLE_POS_DIFFERENCE_RAD : f64 := lit64 2 10.
Definition DEFAULT_VELOCITY_THRESHOLD_RAD_SEC : f64 := lit64 1 10.

Definition READY_MOVE_STUCK_POS_DELTA_RAD : f32 := lit32 1 10000.
Definition READY_MOVE_STUCK_ITER_THRESHOLD : Z := 200.

Definition DM_SERVO_CAN_TIMEOUT_MS : Z := 500.
Definition ENCOS_SERVO_CAN_TIMEOUT_MS : Z := 500.
Definition DM_TIMEOUT_COUNTS_PER_MS : Z := 20.
Definition DM_SERVO_CAN_TIMEOUT_DISARM : Z := 0.
Definition ENCOS_SERVO_CAN_TIMEOUT_DISARM : Z := 0.

Definition CAN_MIT_STALE_FRAME_AGE_NORMAL_MS : Z := 10000.
Definition CAN_MIT_STALE_FRAME_AGE_INITIAL_MS : Z := 2500.
Definition CAN_MIT_STALL_WARN_AGE_MS : Z := 250.

Definition ARX_ENCODER_FEEDBACK_DLC : Z := 2.
Definition ARX_ENCODER_ZERO_RAW : Z := 8192.
Definition ARX_ENCODER_RAD_DIVISOR : f32 := f32_of_Z 4096.
Definition ARX_ENCODER_WARMUP_MAX_RETRY : nat := 50.

(** ** Monotonic time (include/pi_profile.hpp)

    A [steady_clock] time point is a number of nanoseconds; the default
    constructed one is [0]. *)

Definition prof_time_t : Type := Z.
Definition prof_time_zero : prof_time_t := 0.

(** [std::chrono::milliseconds] in nanoseconds. *)
Definition milliseconds (n : Z) : Z := n * 1000000.

(** [duration_cast<milliseconds>] truncates toward zero. *)
Definition get_time_diff (start end_ : prof_time_t) : Z := (end_ - start) `quot` 1000000.

Definition is_zero (value : prof_time_t) : bool := value =? prof_time_zero.

Lemma get_time_diff_mono start t1 t2 : t1 ≤ t2 → get_time_diff start t1 ≤ get_time_diff start t2.
Proof. intros H. unfold get_time_diff. apply Z.quot_le_mono; lia. Qed.

(** ** What servos and drivers read of their [Device] *)

Record Device := mkDevice {
  role_ : Role;
  mode_ : DeviceMode;
  device_type_ : DeviceType;
  msg_type_ : MsgType;
  is_read_only_ : bool;
  is_ready_ : bool;
  enabled_force_feedback_ : bool;
  move_to_ready_cmd_state_ : MoveToReadyCmdState;
  emergency_state_ : EmergencyRecoveryState;
  effector_torque_mode_ : bool;   (* DeviceEffector: control_mode_ == TORQUE *)
  cla_force_feedback : f32;
  cla_safety_feature_off : bool;
  cla_safety_torque_mode : bool;
  servo_ids_ : list Z;            (* the ids get_servo_ids() collects from the joints *)
}.

#[export] Instance eta_Device : Eta Device := λ r, mkDevice
  (role_ r) (mode_ r) (device_type_ r) (msg_type_ r) (is_read_only_ r) (is_ready_ r)
  (enabled_force_feedback_ r) (move_to_ready_cmd_state_ r) (emergency_state_ r)
  (effector_torque_mode_ r) (cla_force_feedback r) (cla_safety_feature_off r)
  (cla_safety_torque_mode r) (servo_ids_ r).

Definition is_in_any_move_to_ready_state (d : Device) : bool :=
  if negb (is_ready_ d) then true
  else if negb (bool_decide (move_to_ready_cmd_state_ d = MTR_IDLE)) then true
  else negb (bool_decide (emergency_state_ d = EMERGENCY_NONE)).

Definition is_force_feedback_enabled (d : Device) : bool :=
  bool_decide (role_ d = LEADER) && enabled_force_feedback_ d && (cla_force_feedback d >=?. f0).

(** [Device::wants_comm_loss_stop] and its override in [DeviceEffector]. *)
Definition Device_wants_comm_loss_stop (d : Device) : bool :=
  negb (bool_decide (role_ d = FOLLOWER)).

Definition DeviceEffector_wants_comm_loss_stop (d : Device) : bool :=
  effector_torque_mode_ d.

Definition wants_comm_loss_stop (d : Device) : bool :=
  match device_type_ d with
  | EFFECTOR => DeviceEffector_wants_comm_loss_stop d
  | _ => Device_wants_comm_loss_stop d
  end.
