(* ===== verification/MathOps.v ===== *)
(** * Value codecs of the CAN buses (src/can/math_ops.cpp)

    Conversions between floats and the unsigned fixed-point fields of MIT-mode
    frames, half precision, and small helpers.  [float_to_uint] is a partial
    function: the cast to [int] is undefined on NaN and out of range. *)

From S2P Require Import Prelude.
From S2P Require Import FloatSpec.
From S2P Require Import Rounding.

(** ** Definitions *)

Definition fmaxf3 (x y z : f32) : f32 :=
  let max_val := x in
  let max_val := if y >?. max_val then y else max_val in
  if z >?. max_val then z else max_val.

Definition fminf3 (x y z : f32) : f32 :=
  let min_val := x in
  let min_val := if y <?. min_val then y else min_val in
  if z <?. min_val then z else min_val.

Definition float_to_uint (x x_min x_max : f32) (bits : Z) : option Z :=
  let max_int := Z.shiftl 1 bits - 1 in
  int_of_float ((f32_of_Z max_int * (x - x_min)) / (x_max - x_min))%f32.

Definition uint_to_float (x_int : Z) (x_min x_max : f32) (bits : Z) : f32 :=
  let max_int := f32_of_Z (Z.shiftl 1 bits - 1) in
  ((f32_of_Z x_int * (x_max - x_min) / max_int) + x_min)%f32.

Definition int_to_float (val : Z) (min_ max_ : f32) (bits : Z) : f32 :=
  let scaled := (f32_of_Z val / f32_of_Z (Z.shiftl 1 bits - 1))%f32 in
  ((min_ - max_) * scaled + max_)%f32.

Definition limit_norm (x y limit : f32) : f32 * f32 :=
  let norm := fsqrt (x * x + y * y)%f32 in
  if norm >?. limit then (((x * limit) / norm)%f32, ((y * limit) / norm)%f32) else (x, y).

(** Half precision, on the bit patterns.  [f32] is a [uint32_t]; the 16-bit
    locals wrap as the code's [int16_t] and [uint16_t] do. *)
Definition float32_to_float16 (f32 : Z) : Z :=
  let sign := u16 (Z.land (Z.shiftr f32 16) 0x8000) in
  let exp := i16 (Z.land (Z.shiftr f32 23) 0xFF - 112) in
  let mantissa := u16 (Z.land (Z.shiftr f32 13) 0x3FF) in
  if exp <=? 0 then
    if exp <? -10 then sign
    else
      let mantissa := u16 (Z.shiftr (Z.lor mantissa 0x400) (1 - exp)) in
      u16 (Z.lor (Z.lor sign (Z.shiftl 0 10)) mantissa)
  else if 31 <=? exp then
    let mantissa := if (exp =? 255) && negb (mantissa =? 0) then 0x200 else 0 in
    u16 (Z.lor (Z.lor sign (Z.shiftl 31 10)) mantissa)
  else u16 (Z.lor (Z.lor sign (Z.shiftl exp 10)) mantissa).

(** The normalisation loop of a subnormal half: the mantissa has ten bits, so
    eleven iterations are enough ([normalize_half_done]). *)
Fixpoint normalize_half (fuel : nat) (mantissa exp : Z) : Z * Z :=
  match fuel with
  | O => (mantissa, exp)
  | S fuel =>
      if Z.land mantissa 0x0400 =? 0
      then normalize_half fuel (u32 (Z.shiftl mantissa 1)) (u32 (exp - 1))
      else (mantissa, exp)
  end.

Definition float16_to_float32 (f16 : Z) : Z :=
  let sign := u32 (Z.shiftl (Z.land f16 0x8000) 16) in
  let exp := Z.shiftr (Z.land f16 0x7C00) 10 in
  let mantissa := Z.land f16 0x03FF in
  if exp =? 0 then
    if mantissa =? 0 then sign
    else
      let '(mantissa, exp) := normalize_half 11 mantissa 1 in
      let mantissa := Z.land mantissa 0x03FF in
      let exp := u32 (exp + (127 - 15 + 1)) in
      u32 (Z.lor (Z.lor sign (Z.shiftl exp 23)) mantissa)
  else if exp =? 0x1F then
    let mantissa := if negb (mantissa =? 0)
                    then u32 (Z.lor (Z.shiftl mantissa 13) 0x7FFFFF) else 0 in
    u32 (Z.lor (Z.lor sign (Z.shiftl 255 23)) mantissa)
  else u32 (Z.lor (Z.lor sign (Z.shiftl (exp + (127 - 15)) 23)) (Z.shiftl mantissa 13)).

(** ** The fixed-point codec stays in its field

    [codec_ok lo hi bits] is the computable condition on a parameter range:
    finite canonical ends, an exact width, and an exact top-of-range product.
    Every compiled servo parameter set meets it. *)

Definition is_f32 (x : f32) : bool := valid_binary prec32 emax32 x.

Definition dy_leb (m e m' e' : Z) : bool :=
  m * 2 ^ (e - Z.min e e') <=? m' * 2 ^ (e' - Z.min e e').

Lemma dy_leb_spec m e m' e' : dy_leb m e m' e' = true ↔ dy_le m e m' e'.
Proof. apply Z.leb_le. Qed.

Definition codec_ok (lo hi : f32) (bits : Z) : bool :=
  is_f32 lo && is_f32 hi && isfinite lo && isfinite hi && (0 <? bits) && (bits <=? 30) &&
  match (hi - lo)%f32, f32_of_Z (Z.shiftl 1 bits - 1) with
  | S754_finite false mD eD, S754_finite false mM eM =>
      bounded prec32 emax32 mD eD && bounded prec32 emax32 mM eM &&
      (grid prec32 emax32 hi - grid prec32 emax32 lo <=?
         Zpos mD * 2 ^ (eD - emin prec32 emax32)) &&
      (emin prec32 emax32 <=? eD) &&
      (prec32 <=? Zdigits2 (Zpos mM)) && dy_leb (Zpos mM) eM (2 ^ bits - 1) 0 &&
      match (S754_finite false mM eM * S754_finite false mD eD)%f32 with
      | S754_finite false mT eT =>
          bounded prec32 emax32 mT eT &&
          dy_leb (Zpos mM * Zpos mD) (eM + eD) (Zpos mT) eT &&
          dy_leb (Zpos mT) eT (Zpos mM * Zpos mD) (eM + eD)
      | _ => false
      end
  | _, _ => false
  end.

Lemma in_range_finite lo hi x : isfinite lo = true → isfinite hi = true →
  in_range lo hi x → isfinite x = true.
Proof.
  intros Hlo Hhi [H1 H2].
  by destruct x as [|[]| |], lo, hi.
Qed.

Lemma grid_range lo hi x : is_f32 lo = true → is_f32 hi = true → is_f32 x = true →
  isfinite lo = true → isfinite hi = true → in_range lo hi x →
  isfinite x = true ∧
  grid prec32 emax32 lo ≤ grid prec32 emax32 x ≤ grid prec32 emax32 hi.
Proof.
  intros Vlo Vhi Vx Flo Fhi Hr. pose proof (in_range_finite _ _ _ Flo Fhi Hr) as Fx.
  destruct Hr as [H1 H2]. split; [done|]. split; apply grid_le; done.
Qed.

(** The generic bound: for a well-chosen range, encoding a value of the range
    is defined and gives a field of [bits] bits. *)
Lemma float_to_uint_in_field lo hi bits x : codec_ok lo hi bits = true →
  is_f32 x = true → in_range lo hi x →
  ∃ n, float_to_uint x lo hi bits = Some n ∧ 0 ≤ n ≤ 2 ^ bits - 1.
Proof.
  unfold codec_ok. rewrite !andb_true_iff.
  intros ((((((Vlo & Vhi) & Flo) & Fhi) & Hb0%Z.ltb_lt) & Hb30%Z.leb_le) & Hok) Vx Hr.
  destruct (grid_range _ _ _ Vlo Vhi Vx Flo Fhi Hr) as (Fx & Hgl & Hgh).
  unfold float_to_uint. destruct (hi - lo)%f32 as [| | |[] mD eD]; try done.
  destruct (f32_of_Z (Z.shiftl 1 bits - 1)) as [| | |[] mM eM]; try done.
  rewrite !andb_true_iff in Hok.
  destruct Hok as ((((((BD & BM) & HD%Z.leb_le) & HeD%Z.leb_le) & Hdig%Z.leb_le) & HM%dy_leb_spec) & Hok).
  destruct (S754_finite false mM eM * S754_finite false mD eD)%f32 as [| | |[] mT eT]; try done.
  rewrite !andb_true_iff in Hok. destruct Hok as ((BT & HT1%dy_leb_spec) & HT2%dy_leb_spec).
  assert (nn_below prec32 emax32 (Zpos mD) eD (x - lo)%f32) as Hd.
  { apply SFsub_nn; try done; [lia|].
    rewrite (dy_le_scale (emin prec32 emax32)) by (done || lia).
    rewrite Z.sub_diag, Z.mul_1_r. lia. }
  assert (nn_below prec32 emax32 (Zpos mT) eT (S754_finite false mM eM * (x - lo))%f32) as Ht.
  { eapply SFmul_nn; try done. }
  assert (nn_below prec32 emax32 (Zpos mM) eM
    ((S754_finite false mM eM * (x - lo)) / S754_finite false mD eD)%f32) as Hq.
  { eapply SFdiv_nn; try done. }
  assert (0 < 2 ^ bits) by lia.
  destruct (SF_trunc_nn _ _ _ _ _ (2 ^ bits - 1) Hq ltac:(lia) HM) as (z & Ez & Hz).
  exists z. split; [|done]. unfold int_of_float. rewrite Ez. cbn.
  assert (2 ^ bits ≤ 2 ^ 30) by (apply Z.pow_le_mono_r; lia).
  assert ((- 2 ^ 31 <=? z) = true) as -> by (apply Z.leb_le; lia).
  assert ((z <? 2 ^ 31) = true) as -> by (apply Z.ltb_lt; lia). done.
Qed.

(** ** Half precision against IEEE-754

    [ieee_decode] is the standard's decoding of an interchange format with [ew]
    exponent and [mw] fraction bits. *)

Inductive ieee_datum :=
  | IeeeZero (s : bool) | IeeeInf (s : bool) | IeeeNan
  | IeeeFinite (s : bool) (m e : Z).      (* (-1)^s * m * 2^e *)

Definition ieee_decode (ew mw b : Z) : ieee_datum :=
  let s := Z.odd (b `div` 2 ^ (ew + mw)) in
  let e := (b `div` 2 ^ mw) `mod` 2 ^ ew in
  let m := b `mod` 2 ^ mw in
  if e =? 2 ^ ew - 1 then (if m =? 0 then IeeeInf s else IeeeNan)
  else if e =? 0 then (if m =? 0 then IeeeZero s else IeeeFinite s m (2 - 2 ^ (ew - 1) - mw))
  else IeeeFinite s (m + 2 ^ mw) (e + 1 - 2 ^ (ew - 1) - mw).

Definition ieee_same (x y : ieee_datum) : Prop :=
  match x, y with
  | IeeeFinite s m e, IeeeFinite s' m' e' => s = s' ∧ dy_le m e m' e' ∧ dy_le m' e' m e
  | _, _ => x = y
  end.

(** The sixteen bits, as sign, exponent field and fraction. *)
Definition half_exponent (h : Z) : Z := (h `div` 2 ^ 10) `mod` 2 ^ 5.
Definition half_fraction (h : Z) : Z := h `mod` 2 ^ 10.
Definition half_sign (h : Z) : Z := h `div` 2 ^ 15.

(** Patterns whose decoding keeps the value: zeros, normal numbers, infinities. *)
Definition half_regular (h : Z) : bool :=
  (half_fraction h =? 0) || ((0 <? half_exponent h) && (half_exponent h <? 31)).

Lemma half_split h : is_unsigned 16 h →
  h = half_sign h * 2 ^ 15 + half_exponent h * 2 ^ 10 + half_fraction h ∧
  0 ≤ half_sign h ≤ 1 ∧ 0 ≤ half_exponent h < 32 ∧ 0 ≤ half_fraction h < 1024.
Proof.
  unfold is_unsigned, half_sign, half_exponent, half_fraction. intros.
  Z.to_euclidean_division_equations. lia.
Qed.

(** Packing a binary32 word, and its three fields. *)
Lemma pack_word s e m : 0 ≤ e < 2 ^ 8 → 0 ≤ m < 2 ^ 23 →
  Z.lor (Z.lor (s * 2 ^ 31) (Z.shiftl e 23)) m = s * 2 ^ 31 + e * 2 ^ 23 + m.
Proof.
  intros He Hm. rewrite <- (Z.shiftl_mul_pow2 s), <- Z.lor_assoc, (lor_add 23 e m) by done.
  rewrite lor_add by (unfold is_unsigned; lia). rewrite Z.shiftl_mul_pow2 by lia. lia.
Qed.

Lemma word_fields s e m : 0 ≤ s ≤ 1 → 0 ≤ e < 2 ^ 8 → 0 ≤ m < 2 ^ 23 →
  let w := s * 2 ^ 31 + e * 2 ^ 23 + m in
  w `div` 2 ^ 31 = s ∧ (w `div` 2 ^ 23) `mod` 2 ^ 8 = e ∧ w `mod` 2 ^ 23 = m.
Proof. intros. subst w. Z.to_euclidean_division_equations. lia. Qed.

Lemma float16_to_float32_regular h : is_unsigned 16 h → half_regular h = true →
  float16_to_float32 h =
    half_sign h * 2 ^ 31 +
    (if half_exponent h =? 0 then 0 else if half_exponent h =? 31 then 255
     else half_exponent h + 112) * 2 ^ 23 + half_fraction h * 2 ^ 13.
Proof.
  intros Hh Hreg. pose proof (half_split h Hh) as (E & Hs & He & Hm).
  unfold half_regular in Hreg. unfold float16_to_float32.
  change 0x8000 with (Z.shiftl (Z.ones 1) 15). change 0x7C00 with (Z.shiftl (Z.ones 5) 10).
  change 0x03FF with (Z.ones 10). rewrite !land_mask, Z.land_ones by lia.
  rewrite Z.shiftr_div_pow2, Z.div_mul by lia.
  change ((h `div` 2 ^ 10) `mod` 2 ^ 5) with (half_exponent h).
  change (h `mod` 2 ^ 10) with (half_fraction h).
  change (h `div` 2 ^ 15) with (half_sign h).
  rewrite (Z.mod_small (half_sign h)) by lia.
  assert (u32 (Z.shiftl (half_sign h * 2 ^ 15) 16) = half_sign h * 2 ^ 31) as ->.
  { rewrite !Z.shiftl_mul_pow2, wrap_small by (unfold is_unsigned; lia). lia. }
  rewrite (Z.shiftl_mul_pow2 (half_fraction h)) by lia.
  destruct (Z.eqb_spec (half_exponent h) 0) as [E0|].
  { destruct (Z.eqb_spec (half_fraction h) 0); [lia|].
    exfalso. rewrite E0 in Hreg. done. }
  change 0x1F with 31. destruct (Z.eqb_spec (half_exponent h) 31) as [E31|].
  { destruct (Z.eqb_spec (half_fraction h) 0) as [->|]; cbn [negb].
    - rewrite pack_word by lia. apply wrap_small. unfold is_unsigned. lia.
    - exfalso. rewrite E31, andb_false_r in Hreg. done. }
  rewrite pack_word by lia. apply wrap_small. unfold is_unsigned. lia.
Qed.

(** Decoding a half that is zero, normal or infinite keeps its value: the
    single-precision word denotes the same IEEE-754 datum. *)
Theorem float16_to_float32_value h : is_unsigned 16 h → half_regular h = true →
  ieee_same (ieee_decode 5 10 h) (ieee_decode 8 23 (float16_to_float32 h)).
Proof.
  intros Hh Hreg. pose proof (half_split h Hh) as (E & Hs & He & Hm).
  rewrite float16_to_float32_regular by done. unfold half_regular in Hreg.
  unfold ieee_decode. change (5 + 10) with 15. change (8 + 23) with 31.
  change ((h `div` 2 ^ 10) `mod` 2 ^ 5) with (half_exponent h).
  change (h `mod` 2 ^ 10) with (half_fraction h).
  change (h `div` 2 ^ 15) with (half_sign h).
  revert Hs He Hm Hreg. generalize (half_sign h), (half_exponent h), (half_fraction h).
  clear. intros s e m Hs He Hm Hreg.
  set (E := if e =? 0 then 0 else if e =? 31 then 255 else e + 112).
  assert (0 ≤ E < 256) as HE by (unfold E; split_ifs; lia).
  destruct (word_fields s E (m * 2 ^ 13)) as (-> & -> & ->); [lia..|].
  unfold E. change (2 ^ 5 - 1) with 31. change (2 ^ 8 - 1) with 255.
  destruct (Z.eqb_spec e 31) as [->|].
  { rewrite andb_false_r, orb_false_r in Hreg. apply Z.eqb_eq in Hreg as ->. done. }
  destruct (Z.eqb_spec e 0) as [->|].
  { rewrite orb_false_r in Hreg. apply Z.eqb_eq in Hreg as ->. done. }
  assert ((e + 112 =? 255) = false) as -> by lia.
  assert ((e + 112 =? 0) = false) as -> by lia.
  cbn [ieee_same]. split; [done|].
  rewrite !(dy_le_scale (e - 38)) by lia.
  replace (e + 1 - 2 ^ (5 - 1) - 10 - (e - 38)) with 13 by lia.
  replace (e + 112 + 1 - 2 ^ (8 - 1) - 23 - (e - 38)) with 0 by lia. lia.
Qed.

Lemma float16_to_float32_value_witness :
  ieee_same (ieee_decode 5 10 0xC248) (ieee_decode 8 23 (float16_to_float32 0xC248)).
Proof. apply float16_to_float32_value; vm_compute; [split; [discriminate | reflexivity] | reflexivity]. Defined.

(** Encoding undoes decoding on the same patterns: no zero, normal or infinite
    half is changed by the way through single precision. *)
Theorem float16_float32_roundtrip h : is_unsigned 16 h → half_regular h = true →
  float32_to_float16 (float16_to_float32 h) = h.
Proof.
  intros Hh Hreg. pose proof (half_split h Hh) as (Eh & Hs & He & Hm).
  rewrite float16_to_float32_regular by done. unfold half_regular in Hreg.
  etrans; [|symmetry; exact Eh]. revert Hs He Hm Hreg. clear Eh Hh.
  generalize (half_sign h), (half_exponent h), (half_fraction h).
  clear. intros s e m Hs He Hm Hreg.
  set (E := if e =? 0 then 0 else if e =? 31 then 255 else e + 112).
  assert (0 ≤ E < 256) as HE by (unfold E; split_ifs; lia).
  set (w := s * 2 ^ 31 + E * 2 ^ 23 + m * 2 ^ 13).
  assert (u16 (Z.land (Z.shiftr w 16) 0x8000) = s * 2 ^ 15) as Es.
  { change 0x8000 with (Z.shiftl (Z.ones 1) 15). rewrite land_mask, Z.shiftr_div_pow2 by lia.
    unfold wrap, w. Z.to_euclidean_division_equations. lia. }
  assert (Z.land (Z.shiftr w 23) 0xFF = E) as EE.
  { change 0xFF with (Z.ones 8). rewrite Z.land_ones, Z.shiftr_div_pow2 by lia.
    unfold w. Z.to_euclidean_division_equations. lia. }
  assert (u16 (Z.land (Z.shiftr w 13) 0x3FF) = m) as Em.
  { change 0x3FF with (Z.ones 10). rewrite Z.land_ones, Z.shiftr_div_pow2 by lia.
    unfold wrap, w. Z.to_euclidean_division_equations. lia. }
  unfold float32_to_float16. rewrite Es, EE, Em.
  rewrite swrap_small by lia. unfold E.
  destruct (Z.eqb_spec e 31) as [->|].
  { rewrite andb_false_r, orb_false_r in Hreg. apply Z.eqb_eq in Hreg as ->.
    by assert (s = 0 ∨ s = 1) as [-> | ->] by lia. }
  destruct (Z.eqb_spec e 0) as [->|].
  { rewrite orb_false_r in Hreg. apply Z.eqb_eq in Hreg as ->. 
    by assert (s = 0 ∨ s = 1) as [-> | ->] by lia. }
  replace (e + 112 - 112) with e by lia.
  assert ((e <=? 0) = false) as -> by lia. assert ((31 <=? e) = false) as -> by lia.
  rewrite <- Z.lor_assoc, (lor_add 10 e m), <- (Z.shiftl_mul_pow2 s) by (unfold is_unsigned; lia).
  rewrite lor_add by (unfold is_unsigned; lia). rewrite wrap_small by (unfold is_unsigned; lia).
  rewrite ?Z.shiftl_mul_pow2 by lia. lia.
Qed.

Lemma float16_float32_roundtrip_witness : float32_to_float16 (float16_to_float32 0xC248) = 0xC248.
Proof. apply float16_float32_roundtrip; vm_compute; [split; [discriminate | reflexivity] | reflexivity]. Defined.

(** The other patterns are not kept.  The fraction of a subnormal half is not moved
    to the top of the single-precision one and its exponent is one too large: the
    half 1.5 * 2^-15 (0x0300) becomes a number near 2^-14.  Encoding a NaN
    gives an infinity, since the test for it compares the re-biased exponent. *)
Lemma float16_to_float32_subnormal :
  ¬ ieee_same (ieee_decode 5 10 0x0300) (ieee_decode 8 23 (float16_to_float32 0x0300)).
Proof. vm_compute. by intros (_ & H & H'). Qed.

Lemma float32_to_float16_nan : ieee_decode 5 10 (float32_to_float16 0x7FC00000) = IeeeInf false.
Proof. done. Qed.

(** [float_to_uint] does not clamp: out of the range the code leaves its field. *)
Lemma float_to_uint_not_clamped : float_to_uint (f32_of_Z 2) f0 f1 8 = Some 510.
Proof. done. Qed.
