(* ===== verification/HoldChecker.v ===== *)
(** * Hysteresis checks (src/pi_hold_checker.cpp)

    [HoldChecker] is the class: a condition must hold for [hold_count_threshold_]
    consecutive calls to enter the holding state, and fail for
    [EXIT_COUNT_THRESHOLD] consecutive calls to leave it.  [spec_step] is that
    contract as a two-phase machine; the code meets it up to the first exit and
    not after it, because neither counter is reset on a change of phase.
    [actual_step] is the machine that the code implements for good. *)

From S2P Require Import Prelude.

Definition EXIT_COUNT_THRESHOLD : Z := 100.

Record HoldChecker := mkHoldChecker {
  hold_count_ : Z;
  exit_count_ : Z;
  holding_status_ : bool;
  hold_count_threshold_ : Z;
}.

#[export] Instance eta_HoldChecker : Eta HoldChecker := λ r,
  mkHoldChecker (hold_count_ r) (exit_count_ r) (holding_status_ r) (hold_count_threshold_ r).

Definition new_HoldChecker (hold_count_threshold : Z) : HoldChecker :=
  mkHoldChecker 0 0 false hold_count_threshold.

Definition is_holding (condition : bool) : St HoldChecker bool := λ h,
  let h :=
    if negb (holding_status_ h) then
      let h := if condition then h <| hold_count_ := hold_count_ h + 1 |>
               else h <| hold_count_ := 0 |> in
      if hold_count_threshold_ h <=? hold_count_ h
      then h <| holding_status_ := true |> else h
    else
      let h := if condition then h <| exit_count_ := 0 |>
               else h <| exit_count_ := exit_count_ h + 1 |> in
      if EXIT_COUNT_THRESHOLD <=? exit_count_ h
      then h <| holding_status_ := false |> else h in
  (holding_status_ h, h).

Definition reset (h : HoldChecker) : HoldChecker :=
  h <| hold_count_ := 0 |> <| exit_count_ := 0 |> <| holding_status_ := false |>.

Definition set_hold_count_threshold (hold_count_threshold : Z) (h : HoldChecker) : HoldChecker :=
  reset (h <| hold_count_threshold_ := hold_count_threshold |>).

(** The outputs of a checker on a sequence of conditions. *)
Fixpoint outputs (cs : list bool) (h : HoldChecker) : list bool :=
  match cs with
  | [] => []
  | c :: cs => let '(o, h) := is_holding c h in o :: outputs cs h
  end.

(** ** The contract *)

Inductive phase := Waiting (n : Z) | Holding (n : Z).

Definition spec_step (t : Z) (s : phase) (condition : bool) : phase :=
  match s with
  | Waiting n =>
      if condition then if t <=? n + 1 then Holding 0 else Waiting (n + 1) else Waiting 0
  | Holding n =>
      if condition then Holding 0
      else if EXIT_COUNT_THRESHOLD <=? n + 1 then Waiting 0 else Holding (n + 1)
  end.

Definition phase_holds (s : phase) : bool :=
  match s with Waiting _ => false | Holding _ => true end.

Fixpoint spec_outputs (t : Z) (cs : list bool) (s : phase) : list bool :=
  match cs with
  | [] => []
  | c :: cs => let s := spec_step t s c in phase_holds s :: spec_outputs t cs s
  end.

(** Whether the contract leaves its holding state strictly before the last input. *)
Fixpoint exits_early (t : Z) (cs : list bool) (s : phase) : bool :=
  match cs with
  | [] | [_] => false
  | c :: cs =>
      let s' := spec_step t s c in
      (phase_holds s && negb (phase_holds s')) || exits_early t cs s'
  end.

(** The checker states that stand for a phase before the first exit. *)
Definition represents (s : phase) (h : HoldChecker) : Prop :=
  match s with
  | Waiting n => holding_status_ h = false ∧ hold_count_ h = n ∧ exit_count_ h = 0 ∧
                 0 ≤ n < hold_count_threshold_ h
  | Holding n => holding_status_ h = true ∧ exit_count_ h = n ∧ 0 ≤ n < EXIT_COUNT_THRESHOLD ∧
                 0 < hold_count_threshold_ h ≤ hold_count_ h
  end.

Lemma is_holding_step s h c : represents s h →
  let s' := spec_step (hold_count_threshold_ h) s c in
  fst (is_holding c h) = phase_holds s' ∧
  hold_count_threshold_ (snd (is_holding c h)) = hold_count_threshold_ h ∧
  (phase_holds s && negb (phase_holds s') = false → represents s' (snd (is_holding c h))).
Proof.
  unfold EXIT_COUNT_THRESHOLD.
  destruct h as [hc ec st t], s as [n|n]; cbn; unfold EXIT_COUNT_THRESHOLD; intros H; destruct_and?; subst;
    destruct c; cbn; unfold EXIT_COUNT_THRESHOLD;
    split_ifs; cbn; repeat split; intros; try done;
    unfold EXIT_COUNT_THRESHOLD in *; lia.
Qed.

Lemma new_represents t : 0 < t → represents (Waiting 0) (new_HoldChecker t).
Proof. cbn. lia. Qed.

Lemma reset_represents h : 0 < hold_count_threshold_ h → represents (Waiting 0) (reset h).
Proof. cbn. lia. Qed.

Lemma outputs_spec cs : ∀ s h, represents s h →
  exits_early (hold_count_threshold_ h) cs s = false →
  outputs cs h = spec_outputs (hold_count_threshold_ h) cs s.
Proof.
  induction cs as [|c cs IH]; intros s h Hr Hx; [done|].
  destruct (is_holding_step s h c Hr) as (Ho & Ht & Hr').
  cbn [outputs spec_outputs]. destruct (is_holding c h) as [o h'] eqn:E. cbn in Ho, Ht, Hr'.
  rewrite Ho. f_equal. destruct cs as [|c' cs]; [done|].
  cbn [exits_early] in Hx. apply orb_false_iff in Hx as [Hx1 Hx2].
  specialize (IH _ h' (Hr' Hx1)). rewrite Ht in IH. by apply IH.
Qed.

(** Up to and including its first exit the checker is the documented
    hysteresis: from a fresh or reset state it enters after exactly
    [hold_count_threshold_] consecutive true inputs and leaves after exactly
    [EXIT_COUNT_THRESHOLD] consecutive false ones. *)
Theorem is_holding_meets_contract h cs : 0 < hold_count_threshold_ h →
  exits_early (hold_count_threshold_ h) cs (Waiting 0) = false →
  outputs cs (reset h) = spec_outputs (hold_count_threshold_ h) cs (Waiting 0).
Proof. intros Ht Hx. by apply (outputs_spec cs _ (reset h)); [apply reset_represents|]. Qed.

Lemma is_holding_meets_contract_witness :
  outputs [true; true; false; true; true; true; false] (reset (new_HoldChecker 3)) =
  spec_outputs 3 [true; true; false; true; true; true; false] (Waiting 0).
Proof. apply (is_holding_meets_contract (new_HoldChecker 3)); [cbn; lia | vm_compute; reflexivity]. Defined.

(** After the first exit the enter threshold is gone: the exit leaves the
    hold count at or above its threshold, so the next true input re-enters the
    holding state at once, and the next false input after that leaves it again. *)
Theorem is_holding_reentry h : represents (Holding (EXIT_COUNT_THRESHOLD - 1)) h →
  outputs [false; true; false] h = [false; true; false].
Proof.
  destruct h as [hc ec st t]. intros (Hst & Hec & _ & Ht & Hhc). cbn in *. subst.
  change (EXIT_COUNT_THRESHOLD - 1 + 1) with EXIT_COUNT_THRESHOLD.
  rewrite Z.leb_refl. cbn.
  assert ((t <=? hc + 1) = true) as -> by lia. cbn. done.
Qed.

Lemma is_holding_reentry_witness :
  outputs [false; true; false] (mkHoldChecker 300 99 true 300) = [false; true; false].
Proof. apply is_holding_reentry. cbn. unfold EXIT_COUNT_THRESHOLD. repeat split; lia. Defined.

(** ** What the code implements *)

(** [First p]: as documented, before the first exit or since a hold was confirmed.
    [Left]: just left; [Reentered]: holding again with the exit count still at its
    threshold; [Stale n]: waiting, with that exit count. *)
Inductive actual_phase := First (p : phase) | Left | Reentered | Stale (n : Z).

Definition actual_step (t : Z) (s : actual_phase) (condition : bool) : actual_phase :=
  match s with
  | First p =>
      let p' := spec_step t p condition in
      if phase_holds p && negb (phase_holds p') then Left else First p'
  | Left => if condition then Reentered else Stale 0
  | Reentered => if condition then First (Holding 0) else Left
  | Stale n =>
      if condition then if t <=? n + 1 then Reentered else Stale (n + 1) else Stale 0
  end.

Definition actual_holds (s : actual_phase) : bool :=
  match s with First p => phase_holds p | Reentered => true | Left | Stale _ => false end.

Fixpoint actual_outputs (t : Z) (cs : list bool) (s : actual_phase) : list bool :=
  match cs with
  | [] => []
  | c :: cs => let s := actual_step t s c in actual_holds s :: actual_outputs t cs s
  end.

Definition stands_for (s : actual_phase) (h : HoldChecker) : Prop :=
  match s with
  | First p => represents p h
  | Left => holding_status_ h = false ∧ EXIT_COUNT_THRESHOLD ≤ exit_count_ h ∧
            0 < hold_count_threshold_ h ≤ hold_count_ h
  | Reentered => holding_status_ h = true ∧ EXIT_COUNT_THRESHOLD ≤ exit_count_ h ∧
                 0 < hold_count_threshold_ h ≤ hold_count_ h
  | Stale n => holding_status_ h = false ∧ EXIT_COUNT_THRESHOLD ≤ exit_count_ h ∧
               hold_count_ h = n ∧ 0 ≤ n < hold_count_threshold_ h
  end.

Lemma actual_step_right s h c : stands_for s h →
  let s' := actual_step (hold_count_threshold_ h) s c in
  fst (is_holding c h) = actual_holds s' ∧ stands_for s' (snd (is_holding c h)) ∧
  hold_count_threshold_ (snd (is_holding c h)) = hold_count_threshold_ h.
Proof.
  destruct h as [hc ec st t], s as [[n|n]| | |n]; cbn; unfold EXIT_COUNT_THRESHOLD; intros H; destruct_and?; subst;
    destruct c; cbn; unfold EXIT_COUNT_THRESHOLD;
    split_ifs; cbn; repeat split; intros; try done;
    unfold EXIT_COUNT_THRESHOLD in *; lia.
Qed.

(** For any inputs, exits or not. *)
Lemma outputs_actual cs : ∀ s h, stands_for s h →
  outputs cs h = actual_outputs (hold_count_threshold_ h) cs s.
Proof.
  induction cs as [|c cs IH]; intros s h Hs; [done|].
  destruct (actual_step_right s h c Hs) as (Ho & Hs' & Ht).
  cbn [outputs actual_outputs]. destruct (is_holding c h) as [o h']. cbn in *.
  rewrite Ho, (IH _ _ Hs'), Ht. done.
Qed.

(** Enough true inputs in a row bring every phase to hold, exits or not. *)
Definition in_bounds (t : Z) (s : actual_phase) : Prop :=
  match s with First (Waiting n) | Stale n => 0 ≤ n < t | _ => True end.
Definition hold_count_of (s : actual_phase) : Z :=
  match s with First (Waiting n) | Stale n => n | _ => 0 end.

Lemma in_bounds_step t s c : 0 < t → in_bounds t s → in_bounds t (actual_step t s c).
Proof. destruct s as [[n|n]| | |n], c; cbn; split_ifs; cbn; try done; lia. Qed.

Lemma true_step t s n : 0 < t → in_bounds t s → actual_holds s = true ∨ n ≤ hold_count_of s →
  actual_holds (actual_step t s true) = true ∨ n + 1 ≤ hold_count_of (actual_step t s true).
Proof.
  destruct s as [[m|m]| | |m]; cbn; intros Ht Hb Hn; split_ifs; cbn; auto; destruct Hn as [[=]|Hn]; right; lia.
Qed.

Lemma actual_outputs_app t cs cs' s :
  actual_outputs t (cs ++ cs') s = actual_outputs t cs s ++ actual_outputs t cs' (fold_left (actual_step t) cs s).
Proof. revert s. induction cs as [|c cs IH]; intros s; cbn; [done|]. by rewrite IH. Qed.

Lemma actual_outputs_length t cs s : length (actual_outputs t cs s) = length cs.
Proof. revert s. induction cs as [|c cs IH]; intros s; cbn; auto. Qed.

Lemma trues_hold t n s : 0 < t → in_bounds t s →
  let s' := fold_left (actual_step t) (replicate n true) s in
  in_bounds t s' ∧ (actual_holds s' = true ∨ Z.of_nat n ≤ hold_count_of s').
Proof.
  intros Ht Hb. induction n as [|n [IH1 IH2]].
  { split; [done|]. right. destruct s as [[m|m]| | |m]; cbn in *; lia. }
  rewrite replicate_S_end, fold_left_app. cbn [fold_left]. split; [by apply in_bounds_step|].
  rewrite Nat2Z.inj_succ. by apply true_step.
Qed.

Lemma in_bounds_run t cs : ∀ s, 0 < t → in_bounds t s → in_bounds t (fold_left (actual_step t) cs s).
Proof. induction cs as [|c cs IH]; intros s Ht Hs; cbn; [done|]. apply IH; [done|]. by apply in_bounds_step. Qed.

Lemma run_of_trues t pre post : 0 < t →
  actual_outputs t (pre ++ replicate (Z.to_nat t) true ++ post) (First (Waiting 0)) !! (length pre + Z.to_nat t - 1)%nat
  = Some true.
Proof.
  intros Ht. rewrite actual_outputs_app, lookup_app_r by (rewrite actual_outputs_length; lia).
  rewrite actual_outputs_length. replace (length pre + Z.to_nat t - 1 - length pre)%nat with (Z.to_nat t - 1)%nat by lia.
  set (s := fold_left _ pre _). assert (in_bounds t s) as Hs by (apply in_bounds_run; cbn; lia).
  destruct (Z.to_nat t) as [|n] eqn:E; [lia|]. rewrite replicate_S_end, <- app_assoc, actual_outputs_app.
  rewrite lookup_app_r by (rewrite actual_outputs_length, length_replicate; lia).
  rewrite actual_outputs_length, length_replicate. replace (S n - 1 - n)%nat with O by lia. cbn.
  destruct (trues_hold t n s Ht Hs) as [Hb Hn]. pose proof (in_bounds_step t _ true Ht Hb).
  destruct (true_step t _ (Z.of_nat n) Ht Hb Hn) as [->|Hge]; [done|].
  revert H Hge. destruct (actual_step _ _ _) as [[m|m]| | |m]; cbn; lia || done.
Qed.
