(* ===== verification/DmStatus.v ===== *)
(** * Status nibble of DM servos (src/pi_servo_dm_status.cpp) *)

From S2P Require Import Prelude.

Record DmServoStatusInfo := mkDmServoStatusInfo {
  description : string;
  action : string;
  is_fault : bool;
  is_thermal_fault : bool;
  is_resettable_on_enable : bool;
}.

Definition kDisabled := mkDmServoStatusInfo "disabled" "No action required." false false false.
Definition kEnabled := mkDmServoStatusInfo "enabled" "No action required." false false false.
Definition kReserved := mkDmServoStatusInfo "reserved/non-normal status"
  "Retry once; if the status persists, consult the motor manual." false false false.
Definition kOvervoltage := mkDmServoStatusInfo "overvoltage"
  "Stop operation and verify the supply voltage before retrying." true false false.
Definition kUndervoltage := mkDmServoStatusInfo "undervoltage"
  "Stop operation and verify the supply voltage and power wiring before retrying."
  true false false.
Definition kOvercurrent := mkDmServoStatusInfo "overcurrent"
  "Stop operation and inspect power wiring and mechanical load before retrying."
  true false false.
Definition kMosOvertemperature := mkDmServoStatusInfo "MOSFET overtemperature"
  "Stop commands and allow the drive electronics to cool before retrying." true true false.
Definition kMotorCoilOvertemperature := mkDmServoStatusInfo "motor coil overtemperature"
  "Stop commands and allow the motor to cool; inspect for mechanical binding or sustained load before retrying."
  true true false.
Definition kCommunicationLoss := mkDmServoStatusInfo "communication loss"
  "Stop operation and check CAN wiring, termination, and bus health before retrying."
  true false true.
Definition kOverload := mkDmServoStatusInfo "overload"
  "Stop operation and inspect for mechanical binding or sustained load before retrying."
  true false false.
Definition kUnknownFault := mkDmServoStatusInfo "unknown DM hardware fault"
  "Stop operation and consult the motor manual before retrying." true false false.

Definition dm_servo_status_info (status_code : Z) : DmServoStatusInfo :=
  let nibble := Z.land status_code 0x0F in
  if nibble =? 0x0 then kDisabled
  else if nibble =? 0x1 then kEnabled
  else if nibble =? 0x8 then kOvervoltage
  else if nibble =? 0x9 then kUndervoltage
  else if nibble =? 0xA then kOvercurrent
  else if nibble =? 0xB then kMosOvertemperature
  else if nibble =? 0xC then kMotorCoilOvertemperature
  else if nibble =? 0xD then kCommunicationLoss
  else if nibble =? 0xE then kOverload
  else if nibble =? 0xF then kUnknownFault
  else kReserved.

Lemma dm_status_nibble (P : Z → Prop) c :
  (∀ n : nat, (n < 16)%nat → P (Z.of_nat n)) → P (Z.land c 0x0F).
Proof.
  intros H. destruct (land_ones_range 4 c) as [H0 H1]; [lia|]. change (Z.ones 4) with 0x0F in *.
  rewrite <- (Z2Nat.id (Z.land c 0x0F)) by lia. apply H. lia.
Qed.

(** The classification of every status byte: faults are the nibbles 8 to
    F, the thermal ones are B and C, only a communication loss may be reset on
    enable, and thermal and resettable codes are disjoint kinds of fault. *)
Theorem dm_servo_status_classified c :
  let n := Z.land c 0x0F in
  let i := dm_servo_status_info c in
  is_fault i = (8 <=? n) ∧
  is_thermal_fault i = (n =? 0xB) || (n =? 0xC) ∧
  is_resettable_on_enable i = (n =? 0xD) ∧
  dm_servo_status_info (Z.lor (Z.shiftl (Z.shiftr c 4) 4) n) = i.
Proof.
  assert (Z.land (Z.lor (Z.shiftl (Z.shiftr c 4) 4) (Z.land c 0x0F)) 0x0F = Z.land c 0x0F) as E.
  { apply (join_low 4); [lia|]. apply (land_ones_range 4). lia. }
  cbv zeta. unfold dm_servo_status_info. rewrite E.
  pattern (Z.land c 0x0F). apply dm_status_nibble. clear. intros n Hn.
  do 16 (destruct n as [|n]; [done|]). lia.
Qed.
