(* ===== verification/SafeMode.v ===== *)
(** * Protective stops (src/pi_safe_mode.cpp)

    [SafeMode] is the class.  What it needs of the servo that owns it is the
    interface [ServoView], implemented by [Servo.Servo]. *)

From S2P Require Import Prelude.
From S2P Require Import FloatSpec.
From S2P Require Import Control.

Class ServoView (V : Type) := {
  view_pos_rad_relative : V → f32;       (* get_pos_rad_relative() *)
  view_vel_rad_sec : V → f32;            (* get_vel_rad_sec() *)
  view_tor_nm : V → f32;                 (* get_tor_nm() *)
  view_behind_tolerable : V → bool;      (* is_behind_more_than_tolerable_threshold() *)
  view_pos_max_rel : V → f32;
  view_pos_min_rel : V → f32;
}.

Record SafeMode := mkSafeMode {
  is_safe_mode_enabled_ : bool;
  is_torque_mode_enabled_ : bool;
  is_pos_exceed_ : bool;
  is_pos_behind_ : bool;
  is_vel_ : bool;
  is_tor_ : bool;
  is_no_signal_ : bool;
  is_temperature_ : bool;
  servo_pos_rad_ : f32;
  servo_vel_ : f32;
  servo_tor_ : f32;
  pos_behind_hold_pos_rad_ : f32;
}.

#[export] Instance eta_SafeMode : Eta SafeMode := λ r, mkSafeMode
  (is_safe_mode_enabled_ r) (is_torque_mode_enabled_ r) (is_pos_exceed_ r) (is_pos_behind_ r)
  (is_vel_ r) (is_tor_ r) (is_no_signal_ r) (is_temperature_ r)
  (servo_pos_rad_ r) (servo_vel_ r) (servo_tor_ r) (pos_behind_hold_pos_rad_ r).

Definition new_SafeMode (safety_feature_off safety_torque_mode : bool) : SafeMode :=
  mkSafeMode (negb safety_feature_off) safety_torque_mode
    false false false false false false f0 f0 f0 f0.

Definition enable_safe_mode (m : SafeMode) : SafeMode := m <| is_safe_mode_enabled_ := true |>.
Definition disable_safe_mode (m : SafeMode) : SafeMode := m <| is_safe_mode_enabled_ := false |>.

Definition encode_bits (m : SafeMode) : Z :=
  let bit (b : bool) (v : Z) := if b then v else 0 in
  u8 (Z.lor (Z.lor (Z.lor (Z.lor (Z.lor
    (bit (is_pos_behind_ m) 0x01) (bit (is_tor_ m) 0x02)) (bit (is_temperature_ m) 0x04))
    (bit (is_pos_exceed_ m) 0x08)) (bit (is_vel_ m) 0x10)) (bit (is_no_signal_ m) 0x20)).

Section handlers.
Context {V : Type} `{ServoView V}.

Definition update_servo_values (p_servo : V) : St SafeMode ReturnCode := λ m,
  (SUCCESS, m <| servo_pos_rad_ := view_pos_rad_relative p_servo |>
              <| servo_vel_ := view_vel_rad_sec p_servo |>
              <| servo_tor_ := view_tor_nm p_servo |>).

Definition graceful_management_pos_exceed (p_servo : V) : St SafeMode ReturnCode :=
  modify (λ m, m <| is_pos_exceed_ := true |>);;
  update_servo_values p_servo;;
  mret SUCCESS.

Definition graceful_management_pos_behind (p_servo : V) : St SafeMode ReturnCode :=
  behind ← gets is_pos_behind_;
  when_ (negb behind) (modify (λ m,
    m <| is_pos_behind_ := true |>
      <| pos_behind_hold_pos_rad_ := view_pos_rad_relative p_servo |>));;
  update_servo_values p_servo;;
  mret SUCCESS.

Definition graceful_management_vel (p_servo : V) : St SafeMode ReturnCode :=
  modify (λ m, m <| is_vel_ := true |>);;
  update_servo_values p_servo;;
  mret SAFE_MODE_VEL.

Definition graceful_management_sig (p_servo : V) : St SafeMode ReturnCode :=
  modify (λ m, m <| is_no_signal_ := true |>);;
  update_servo_values p_servo;;
  mret SAFE_MODE_SIG.

(** The torque and temperature handlers call the dispatcher again; it is their
    argument. *)
Definition graceful_management_tor (dispatch : V → ReturnCode → St SafeMode ReturnCode)
    (p_servo : V) : St SafeMode ReturnCode :=
  modify (λ m, m <| is_tor_ := true |>);;
  update_servo_values p_servo;;
  when_ (view_behind_tolerable p_servo) (dispatch p_servo SAFE_MODE_POS_BEHIND;; mret tt);;
  mret SAFE_MODE_TOR.

Definition graceful_management_temperature (dispatch : V → ReturnCode → St SafeMode ReturnCode)
    (p_servo : V) : St SafeMode ReturnCode :=
  modify (λ m, m <| is_temperature_ := true |>);;
  update_servo_values p_servo;;
  when_ (view_behind_tolerable p_servo) (dispatch p_servo SAFE_MODE_POS_BEHIND;; mret tt);;
  mret SAFE_MODE_TEMPERATURE.

(** The nested call is for POS_BEHIND, which does not dispatch again: two
    levels are enough ([graceful_management_fuel]). *)
Fixpoint graceful_management_n (fuel : nat) (p_servo : V) (servo_return_code : ReturnCode)
    : St SafeMode ReturnCode :=
  match fuel with
  | O => mret servo_return_code
  | S fuel =>
      enabled ← gets is_safe_mode_enabled_;
      if negb enabled then mret servo_return_code
      else match servo_return_code with
      | SAFE_MODE_POS_EXCEED => graceful_management_pos_exceed p_servo
      | SAFE_MODE_POS_BEHIND => graceful_management_pos_behind p_servo
      | SAFE_MODE_VEL => graceful_management_vel p_servo
      | SAFE_MODE_TOR => graceful_management_tor (graceful_management_n fuel) p_servo
      | SAFE_MODE_SIG => graceful_management_sig p_servo
      | SAFE_MODE_TEMPERATURE =>
          graceful_management_temperature (graceful_management_n fuel) p_servo
      | _ => mret servo_return_code
      end
  end.

Definition graceful_management : V → ReturnCode → St SafeMode ReturnCode :=
  graceful_management_n 2.

Definition exit_safe_mode (p_servo : V) (safe_mode_return_code : ReturnCode)
    : St SafeMode ReturnCode := λ m,
  if negb (is_safe_mode_enabled_ m) then (SUCCESS, m)
  else
    (SUCCESS, match safe_mode_return_code with
     | SAFE_MODE_POS_EXCEED => if is_pos_exceed_ m then m <| is_pos_exceed_ := false |> else m
     | SAFE_MODE_POS_BEHIND => if is_pos_behind_ m then m <| is_pos_behind_ := false |> else m
     | SAFE_MODE_VEL => if is_vel_ m then m <| is_vel_ := false |> else m
     | SAFE_MODE_TOR => if is_tor_ m then m <| is_tor_ := false |> else m
     | SAFE_MODE_SIG => if is_no_signal_ m then m <| is_no_signal_ := false |> else m
     | SAFE_MODE_TEMPERATURE => if is_temperature_ m then m <| is_temperature_ := false |> else m
     | _ => m
     end).

Definition get_safe_tele_pos_rad (m : SafeMode) (p_servo : V) (tele_pos : f32) : f32 :=
  if negb (is_safe_mode_enabled_ m) then tele_pos
  else if is_pos_exceed_ m && (tele_pos >?. view_pos_max_rel p_servo)
  then view_pos_max_rel p_servo
  else if is_pos_exceed_ m && (tele_pos <?. view_pos_min_rel p_servo)
  then view_pos_min_rel p_servo
  else if is_pos_behind_ m then pos_behind_hold_pos_rad_ m
  else tele_pos.

(** One operation on the safe mode of a servo, with the view it sees. *)
Inductive safe_mode_step : SafeMode → SafeMode → Prop :=
  | step_graceful p rc m : safe_mode_step m (snd (graceful_management p rc m))
  | step_exit p rc m : rc ≠ SAFE_MODE_POS_BEHIND →
      safe_mode_step m (snd (exit_safe_mode p rc m)).

Inductive safe_mode_steps : SafeMode → SafeMode → Prop :=
  | steps_refl m : safe_mode_steps m m
  | steps_cons m1 m2 m3 : safe_mode_step m1 m2 → safe_mode_steps m2 m3 → safe_mode_steps m1 m3.
End handlers.

(** ** Theorems *)

Section theorems.
Context {V : Type} `{ServoView V}.

Lemma graceful_management_fuel n p rc m :
  graceful_management_n (2 + n) p rc m = graceful_management p rc m.
Proof.
  unfold graceful_management. cbn. unfold mbind, St_bind, gets, modify, when_.
  destruct (is_safe_mode_enabled_ m) eqn:E; cbn; [|done].
  destruct rc; cbn; try done; unfold graceful_management_tor, graceful_management_temperature;
    cbn; unfold mbind, St_bind, modify, when_; cbn;
    destruct (view_behind_tolerable p); cbn; try done;
    unfold mbind, St_bind, gets; cbn; by rewrite E.
Qed.

(** What each call of the dispatcher does to the flags. *)
Lemma graceful_management_disabled p rc m : is_safe_mode_enabled_ m = false →
  graceful_management p rc m = (rc, m).
Proof. intros E. cbn. unfold mbind, St_bind, gets. by rewrite E. Qed.

(** The dispatcher answers with the code it is given or with success. *)
Lemma graceful_management_result (p : V) rc m :
  fst (graceful_management p rc m) = rc ∨ fst (graceful_management p rc m) = SUCCESS.
Proof.
  destruct m as [[] tm pe pb v t ns te x y z a]; [|by left].
  destruct rc; try (by left); cbn; try (by right); destruct pb; try (by right);
    unfold graceful_management_tor, graceful_management_temperature, mbind, St_bind, modify, when_;
    cbn; destruct (view_behind_tolerable p); by left.
Qed.

Lemma graceful_management_anchor p rc m : is_pos_behind_ m = true →
  is_pos_behind_ (snd (graceful_management p rc m)) = true ∧
  pos_behind_hold_pos_rad_ (snd (graceful_management p rc m)) = pos_behind_hold_pos_rad_ m ∧
  is_safe_mode_enabled_ (snd (graceful_management p rc m)) = is_safe_mode_enabled_ m.
Proof.
  destruct m as [[] tm pe pb v t ns te x y z a]; cbn; intros ->; [|done].
  destruct rc; cbn; try done;
    unfold graceful_management_tor, graceful_management_temperature, mbind, St_bind, modify, when_;
    cbn; by destruct (view_behind_tolerable p).
Qed.

Lemma exit_safe_mode_anchor (p : V) rc m : rc ≠ SAFE_MODE_POS_BEHIND → is_pos_behind_ m = true →
  is_pos_behind_ (snd (exit_safe_mode p rc m)) = true ∧
  pos_behind_hold_pos_rad_ (snd (exit_safe_mode p rc m)) = pos_behind_hold_pos_rad_ m ∧
  is_safe_mode_enabled_ (snd (exit_safe_mode p rc m)) = is_safe_mode_enabled_ m.
Proof.
  intros Hrc Hb. unfold exit_safe_mode.
  destruct (is_safe_mode_enabled_ m) eqn:E; cbn; [|done].
  destruct rc; try done; cbn; split_ifs; cbn; auto.
Qed.

(** [C8] The hold anchor is captured once.  From the call that latches
    POS_BEHIND in an enabled safe mode, and through any sequence of operations
    that does not exit it (other violations, other exits, re-triggers, with the
    servo anywhere), the commanded position is the position measured at the
    latch, whatever position is asked for; with one exception: while a position
    limit violation is latched too, a request beyond a limit commands that
    limit. *)
Theorem hold_anchor_captured_once (p : V) rc m0 m (q : V) tele_pos :
  is_safe_mode_enabled_ m0 = true → is_pos_behind_ m0 = false →
  is_pos_behind_ (snd (graceful_management p rc m0)) = true →
  safe_mode_steps (snd (graceful_management p rc m0)) m →
  get_safe_tele_pos_rad m q tele_pos =
    if is_pos_exceed_ m && (view_pos_max_rel q <?. tele_pos) then view_pos_max_rel q
    else if is_pos_exceed_ m && (tele_pos <?. view_pos_min_rel q) then view_pos_min_rel q
    else view_pos_rad_relative p.
Proof.
  intros He Hb0 Hb Hs.
  assert (pos_behind_hold_pos_rad_ (snd (graceful_management p rc m0)) = view_pos_rad_relative p ∧
          is_safe_mode_enabled_ (snd (graceful_management p rc m0)) = true) as [Ha Hen].
  { destruct m0 as [en tm pe pb v t ns te x y z a]; cbn in *; subst.
    destruct rc; cbn in Hb |- *; try done; revert Hb;
    unfold graceful_management_tor, graceful_management_temperature, mbind, St_bind, modify, when_;
    cbn; by destruct (view_behind_tolerable p). }
  assert (is_pos_behind_ m = true ∧ pos_behind_hold_pos_rad_ m = view_pos_rad_relative p ∧
          is_safe_mode_enabled_ m = true) as (Hbm & Ham & Hem).
  { revert Hb Ha Hen. induction Hs as [m|m1 m2 m3 H12 H23 IH]; [done|].
    intros Hb Ha Hen. destruct H12 as [p' rc' m1|p' rc' m1 Hrc].
    - destruct (graceful_management_anchor p' rc' m1 Hb) as (? & ? & ?). apply IH; [done|congruence..].
    - destruct (exit_safe_mode_anchor p' rc' m1 Hrc Hb) as (? & ? & ?). apply IH; [done|congruence..]. }
  unfold get_safe_tele_pos_rad. by rewrite Hem, Hbm, Ham.
Qed.

(** [C29] With the position-limit violation of an enabled safe mode latched (and a lower
    limit that is not above the upper one), a command leaves the joint's limits in two
    cases only: POS_BEHIND is latched too and the request is not beyond a limit, then it
    is the hold anchor, which may lie outside; or the request is no number, then it is
    passed on. *)
Theorem safe_command_in_limits m (p : V) tele_pos :
  is_safe_mode_enabled_ m = true → is_pos_exceed_ m = true →
  SFleb (view_pos_min_rel p) (view_pos_max_rel p) = true →
  in_range (view_pos_min_rel p) (view_pos_max_rel p) (get_safe_tele_pos_rad m p tele_pos) ∨
  (is_pos_behind_ m = true ∧ get_safe_tele_pos_rad m p tele_pos = pos_behind_hold_pos_rad_ m ∧
   (is_nan tele_pos = true ∨ in_range (view_pos_min_rel p) (view_pos_max_rel p) tele_pos)) ∨
  (is_pos_behind_ m = false ∧ is_nan tele_pos = true ∧ get_safe_tele_pos_rad m p tele_pos = tele_pos).
Proof.
  intros He Hx Hle. destruct (SFleb_not_nan _ _ Hle).
  unfold get_safe_tele_pos_rad. rewrite He, Hx. cbn.
  destruct (view_pos_max_rel p <?. tele_pos) eqn:E1; [left; split; eauto with pi|].
  destruct (tele_pos <?. view_pos_min_rel p) eqn:E2; [left; split; eauto with pi|].
  assert (is_nan tele_pos = true ∨ in_range (view_pos_min_rel p) (view_pos_max_rel p) tele_pos) as Ht.
  { destruct (is_nan tele_pos) eqn:En; [by left|]. right. split; eauto with pi. }
  destruct (is_pos_behind_ m); [by right; left|]. destruct Ht as [Ht|Ht]; [by right; right|by left].
Qed.
End theorems.

(** The log byte loses nothing: bits 0 to 5 are the six flags, bits 6 and
    7 are clear. *)
Theorem encode_bits_flags m :
  let b := encode_bits m in
  is_unsigned 6 b ∧
  Z.testbit b 0 = is_pos_behind_ m ∧ Z.testbit b 1 = is_tor_ m ∧
  Z.testbit b 2 = is_temperature_ m ∧ Z.testbit b 3 = is_pos_exceed_ m ∧
  Z.testbit b 4 = is_vel_ m ∧ Z.testbit b 5 = is_no_signal_ m.
Proof. destruct m as [e tm [] [] [] [] [] [] x y z a]; repeat split; vm_compute; congruence. Qed.

(** A concrete servo for the witnesses. *)
Record view_example := mkView { ve_pos : f32; ve_behind : bool }.

#[export] Instance view_example_ServoView : ServoView view_example := {
  view_pos_rad_relative := ve_pos;
  view_vel_rad_sec := λ _, f0;
  view_tor_nm := λ _, f0;
  view_behind_tolerable := ve_behind;
  view_pos_max_rel := λ _, f32_of_Z 2;
  view_pos_min_rel := λ _, f32_of_Z (-2);
}.

(** Caught at 1 rad over its torque, then too hot at 0 rad, then out of its position limits. *)
Definition caught_at_1 : SafeMode :=
  snd (graceful_management (mkView (f32_of_Z 1) true) SAFE_MODE_TOR (new_SafeMode false true)).
Definition caught_and_hot : SafeMode :=
  snd (graceful_management (mkView (f32_of_Z 0) true) SAFE_MODE_TEMPERATURE caught_at_1).
Definition caught_and_outside : SafeMode :=
  snd (graceful_management (mkView (f32_of_Z 0) true) SAFE_MODE_POS_EXCEED caught_and_hot).

Lemma caught_steps : safe_mode_steps (V := view_example) caught_at_1 caught_and_hot ∧
  safe_mode_steps (V := view_example) caught_at_1 caught_and_outside.
Proof.
  unfold caught_and_outside, caught_and_hot. generalize caught_at_1. intros m. split.
  - eapply steps_cons; [apply step_graceful|apply steps_refl].
  - eapply steps_cons; [apply step_graceful|]. eapply steps_cons; [apply step_graceful|apply steps_refl].
Qed.

Lemma hold_anchor_captured_once_witness :
  let q := mkView (f32_of_Z 0) true in
  get_safe_tele_pos_rad caught_and_hot q (f32_of_Z 3) = f32_of_Z 1 ∧
  get_safe_tele_pos_rad caught_and_outside q (lit32 3 2) = f32_of_Z 1 ∧
  get_safe_tele_pos_rad caught_and_outside q (f32_of_Z 3) = f32_of_Z 2.
Proof.
  destruct caught_steps as [H1 H2].
  pose proof (λ m q t, hold_anchor_captured_once (mkView (f32_of_Z 1) true) SAFE_MODE_TOR
    (new_SafeMode false true) m q t eq_refl eq_refl eq_refl) as H.
  intros q. rewrite (H _ q (f32_of_Z 3) H1), (H _ q (lit32 3 2) H2), (H _ q (f32_of_Z 3) H2).
  vm_compute. done.
Defined.

(** A request beyond the limit is clamped; the anchor of a servo that was caught at 3 rad,
    outside its limits of 2 rad, is commanded as it is. *)
Lemma safe_command_in_limits_witness :
  let m := snd (graceful_management (mkView (f32_of_Z 3) true) SAFE_MODE_POS_EXCEED (new_SafeMode false false)) in
  let m' := snd (graceful_management (mkView (f32_of_Z 3) true) SAFE_MODE_POS_BEHIND m) in
  let p := mkView (f32_of_Z 3) true in
  in_range (view_pos_min_rel p) (view_pos_max_rel p) (get_safe_tele_pos_rad m p (f32_of_Z 5)) ∧
  get_safe_tele_pos_rad m' p f1 = f32_of_Z 3.
Proof.
  intros m m' p.
  pose proof (safe_command_in_limits m p (f32_of_Z 5) eq_refl eq_refl eq_refl) as H1.
  pose proof (safe_command_in_limits m' p f1 eq_refl eq_refl eq_refl) as H2. cbv zeta in H1, H2. split.
  - destruct H1 as [H1|[(H1 & _)|(_ & H1 & _)]]; [exact H1|vm_compute in H1; discriminate H1..].
  - destruct H2 as [[_ H2]|[(_ & H2 & _)|(H2 & _)]]; [vm_compute in H2; discriminate H2|rewrite H2|vm_compute in H2; discriminate H2].
    vm_compute. reflexivity.
Defined.
