(* ===== verification/Filters.v ===== *)
(** * Signal filters, stall detection and force feedback
    (src/pi_filter.cpp, include/pi_filter.hpp, src/pi_stall_detect.cpp,
    src/pi_force_feedback.cpp)

    A [boost::circular_buffer] is the list of its elements, oldest first, with
    its capacity. *)

From stdpp Require Import sorting.
From S2P Require Import Prelude.
From S2P Require Import FloatSpec.
From S2P Require Import Control.

(** ** Circular buffers *)

Section circular_buffer.
Context {A : Type}.

(** [push_back] drops the oldest element of a full buffer. *)
Definition cb_push (capacity : nat) (buffer : list A) (x : A) : list A :=
  match capacity with
  | O => buffer
  | S _ => if decide (length buffer = capacity) then tail buffer ++ [x] else buffer ++ [x]
  end.

Definition last_n (n : nat) (l : list A) : list A := drop (length l - n) l.

Lemma cb_push_last_n n l x : n ≠ O → cb_push n (last_n n l) x = last_n n (l ++ [x]).
Proof.
  intros Hn. destruct n as [|n]; [done|]. unfold cb_push, last_n.
  rewrite length_drop, length_app. cbn [length]. case_decide as Hlen.
  - replace (length l + 1 - S n)%nat with (S (length l - S n)) by lia.
    rewrite drop_app_le by lia. f_equal.
    assert (∀ k, tail (drop k l) = drop (S k) l) as ->; [|done].
    clear. intros k. revert l. induction k as [|k IH]; intros [|y l]; cbn; [done..|].
    by rewrite IH.
  - replace (length l - S n)%nat with O by lia.
    by replace (length l + 1 - S n)%nat with O by lia.
Qed.

(** The buffer always holds the last [capacity] pushed elements. *)
Lemma cb_window n xs : n ≠ O → foldl (cb_push n) [] xs = last_n n xs.
Proof.
  intros Hn. induction xs as [|x xs IH] using rev_ind; [done|].
  rewrite foldl_snoc, IH. by apply cb_push_last_n.
Qed.

Lemma last_n_length n l : (length (last_n n l) ≤ n)%nat.
Proof. unfold last_n. rewrite length_drop. lia. Qed.
End circular_buffer.

(** ** The filters *)

Record FilterEMA := mkFilterEMA { ema_alpha_ : f32; ema_initialized_ : bool; ema_ : f32 }.
#[export] Instance eta_FilterEMA : Eta FilterEMA := λ r,
  mkFilterEMA (ema_alpha_ r) (ema_initialized_ r) (ema_ r).

Definition FilterEMA_update (new_input : f32) : St FilterEMA f32 := λ f,
  let f :=
    if negb (ema_initialized_ f)
    then f <| ema_ := new_input |> <| ema_initialized_ := true |>
    else f <| ema_ := (ema_alpha_ f * new_input + (f1 - ema_alpha_ f) * ema_ f)%f32 |> in
  (ema_ f, f).

Record FilterMedian := mkFilterMedian { med_capacity : nat; med_buffer_ : list f32 }.
#[export] Instance eta_FilterMedian : Eta FilterMedian := λ r,
  mkFilterMedian (med_capacity r) (med_buffer_ r).

(** [std::sort] with [operator<]: any sorting of the values, here insertion. *)
Fixpoint finsert (x : f32) (l : list f32) : list f32 :=
  match l with
  | [] => [x]
  | y :: l => if y <?. x then y :: finsert x l else x :: y :: l
  end.
Definition fsort (l : list f32) : list f32 := foldr finsert [] l.

Definition FilterMedian_update (new_input : f32) : St FilterMedian f32 := λ f,
  let f := f <| med_buffer_ := cb_push (med_capacity f) (med_buffer_ f) new_input |> in
  let sorted_values := fsort (med_buffer_ f) in
  let median_index := (length (med_buffer_ f) `div` 2)%nat in
  let at_ i := default S754_nan (sorted_values !! i) in
  (if Nat.even (length sorted_values)
   then ((at_ (median_index - 1)%nat + at_ median_index) / f32_of_Z 2)%f32
   else at_ median_index, f).

Record FilterMovingAverage := mkFilterMovingAverage {
  avg_capacity : nat; avg_buffer_ : list f32; avg_sum_ : f32 }.
#[export] Instance eta_FilterMovingAverage : Eta FilterMovingAverage := λ r,
  mkFilterMovingAverage (avg_capacity r) (avg_buffer_ r) (avg_sum_ r).

Definition FilterMovingAverage_update (new_input : f32) : St FilterMovingAverage f32 := λ f,
  let f := if decide (length (avg_buffer_ f) = avg_capacity f)
           then f <| avg_sum_ := (avg_sum_ f - default f0 (head (avg_buffer_ f)))%f32 |>
           else f in
  let f := f <| avg_buffer_ := cb_push (avg_capacity f) (avg_buffer_ f) new_input |> in
  let f := f <| avg_sum_ := (avg_sum_ f + new_input)%f32 |> in
  ((avg_sum_ f / f32_of_Z (Z.of_nat (length (avg_buffer_ f))))%f32, f).

Record FilterKalman := mkFilterKalman {
  q_ : f32; r_ : f32; x_ : f32; p_ : f32; kal_initialized_ : bool }.
#[export] Instance eta_FilterKalman : Eta FilterKalman := λ r,
  mkFilterKalman (q_ r) (r_ r) (x_ r) (p_ r) (kal_initialized_ r).

Definition FilterKalman_update (new_input : f32) : St FilterKalman f32 := λ f,
  let f := if negb (kal_initialized_ f)
           then f <| x_ := new_input |> <| kal_initialized_ := true |> else f in
  let f := f <| p_ := (p_ f + q_ f)%f32 |> in
  let k := (p_ f / (p_ f + r_ f))%f32 in
  let f := f <| x_ := (x_ f + k * (new_input - x_ f))%f32 |> in
  let f := f <| p_ := ((f1 - k) * p_ f)%f32 |> in
  (x_ f, f).

Inductive FilterType := EMA | MEDIAN | MOVING_AVERAGE | KALMAN.

Inductive FilterImpl :=
  | IEMA (f : FilterEMA) | IMedian (f : FilterMedian)
  | IAverage (f : FilterMovingAverage) | IKalman (f : FilterKalman).

Definition FilterBase_update (new_input : f32) : St FilterImpl f32 := λ i,
  match i with
  | IEMA f => prod_map id IEMA (FilterEMA_update new_input f)
  | IMedian f => prod_map id IMedian (FilterMedian_update new_input f)
  | IAverage f => prod_map id IAverage (FilterMovingAverage_update new_input f)
  | IKalman f => prod_map id IKalman (FilterKalman_update new_input f)
  end.

Record Filter := mkFilter {
  type_ : FilterType; p_filter_ : option FilterImpl; latest_value_ : f32 }.
#[export] Instance eta_Filter : Eta Filter := λ r,
  mkFilter (type_ r) (p_filter_ r) (latest_value_ r).

(** The constructor; [None] is the [std::invalid_argument] it throws. *)
Definition new_Filter (type : FilterType) (ema_alpha : f32) (window_size : nat)
    (kalman_q kalman_r : f32) : option Filter :=
  match type, window_size with
  | MEDIAN, O | MOVING_AVERAGE, O => None
  | _, _ =>
      Some (mkFilter type (Some match type with
        | EMA => IEMA (mkFilterEMA ema_alpha false f0)
        | MEDIAN => IMedian (mkFilterMedian window_size [])
        | MOVING_AVERAGE => IAverage (mkFilterMovingAverage window_size [] f0)
        | KALMAN => IKalman (mkFilterKalman kalman_q kalman_r f0 f1 false)
        end) f0)
  end.

Definition Filter_update (new_input : f32) : St Filter f32 := λ f,
  match p_filter_ f with
  | None => (latest_value_ f, f)
  | Some i =>
      let '(v, i) := FilterBase_update new_input i in
      (v, f <| p_filter_ := Some i |> <| latest_value_ := v |>)
  end.

Definition get_latest_value (f : Filter) : f32 := latest_value_ f.

(** ** Stall detection *)

Definition POS_THRESHOLD : f64 := lit64 1 10.
Definition VEL_THRESHOLD : f64 := lit64 1 10.
Definition TOR_THRESHOLD : f64 := lit64 1 10.
Definition STALL_COUNT_THRESHOLD : Z := 3.

Record StallDetect := mkStallDetect {
  is_stall_detected_ : bool;
  stall_count_ : Z;
  stall_tor_ : f32;
  pos_prev_ : f32;
  stall_tor_buffer_ : list f32;     (* capacity STALL_COUNT_THRESHOLD *)
}.
#[export] Instance eta_StallDetect : Eta StallDetect := λ r, mkStallDetect
  (is_stall_detected_ r) (stall_count_ r) (stall_tor_ r) (pos_prev_ r) (stall_tor_buffer_ r).

Definition new_StallDetect : StallDetect := mkStallDetect false 0 f0 f0 [].

Definition stall_condition (s : StallDetect) (pos vel tor : f32) : bool :=
  (to_f64 (SFabs vel) <?. VEL_THRESHOLD) &&
  (to_f64 (SFabs (pos - pos_prev_ s)%f32) <?. POS_THRESHOLD) &&
  (to_f64 (SFabs tor) >?. TOR_THRESHOLD).

Definition detect_stall (pos vel tor : f32) : St StallDetect f32 := λ s,
  let s :=
    if stall_condition s pos vel tor then
      let s := s <| stall_count_ := stall_count_ s + 1 |>
                 <| stall_tor_buffer_ := cb_push 3 (stall_tor_buffer_ s) tor |> in
      if STALL_COUNT_THRESHOLD <=? stall_count_ s then
        let sum := foldl fadd f0 (stall_tor_buffer_ s) in
        s <| is_stall_detected_ := true |>
          <| stall_tor_ := (sum / f32_of_Z (Z.of_nat (length (stall_tor_buffer_ s))))%f32 |>
          <| stall_count_ := 0 |>
      else s
    else s <| stall_count_ := 0 |> <| is_stall_detected_ := false |>
           <| stall_tor_buffer_ := [] |> <| stall_tor_ := f0 |> in
  let s := s <| pos_prev_ := pos |> in
  (stall_tor_ s, s).

(** ** Force feedback *)

Definition SPRING_CONSTANT : f32 := f32_of_Z 1.
Definition STALL_TOR_GAIN : f32 := f32_of_Z 2.
Definition FORCE_FEEDBACK_SCALE : f32 := lit32 3 10.
Definition FORCE_FEEDBACK_TORQUE_FILTER_BUFFER_SIZE : nat := 5.

Record ForceFeedback := mkForceFeedback {
  stall_detect_ : StallDetect;
  follower_pos_ : f32;
  follower_vel_ : f32;
  follower_tor_ : f32;
  follower_temperature_ : f32;
  follower_idc_current_ : f32;
  prev_leader_pos_ : f32;
  follower_pos_filter_ : Filter;
  follower_vel_filter_ : Filter;
  follower_tor_filter_ : Filter;
  stall_tor_filter_ : Filter;
  force_feedback_torque_filter_ : Filter;
}.
#[export] Instance eta_ForceFeedback : Eta ForceFeedback := λ r, mkForceFeedback
  (stall_detect_ r) (follower_pos_ r) (follower_vel_ r) (follower_tor_ r)
  (follower_temperature_ r) (follower_idc_current_ r) (prev_leader_pos_ r)
  (follower_pos_filter_ r) (follower_vel_filter_ r) (follower_tor_filter_ r)
  (stall_tor_filter_ r) (force_feedback_torque_filter_ r).

Definition new_ForceFeedback : option ForceFeedback :=
  f ← new_Filter MOVING_AVERAGE (lit32 2 10) FORCE_FEEDBACK_TORQUE_FILTER_BUFFER_SIZE
        (lit32 1 100) f1;
  Some (mkForceFeedback new_StallDetect f0 f0 f0 f0 f0 f0 f f f f f).

Definition get_force_feedback_torque (b : ForceFeedback) : f32 :=
  get_latest_value (force_feedback_torque_filter_ b).

Definition calc_force_feedback_torque (leader_pos : f32) : St ForceFeedback f32 := λ b,
  let torque :=
    if (leader_pos <=?. prev_leader_pos_ b) && is_stall_detected_ (stall_detect_ b) then
      let follower_pos := get_latest_value (follower_pos_filter_ b) in
      if follower_pos >=?. leader_pos then
        let t := (f0 + SFopp SPRING_CONSTANT * (leader_pos - follower_pos))%f32 in
        let t := (t + SFopp STALL_TOR_GAIN * get_latest_value (stall_tor_filter_ b))%f32 in
        (t * FORCE_FEEDBACK_SCALE)%f32
      else f0
    else f0 in
  (torque, b <| prev_leader_pos_ := leader_pos |>).

Definition update_follower_info (leader_pos follower_pos follower_vel follower_tor
    follower_temperature follower_idc_current : f32) : St ForceFeedback ReturnCode := λ b,
  let b := b <| follower_pos_ := follower_pos |> <| follower_vel_ := follower_vel |>
             <| follower_tor_ := follower_tor |>
             <| follower_temperature_ := follower_temperature |>
             <| follower_idc_current_ := follower_idc_current |> in
  let b := b <| follower_pos_filter_ := snd (Filter_update follower_pos (follower_pos_filter_ b)) |>
             <| follower_vel_filter_ := snd (Filter_update follower_vel (follower_vel_filter_ b)) |>
             <| follower_tor_filter_ := snd (Filter_update follower_tor (follower_tor_filter_ b)) |> in
  let '(stall_tor, sd) := detect_stall follower_pos follower_vel follower_tor (stall_detect_ b) in
  let b := b <| stall_detect_ := sd |>
             <| stall_tor_filter_ := snd (Filter_update stall_tor (stall_tor_filter_ b)) |> in
  let '(torque, b) := calc_force_feedback_torque leader_pos b in
  let b := b <| force_feedback_torque_filter_ :=
                  snd (Filter_update torque (force_feedback_torque_filter_ b)) |> in
  (SUCCESS, b).

(** ** Runs *)

Definition median_run (capacity : nat) (xs : list f32) : FilterMedian :=
  foldl (λ f x, snd (FilterMedian_update x f)) (mkFilterMedian capacity []) xs.

Definition average_run (capacity : nat) (xs : list f32) : FilterMovingAverage :=
  foldl (λ f x, snd (FilterMovingAverage_update x f)) (mkFilterMovingAverage capacity [] f0) xs.

(** The stall detector after a list of samples, with the number of consecutive
    samples, up to the last one, that met [stall_condition]. *)
Definition stall_run (samples : list (f32 * f32 * f32)) : StallDetect * nat :=
  foldl (λ '(s, n) '(pos, vel, tor),
           (snd (detect_stall pos vel tor s),
            if stall_condition s pos vel tor then S n else O))
        (new_StallDetect, O) samples.

Definition fle (x y : f32) : Prop := x <=?. y = true.
#[export] Instance fle_dec x y : Decision (fle x y).
Proof. unfold fle. apply _. Defined.

Definition count_le (l : list f32) (x : f32) : nat := length (filter (λ y, fle y x) l).
Definition count_ge (l : list f32) (x : f32) : nat := length (filter (λ y, fle x y) l).

(** ** Theorems: the median *)

Lemma finsert_perm x l : finsert x l ≡ₚ x :: l.
Proof. induction l as [|y l IH]; cbn; [done|]. case_match; [|done]. rewrite IH. constructor. Qed.

Lemma fsort_perm l : fsort l ≡ₚ l.
Proof. induction l as [|x l IH]; cbn; [done|]. by rewrite finsert_perm, IH. Qed.

Lemma fsort_length l : length (fsort l) = length l.
Proof. by rewrite fsort_perm. Qed.

Abbreviation no_nan := (Forall (λ x, is_nan x = false)).

Lemma finsert_sorted x l : is_nan x = false → no_nan l →
  StronglySorted fle l → StronglySorted fle (finsert x l).
Proof.
  intros Hx Hl Hs. induction Hs as [|y l Hs IH Hy]; cbn; [by repeat constructor|].
  inversion Hl as [|? ? Hny Hnl]; subst. destruct (y <?. x) eqn:E.
  - constructor; [by apply IH|]. rewrite finsert_perm. constructor; [|done].
    by apply SFltb_SFleb.
  - constructor; [by constructor|]. apply SFltb_false_leb in E; [|done..].
    constructor; [done|]. eapply Forall_impl; [exact Hy|]. intros z. by apply SFleb_trans.
Qed.

Lemma fsort_sorted l : no_nan l → StronglySorted fle (fsort l).
Proof.
  induction 1 as [|x l Hx Hl IH]; cbn; [constructor|].
  apply finsert_sorted; [done| |done]. by rewrite fsort_perm.
Qed.

(** The element at index [i] of a sorted list separates it. *)
Lemma sorted_split l i x : StronglySorted fle l → no_nan l → l !! i = Some x →
  Forall (λ y, fle y x) (take (S i) l) ∧ Forall (λ y, fle x y) (drop i l).
Proof.
  intros Hs. revert i. induction Hs as [|y l Hs IH Hy]; intros i Hn Hi; [done|].
  inversion Hn as [|? ? Hny Hnl]; subst. destruct i as [|i]; cbn in Hi.
  - injection Hi as ->. split.
    + cbn. rewrite take_0. repeat constructor. by apply SFleb_refl.
    + constructor; [by apply SFleb_refl|done].
  - destruct (IH i Hnl Hi) as [H1 H2]. split; [|done]. cbn. constructor; [|done].
    eapply Forall_lookup_1 in Hy; [exact Hy|exact Hi].
Qed.

Lemma filter_length_le {A} (P : A → Prop) `{∀ x, Decision (P x)} (l1 l2 l : list A) :
  l1 ++ l2 ≡ₚ l → Forall P l1 → (length l1 ≤ length (filter P l))%nat.
Proof.
  intros <- HP. rewrite filter_app, length_app.
  assert (filter P l1 = l1) as ->; [|lia].
  induction HP; cbn; [done|]. rewrite decide_True by done. by f_equal.
Qed.

Lemma median_run_buffer n xs : n ≠ O →
  median_run n xs = mkFilterMedian n (last_n n xs).
Proof.
  intros Hn. unfold median_run. induction xs as [|x xs IH] using rev_ind; [done|].
  rewrite foldl_snoc, IH. cbn. by rewrite cb_push_last_n.
Qed.

Lemma average_run_window n xs : n ≠ O →
  avg_capacity (average_run n xs) = n ∧ avg_buffer_ (average_run n xs) = last_n n xs.
Proof.
  intros Hn. unfold average_run. induction xs as [|x xs [IH1 IH2]] using rev_ind; [done|].
  rewrite foldl_snoc. revert IH1 IH2. generalize (foldl (λ f x, snd (FilterMovingAverage_update x f))
    (mkFilterMovingAverage n [] f0) xs). intros f H1 H2.
  unfold FilterMovingAverage_update. case_decide; cbn; by rewrite H1, H2, cb_push_last_n.
Qed.

(** Whatever the inputs, an odd window's median filter returns an element
    of the last [capacity] inputs that at least half of them do not exceed and
    that does not exceed at least half of them. *)
Theorem median_correct capacity xs x : capacity ≠ O → no_nan (xs ++ [x]) →
  let w := last_n capacity (xs ++ [x]) in
  Nat.odd (length w) = true →
  let r := fst (FilterMedian_update x (median_run capacity xs)) in
  r ∈ w ∧ (length w < 2 * count_le w r)%nat ∧ (length w < 2 * count_ge w r)%nat.
Proof.
  intros Hc Hn w Hodd r. subst r. rewrite median_run_buffer by done.
  unfold FilterMedian_update. cbn [upd fst snd med_capacity med_buffer_ eta_expand].
  rewrite cb_push_last_n by done. fold w. rewrite fsort_length, <- Nat.negb_odd, Hodd. cbn [negb].
  assert (no_nan w) as Hw by (by apply Forall_drop).
  assert (0 < length w)%nat as Hpos by (destruct (length w); [done|lia]).
  pose proof (Nat.div_mod_eq (length w) 2) as Hdm.
  assert (length w `mod` 2 = 1)%nat as Hm by by (rewrite <- Nat.bit0_mod, Nat.bit0_odd, Hodd; done).
  set (i := (length w `div` 2)%nat) in *.
  destruct (lookup_lt_is_Some_2 (fsort w) i) as [r Hr]; [rewrite fsort_length; lia|].
  rewrite Hr. cbn [from_option id].
  assert (no_nan (fsort w)) as Hnw by (by rewrite fsort_perm).
  destruct (sorted_split _ _ _ (fsort_sorted w Hw) Hnw Hr) as [H1 H2].
  split; [|split].
  - rewrite <- (fsort_perm w). by eapply list_elem_of_lookup_2.
  - assert (length (take (S i) (fsort w)) ≤ count_le w r)%nat as Hle.
    { eapply (filter_length_le (λ y, fle y r) _ (drop (S i) (fsort w))); [|done].
      by rewrite take_drop, fsort_perm. }
    rewrite length_take, fsort_length in Hle. lia.
  - assert (length (drop i (fsort w)) ≤ count_ge w r)%nat as Hle.
    { eapply (filter_length_le (λ y, fle r y) _ (take i (fsort w))); [|done].
      by rewrite Permutation_app_comm, take_drop, fsort_perm. }
    rewrite length_drop, fsort_length in Hle. lia.
Qed.

Lemma median_correct_witness :
  let xs := [f32_of_Z 9; f32_of_Z 1; f32_of_Z 5] in
  let w := last_n 3 (xs ++ [f32_of_Z 7]) in
  let r := fst (FilterMedian_update (f32_of_Z 7) (median_run 3 xs)) in
  r ∈ w ∧ (length w < 2 * count_le w r)%nat ∧ (length w < 2 * count_ge w r)%nat.
Proof. apply (median_correct 3); [done | by repeat constructor | done]. Defined.

(** ** Theorems: moving average and stall detection *)

Lemma average_sum_nan x f : avg_sum_ f = S754_nan ∨ is_nan x = true →
  avg_sum_ (snd (FilterMovingAverage_update x f)) = S754_nan ∧
  fst (FilterMovingAverage_update x f) = S754_nan.
Proof.
  intros Hx. unfold FilterMovingAverage_update.
  set (g := if decide _ then _ else _).
  assert (avg_sum_ f = S754_nan → avg_sum_ g = S754_nan) as Hg.
  { intros E. subst g. case_decide; cbn; [|done]. by rewrite E. }
  cbn. assert ((avg_sum_ g + x)%f32 = S754_nan) as ->; [|done].
  destruct Hx as [Hf|Hx]; [by rewrite (Hg Hf)|].
  destruct x; try done. by destruct (avg_sum_ g).
Qed.

(** The running sum never recovers: one NaN sample makes every later
    output of a moving average NaN, also after it has left the window. *)
Theorem moving_average_nan_forever capacity xs x ys y : is_nan x = true →
  fst (FilterMovingAverage_update y (average_run capacity (xs ++ x :: ys))) = S754_nan.
Proof.
  intros Hx. apply average_sum_nan. left. unfold average_run.
  induction ys as [|z ys IH] using rev_ind.
  - rewrite foldl_snoc. apply average_sum_nan. by right.
  - rewrite app_comm_cons, app_assoc, foldl_snoc. apply average_sum_nan. by left.
Qed.

Lemma moving_average_nan_forever_witness :
  fst (FilterMovingAverage_update f1
         (average_run 2 ([f1] ++ S754_nan :: [f1; f1; f1]))) = S754_nan.
Proof. by apply (moving_average_nan_forever 2 [f1] S754_nan [f1; f1; f1] f1). Defined.

(** The detector's fields as functions of the length of the current streak. *)
Definition stall_inv (s : StallDetect) (n : nat) : Prop :=
  is_stall_detected_ s = (3 <=? n)%nat ∧ stall_count_ s = Z.of_nat (n `mod` 3) ∧
  length (stall_tor_buffer_ s) = Nat.min n 3 ∧ ((n < 3)%nat → stall_tor_ s = f0).

Lemma stall_inv_step s n pos vel tor : stall_inv s n →
  stall_inv (snd (detect_stall pos vel tor s))
            (if stall_condition s pos vel tor then S n else O).
Proof.
  intros (Hd & Hc & Hb & Ht). unfold detect_stall.
  destruct (stall_condition s pos vel tor); [|done].
  pose proof (Nat.div_mod_eq n 3) as Hdm. pose proof (Nat.mod_upper_bound n 3 ltac:(lia)) as Hlt.
  assert (length (cb_push 3 (stall_tor_buffer_ s) tor) = Nat.min (S n) 3) as Hb'.
  { cbn. destruct (decide _) as [E|E]; rewrite length_app; cbn [length]; [|lia].
    destruct (stall_tor_buffer_ s); cbn in *; lia. }
  cbn [upd]. unfold STALL_COUNT_THRESHOLD.
  cbn [upd stall_count_ stall_tor_buffer_].
  destruct (3 <=? stall_count_ s + 1) eqn:E; cbn; unfold stall_inv; cbn -[Nat.modulo Nat.min cb_push Nat.leb].
  - assert (S n `mod` 3 = 0)%nat as ->.
    { symmetry. apply (Nat.mod_unique _ _ (S (n / 3))); lia. }
    split; [|split; [done|split; [exact Hb'|lia]]]. symmetry. apply Nat.leb_le. lia.
  - assert (S n `mod` 3 = S (n `mod` 3))%nat as ->.
    { symmetry. apply (Nat.mod_unique _ _ (n / 3)); lia. }
    rewrite Hd, Hc. split; [|split; [lia|split; [exact Hb'|intros; apply Ht; lia]]].
    destruct (3 <=? n)%nat eqn:E1, (3 <=? S n)%nat eqn:E2; try done;
      rewrite ?Nat.leb_le, ?Nat.leb_gt in *; lia.
Qed.

(** A stall is reported exactly while at least three consecutive samples
    met the stall condition; below that the reported stall torque is zero. *)
Theorem stall_detected_iff samples :
  let '(s, n) := stall_run samples in
  is_stall_detected_ s = (3 <=? n)%nat ∧ ((n < 3)%nat → stall_tor_ s = f0).
Proof.
  assert (let '(s, n) := stall_run samples in stall_inv s n) as H.
  { unfold stall_run. induction samples as [|[[pos vel] tor] samples IH] using rev_ind; [done|].
    rewrite foldl_snoc. destruct (foldl _ _ samples) as [s n]. by apply stall_inv_step. }
  destruct (stall_run samples) as [s n]. by destruct H as (? & _ & _ & ?).
Qed.
