(* ===== verification/Robotiq.v ===== *)
(** * Robotiq gripper transport (src/pi_robotiq.cpp, include/pi_robotiq.hpp)

    The worker thread's loop is [run_iteration], one pass of the [while]; the
    public calls are state updates.  Every section that touches shared fields
    holds the mutex, and after its first locked section an iteration works on
    local copies only, so a call that runs during an iteration has the effect of
    one that runs after it: [transport_step] interleaves whole operations.

    libmodbus is a parameter: [Modbus] says what each call returns. *)

From S2P Require Import Prelude.
From S2P Require Import FloatSpec.
From S2P Require Import Rounding.
From S2P Require Import MathOps.

(** ** Data *)

Inductive RobotiqBackend := RTU | TCP.

Record RobotiqConfig := mkRobotiqConfig {
  backend : RobotiqBackend;
  endpoint : string;
  tcp_port : Z;
  baud_rate : Z;
  slave_id : Z;
  poll_frequency_hz : Z;
  response_timeout_ms : Z;
  open_raw : Z;
  closed_raw : Z;
}.

Record RobotiqState := mkRobotiqState {
  connected : bool;
  activated : bool;
  ever_activated : bool;
  moving : bool;
  position : f32;
  velocity : f32;
  effort : f32;
  current : f32;
  target : f32;
  fault : Z;
}.
#[export] Instance eta_RobotiqState : Eta RobotiqState := λ r, mkRobotiqState
  (connected r) (activated r) (ever_activated r) (moving r) (position r) (velocity r)
  (effort r) (current r) (target r) (fault r).

Definition default_RobotiqState : RobotiqState :=
  mkRobotiqState false false false false f1 f0 f0 f0 f1 0.

Record RobotiqTransport := mkRobotiqTransport {
  config_ : RobotiqConfig;
  context : bool;                    (* impl_->context != nullptr *)
  running_ : bool;
  state_ : RobotiqState;
  target_position_ : f32;
  target_speed_ : f32;
  target_force_ : f32;
  command_generation_ : Z;
  activation_requested_ : bool;
  hold_requested_ : bool;
}.
#[export] Instance eta_RobotiqTransport : Eta RobotiqTransport := λ r, mkRobotiqTransport
  (config_ r) (context r) (running_ r) (state_ r) (target_position_ r) (target_speed_ r)
  (target_force_ r) (command_generation_ r) (activation_requested_ r) (hold_requested_ r).

Definition new_RobotiqTransport (config : RobotiqConfig) : RobotiqTransport :=
  mkRobotiqTransport config false false default_RobotiqState f1 f1 f1 0 false false.

(** ** Conversions *)

Definition position_to_raw (normalized_open : f32) (open_raw closed_raw : Z) : option Z :=
  let value := (f32_of_Z closed_raw -
                std_clamp normalized_open f0 f1 * f32_of_Z (closed_raw - open_raw))%f32 in
  u8 <$> SF_lround value.

Definition raw_to_position (raw open_raw closed_raw : Z) : f32 :=
  if closed_raw <=? open_raw then f0
  else
    let normalized_open := ((f32_of_Z closed_raw - f32_of_Z raw) /
                            f32_of_Z (closed_raw - open_raw))%f32 in
    std_clamp normalized_open f0 f1.

Definition normalized_to_raw (value : f32) (preserve_regrasp : bool) : option Z :=
  raw ← SF_lround (f32_of_Z 255 * std_clamp value f0 f1)%f32;
  Some (u8 (if preserve_regrasp && (raw =? 0) && (value >?. f0) then 1 else raw)).

Definition has_operational_fault (state : RobotiqState) : bool :=
  ever_activated state && negb (fault state =? 0).

(** ** Public calls *)

Definition set_target (position speed force : f32) (t : RobotiqTransport) : RobotiqTransport :=
  t <| target_position_ := std_clamp position f0 f1 |>
    <| target_speed_ := std_clamp speed f0 f1 |>
    <| target_force_ := std_clamp force f0 f1 |>
    <| hold_requested_ := false |>
    <| command_generation_ := u64 (command_generation_ t + 1) |>.

Definition hold (t : RobotiqTransport) : RobotiqTransport := t <| hold_requested_ := true |>.

(** [activate] up to its wait, and the value it returns when it wakes. *)
Definition activate_request (t : RobotiqTransport) : bool * RobotiqTransport :=
  if negb (running_ t) then (false, t)
  else (true, t <| activation_requested_ := true |>).
Definition activate_wakes (t : RobotiqTransport) : bool := activated (state_ t) || negb (running_ t).
Definition activate_result (t : RobotiqTransport) : bool :=
  activate_wakes t && activated (state_ t) && (fault (state_ t) =? 0).

(** What libmodbus answers: whether a context is made, whether each set-up call
    succeeds, and per call number of a run the result of a write and a read. *)
Record Modbus := mkModbus {
  modbus_new : bool;
  modbus_set_slave : bool;
  modbus_set_response_timeout : bool;
  modbus_connect : bool;
  modbus_write_registers : nat → bool;
  modbus_read_registers : nat → option (Z * Z * Z);
}.

Definition start (m : Modbus) (t : RobotiqTransport) : bool * RobotiqTransport :=
  if bool_decide (endpoint (config_ t) = "") then (false, t)
  else if negb (modbus_new m) then (false, t <| context := false |>)
  else if negb (modbus_set_slave m) || negb (modbus_set_response_timeout m) || negb (modbus_connect m)
  then (false, t <| context := false |>)
  else (true, t <| context := true |> <| state_ := default_RobotiqState |> <| running_ := true |>).

(** [stop]: the hold request is left for the worker before it is told to end. *)
Definition stop_request (t : RobotiqTransport) : RobotiqTransport :=
  if running_ t then hold t else t.
Definition stop_finish (t : RobotiqTransport) : RobotiqTransport :=
  let t := t <| running_ := false |> <| context := false |> in
  t <| state_ := (state_ t) <| connected := false |> |>.

(** ** The worker *)

(** The three registers of a command, as written at 0x03E8. *)
Definition command_registers (action position speed force : Z) : list Z :=
  [u16 (Z.shiftl action 8); position; u16 (Z.lor (Z.shiftl speed 8) force)].

Record Worker := mkWorker {
  applied_generation : Z;
  previous_raw : Z;
  previous_time : Z;
  bus_calls : nat;
  writes : list (list Z);            (* commands written, latest first *)
}.
#[export] Instance eta_Worker : Eta Worker := λ r, mkWorker
  (applied_generation r) (previous_raw r) (previous_time r) (bus_calls r) (writes r).

Definition start_worker (t : RobotiqTransport) (now : Z) : Worker :=
  mkWorker (2 ^ 64 - 1) (open_raw (config_ t)) now 0 [].

Definition fail_transport (t : RobotiqTransport) : RobotiqTransport :=
  t <| state_ := (state_ t) <| connected := false |> <| activated := false |> <| moving := false |> |>
    <| running_ := false |>.

(** A write with its operands.  [None] is an operand the code leaves unspecified
    ([lround] of a NaN target, which [std::clamp] lets through); the byte written
    is then 0 here. *)
Definition write_command (m : Modbus) (action : Z) (position speed force : option Z)
    (w : Worker) : bool * Worker :=
  let regs := command_registers action (default 0 position) (default 0 speed) (default 0 force) in
  (modbus_write_registers m (bus_calls w),
   w <| bus_calls := S (bus_calls w) |> <| writes := regs :: writes w |>).

Definition duration_seconds (dt_ns : Z) : f32 := (f32_of_Z dt_ns / f32_of_Z 1000000000)%f32.

(** The state published from one status read. *)
Definition published_state (cfg : RobotiqConfig) (w : Worker) (now : Z)
    (registers : Z * Z * Z) (target_value : f32) (old : RobotiqState) : RobotiqState :=
  let '(r0, r1, r2) := registers in
  let status := u8 (Z.shiftr r0 8) in
  let fault_ := u8 (Z.shiftr r1 8) in
  let raw := u8 (Z.shiftr r2 8) in
  let current_ := u8 (Z.land r2 0xff) in
  let activated_ := negb (Z.land status 0x01 =? 0) && (Z.land (Z.shiftr status 4) 0x03 =? 0x03) in
  let moving_ := negb (Z.land (Z.shiftr status 3) 0x01 =? 0) && (Z.land (Z.shiftr status 6) 0x03 =? 0) in
  let dt := duration_seconds (now - previous_time w) in
  let normalized_position := raw_to_position raw (open_raw cfg) (closed_raw cfg) in
  let previous_position := raw_to_position (previous_raw w) (open_raw cfg) (closed_raw cfg) in
  old <| connected := true |> <| activated := activated_ |>
      <| ever_activated := ever_activated old || activated_ |>
      <| moving := moving_ |> <| position := normalized_position |>
      <| velocity := if dt >?. f0 then ((normalized_position - previous_position) / dt)%f32 else f0 |>
      <| effort := f0 |> <| current := (f32_of_Z current_ * lit32 1 100)%f32 |>
      <| target := target_value |> <| fault := fault_ |>.

(** One pass of the loop.  The result says whether the loop goes on. *)
Definition run_iteration (m : Modbus) (now : Z) (t : RobotiqTransport) (w : Worker)
    : bool * RobotiqTransport * Worker :=
  let cfg := config_ t in
  let activate := activation_requested_ t in
  let hold := hold_requested_ t in
  let position_ := target_position_ t in
  let speed := target_speed_ t in
  let force := target_force_ t in
  let generation := command_generation_ t in
  let t := t <| activation_requested_ := false |> <| hold_requested_ := false |> in
  let '(reset_ok, w) :=
    if activate then
      let '(ok1, w) := write_command m 0x00 (Some 0) (Some 0) (Some 0) w in
      if negb ok1 then (false, w)
      else write_command m 0x01 (Some (open_raw cfg)) (Some 0xff) (Some 0x96) w
    else (true, w) in
  if negb reset_ok then (false, fail_transport t, w)
  else
    let read := modbus_read_registers m (bus_calls w) in
    let w := w <| bus_calls := S (bus_calls w) |> in
    match read with
    | None => (false, fail_transport t, w)
    | Some registers =>
        let t := t <| state_ := published_state cfg w now registers position_ (state_ t) |> in
        let raw := u8 (Z.shiftr (snd registers) 8) in
        let w := w <| previous_raw := raw |> <| previous_time := now |> in
        let activated_ := activated (state_ t) in
        let '(write_ok, w) :=
          if activated_ && hold then
            let '(ok_, w) := write_command m 0x01 (Some raw) (normalized_to_raw speed false)
                               (normalized_to_raw force true) w in
            (ok_, w <| applied_generation := generation |>)
          else if activated_ && negb (generation =? applied_generation w) then
            let '(ok_, w) := write_command m 0x09
                               (position_to_raw position_ (open_raw cfg) (closed_raw cfg))
                               (normalized_to_raw speed false) (normalized_to_raw force true) w in
            (ok_, w <| applied_generation := generation |>)
          else if activated_ && (position_ <?. lit32 5 100) && negb (moving (state_ t)) then
            write_command m 0x09 (Some (closed_raw cfg)) (normalized_to_raw speed false)
              (normalized_to_raw force true) w
          else (true, w) in
        if negb write_ok then (false, fail_transport t, w) else (true, t, w)
    end.

(** One operation on the transport: a public call or a pass of the loop. *)
Inductive transport_op :=
  | OpSetTarget (position speed force : f32) | OpHold | OpActivate
  | OpIteration (m : Modbus) (now : Z).

Definition transport_step (o : transport_op) (s : RobotiqTransport * Worker)
    : RobotiqTransport * Worker :=
  let '(t, w) := s in
  match o with
  | OpSetTarget p v f => (set_target p v f t, w)
  | OpHold => (hold t, w)
  | OpActivate => (snd (activate_request t), w)
  | OpIteration m now =>
      if running_ t then let '(_, t, w) := run_iteration m now t w in (t, w) else (t, w)
  end.

Definition transport_run (os : list transport_op) (s : RobotiqTransport * Worker)
    : RobotiqTransport * Worker := foldl (λ s o, transport_step o s) s os.

(** ** Theorems *)

Lemma fmul_comm x y : (x * y)%f32 = (y * x)%f32.
Proof.
  destruct x as [sx|sx| |sx mx ex], y as [sy|sy| |sy my ey]; cbn; try done;
    try (by destruct sx, sy).
  by rewrite xorb_comm, Pos.mul_comm, Z.add_comm.
Qed.

(** A byte as a float: exact, canonical, with a full mantissa unless zero. *)
Definition byte_float_check (d : Z) : bool :=
  match f32_of_Z d with
  | S754_zero _ => d =? 0
  | S754_finite false m e =>
      bounded prec32 emax32 m e && (prec32 =? Zdigits2 (Zpos m)) &&
      (Zpos m * 2 ^ (e - emin prec32 emax32) =? d * 2 ^ (- emin prec32 emax32)) &&
      (emin prec32 emax32 <=? e)
  | _ => false
  end.

Lemma byte_floats : forall_below 256 0 byte_float_check = true.
Proof. vm_compute. reflexivity. Qed.

Lemma byte_float_cases d : 0 ≤ d < 256 →
  (d = 0 ∧ ∃ s, f32_of_Z d = S754_zero s) ∨
  ∃ m e, f32_of_Z d = S754_finite false m e ∧ bounded prec32 emax32 m e = true ∧
    Zdigits2 (Zpos m) = prec32 ∧ dy_le (Zpos m) e d 0 ∧ dy_le d 0 (Zpos m) e ∧
    emin prec32 emax32 ≤ e.
Proof.
  intros Hd. pose proof (forall_below_spec _ _ _ byte_floats d ltac:(lia)) as H.
  unfold byte_float_check in H. destruct (f32_of_Z d) as [s| | |[] m e]; try done.
  - left. split; [lia|eauto].
  - right. rewrite !andb_true_iff in H. destruct H as [[[H1 H2] H3] H4].
    exists m, e. split_and!; [done..|lia| | |lia].
    all: rewrite (dy_le_scale (emin prec32 emax32)) by (change (emin prec32 emax32) with (-149) in *; lia).
    all: rewrite Z.sub_0_l; lia.
Qed.

Lemma unit_clamp_nn x : is_nan x = false → is_f32 x = true →
  nn_below prec32 emax32 1 0 (std_clamp x f0 f1).
Proof.
  intros Hn Hv. unfold std_clamp.
  destruct (x <?. f0) eqn:E1; [done|]. destruct (f1 <?. x) eqn:E2; [done|].
  apply SFltb_false_leb in E1, E2; [|done..].
  destruct x as [s|[]| |[] m e]; try done. split; [done|].
  assert (grid prec32 emax32 (S754_finite false m e) ≤ grid prec32 emax32 f1) as Hg.
  { apply grid_le; done. }
  cbn [grid cond_Zopp] in Hg. change (grid prec32 emax32 f1) with (2 ^ 149) in Hg.
  assert (emin prec32 emax32 ≤ e) by (by apply (valid_exp prec32 emax32) in Hv as [? _]).
  change (emin prec32 emax32) with (-149) in *.
  rewrite (dy_le_scale (-149)) by lia. rewrite Z.mul_1_l. replace (0 - -149) with 149 by lia. done.
Qed.

(** The wire position never wraps: for any command but NaN and any ordered
    raw end points the raw position is defined and between 0 and the closed one. *)
Theorem position_to_raw_no_wrap p open_raw closed_raw :
  is_f32 p = true → is_nan p = false → 0 ≤ open_raw ≤ closed_raw → closed_raw < 256 →
  ∃ raw, position_to_raw p open_raw closed_raw = Some raw ∧ 0 ≤ raw ≤ closed_raw.
Proof.
  intros Hv Hn Ho Hc. unfold position_to_raw. set (D := closed_raw - open_raw).
  pose proof (unit_clamp_nn p Hn Hv) as Hp.
  assert (∃ q, (std_clamp p f0 f1 * f32_of_Z D)%f32 = q ∧ nn_below prec32 emax32 D 0 q) as (q & -> & Hq).
  { eexists. split; [done|]. destruct (byte_float_cases D ltac:(lia))
      as [[-> [s ->]]|(m & e & -> & Hb & Hdig & H1 & H2 & _)].
    - by destruct (std_clamp p f0 f1) as [| | |[]].
    - rewrite fmul_comm.
      assert (nn_below prec32 emax32 (Zpos m) e
                (S754_finite false m e * std_clamp p f0 f1)%f32) as H.
      { eapply (SFmul_nn prec32 emax32 ltac:(done) ltac:(done)); [done|lia|exact Hp|done| |lia].
        rewrite Z.mul_1_r, Z.add_0_r. apply dy_le_refl. }
      by eapply nn_below_mono. }
  assert (∃ v, (f32_of_Z closed_raw - q)%f32 = v ∧ nn_below prec32 emax32 closed_raw 0 v)
    as (v & -> & Hw).
  { eexists. split; [done|].
    pose proof (grid_nn prec32 emax32 _ _ Hq ltac:(lia) ltac:(done)) as (Fq & Vq & Gq).
    destruct (byte_float_cases closed_raw ltac:(lia))
      as [[Hz [s ->]]|(m & e & -> & Hb & Hdig & H1 & H2 & He)].
    - assert (grid prec32 emax32 q = 0) as Gq0 by lia.
      destruct q as [sq| | |[] mq eq]; try done; [by destruct s, sq|].
      apply (valid_exp prec32 emax32) in Vq as [Eq _].
      assert (0 < 2 ^ (eq - emin prec32 emax32)) by (apply Z.pow_pos_nonneg; lia).
      cbn [grid cond_Zopp] in Gq0. lia.
    - assert (nn_below prec32 emax32 (Zpos m) e (fsub (S754_finite false m e) q)) as H; [|by eapply nn_below_mono].
      rewrite (dy_le_scale (emin prec32 emax32)) in H1, H2 by (change (emin prec32 emax32) with (-149) in *; lia).
      rewrite Z.sub_0_l in H1, H2. change (emin prec32 emax32) with (-149) in *.
      apply (SFsub_nn prec32 emax32 ltac:(done) ltac:(done)); try done.
      + cbn [grid cond_Zopp]. change (emin prec32 emax32) with (-149). nia.
      + change (emin prec32 emax32) with (-149). rewrite (dy_le_scale (-149)) by lia. cbn [grid cond_Zopp].
        change (emin prec32 emax32) with (-149). rewrite Z.sub_diag, Z.mul_1_r. lia. }
  destruct (SF_lround_nn _ _ _ _ _ closed_raw Hw ltac:(lia) ltac:(apply dy_le_refl)) as (z & -> & Hz).
  exists z. split; [|done]. cbn. f_equal. apply wrap_small. unfold is_unsigned. lia.
Qed.

Lemma position_to_raw_no_wrap_witness :
  ∃ raw, position_to_raw (lit32 3 10) 3 230 = Some raw ∧ 0 ≤ raw ≤ 230.
Proof. apply position_to_raw_no_wrap; [vm_compute; reflexivity | reflexivity | lia | lia]. Defined.

Lemma run_iteration_stops m now t w t' w' : run_iteration m now t w = (false, t', w') →
  running_ t' = false ∧ connected (state_ t') = false ∧ activated (state_ t') = false.
Proof.
  unfold run_iteration.
  repeat (case_match; try discriminate); intros [= <- <-]; done.
Qed.

Lemma stopped_run os : ∀ t w, running_ t = false →
  connected (state_ t) = false → activated (state_ t) = false →
  let '(t', w') := transport_run os (t, w) in
  running_ t' = false ∧ connected (state_ t') = false ∧ activated (state_ t') = false ∧ w' = w.
Proof.
  induction os as [|o os IH]; intros t w Hr Hc Ha; [done|].
  cbn. destruct o; cbn; try (apply (IH _ w); done).
  - unfold activate_request. rewrite Hr. by apply (IH t w).
  - rewrite Hr. by apply (IH t w).
Qed.

(** A Modbus failure is final: once a pass of the loop ends the worker, the
    transport reports itself disconnected and not activated, and no sequence of
    calls and passes writes another command. *)
Theorem robotiq_failure_is_final m now t w os :
  let it := run_iteration m now t w in
  let s := transport_run os (snd (fst it), snd it) in
  fst (fst it) = false →
  writes (snd s) = writes (snd it) ∧ running_ (fst s) = false ∧
  connected (state_ (fst s)) = false ∧ activate_result (fst s) = false.
Proof.
  intros it s Hend. subst s. destruct it as [[b t'] w'] eqn:H. cbn in Hend |- *. subst b.
  destruct (run_iteration_stops _ _ _ _ _ _ H) as (Hr & Hc & Ha).
  pose proof (stopped_run os t' w' Hr Hc Ha) as Hs. destruct (transport_run os (t', w')) as [t'' w''].
  destruct Hs as (Hr' & Hc' & Ha' & ->). split_and!; try done. cbn.
  unfold activate_result, activate_wakes. rewrite Ha'. by rewrite andb_false_r.
Qed.

(** A bus that answers: gripper activated, not moving, at raw position 100. *)
Definition bus_example : Modbus :=
  mkModbus true true true true (λ _, true) (λ _, Some (0x3100, 0, 0x6400)).
Definition dead_bus : Modbus := mkModbus true true true true (λ _, true) (λ _, None).
Definition transport_example : RobotiqTransport :=
  snd (start bus_example (new_RobotiqTransport (mkRobotiqConfig RTU "/dev/ttyUSB0" 502 115200 9 50 200 3 230))).
Definition worker_example : Worker := start_worker transport_example 0.

Lemma robotiq_failure_is_final_witness :
  let it := run_iteration dead_bus 5 transport_example worker_example in
  let s := transport_run [OpSetTarget f0 f1 f1; OpIteration bus_example 9] (snd (fst it), snd it) in
  writes (snd s) = writes (snd it) ∧ running_ (fst s) = false ∧
  connected (state_ (fst s)) = false ∧ activate_result (fst s) = false.
Proof. apply (robotiq_failure_is_final dead_bus 5 transport_example worker_example). reflexivity. Defined.

(** A hold does not outlast one pass of the loop when the last target was
    closed: the hold stops the gripper where it is (action 1, its own position),
    and the next pass, finding it at rest, sends it to the closed position again
    (action 9). *)
Theorem hold_overridden_by_regrasp :
  let ops := [OpSetTarget f0 f1 f1; OpIteration bus_example 10; OpHold;
              OpIteration bus_example 20; OpIteration bus_example 30] in
  writes (snd (transport_run ops (transport_example, worker_example))) =
    [command_registers 9 230 255 255;     (* regrasp: close *)
     command_registers 1 100 255 255;     (* hold at raw 100 *)
     command_registers 9 230 255 255].    (* the target: closed *)
Proof. vm_compute. reflexivity. Qed.
