(* ===== verification/FR3Controller.v ===== *)
(** * Joint impedance controller of the FR3 arm (src/pi_fr3_controller.cpp)

    All arithmetic is in [double].  [compute] gives [None] for the
    [std::runtime_error] it throws; the state change made before the throw
    stays. *)

From S2P Require Import Prelude.
From S2P Require Import FloatSpec.

Open Scope nat_scope.

Definition n_joints : nat := 7.

(** [array[i]]; every array of the code is indexed within its length. *)
Definition at_ (l : list f64) (i : nat) : f64 := default f0 (l !! i).

Record FR3ControllerGains := mkGains {
  cartesian_stiffness : list f64;
  cartesian_damping : list f64;
  gain_joint_stiffness : list f64;
  joint_damping : list f64;
}.

Record FR3ControllerLimits := mkLimits {
  cartesian_lower : list f64;
  cartesian_upper : list f64;
  joint_lower : list f64;
  joint_upper : list f64;
  limit_velocity : list f64;
  limit_torque : list f64;
  joint_margin : f64;
  velocity_margin : f64;
  cartesian_margin : f64;
  limit_joint_stiffness : f64;
  velocity_stiffness : f64;
  limit_cartesian_stiffness : f64;
}.

Definition dz (z : Z) : f64 := f64_of_Z z.
Definition dc (z : Z) : f64 := lit64 z 100.        (* hundredths *)

Definition default_gains : FR3ControllerGains := mkGains
  (dz <$> [400; 400; 400; 15; 15; 15]%Z) (dz <$> [37; 37; 37; 2; 2; 2]%Z)
  (dz <$> [40; 30; 50; 25; 35; 25; 10]%Z) (dz <$> [4; 6; 5; 5; 3; 2; 1]%Z).

Definition default_limits : FR3ControllerLimits := mkLimits
  (dz <$> [-1; -1; -1]%Z) (dz <$> [1; 1; 1]%Z)
  (dc <$> [-265; -168; -280; -295; -270; 45; -290]%Z)
  (dc <$> [265; 168; 280; -16; 270; 440; 290]%Z)
  ((λ z, lit64 z 1000) <$> [2075; 2075; 2075; 2075; 2510; 2510; 2510]%Z)
  ((λ z, lit64 z 10) <$> [860; 860; 860; 860; 115; 115; 115]%Z)
  (lit64 2 10) (lit64 5 10) (lit64 5 100) (dz 50) (dz 20) (dz 200).

Record FR3ControllerInput := mkInput {
  q : list f64;
  dq : list f64;
  coriolis : list f64;
  flange_jacobian : list f64;          (* 6 x 7, column major *)
  end_effector_jacobian : list f64;
  end_effector_position : list f64;
  elbow_velocity : f64;
}.

Record FR3Controller := mkFR3Controller {
  gains_ : FR3ControllerGains;
  limits_ : FR3ControllerLimits;
  target_position_ : list f64;
  initialized_ : bool;
  position_command_active_ : bool;
}.
#[export] Instance eta_FR3Controller : Eta FR3Controller := λ r, mkFR3Controller
  (gains_ r) (limits_ r) (target_position_ r) (initialized_ r) (position_command_active_ r).

Definition new_FR3Controller (g : FR3ControllerGains) (l : FR3ControllerLimits) : FR3Controller :=
  mkFR3Controller g l (replicate 7 f0) false false.

Definition set_target (target_position : list f64) (c : FR3Controller) : FR3Controller :=
  c <| target_position_ := target_position |> <| initialized_ := true |>
    <| position_command_active_ := true |>.

Definition hold (measured_position : list f64) (c : FR3Controller) : FR3Controller :=
  c <| target_position_ := measured_position |> <| initialized_ := true |>
    <| position_command_active_ := false |>.

Definition commanded_position (c : FR3Controller) : list f64 := target_position_ c.

(** The value of [output] after the call, or the exception. *)
Definition add_soft_limit (value lower upper margin stiffness output : f64) : option f64 :=
  let upper_violation := (value - upper)%f64 in
  let lower_violation := (lower - value)%f64 in
  if (upper_violation >?. f0) || (lower_violation >?. f0) then None
  else if upper_violation >?. SFopp margin
  then Some (output - stiffness * (margin + upper_violation))%f64
  else if lower_violation >?. SFopp margin
  then Some (output + stiffness * (margin + lower_violation))%f64
  else Some output.

(** [for (i = 0; i < n; ++i)] over a state, and the same with a body that may throw. *)
Definition for_each {S} (n : nat) (body : nat → S → S) (s : S) : S :=
  foldl (λ s i, body i s) s (seq 0 n).
Definition for_each_opt {S} (n : nat) (body : nat → S → option S) (s : S) : option S :=
  foldl (λ o i, s ← o; body i s) (Some s) (seq 0 n).

Section compute.
Context (c : FR3Controller) (input : FR3ControllerInput).

Definition position_error (i : nat) : f64 := (at_ (target_position_ c) i - at_ (q input) i)%f64.
Definition velocity_error (i : nat) : f64 := SFopp (at_ (dq input) i).

Definition joint_impedance (torque : list f64) : list f64 :=
  for_each n_joints (λ i torque,
    <[i := (at_ torque i + (at_ (gain_joint_stiffness (gains_ c)) i * position_error i +
                            at_ (joint_damping (gains_ c)) i * velocity_error i))%f64]> torque) torque.

Definition cartesian_impedance (torque : list f64) : list f64 :=
  for_each 6 (λ row torque,
    let jac joint := at_ (flange_jacobian input) (row + 6 * joint) in
    let '(pe, ve) := for_each n_joints (λ joint '(pe, ve),
      ((pe + jac joint * position_error joint)%f64,
       (ve + jac joint * velocity_error joint)%f64)) (f0, f0) in
    let wrench := (at_ (cartesian_stiffness (gains_ c)) row * pe +
                   at_ (cartesian_damping (gains_ c)) row * ve)%f64 in
    for_each n_joints (λ joint torque,
      <[joint := (at_ torque joint + jac joint * wrench)%f64]> torque) torque) torque.

Definition cartesian_limit_force : option (list f64) :=
  for_each_opt 3 (λ axis force,
    f ← add_soft_limit (at_ (end_effector_position input) axis)
          (at_ (cartesian_lower (limits_ c)) axis) (at_ (cartesian_upper (limits_ c)) axis)
          (cartesian_margin (limits_ c)) (limit_cartesian_stiffness (limits_ c)) (at_ force axis);
    Some (<[axis := f]> force)) (replicate 3 f0).

Definition limit_joint (force : list f64) (joint : nat) (torque : list f64) : option (list f64) :=
  let torque := for_each 3 (λ axis torque,
    <[joint := (at_ torque joint +
                at_ (end_effector_jacobian input) (axis + 6 * joint) * at_ force axis)%f64]> torque) torque in
  let l := limits_ c in
  t ← add_soft_limit (at_ (q input) joint) (at_ (joint_lower l) joint) (at_ (joint_upper l) joint)
        (joint_margin l) (limit_joint_stiffness l) (at_ torque joint);
  let vmax := at_ (limit_velocity l) joint in
  t ← add_soft_limit (at_ (dq input) joint) (SFopp vmax) vmax
        (velocity_margin l) (velocity_stiffness l) t;
  let tmax := at_ (limit_torque l) joint in
  Some (<[joint := std_clamp t (SFopp tmax) tmax]> torque).
End compute.

Definition ELBOW_VELOCITY_LIMIT : f64 := lit64 2075 1000.

Definition compute (input : FR3ControllerInput) : St FR3Controller (option (list f64)) := λ c,
  let c := if negb (initialized_ c) then hold (q input) c else c in
  let torque := joint_impedance c input (coriolis input) in
  let torque := if position_command_active_ c then cartesian_impedance c input torque else torque in
  (if SFabs (elbow_velocity input) >?. ELBOW_VELOCITY_LIMIT then None
   else
     force ← cartesian_limit_force c input;
     for_each_opt n_joints (limit_joint c input force) torque, c).

(** ** Theorems *)

(** A body that throws ends the loop. *)
Lemma foldl_none {S} (body : nat → S → option S) l :
  foldl (λ o i, s ← o; body i s) None l = None.
Proof. by induction l. Qed.

(** What one pass establishes and the others keep holds for every index after
    the loop; an invariant of the state is available throughout. *)
Lemma for_each_opt_inv {S} (I : S → Prop) (P : nat → S → Prop) n body (s s' : S) :
  I s →
  (∀ j s s', j < n → I s → body j s = Some s' → I s' ∧ P j s' ∧ ∀ k, k ≠ j → P k s → P k s') →
  for_each_opt n body s = Some s' → I s' ∧ ∀ j, j < n → P j s'.
Proof.
  intros HI Hbody. unfold for_each_opt.
  assert (∀ d m s s', m + d = n → I s →
    foldl (λ o i, s ← o; body i s) (Some s) (seq m d) = Some s' →
    I s' ∧ (∀ j, m ≤ j < m + d → P j s') ∧ ∀ k, k < m → P k s → P k s') as H.
  { clear s s' HI. induction d as [|d IH]; intros m s s' Hm HI H; cbn in H.
    - injection H as <-. split_and!; [done| |done]. intros; lia.
    - destruct (body m s) as [s1|] eqn:E; [|by rewrite foldl_none in H].
      destruct (Hbody m s s1 ltac:(lia) HI E) as (HI1 & HP & Hother).
      destruct (IH (Datatypes.S m) s1 s' ltac:(lia) HI1 H) as (HI' & HPs & Hkeep).
      split_and!; [done| |].
      + intros j Hj. destruct (decide (j = m)) as [->|]; [apply Hkeep; [lia|done]|].
        apply HPs. lia.
      + intros k Hk HPk. apply Hkeep; [lia|]. apply Hother; [lia|done]. }
  intros Hrun. destruct (H n 0 s s' eq_refl HI Hrun) as (? & HP & _). split; [done|].
  intros j Hj. apply HP. lia.
Qed.

Lemma for_each_length {A} n (body : nat → list A → list A) l :
  (∀ i l, length (body i l) = length l) → length (for_each n body l) = length l.
Proof.
  intros H. unfold for_each. generalize (seq 0 n). intros ns. revert l.
  induction ns as [|i ns IH]; intros l; [done|]. cbn. by rewrite IH, H.
Qed.

Lemma for_each_other {n joint k} (body : nat → list f64 → f64) (l : list f64) : k ≠ joint →
  for_each n (λ i l, <[joint := body i l]> l) l !! k = l !! k.
Proof.
  intros Hk. unfold for_each. generalize (seq 0 n). intros ns. revert l.
  induction ns as [|i ns IH]; intros l; [done|]. cbn. rewrite IH. by apply list_lookup_insert_ne.
Qed.

Lemma at_insert_eq (l : list f64) i x : i < length l → at_ (<[i := x]> l) i = x.
Proof. intros. unfold at_. by rewrite list_lookup_insert_eq. Qed.

Lemma at_insert_ne (l : list f64) i k x : k ≠ i → at_ (<[i := x]> l) k = at_ l k.
Proof. intros. unfold at_. by rewrite list_lookup_insert_ne. Qed.

(** The value is on neither side of its hard limits, as the code measures it. *)
Definition within_hard_limits (value lower upper : f64) : Prop :=
  (value - upper)%f64 >?. f0 = false ∧ (lower - value)%f64 >?. f0 = false.

Lemma add_soft_limit_some value lower upper margin stiffness output r :
  add_soft_limit value lower upper margin stiffness output = Some r →
  within_hard_limits value lower upper.
Proof.
  unfold add_soft_limit, within_hard_limits.
  destruct (_ || _) eqn:E; [done|]. by apply orb_false_iff in E.
Qed.

Lemma std_clamp_nan lo hi : std_clamp S754_nan lo hi = S754_nan.
Proof. unfold std_clamp. by rewrite SFltb_nan_l, SFltb_nan_r. Qed.

Definition joint_safe (l : FR3ControllerLimits) (input : FR3ControllerInput) (j : nat)
    (torque : list f64) : Prop :=
  within_hard_limits (at_ (q input) j) (at_ (joint_lower l) j) (at_ (joint_upper l) j) ∧
  within_hard_limits (at_ (dq input) j) (SFopp (at_ (limit_velocity l) j)) (at_ (limit_velocity l) j) ∧
  (is_nan (at_ torque j) = true ∨
   in_range (SFopp (at_ (limit_torque l) j)) (at_ (limit_torque l) j) (at_ torque j)).

Lemma limit_joint_safe c input force joint torque torque' :
  length torque = n_joints →
  (∀ j, j < n_joints → SFopp (at_ (limit_torque (limits_ c)) j) <=?. at_ (limit_torque (limits_ c)) j = true) →
  joint < n_joints → limit_joint c input force joint torque = Some torque' →
  length torque' = n_joints ∧ joint_safe (limits_ c) input joint torque' ∧
  ∀ k, k ≠ joint → joint_safe (limits_ c) input k torque → joint_safe (limits_ c) input k torque'.
Proof.
  intros Hlen Hle Hj. unfold limit_joint. set (t3 := for_each 3 _ torque).
  assert (length t3 = n_joints) as Hlen3.
  { subst t3. rewrite for_each_length; [done|]. intros. apply length_insert. }
  destruct (add_soft_limit (at_ (q input) joint) _ _ _ _ _) as [t1|] eqn:E1; [|done]. cbn [mbind option_bind].
  destruct (add_soft_limit (at_ (dq input) joint) _ _ _ _ _) as [t2|] eqn:E2; [|done]. cbn [mbind option_bind].
  intros [= <-]. rewrite length_insert. split; [done|].
  apply add_soft_limit_some in E1, E2. split.
  - split; [done|]. split; [done|]. 
    rewrite at_insert_eq by (rewrite Hlen3; done).
    destruct (is_nan t2) eqn:Hn; [left|right].
    + destruct t2; try done. by rewrite std_clamp_nan.
    + apply std_clamp_in_range; [done|]. by apply Hle.
  - intros k Hk (H1 & H2 & H3). split; [done|]. split; [done|].
    rewrite at_insert_ne by done. subst t3. unfold at_. by rewrite for_each_other.
Qed.

Lemma compute_checks c input torque :
  length (coriolis input) = n_joints →
  (∀ j, j < n_joints → SFopp (at_ (limit_torque (limits_ c)) j) <=?. at_ (limit_torque (limits_ c)) j = true) →
  fst (compute input c) = Some torque →
  SFabs (elbow_velocity input) >?. ELBOW_VELOCITY_LIMIT = false ∧
  (∀ axis, axis < 3 → within_hard_limits (at_ (end_effector_position input) axis)
     (at_ (cartesian_lower (limits_ c)) axis) (at_ (cartesian_upper (limits_ c)) axis)) ∧
  ∀ j, j < n_joints → joint_safe (limits_ c) input j torque.
Proof.
  intros Hlen Hle. unfold compute. set (c' := if negb (initialized_ c) then _ else c).
  assert (limits_ c' = limits_ c) as Hlim by (by subst c'; destruct (initialized_ c)).
  cbn [fst]. set (t0 := if position_command_active_ c' then _ else _).
  assert (length t0 = n_joints) as Hlen0.
  { subst t0. destruct (position_command_active_ c'); unfold cartesian_impedance, joint_impedance.
    - rewrite for_each_length; [rewrite for_each_length; [done|]|]; intros.
      + apply length_insert.
      + destruct (for_each n_joints _ (f0, f0)). apply for_each_length. intros. apply length_insert.
    - rewrite for_each_length; [done|]. intros. apply length_insert. }
  destruct (SFltb ELBOW_VELOCITY_LIMIT (SFabs (elbow_velocity input))) eqn:Ee; [done|].
  destruct (cartesian_limit_force c' input) as [force|] eqn:Ef; [|done]. cbn [mbind option_bind]. intros Ht.
  split; [done|]. split.
  - unfold cartesian_limit_force in Ef. rewrite Hlim in Ef.
    eapply (for_each_opt_inv (λ _, True) (λ axis _, within_hard_limits _ _ _)) in Ef; [|done|].
    + exact (proj2 Ef).
    + intros j s s' _ _ H. split; [done|]. split; [|done].
      destruct (add_soft_limit _ _ _ _ _ _) eqn:E; [|done]. by eapply add_soft_limit_some.
  - eapply (for_each_opt_inv (λ t, length t = n_joints) (joint_safe (limits_ c) input)) in Ht;
      [exact (proj2 Ht)|done|].
    intros j s s' Hj Hs H. rewrite <- Hlim in *. by eapply limit_joint_safe.
Qed.

(** Safety of the control law.  Whatever the gains, targets, Jacobians and
    measurements, when [compute] returns, the elbow speed, every joint position
    and velocity and the tool position passed their hard-limit tests, and every
    torque is within the joint's torque limit unless it is NaN; otherwise it
    throws. *)
Theorem compute_safe c input torque :
  length (coriolis input) = n_joints →
  (∀ j, j < n_joints → SFopp (at_ (limit_torque (limits_ c)) j) <=?. at_ (limit_torque (limits_ c)) j = true) →
  fst (compute input c) = Some torque →
  SFabs (elbow_velocity input) >?. ELBOW_VELOCITY_LIMIT = false ∧
  (∀ axis, axis < 3 → within_hard_limits (at_ (end_effector_position input) axis)
     (at_ (cartesian_lower (limits_ c)) axis) (at_ (cartesian_upper (limits_ c)) axis)) ∧
  ∀ j, j < n_joints → joint_safe (limits_ c) input j torque.
Proof. intros Hlen Hle Hrun. by apply (compute_checks c). Qed.

Definition input_example : FR3ControllerInput := mkInput
  (dc <$> [0; 0; 0; -100; 0; 200; 0]%Z) (replicate 7 f0) (replicate 7 f0)
  (replicate 42 f0) (replicate 42 f0) (replicate 3 f0) f0.
Definition controller_example : FR3Controller :=
  set_target (dc <$> [100; 0; 0; -100; 0; 200; 0]%Z) (new_FR3Controller default_gains default_limits).

Lemma compute_safe_witness :
  ∃ torque, fst (compute input_example controller_example) = Some torque ∧
  ∀ j, j < n_joints → joint_safe default_limits input_example j torque.
Proof.
  destruct (fst (compute input_example controller_example)) as [torque|] eqn:E;
    [|vm_compute in E; discriminate].
  exists torque. split; [reflexivity|].
  apply (compute_safe controller_example input_example torque); [reflexivity| |exact E].
  intros j Hj. unfold n_joints in Hj. do 7 (destruct j as [|j]; [vm_compute; reflexivity|]). lia.
Defined.
