(* ===== verification/CurrentEstimation.v ===== *)
(** * Supply-current estimation (src/pi_current_estimation.cpp)

    Expressions that mix [float] operands with [double] literals are evaluated in
    [double] and rounded back where the code stores them. *)

From S2P Require Import Prelude.
From S2P Require Import FloatSpec.

Record MotorParams := mkMotorParams {
  kt0_ : f32;
  r0_ : f32;
  t0_ : f32;
  beta_ : f32;
  alpha_ : f32;
  c1_ : f32;
  c2_ : f32;
  eta_inv_ : f32;
  p_drv_ : f32;
  eta_g_ : f32;
  gear_ratio_ : f32;
}.

Definition default_MotorParams : MotorParams := mkMotorParams
  f0 f0 (f32_of_Z 25) (to_f32 (lit64 (-15) 10000)) (to_f32 (lit64 39 10000)) f0 f0
  (to_f32 (lit64 96 100)) f0 f1 f1.

Record CalibParams := mkCalibParams {
  a_gain_ : f32;
  b_offset_ : f32;
  i_baseline_ : f32;
  beta_scale_ : f32;
  alpha_scale_ : f32;
  delta_t_winding_ : f32;
  stall_gain_ : f32;
  stall_omega_thr_ : f32;
}.

(** The constructor of [CurrentEstimation]. *)
Definition calib_params_ : CalibParams := mkCalibParams
  (to_f32 (lit64 256 1000)) f0 (to_f32 (lit64 16 1000)) (to_f32 (lit64 90 100))
  (to_f32 (lit64 29 10)) (f32_of_Z 5) (to_f32 (lit64 25 10)) (to_f32 (lit64 5 100)).

Definition d1 : f64 := f64_of_Z 1.
Definition EPS : f32 := lit32 1 1000000.

Definition kt_at_T (motor_params : MotorParams) (temperature beta_scale delta_T_winding : f32) : f32 :=
  let T_w := (temperature + delta_T_winding)%f32 in
  to_f32 (to_f64 (kt0_ motor_params) *
    (d1 + to_f64 ((beta_ motor_params * beta_scale) * (T_w - t0_ motor_params))%f32))%f64.

Definition R_at_T_scaled (motor_params : MotorParams) (temperature alpha_scale delta_T_winding : f32) : f32 :=
  let T_w := (temperature + delta_T_winding)%f32 in
  to_f32 (to_f64 (r0_ motor_params) *
    (d1 + to_f64 ((alpha_ motor_params * alpha_scale) * (T_w - t0_ motor_params))%f32))%f64.

Definition iron_loss (motor_params : MotorParams) (velocity : f32) : f32 :=
  if (c1_ motor_params =?. f0) && (c2_ motor_params =?. f0) then f0
  else (c1_ motor_params * SFabs velocity + c2_ motor_params * (velocity * velocity))%f32.

Definition electromagnetic_torque (base_tau_em velocity J domega_dt B tau_coulomb tau_gravity eta_g : f32)
    : f32 :=
  let tau_inertia := (J * domega_dt)%f32 in
  let tau_friction := (B * velocity + tau_coulomb)%f32 in
  let tau_total := (base_tau_em + tau_inertia + tau_friction + tau_gravity)%f32 in
  (tau_total / eta_g)%f32.

Definition estimate_idc_calibrated (motor_params : MotorParams)
    (torque velocity temperature vdc max_torque : f32) (use_load_torque : bool)
    (J domega_dt B tau_coulomb tau_gravity : f32) : f32 :=
  let tau_em :=
    if use_load_torque then
      let base_tau_em := (torque / fmax_ (gear_ratio_ motor_params) EPS)%f32 in
      electromagnetic_torque base_tau_em velocity J domega_dt B tau_coulomb tau_gravity
        (eta_g_ motor_params)
    else torque in
  let tau_em_abs := SFabs tau_em in
  let velocity_abs := SFabs velocity in
  let Kt := fmax_ (kt_at_T motor_params temperature (beta_scale_ calib_params_)
                     (delta_t_winding_ calib_params_)) EPS in
  let Rph := R_at_T_scaled motor_params temperature (alpha_scale_ calib_params_)
               (delta_t_winding_ calib_params_) in
  let P_mech := (tau_em_abs * velocity_abs)%f32 in
  let P_fe := iron_loss motor_params velocity_abs in
  let amps := to_f64 (tau_em_abs / Kt)%f32 in
  let P_cu := to_f32 (f64_of_Z 3 * to_f64 Rph * amps * amps)%f64 in
  let P_drv := p_drv_ motor_params in
  let I_model := ((P_mech + P_cu + P_fe + P_drv) / fmax_ (eta_inv_ motor_params * vdc) EPS)%f32 in
  let is_stall := (SFabs torque >?. max_torque) && (SFabs velocity <?. stall_omega_thr_ calib_params_) in
  let I_model := if is_stall then (I_model * stall_gain_ calib_params_)%f32 else I_model in
  let I_hat := (a_gain_ calib_params_ * I_model + b_offset_ calib_params_ + i_baseline_ calib_params_)%f32 in
  fmax_ I_hat f0.

(** ** Theorems *)

Lemma fmax_ge_r a b : is_nan a = false → is_nan b = false → b <=?. fmax_ a b = true.
Proof.
  intros Ha Hb. unfold fmax_. destruct (a <?. b) eqn:E; eauto with pi.
Qed.

Lemma fmax_nan_or_ge a b : is_nan b = false → is_nan (fmax_ a b) = true ∨ b <=?. fmax_ a b = true.
Proof.
  intros Hb. destruct (is_nan a) eqn:E; [left|right; by apply fmax_ge_r].
  by destruct a.
Qed.

(** The estimate is never negative: for all motor parameters, measurements
    and supplies it is NaN or at least zero. *)
Theorem estimate_not_negative mp torque velocity temperature vdc max_torque ult J a B tc tg :
  let I := estimate_idc_calibrated mp torque velocity temperature vdc max_torque ult J a B tc tg in
  is_nan I = true ∨ f0 <=?. I = true.
Proof. cbv zeta. unfold estimate_idc_calibrated. cbv zeta. by apply fmax_nan_or_ge. Qed.
