(* ===== verification/CanBus.v ===== *)
(** * SocketCAN transport and the servo registry
    (src/pi_driver.cpp, include/pi_driver.hpp, src/pi_driver_can.cpp,
    include/pi_driver_can.hpp)

    [Registry] is the pair of process-wide maps of [Driver].  [Bus] is the state
    of a [DriverCan] as the control thread sees it; what the kernel answers to
    each system call and what the monotonic clock shows at each reading is the
    parameter [env].  Calls of the control thread run to completion, a join
    included; frames that the reception thread delivers are separate operations
    of the drivers built on this file. *)

From S2P Require Import Prelude.
From S2P Require Import Control.

(** ** Frames *)

Record can_frame := mkFrame {
  can_id : Z;            (* uint32 *)
  can_dlc : Z;           (* uint8 *)
  data : list Z;         (* eight bytes *)
}.
#[export] Instance eta_can_frame : Eta can_frame := λ r, mkFrame (can_id r) (can_dlc r) (data r).

#[export] Instance can_frame_eq_dec : EqDecision can_frame.
Proof. solve_decision. Defined.

Definition zero_frame : can_frame := mkFrame 0 0 (replicate 8 0).

(** [frame.data[i]], for the constant indices the code uses. *)
Definition byte (f : can_frame) (i : nat) : Z := nth i (data f) 0.

Definition frame_wf (f : can_frame) : Prop :=
  is_unsigned 32 (can_id f) ∧ is_byte (can_dlc f) ∧ length (data f) = 8%nat ∧ Forall is_byte (data f).

Lemma byte_range f i : frame_wf f → is_byte (byte f i).
Proof.
  intros (_ & _ & _ & H). unfold byte. destruct (nth_in_or_default i (data f) 0) as [Hin| ->].
  - by eapply Forall_forall in H; [|apply list_elem_of_In].
  - done.
Qed.

(** A frame of [bytes], zero-padded to eight. *)
Definition make_frame (id dlc : Z) (bytes : list Z) : can_frame :=
  mkFrame id dlc (take 8 (bytes ++ replicate 8 0)).

(** ** The registry *)

Definition ptr : Type := positive.

Record Registry := mkRegistry {
  map_id_to_data_index_ : gmap Z Z;
  map_id_to_servo_ : gmap Z ptr;
}.
#[export] Instance eta_Registry : Eta Registry := λ r,
  mkRegistry (map_id_to_data_index_ r) (map_id_to_servo_ r).

Definition empty_registry : Registry := mkRegistry ∅ ∅.

Definition register_servo_data_index (servo_id servo_data_index : Z) (p_servo : ptr)
    (r : Registry) : Registry :=
  r <| map_id_to_data_index_ := <[servo_id := servo_data_index]> (map_id_to_data_index_ r) |>
    <| map_id_to_servo_ := <[servo_id := p_servo]> (map_id_to_servo_ r) |>.

Definition find_data_index (r : Registry) (servo_id : Z) : Z :=
  match map_id_to_data_index_ r !! servo_id with None => -1 | Some i => i end.

Definition find_servo (r : Registry) (servo_id : Z) : option ptr :=
  map_id_to_servo_ r !! servo_id.

(** [lock_registered_servo(id).get()]: the lookup under the registry lock. *)
Definition lock_registered_servo (r : Registry) (servo_id : Z) : option ptr :=
  map_id_to_servo_ r !! servo_id.

(** The loop over [map_id_to_servo_] that erases every entry of the servo, in
    both maps, in key order. *)
Definition unregister_servo (p_servo : ptr) (r : Registry) : Registry :=
  foldl (λ r '(id, p),
    if decide (p = p_servo)
    then r <| map_id_to_data_index_ := delete id (map_id_to_data_index_ r) |>
           <| map_id_to_servo_ := delete id (map_id_to_servo_ r) |>
    else r) r (map_to_list (map_id_to_servo_ r)).

(** ** The socket *)

Record BusEnv := mkBusEnv {
  env_clock : nat → Z;                       (* nanoseconds at the n-th reading *)
  env_socket : nat → Z;                      (* return values, per system call number *)
  env_ioctl : nat → Z;
  env_bind : nat → Z;
  env_select : nat → Z * bool;               (* return value, errno = EINTR *)
  env_write : nat → Z;
  env_recvmsg : nat → Z * bool * can_frame;  (* bytes, MSG_TRUNC, buffer *)
}.

Record Bus := mkBus {
  sock_ : Z;
  is_running_ : bool;
  reception_joinable : bool;      (* reception_thread_.joinable() *)
  io_count : nat;
  clock_count : nat;
  sent : list can_frame;          (* frames written to the socket, latest first *)
}.
#[export] Instance eta_Bus : Eta Bus := λ r, mkBus
  (sock_ r) (is_running_ r) (reception_joinable r) (io_count r) (clock_count r) (sent r).

Definition new_Bus : Bus := mkBus (-1) false false 0 0 [].

Definition sizeof_can_frame : Z := 16.

Section bus.
Context (env : BusEnv).

Definition syscall {A} (answer : nat → A) : St Bus A := λ b,
  (answer (io_count b), b <| io_count := S (io_count b) |>).

Definition get_time_now : St Bus prof_time_t := λ b,
  (env_clock env (clock_count b), b <| clock_count := S (clock_count b) |>).

Definition is_socket_open (b : Bus) : bool := 0 <=? sock_ b.

(** Joining the reception thread makes it finish its loop. *)
Definition join_reception_thread : St Bus unit :=
  modify (λ b, if reception_joinable b
               then b <| reception_joinable := false |> <| is_running_ := false |> else b).

Definition stop_reception : St Bus ReturnCode :=
  modify (λ b, b <| is_running_ := false |>);;
  join_reception_thread;;
  mret SUCCESS.

Definition bus_close : St Bus ReturnCode :=
  stop_reception;;
  modify (λ b, if 0 <=? sock_ b then b <| sock_ := -1 |> else b);;
  mret SUCCESS.

Definition bus_open : St Bus ReturnCode :=
  open ← gets is_socket_open;
  if (open : bool) then mret SUCCESS
  else
    s ← syscall (env_socket env);
    modify (λ b, b <| sock_ := s |>);;
    if s <? 0 then mret FAIL
    else
      i ← syscall (env_ioctl env);
      if i <? 0 then bus_close;; mret FAIL
      else
        r ← syscall (env_bind env);
        if r <? 0 then bus_close;; mret FAIL
        else mret SUCCESS.

Definition start_reception (callback : bool) : St Bus ReturnCode :=
  if negb callback then mret INVALID_PARAM
  else
    running ← gets is_running_;
    if (running : bool) then mret SUCCESS
    else
      join_reception_thread;;
      open ← gets is_socket_open;
      if negb open then mret FAIL
      else
        modify (λ b, b <| is_running_ := true |> <| reception_joinable := true |>);;
        mret SUCCESS.

(** The buffer is a frame ([Some]) of the size the caller passes. *)
Definition send_frame_buf (p_data_buf : option can_frame) (data_buf_size : Z) : St Bus ReturnCode :=
  match p_data_buf with
  | None => mret INVALID_PARAM
  | Some frame =>
      if negb (data_buf_size =? sizeof_can_frame) then mret INVALID_PARAM
      else
        open ← gets is_socket_open;
        if negb open then mret FAIL
        else
          '(ret, eintr) ← syscall (env_select env);
          if ret <? 0 then mret (if (eintr : bool) then BUSY else FAIL)
          else if ret =? 0 then mret BUSY
          else
            nbytes ← syscall (env_write env);
            if nbytes <? 0 then mret FAIL
            else
              modify (λ b, b <| sent := frame :: sent b |>);;
              mret SUCCESS
  end.

(** The frame is the buffer after the call; it is meaningful on [SUCCESS]. *)
Definition read_frame_buf (data_buf_size : Z) : St Bus (ReturnCode * can_frame) :=
  if negb (data_buf_size =? sizeof_can_frame) then mret (INVALID_PARAM, zero_frame)
  else
    open ← gets is_socket_open;
    if negb open then mret (FAIL, zero_frame)
    else
      '(ret, eintr) ← syscall (env_select env);
      if ret <? 0 then mret (if (eintr : bool) then NO_RESPONSE else FAIL, zero_frame)
      else if ret =? 0 then mret (NO_RESPONSE, zero_frame)
      else
        '(nbytes, trunc, frame) ← syscall (env_recvmsg env);
        if nbytes <? 0 then mret (FAIL, zero_frame)
        else if (trunc : bool) then mret (FAIL, frame)
        else if nbytes <? sizeof_can_frame then mret (FAIL, frame)
        else mret (SUCCESS, frame).

(** The calls as the drivers make them: [send_frame(&frame, sizeof(frame))]. *)
Definition send_frame (frame : can_frame) : St Bus ReturnCode :=
  send_frame_buf (Some frame) sizeof_can_frame.
Definition read_frame : St Bus (ReturnCode * can_frame) := read_frame_buf sizeof_can_frame.
End bus.

(** ** What an exchange on an open socket leaves alone

    Frames go out ([allowed] says which), the lifecycle does not change. *)
Definition traffic (allowed : can_frame → Prop) (b b' : Bus) : Prop :=
  sock_ b' = sock_ b ∧ is_running_ b' = is_running_ b ∧ reception_joinable b' = reception_joinable b ∧
  ∃ new, sent b' = new ++ sent b ∧ Forall allowed new.

#[export] Instance traffic_preorder allowed : PreOrder (traffic allowed).
Proof.
  split.
  - intros b. split_and!; try done. by exists [].
  - intros b1 b2 b3 (E1 & E2 & E3 & n1 & F1 & A1) (G1 & G2 & G3 & n2 & F2 & A2).
    split_and!; try congruence. exists (n2 ++ n1). split; [by rewrite F2, F1, (assoc_L (++))|].
    by apply Forall_app.
Qed.

Lemma syscall_traffic allowed {A} (answer : nat → A) : steps (traffic allowed) (syscall answer).
Proof. intros b. split_and!; try done. by exists []. Qed.

Lemma get_time_now_traffic env allowed : steps (traffic allowed) (get_time_now env).
Proof. intros b. split_and!; try done. by exists []. Qed.

#[export] Hint Resolve syscall_traffic get_time_now_traffic : steps.

Lemma send_frame_traffic env (allowed : can_frame → Prop) f :
  allowed f → steps (traffic allowed) (send_frame env f).
Proof.
  intros Hf. unfold send_frame, send_frame_buf. steps_go.
  apply steps_modify. intros b'. split_and!; try done. exists [f]. split; [done|]. by constructor.
Qed.

Lemma read_frame_traffic env allowed : steps (traffic allowed) (read_frame env).
Proof. unfold read_frame, read_frame_buf. steps_go. Qed.

#[export] Hint Resolve send_frame_traffic read_frame_traffic : steps.

(** ** Theorems: the registry *)

(** Both maps know the same servos. *)
Definition registry_wf (r : Registry) : Prop :=
  dom (map_id_to_data_index_ r) = dom (map_id_to_servo_ r).

Lemma register_wf id i p r : registry_wf r → registry_wf (register_servo_data_index id i p r).
Proof. unfold registry_wf. cbn. rewrite !dom_insert_L. by intros ->. Qed.

Lemma unregister_fold (p : ptr) (l : list (Z * ptr)) r :
  let r' := foldl (λ r '(id, q),
    if decide (q = p)
    then r <| map_id_to_data_index_ := delete id (map_id_to_data_index_ r) |>
           <| map_id_to_servo_ := delete id (map_id_to_servo_ r) |>
    else r) r l in
  ∀ id,
    map_id_to_servo_ r' !! id =
      (if decide ((id, p) ∈ l) then None else map_id_to_servo_ r !! id) ∧
    map_id_to_data_index_ r' !! id =
      (if decide ((id, p) ∈ l) then None else map_id_to_data_index_ r !! id).
Proof.
  revert r. induction l as [|[id' q] l IH]; intros r r' id; [subst r'; cbn; by rewrite decide_False by apply not_elem_of_nil|].
  subst r'. cbn [foldl]. destruct (IH (if decide (q = p)
    then r <| map_id_to_data_index_ := delete id' (map_id_to_data_index_ r) |>
           <| map_id_to_servo_ := delete id' (map_id_to_servo_ r) |> else r) id) as [-> ->].
  destruct (decide ((id, p) ∈ l)) as [Hin|Hin].
  - by rewrite !decide_True by by right.
  - destruct (decide (q = p)) as [->|Hqp]; cbn.
    + destruct (decide (id = id')) as [->|Hne].
      * rewrite !decide_True by left. by rewrite !lookup_delete_eq.
      * rewrite !decide_False by (rewrite elem_of_cons; intros [[= ?]|?]; done).
        by rewrite !lookup_delete_ne.
    + by rewrite !decide_False by (rewrite elem_of_cons; intros [[= ??]|?]; done).
Qed.

Lemma unregister_lookup p r id :
  map_id_to_servo_ (unregister_servo p r) !! id =
    (if decide (map_id_to_servo_ r !! id = Some p) then None else map_id_to_servo_ r !! id) ∧
  map_id_to_data_index_ (unregister_servo p r) !! id =
    (if decide (map_id_to_servo_ r !! id = Some p) then None else map_id_to_data_index_ r !! id).
Proof.
  unfold unregister_servo. destruct (unregister_fold p (map_to_list (map_id_to_servo_ r)) r id) as [-> ->].
  assert ((id, p) ∈ map_to_list (map_id_to_servo_ r) ↔ map_id_to_servo_ r !! id = Some p) as H
    by apply elem_of_map_to_list.
  by rewrite !(decide_ext _ _ _ _ H).
Qed.

Lemma unregister_wf p r : registry_wf r → registry_wf (unregister_servo p r).
Proof.
  unfold registry_wf. intros H. apply set_eq. intros id.
  destruct (unregister_lookup p r id) as [E1 E2].
  rewrite !elem_of_dom, E1, E2. case_decide; [done|]. rewrite <- !elem_of_dom. by rewrite H.
Qed.

(** Histories of the registry. *)
Inductive registry_op := RegOp (servo_id data_index : Z) (p : ptr) | UnregOp (p : ptr).

Definition registry_step (r : Registry) (o : registry_op) : Registry :=
  match o with
  | RegOp id i p => register_servo_data_index id i p r
  | UnregOp p => unregister_servo p r
  end.

Definition registry_run (os : list registry_op) : Registry := foldl registry_step empty_registry os.

Lemma registry_run_wf os : registry_wf (registry_run os).
Proof.
  unfold registry_run. induction os as [|o os IH] using rev_ind; [done|].
  rewrite foldl_snoc. destruct o; cbn; [by apply register_wf | by apply unregister_wf].
Qed.

(** No dangling servo.  Whatever the history, once a servo has unregistered
    no id leads to it, every id it held is unknown in both maps (its data index
    is -1, which the parsers reject), and the entries of the other servos are
    unchanged. *)
Theorem unregister_no_dangling os p id :
  let r := registry_run os in
  let r' := registry_run (os ++ [UnregOp p]) in
  find_servo r' id ≠ Some p ∧
  (find_servo r id = Some p → find_data_index r' id = -1 ∧ lock_registered_servo r' id = None) ∧
  (find_servo r id ≠ Some p → find_servo r' id = find_servo r id ∧
                               find_data_index r' id = find_data_index r id) ∧
  (find_servo r' id = None → find_data_index r' id = -1).
Proof.
  intros r r'. assert (registry_wf r') as Hwf by apply registry_run_wf.
  assert (r' = unregister_servo p r) as E by (subst r' r; unfold registry_run; by rewrite foldl_snoc).
  destruct (unregister_lookup p r id) as [E1 E2]. rewrite <- E in E1, E2.
  unfold find_servo, find_data_index, lock_registered_servo. rewrite E1, E2.
  split_and!.
  - case_decide; [done|congruence].
  - intros H. by rewrite !decide_True by done.
  - intros H. by rewrite !decide_False by done.
  - intros H. assert (id ∉ dom (map_id_to_data_index_ r')) as Hd.
    { rewrite Hwf. apply not_elem_of_dom. by rewrite E1. }
    apply not_elem_of_dom in Hd. rewrite E2 in Hd. by rewrite Hd.
Qed.
