(* ===== verification/Servo.v ===== *)
(** * Servo base class (src/pi_servo.cpp, include/pi_servo.hpp)

    [Servo] is the object with the fields of [Servo]; the part that only a
    [ServoDm] has is [dm_], so [dynamic_cast<ServoDm*>] succeeds when it is
    [Some].  What a servo reads of its [Joint] is a [JointView]; [p_servo_param_]
    is null before the model configuration is read. *)

From S2P Require Import Prelude.
From S2P Require Import FloatSpec.
From S2P Require Import Control.
From S2P Require Import HoldChecker.
From S2P Require Import CurrentEstimation.
From S2P Require Import SafeMode.
From S2P Require Import CanBus.

(** ** Data *)

Record ServoParam := mkServoParam {
  tolerable_pos_difference_rad_ : f32;
  max_pos_difference_rad_ : f32;
  velocity_threshold_rad_sec_ : f32;
}.

(** include/pi_servo_dm.hpp; a servo that is not a [ServoDm] uses the base part
    only. *)
Record ServoDmParam := mkServoDmParam {
  kp_min_ : f32;
  kp_max_ : f32;
  kd_min_ : f32;
  kd_max_ : f32;
  pos_min_ : f32;
  pos_max_ : f32;
  vel_min_ : f32;
  vel_max_ : f32;
  tor_min_ : f32;
  tor_max_ : f32;
  servo_param : ServoParam;
}.
#[export] Instance eta_ServoDmParam : Eta ServoDmParam := λ r, mkServoDmParam
  (kp_min_ r) (kp_max_ r) (kd_min_ r) (kd_max_ r) (pos_min_ r) (pos_max_ r)
  (vel_min_ r) (vel_max_ r) (tor_min_ r) (tor_max_ r) (servo_param r).

(** The private fields of [ServoDm] besides its driver pointer. *)
Record ServoDmPart := mkServoDmPart {
  checker_motor_no_response_ : HoldChecker;
  motor_moved_ : bool;
  last_reported_fault_code_ : Z;
  thermal_fault_latched_ : bool;
  encos_param_override_ : option ServoDmParam;
  reported_spd_range_valid_ : bool;
  reported_spd_min_ : f32;
  reported_spd_max_ : f32;
  reported_tor_range_valid_ : bool;
  reported_tor_min_ : f32;
  reported_tor_max_ : f32;
}.
#[export] Instance eta_ServoDmPart : Eta ServoDmPart := λ r, mkServoDmPart
  (checker_motor_no_response_ r) (motor_moved_ r) (last_reported_fault_code_ r)
  (thermal_fault_latched_ r) (encos_param_override_ r) (reported_spd_range_valid_ r)
  (reported_spd_min_ r) (reported_spd_max_ r) (reported_tor_range_valid_ r)
  (reported_tor_min_ r) (reported_tor_max_ r).

(** What the constructor [ServoDm::ServoDm] and the member initialisers set;
    500 is MAX_CNT_MOTOR_NO_RESPONSE_INITIAL. *)
Definition MAX_CNT_MOTOR_NO_RESPONSE_INITIAL : Z := 500.
Definition new_ServoDmPart : ServoDmPart := mkServoDmPart
  (new_HoldChecker MAX_CNT_MOTOR_NO_RESPONSE_INITIAL) false 0 false None false f0 f0 false f0 f0.

Record JointView := mkJointView {
  joint_tele_pos_rad : f32;        (* get_tele_pos_rad() *)
  joint_torq_min : f32;
  joint_torq_max : f32;
  joint_pos_error_margin : f32;
  joint_torq_rescale : f32;
}.

Record Servo := mkServo {
  servo_model_ : string;
  id_ : Z;
  data_index_ : Z;
  pos_kp_ : f32;
  pos_ki_ : f32;
  pos_kd_ : f32;
  kt_ : f32;
  kv_ : f32;
  ka_ : f32;
  dir_invert_ : Z;
  abs_position_ : bool;
  zero_pos_abs_ : f32;
  position_wrap_period_ : f32;
  position_wrap_offset_rel_ : f32;
  position_wrap_initialized_ : bool;
  spring_home_pos_rel_ : f32;
  home_pos_rel_ : f32;
  pos_min_rel_ : f32;
  pos_max_rel_ : f32;
  pos_min_configured_ : bool;
  pos_max_configured_ : bool;
  curr_pos_abs_ : f32;
  curr_vel_ : f32;
  curr_tor_ : f32;
  temperature_ : f32;
  motor_error_code_ : Z;
  idc_current_ : f32;
  response_delay_ : f32;
  pre_pos_abs_ : f32;
  prev_pos_ : f32;
  prev_vel_ : f32;
  prev_tor_ : f32;
  motor_params_current_estimation_ : MotorParams;
  p_joint_ : option JointView;
  parked_ : bool;
  type_ : ServoType;
  checker_pos_exceed_ : HoldChecker;
  checker_vel_exceed_ : HoldChecker;
  checker_tor_exceed_ : HoldChecker;
  torque_mode_disabled_warning_active_ : bool;
  checker_pos_difference_exceed_ : HoldChecker;
  checker_temperature_exceed_ : HoldChecker;
  safe_mode_ : SafeMode;
  p_servo_param_ : option ServoDmParam;
  dm_ : option ServoDmPart;
}.
#[export] Instance eta_Servo : Eta Servo := λ r, mkServo
  (servo_model_ r) (id_ r) (data_index_ r) (pos_kp_ r) (pos_ki_ r) (pos_kd_ r) (kt_ r) (kv_ r)
  (ka_ r) (dir_invert_ r) (abs_position_ r) (zero_pos_abs_ r) (position_wrap_period_ r)
  (position_wrap_offset_rel_ r) (position_wrap_initialized_ r) (spring_home_pos_rel_ r)
  (home_pos_rel_ r) (pos_min_rel_ r) (pos_max_rel_ r) (pos_min_configured_ r)
  (pos_max_configured_ r) (curr_pos_abs_ r) (curr_vel_ r) (curr_tor_ r) (temperature_ r)
  (motor_error_code_ r) (idc_current_ r) (response_delay_ r) (pre_pos_abs_ r) (prev_pos_ r)
  (prev_vel_ r) (prev_tor_ r) (motor_params_current_estimation_ r) (p_joint_ r) (parked_ r)
  (type_ r) (checker_pos_exceed_ r) (checker_vel_exceed_ r) (checker_tor_exceed_ r)
  (torque_mode_disabled_warning_active_ r) (checker_pos_difference_exceed_ r)
  (checker_temperature_exceed_ r) (safe_mode_ r) (p_servo_param_ r) (dm_ r).

Definition MAX_CNT_POS_EXCEED : Z := 100.
Definition MAX_CNT_VEL_EXCEED : Z := 100.
Definition MAX_CNT_TOR_EXCEED : Z := 300.
Definition MAX_CNT_POS_DIFFERENCE_EXCEED : Z := 1000.
Definition MAX_CNT_TEMPERATURE_EXCEED : Z := 100.

(** The constructor.  Fields without an initialiser ([id_], [data_index_],
    [pos_min_rel_], [pos_max_rel_], the position gains) are indeterminate in C++;
    they are zero here and the configuration sets them. *)
Definition new_Servo (p_device : Device) (p_joint : option JointView) : Servo := mkServo
  "" 0 0 f0 f0 f0 f0 f0 f0 1 false f0 f0 f0 false f0 f0 f0 f0 false false f0 f0 f0 f0 0 f0 f0
  f0 f0 f0 f0 default_MotorParams p_joint false TYPE_NOT_SUPPORTED
  (new_HoldChecker MAX_CNT_POS_EXCEED) (new_HoldChecker MAX_CNT_VEL_EXCEED)
  (new_HoldChecker MAX_CNT_TOR_EXCEED) false
  (new_HoldChecker MAX_CNT_POS_DIFFERENCE_EXCEED) (new_HoldChecker MAX_CNT_TEMPERATURE_EXCEED)
  (new_SafeMode (cla_safety_feature_off p_device) (cla_safety_torque_mode p_device)) None None.

(** ** Frames of reference and limits *)

(** [torq_rescale] is filled in by the joint. *)
Record MitCodecReport := mkMitCodecReport {
  codec_vel_min : f32; codec_vel_max : f32; codec_tor_min : f32; codec_tor_max : f32;
  report_spd_valid : bool; report_spd_min : f32; report_spd_max : f32;
  report_tor_valid : bool; report_tor_min : f32; report_tor_max : f32;
  report_pos_kp : f32; report_pos_kd : f32;
}.

Definition get_pos_rad_relative_of (s : Servo) (rad_absolute : f32) : f32 :=
  let relative := ((rad_absolute - zero_pos_abs_ s) * f32_of_Z (dir_invert_ s) +
                   position_wrap_offset_rel_ s)%f32 in
  if abs_position_ s then SFabs relative else relative.

Definition get_pos_rad_relative (s : Servo) : f32 := get_pos_rad_relative_of s (curr_pos_abs_ s).

Definition get_pos_rad_absolute_of (s : Servo) (rad_relative : f32) : f32 :=
  ((rad_relative - position_wrap_offset_rel_ s) * f32_of_Z (dir_invert_ s) + zero_pos_abs_ s)%f32.

Definition get_tele_pos_rad (s : Servo) : f32 :=
  match p_joint_ s with None => f0 | Some j => joint_tele_pos_rad j end.

Definition get_tor_max (s : Servo) : f32 :=
  match p_joint_ s with None => f0 | Some j => joint_torq_max j end.

Definition get_pos_error_margin (s : Servo) : f32 :=
  match p_joint_ s with None => f0 | Some j => joint_pos_error_margin j end.

(** The comparisons dereference [p_servo_param_]; the model configuration sets it
    before they run. *)
Definition exceeds_param (threshold : ServoParam → f32) (s : Servo) : bool :=
  let pos_difference := (get_pos_rad_relative s - get_tele_pos_rad s)%f32 in
  match p_servo_param_ s with
  | Some p => SFabs pos_difference >?. threshold (servo_param p)
  | None => false
  end.

Definition is_behind_more_than_max_threshold : Servo → bool := exceeds_param max_pos_difference_rad_.
Definition is_behind_more_than_tolerable_threshold : Servo → bool :=
  exceeds_param tolerable_pos_difference_rad_.

#[export] Instance Servo_view : ServoView Servo := {
  view_pos_rad_relative := get_pos_rad_relative;
  view_vel_rad_sec := curr_vel_;
  view_tor_nm := curr_tor_;
  view_behind_tolerable := is_behind_more_than_tolerable_threshold;
  view_pos_max_rel := pos_max_rel_;
  view_pos_min_rel := pos_min_rel_;
}.

Definition get_adjusted_pos_kp (d : Device) (s : Servo) : f32 :=
  if is_force_feedback_enabled d && negb (is_in_any_move_to_ready_state d)
  then (cla_force_feedback d * pos_kp_ s)%f32 else pos_kp_ s.

Definition get_adjusted_pos_kd (d : Device) (s : Servo) : f32 :=
  if is_force_feedback_enabled d && negb (is_in_any_move_to_ready_state d) then f0 else pos_kd_ s.

(** [initialize_position_wrap]: the whole-turn offset that brings the start-up
    reading into the raw range, when exactly one does.  [std::ceil] and
    [std::floor] of a [float] argument give a [float], stored in a [double]. *)
Definition f_ceil (x : f32) : f64 := d_ceil (to_f64 x).
Definition f_floor (x : f32) : f64 := d_floor (to_f64 x).

Definition initialize_position_wrap : St Servo ReturnCode := λ s,
  if (position_wrap_period_ s <=?. f0) || position_wrap_initialized_ s then (SUCCESS, s)
  else
    let s := s <| position_wrap_initialized_ := true |> in
    let base_relative := ((curr_pos_abs_ s - zero_pos_abs_ s) * f32_of_Z (dir_invert_ s))%f32 in
    let min_turns := f_ceil ((pos_min_rel_ s - base_relative) / position_wrap_period_ s)%f32 in
    let max_turns := f_floor ((pos_max_rel_ s - base_relative) / position_wrap_period_ s)%f32 in
    if min_turns >?. max_turns then (SUCCESS, s)
    else if negb (min_turns =?. max_turns) then (INVALID_PARAM, s)
    else (SUCCESS, s <| position_wrap_offset_rel_ :=
                          (to_f32 min_turns * position_wrap_period_ s)%f32 |>).

(** ** The safety ladder of [Servo::read_hardware_values]

    Each rung gives the code it returns early with, if it does. *)

Definition rung : Type := St Servo (option ReturnCode).

(** Run the rungs in order; the first that returns ends the function. *)
Fixpoint climb (rungs : list rung) (rc : ReturnCode) : St Servo ReturnCode :=
  match rungs with
  | [] => mret rc
  | r :: rungs => o ← r; match o with Some rc' => mret rc' | None => climb rungs rc end
  end.

(** A checker field of the servo, stepped with a condition. *)
Definition check (proj : Servo → HoldChecker) (inj : HoldChecker → Servo → Servo)
    (condition : Servo → bool) : St Servo bool :=
  λ s, lift_into proj inj (is_holding (condition s)) s.

(** The servo's own safe mode, handed the servo itself. *)
Definition with_safe_mode {A} (f : Servo → St SafeMode A) : St Servo A :=
  λ s, lift_into safe_mode_ (λ m s, s <| safe_mode_ := m |>) (f s) s.
Definition graceful (rc : ReturnCode) : St Servo ReturnCode :=
  with_safe_mode (λ s, graceful_management s rc).
Definition exit_safe (rc : ReturnCode) : St Servo ReturnCode :=
  with_safe_mode (λ s, exit_safe_mode s rc).

Definition temperature_above_force_stop (s : Servo) : bool :=
  to_f64 (temperature_ s) >?. TEMPERATURE_THRESHOLD_FORCE_STOP.

Definition rung_temperature : rung :=
  holding ← check checker_temperature_exceed_ (λ h s, s <| checker_temperature_exceed_ := h |>)
              temperature_above_force_stop;
  if (holding : bool) then mret (Some SAFE_MODE_TEMPERATURE)
  else
    behind ← gets is_behind_more_than_tolerable_threshold;
    when_ (negb behind) (exit_safe SAFE_MODE_TEMPERATURE;; mret tt);;
    mret None.

Definition pos_outside_limits (s : Servo) : bool :=
  (get_pos_rad_relative s <?. (pos_min_rel_ s - get_pos_error_margin s)%f32) ||
  (get_pos_rad_relative s >?. (pos_max_rel_ s + get_pos_error_margin s)%f32).

Definition rung_pos_exceed (d : Device) : rung :=
  if bool_decide (mode_ d = MODE_NORMAL) then
    holding ← check checker_pos_exceed_ (λ h s, s <| checker_pos_exceed_ := h |>) pos_outside_limits;
    if (holding : bool) then rc ← graceful SAFE_MODE_POS_EXCEED; mret (Some rc)
    else exit_safe SAFE_MODE_POS_EXCEED;; mret None
  else mret None.

Definition checks_leader_difference (d : Device) : bool :=
  bool_decide (device_type_ d = ARM) && bool_decide (role_ d = FOLLOWER) &&
  bool_decide (mode_ d = MODE_NORMAL) && bool_decide (msg_type_ d = JOINT_INFO) &&
  negb (is_in_any_move_to_ready_state d).

Definition rung_pos_behind (d : Device) : rung :=
  if checks_leader_difference d then
    holding ← check checker_pos_difference_exceed_
                (λ h s, s <| checker_pos_difference_exceed_ := h |>) is_behind_more_than_max_threshold;
    if (holding : bool) then rc ← graceful SAFE_MODE_POS_BEHIND; mret (Some rc)
    else exit_safe SAFE_MODE_POS_BEHIND;; mret None
  else mret None.

Definition rung_velocity : rung :=
  holding ← check checker_vel_exceed_ (λ h s, s <| checker_vel_exceed_ := h |>)
              (λ s, SFabs (curr_vel_ s) >?. to_f32 MAX_VELOCITY_THRESHOLD);
  if (holding : bool) then rc ← graceful SAFE_MODE_VEL; mret (Some rc)
  else exit_safe SAFE_MODE_VEL;; mret None.

Definition rung_torque : rung :=
  holding ← check checker_tor_exceed_ (λ h s, s <| checker_tor_exceed_ := h |>)
              (λ s, SFabs (curr_tor_ s) >?. get_tor_max s);
  if (holding : bool) then
    torque_mode ← gets (λ s, is_torque_mode_enabled_ (safe_mode_ s));
    if negb torque_mode then
      modify (λ s, if negb (torque_mode_disabled_warning_active_ s)
                   then s <| torque_mode_disabled_warning_active_ := true |> else s);;
      mret None
    else rc ← graceful SAFE_MODE_TOR; mret (Some rc)
  else
    modify (λ s, s <| torque_mode_disabled_warning_active_ := false |>);;
    behind ← gets is_behind_more_than_tolerable_threshold;
    when_ (negb behind) (exit_safe SAFE_MODE_TOR;; mret tt);;
    mret None.

Definition estimate_idc (s : Servo) : Servo :=
  s <| idc_current_ := estimate_idc_calibrated (motor_params_current_estimation_ s) (curr_tor_ s)
         (curr_vel_ s) (temperature_ s) (to_f32 DEFAULT_VDC) (get_tor_max s) true f0 f0 f0 f0 f0 |>.

Definition ladder (d : Device) : list rung :=
  [rung_temperature; rung_pos_exceed d; rung_pos_behind d; rung_velocity; rung_torque].

(** The part after the driver's read succeeded. *)
Definition check_hardware_values (d : Device) : St Servo ReturnCode :=
  if is_read_only_ d then mret SUCCESS
  else modify estimate_idc;; climb (ladder d) SUCCESS.

Definition save_previous (s : Servo) : Servo :=
  s <| prev_vel_ := curr_vel_ s |> <| prev_tor_ := curr_tor_ s |>
    <| pre_pos_abs_ := curr_pos_abs_ s |> <| prev_pos_ := get_pos_rad_relative s |>.

(** [Servo::read_hardware_values] in a state [W] that contains the servo;
    [driver_read] is [p_driver_->read_hardware_values(this)], [None] for a null
    driver. *)
Definition Servo_read_hardware_values {W} (proj : W → Servo) (inj : Servo → W → W)
    (d : Device) (driver_read : option (St W ReturnCode)) : St W ReturnCode :=
  lift_into proj inj (modify save_previous);;
  match driver_read with
  | None => mret NOT_INITIALIZED
  | Some read =>
      rc ← read;
      if negb (ok rc) then mret rc else lift_into proj inj (check_hardware_values d)
  end.

(** ** Runs of the ladder

    Between two cycles the driver and the rest of the program change the servo;
    [between] is any change that leaves the temperature checker alone. *)

Record cycle := mkCycle {
  between : Servo → Servo;
  between_ok : ∀ s, checker_temperature_exceed_ (between s) = checker_temperature_exceed_ s;
}.

(** Whether each cycle ends in the temperature stop, and the reading it saw. *)
Fixpoint temperature_stops (d : Device) (cs : list cycle) (s : Servo) : list bool :=
  match cs with
  | [] => []
  | c :: cs =>
      let '(rc, s') := check_hardware_values d (between c s) in
      bool_decide (rc = SAFE_MODE_TEMPERATURE) :: temperature_stops d cs s'
  end.
Fixpoint hot_readings (d : Device) (cs : list cycle) (s : Servo) : list bool :=
  match cs with
  | [] => []
  | c :: cs =>
      temperature_above_force_stop (between c s) ::
      hot_readings d cs (snd (check_hardware_values d (between c s)))
  end.

(** ** Theorems *)

Lemma graceful_not_temperature s rc m : rc ≠ SAFE_MODE_TEMPERATURE →
  fst (graceful_management (s : Servo) rc m) ≠ SAFE_MODE_TEMPERATURE.
Proof.
  intros Hrc. by destruct (graceful_management_result s rc m) as [-> | ->].
Qed.

(** A rung other than the first neither returns the temperature code nor touches
    the temperature checker. *)
Definition temperature_free (r : rung) : Prop :=
  ∀ s, wp r (λ o s', o ≠ Some SAFE_MODE_TEMPERATURE ∧
                     checker_temperature_exceed_ s' = checker_temperature_exceed_ s) s.

Lemma wp_graceful rc (Q : ReturnCode → Servo → Prop) s :
  (∀ rc' m, rc' = fst (graceful_management s rc (safe_mode_ s)) → Q rc' (s <| safe_mode_ := m |>)) →
  wp (graceful rc) Q s.
Proof.
  intros H. unfold graceful, with_safe_mode, wp, lift_into.
  destruct (graceful_management s rc (safe_mode_ s)) as [rc' m]. by apply H.
Qed.

Lemma wp_exit_safe rc (Q : ReturnCode → Servo → Prop) s :
  (∀ rc' m, Q rc' (s <| safe_mode_ := m |>)) → wp (exit_safe rc) Q s.
Proof.
  intros H. unfold exit_safe, with_safe_mode, wp, lift_into.
  destruct (exit_safe_mode s rc (safe_mode_ s)) as [rc' m]. apply H.
Qed.

Lemma wp_check proj inj cond (Q : bool → Servo → Prop) s :
  (∀ b h, b = fst (is_holding (cond s) (proj s)) → h = snd (is_holding (cond s) (proj s)) →
     Q b (inj h s)) →
  wp (check proj inj cond) Q s.
Proof.
  intros H. unfold check, wp, lift_into. destruct (is_holding (cond s) (proj s)). by apply H.
Qed.

Ltac servo_step :=
  first [ apply wp_check; intros ? ? -> -> | apply wp_graceful; intros ? ? ->
        | apply wp_exit_safe; intros ? ? | wp_step ]; cbv beta.

Lemma ladder_temperature_free d r : r ∈ tail (ladder d) → temperature_free r.
Proof.
  assert (∀ (s : Servo) rc m, rc ≠ SAFE_MODE_TEMPERATURE →
    Some (fst (graceful_management s rc m)) ≠ Some SAFE_MODE_TEMPERATURE) as Hg.
  { intros s rc m Hrc [= E]. by apply (graceful_not_temperature s rc m). }
  cbn [tail ladder]. rewrite !elem_of_cons, elem_of_nil.
  intros [->|[->|[->|[->|[]]]]] s;
    [unfold rung_pos_exceed|unfold rung_pos_behind|unfold rung_velocity|unfold rung_torque];
    repeat servo_step; split; try done; try (by apply Hg).
  by destruct (torque_mode_disabled_warning_active_ _).
Qed.

Lemma climb_temperature_free rs rc s : Forall temperature_free rs → rc ≠ SAFE_MODE_TEMPERATURE →
  wp (climb rs rc) (λ rc' s', rc' ≠ SAFE_MODE_TEMPERATURE ∧
                              checker_temperature_exceed_ s' = checker_temperature_exceed_ s) s.
Proof.
  intros Hrs Hrc. revert s. induction Hrs as [|r rs Hr Hrs IH]; intros s; cbn; [done|].
  wp_step. eapply wp_mono; [apply Hr|]. intros [rc'|] s' [H1 H2].
  - apply wp_ret. split; [congruence|done].
  - rewrite <- H2. apply IH.
Qed.

(** One cycle is one step of the temperature checker, and it ends in the
    temperature stop exactly when the checker holds. *)
Lemma check_hardware_values_temperature d s : is_read_only_ d = false →
  let step := is_holding (temperature_above_force_stop s) (checker_temperature_exceed_ s) in
  wp (check_hardware_values d) (λ rc s',
    (rc = SAFE_MODE_TEMPERATURE ↔ fst step = true) ∧ checker_temperature_exceed_ s' = snd step) s.
Proof.
  intros Hro. unfold check_hardware_values. rewrite Hro. wp_steps.
  change (temperature_above_force_stop s) with (temperature_above_force_stop (estimate_idc s)).
  change (checker_temperature_exceed_ s) with (checker_temperature_exceed_ (estimate_idc s)).
  generalize (estimate_idc s). clear s. intros s.
  change (climb (ladder d) SUCCESS) with
    (o ← rung_temperature; match o with Some rc' => mret rc' | None => climb (tail (ladder d)) SUCCESS end).
  set (step := is_holding (temperature_above_force_stop s) (checker_temperature_exceed_ s)).
  wp_step. unfold rung_temperature. wp_step. apply wp_check. intros b h Hb Hh.
  fold step in Hb, Hh. rewrite <- Hb, <- Hh. clear Hb Hh step. cbv beta.
  apply wp_if; intros ->; [wp_steps; done|].
  assert (∀ s', checker_temperature_exceed_ s' = h →
    wp (climb (tail (ladder d)) SUCCESS) (λ rc s'', (rc = SAFE_MODE_TEMPERATURE ↔ false = true) ∧
      checker_temperature_exceed_ s'' = h) s') as Hrest.
  { intros s' Hs'. eapply wp_mono; [apply climb_temperature_free; [|done]|].
    - apply Forall_forall. intros r. apply ladder_temperature_free.
    - intros rc s'' [H1 H2]. split; [by split|]. by rewrite H2. }
  repeat servo_step; by apply Hrest.
Qed.

Lemma temperature_stops_outputs d cs : is_read_only_ d = false → ∀ s,
  temperature_stops d cs s = outputs (hot_readings d cs s) (checker_temperature_exceed_ s).
Proof.
  intros Hro. induction cs as [|c cs IH]; intros s; [done|].
  cbn [temperature_stops hot_readings outputs].
  pose proof (check_hardware_values_temperature d (between c s) Hro) as [H1 H2].
  rewrite (between_ok c) in H1, H2.
  destruct (check_hardware_values d (between c s)) as [rc s'].
  destruct (is_holding (temperature_above_force_stop (between c s)) (checker_temperature_exceed_ s))
    as [b h]. cbn [fst snd] in *. rewrite IH, H2. f_equal.
  destruct b; [by apply bool_decide_eq_true, H1|].
  apply bool_decide_eq_false. intros E. by apply H1 in E.
Qed.

Lemma temperature_stops_read_only d cs : is_read_only_ d = true → ∀ s,
  temperature_stops d cs s = replicate (length cs) false.
Proof.
  intros Hro. induction cs as [|c cs IH]; intros s; [done|].
  cbn [temperature_stops length replicate]. unfold check_hardware_values. rewrite Hro. cbn. by rewrite IH.
Qed.

(** [C7] The force-stop of a servo with a new temperature checker, over any cycles
    (whatever its position, velocity, torque, limits, safe-mode settings and other
    checkers do in between).  A read-only device never stops it.  Any other device:
    the cycles that end in SAFE_MODE_TEMPERATURE are exactly those in which the hold
    checker ([actual_step], with its re-entries after an exit) holds on "above 93 C".
    So however the readings went before, the hundredth consecutive hot reading stops
    the servo; and up to the first exit of the stop it is the documented hysteresis,
    where no shorter run of hot readings stops it. *)
Theorem temperature_stop_first d cs s :
  checker_temperature_exceed_ s = new_HoldChecker MAX_CNT_TEMPERATURE_EXCEED →
  let stops := temperature_stops d cs s in
  let hot := hot_readings d cs s in
  if is_read_only_ d then stops = replicate (length cs) false
  else
    stops = actual_outputs MAX_CNT_TEMPERATURE_EXCEED hot (First (Waiting 0)) ∧
    (∀ before after, hot = before ++ replicate (Z.to_nat MAX_CNT_TEMPERATURE_EXCEED) true ++ after →
       stops !! (length before + Z.to_nat MAX_CNT_TEMPERATURE_EXCEED - 1)%nat = Some true) ∧
    (exits_early MAX_CNT_TEMPERATURE_EXCEED hot (Waiting 0) = false →
     stops = spec_outputs MAX_CNT_TEMPERATURE_EXCEED hot (Waiting 0)).
Proof.
  intros Hc stops hot. destruct (is_read_only_ d) eqn:Hro; [by apply temperature_stops_read_only|].
  set (new := new_HoldChecker MAX_CNT_TEMPERATURE_EXCEED) in *.
  assert (stops = outputs hot new) as Hs by (rewrite <- Hc; by apply temperature_stops_outputs).
  assert (stops = actual_outputs MAX_CNT_TEMPERATURE_EXCEED hot (First (Waiting 0))) as Ha.
  { rewrite Hs. by apply (outputs_actual hot (First (Waiting 0)) new). }
  split_and!; [done|intros before after E; rewrite Ha, E; by apply run_of_trues|intros Hx].
  rewrite Hs. by apply (outputs_spec hot (Waiting 0) new).
Qed.

(** A cycle that sets the measured temperature. *)
Definition measure_temperature (t : Z) (s : Servo) : Servo := s <| temperature_ := f32_of_Z t |>.
Definition temperature_cycle (t : Z) : cycle := mkCycle (measure_temperature t) (λ s, eq_refl).
Definition follower_arm : Device := mkDevice FOLLOWER MODE_NORMAL ARM JOINT_INFO false true false
  MTR_IDLE EMERGENCY_NONE false f0 false false [1; 2].

(** Ninety-nine hot readings, a cool one, a hundred hot ones and a hundred cool ones; then a single
    hot reading stops the servo again. *)
Definition hot_and_cool : list cycle :=
  repeat (temperature_cycle 95) 99 ++ [temperature_cycle 40] ++ repeat (temperature_cycle 95) 100 ++
  repeat (temperature_cycle 40) 100 ++ [temperature_cycle 95].

Lemma temperature_stop_first_witness :
  let s := new_Servo follower_arm None in
  temperature_stops follower_arm hot_and_cool s = replicate 199 false ++ replicate 100 true ++ [false; true].
Proof.
  etransitivity; [exact (proj1 (temperature_stop_first follower_arm hot_and_cool (new_Servo follower_arm None) eq_refl))|].
  vm_compute. reflexivity.
Defined.
