(* ===== verification/DmCodec.v ===== *)
(** * MIT-mode codec of the DM and ENCOS servos
    (the static frame builders and parsers of src/pi_servo_dm.cpp, the receive
    cache of include/pi_driver_can_mit.hpp)

    A builder gives its return code and the frame it leaves in its out-parameter;
    a parser gives its return code and the new cache.  Pointers the callers take
    from live objects are values here.  A float-to-integer conversion that C++
    leaves undefined is the parameter [undefined_cast]. *)

From S2P Require Import Prelude.
From S2P Require Import FloatSpec.
From S2P Require Import Rounding.
From S2P Require Import Control.
From S2P Require Import MathOps.
From S2P Require Import CanBus.
From S2P Require Import Servo.

(** ** Parameter sets *)

Definition default_servo_param : ServoParam := mkServoParam
  (to_f32 DEFAULT_TOLERABLE_POS_DIFFERENCE_RAD) (to_f32 MAX_POS_DIFFERENCE_RAD)
  (to_f32 DEFAULT_VELOCITY_THRESHOLD_RAD_SEC).

Definition mit_param (kp_max kd_max vel tor : Z) : ServoDmParam := mkServoDmParam
  f0 (f32_of_Z kp_max) f0 (f32_of_Z kd_max) (lit32 (-125) 10) (lit32 125 10)
  (f32_of_Z (- vel)) (f32_of_Z vel) (f32_of_Z (- tor)) (f32_of_Z tor) default_servo_param.

Definition g_servo_dm_param_4340 : ServoDmParam := mit_param 500 5 10 28.
Definition g_servo_dm_param_4310 : ServoDmParam := mit_param 500 5 30 10.
Definition g_servo_dm_param_encos_A4310 : ServoDmParam := mit_param 500 5 18 42.
Definition g_servo_dm_param_arx_encoder : ServoDmParam := mit_param 0 0 0 0.

(** ** The receive cache *)

Record ReceivedServoData := mkReceivedServoData {
  motor_id_ : Z;
  angle_actual_rad_ : f32;
  speed_actual_rad_ : f32;
  current_actual_float_ : f32;
  received_temperature_ : Z;      (* temperature_, a uint8_t *)
  error_ : Z;
  digital_inputs_ : Z;
  update_count_ : Z;
  last_update_perf_ : prof_time_t;
}.
#[export] Instance eta_ReceivedServoData : Eta ReceivedServoData := λ r, mkReceivedServoData
  (motor_id_ r) (angle_actual_rad_ r) (speed_actual_rad_ r) (current_actual_float_ r)
  (received_temperature_ r) (error_ r) (digital_inputs_ r) (update_count_ r) (last_update_perf_ r).

Definition new_ReceivedServoData : ReceivedServoData :=
  mkReceivedServoData 0 f0 f0 f0 0 0 0 0 prof_time_zero.

Definition MAX_SERVO_INFO_BUF_SIZE : Z := 20.

Abbreviation slots := (list ReceivedServoData).
Definition new_slots : slots := replicate (Z.to_nat MAX_SERVO_INFO_BUF_SIZE) new_ReceivedServoData.

Definition slot_index_ok (i : Z) : bool := (0 <=? i) && (i <? MAX_SERVO_INFO_BUF_SIZE).

(** [received_servo_data_[i]], for an index the code has checked. *)
Definition slot (i : Z) (ss : slots) : ReceivedServoData :=
  nth (Z.to_nat i) ss new_ReceivedServoData.
Definition set_slot (i : Z) (x : ReceivedServoData) (ss : slots) : slots :=
  <[Z.to_nat i := x]> ss.

(** ** Looking a servo up *)

Abbreviation heap := (gmap ptr Servo).

(** [dynamic_cast<ServoDm*>(lock_registered_servo(id).get())]. *)
Definition lock_servo_dm (r : Registry) (h : heap) (id : Z) : option Servo :=
  p ← lock_registered_servo r id;
  s ← h !! p;
  match dm_ s with Some _ => Some s | None => None end.

(** Its parameters; a null servo and null parameters are refused alike. *)
Definition dm_param (r : Registry) (h : heap) (id : Z) : option ServoDmParam :=
  s ← lock_servo_dm r h id; p_servo_param_ s.

(** ** Command frames *)

Section builders.
Context (undefined_cast : f32 → Z).

(** The clamp that the builders write out is [clipping]. *)
Definition field (x lo hi : f32) (bits : Z) : Z :=
  match float_to_uint (clipping x lo hi) lo hi bits with
  | Some n => n
  | None => undefined_cast (clipping x lo hi)
  end.

Definition dm_command_bytes (pos_tmp vel_tmp kp_tmp kd_tmp tor_tmp : Z) : list Z :=
  map u8
    [Z.shiftr pos_tmp 8;
     Z.land pos_tmp 0xFF;
     Z.shiftr vel_tmp 4;
     Z.lor (Z.shiftl (Z.land vel_tmp 0xF) 4) (Z.shiftr kp_tmp 8);
     Z.land kp_tmp 0xFF;
     Z.shiftr kd_tmp 4;
     Z.lor (Z.shiftl (Z.land kd_tmp 0xF) 4) (Z.shiftr tor_tmp 8);
     Z.land tor_tmp 0xFF].

Definition encos_command_bytes (kp_int kd_int pos_int spd_int tor_int : Z) : list Z :=
  map u8
    [Z.lor 0x00 (Z.shiftr kp_int 7);
     Z.lor (Z.shiftl (Z.land kp_int 0x7F) 1) (Z.shiftr (Z.land kd_int 0x100) 8);
     Z.land kd_int 0xFF;
     Z.shiftr pos_int 8;
     Z.land pos_int 0xFF;
     Z.shiftr spd_int 4;
     Z.lor (Z.shiftl (Z.land spd_int 0x0F) 4) (Z.shiftr tor_int 8);
     Z.land tor_int 0xFF].

Definition can_frame_to_command_dm_servo (r : Registry) (h : heap) (motor_id : Z)
    (kp kd pos spd tor : f32) : ReturnCode * can_frame :=
  match dm_param r h motor_id with
  | None => (INVALID_PARAM, make_frame motor_id 8 [])
  | Some p =>
      let pos_tmp := u16 (field pos (pos_min_ p) (pos_max_ p) 16) in
      let vel_tmp := u16 (field spd (vel_min_ p) (vel_max_ p) 12) in
      let kp_tmp := u16 (field kp (kp_min_ p) (kp_max_ p) 12) in
      let kd_tmp := u16 (field kd (kd_min_ p) (kd_max_ p) 12) in
      let tor_tmp := u16 (field tor (tor_min_ p) (tor_max_ p) 12) in
      (SUCCESS, make_frame motor_id 8 (dm_command_bytes pos_tmp vel_tmp kp_tmp kd_tmp tor_tmp))
  end.

Definition can_frame_to_command_encos_servo (r : Registry) (h : heap) (motor_id : Z)
    (kp kd pos spd tor : f32) : ReturnCode * can_frame :=
  match dm_param r h motor_id with
  | None => (INVALID_PARAM, make_frame motor_id 8 [])
  | Some p =>
      let kp_int := field kp (kp_min_ p) (kp_max_ p) 12 in
      let kd_int := field kd (kd_min_ p) (kd_max_ p) 9 in
      let pos_int := field pos (pos_min_ p) (pos_max_ p) 16 in
      let spd_int := field spd (vel_min_ p) (vel_max_ p) 12 in
      let tor_int := field tor (tor_min_ p) (tor_max_ p) 12 in
      (SUCCESS, make_frame motor_id 8 (encos_command_bytes kp_int kd_int pos_int spd_int tor_int))
  end.
End builders.

(** ** Configuration frames *)

Definition ENCOS_QUERY_SPD_RANGE : Z := 26.
Definition ENCOS_QUERY_TOR_RANGE : Z := 27.
Definition ENCOS_SPD_RANGE_SCALE : f32 := lit32 1 100.
Definition ENCOS_TOR_RANGE_SCALE : f32 := lit32 1 10.
Definition RegAddr_TIMEOUT : Z := 9.
Definition RegAddr_CONTROL_MODE : Z := 10.
Definition OperationMode_MIT : Z := 1.

Definition can_frame_to_set_can_timeout_encos_servo (motor_id timeout_ms : Z) : ReturnCode * can_frame :=
  (SUCCESS, make_frame motor_id 4
    [u8 (Z.shiftl 0x06 5); 0x0B; u8 (Z.shiftr timeout_ms 8); u8 (Z.land timeout_ms 0xFF)]).

Definition can_frame_to_get_can_timeout_encos_servo (motor_id : Z) : ReturnCode * can_frame :=
  (SUCCESS, make_frame motor_id 2 [u8 (Z.shiftl 0x07 5); 31]).

(** The frame is untouched when the query code is refused. *)
Definition can_frame_to_get_mit_range_encos_servo (frame : can_frame) (motor_id query_code : Z)
    : ReturnCode * can_frame :=
  if negb (query_code =? ENCOS_QUERY_SPD_RANGE) && negb (query_code =? ENCOS_QUERY_TOR_RANGE)
  then (INVALID_PARAM, frame)
  else (SUCCESS, make_frame motor_id 2 [u8 (Z.shiftl 0x07 5); query_code]).

Definition can_frame_to_write_register_dm_servo (motor_id register_id register_value : Z)
    : ReturnCode * can_frame :=
  (SUCCESS, make_frame 0x7FF 8
    (map u8 [Z.land motor_id 0xFF; Z.shiftr motor_id 8; 0x55; register_id; register_value;
             Z.shiftr register_value 8; Z.shiftr register_value 16; Z.shiftr register_value 24])).

Definition can_frame_to_set_operation_mode_dm_servo (motor_id operation_mode : Z)
    : ReturnCode * can_frame :=
  can_frame_to_write_register_dm_servo motor_id RegAddr_CONTROL_MODE operation_mode.

Definition can_frame_to_enable_dm_servo (motor_id : Z) (enable_flag : bool) : ReturnCode * can_frame :=
  (SUCCESS, make_frame motor_id 8
    [0xFF; 0xFF; 0xFF; 0xFF; 0xFF; 0xFF; 0xFF; if enable_flag then 0xFC else 0xFD]).

Definition can_frame_to_reset_dm_servo (motor_id : Z) : ReturnCode * can_frame :=
  (SUCCESS, make_frame motor_id 8 [0xFF; 0xFF; 0xFF; 0xFF; 0xFF; 0xFF; 0xFF; 0xFB]).

Definition can_frame_to_set_zero_dm_servo (motor_id : Z) : ReturnCode * can_frame :=
  (SUCCESS, make_frame motor_id 8 [0xFF; 0xFF; 0xFF; 0xFF; 0xFF; 0xFF; 0xFF; 0xFE]).

(** ** Replies *)

Definition kEncosAckQuery : Z := 5.

(** [None] when the call fails and the out-parameters are untouched. *)
Definition parse_mit_range_reply_encos_servo (frame : can_frame) (motor_id query_code : Z)
    (scale : f32) : option (f32 * f32) :=
  if negb (can_id frame =? motor_id) || (can_dlc frame <? 6) then None
  else if negb (u8 (Z.shiftr (byte frame 0) 5) =? kEncosAckQuery) || negb (byte frame 1 =? query_code)
  then None
  else
    let raw_min := i16 (Z.lor (Z.shiftl (byte frame 2) 8) (byte frame 3)) in
    let raw_max := i16 (Z.lor (Z.shiftl (byte frame 4) 8) (byte frame 5)) in
    Some ((f32_of_Z raw_min * scale)%f32, (f32_of_Z raw_max * scale)%f32).

Definition parse_can_timeout_reply_encos_servo (frame : can_frame) (motor_id : Z) : option Z :=
  if negb (can_id frame =? motor_id) || (can_dlc frame <? 4) then None
  else if negb (u8 (Z.shiftr (byte frame 0) 5) =? kEncosAckQuery) || negb (byte frame 1 =? 31)
  then None
  else Some (u16 (Z.lor (Z.shiftl (byte frame 2) 8) (byte frame 3))).

(** ** Status frames

    [now] is what [Profile::get_time_now()] answers during the call. *)

Definition DM_CMD_WRITE : Z := 0x55.

(** The three measurements both protocols carry in bytes 1 to 5. *)
Definition store_measurements (p : ServoDmParam) (f : can_frame) (x : ReceivedServoData)
    : ReceivedServoData :=
  x <| angle_actual_rad_ :=
         uint_to_float (Z.lor (Z.shiftl (byte f 1) 8) (byte f 2)) (pos_min_ p) (pos_max_ p) 16 |>
    <| speed_actual_rad_ :=
         uint_to_float (Z.lor (Z.shiftl (byte f 3) 4) (Z.shiftr (byte f 4) 4))
           (vel_min_ p) (vel_max_ p) 12 |>
    <| current_actual_float_ :=
         uint_to_float (Z.lor (Z.shiftl (Z.land (byte f 4) 0x0F) 8) (byte f 5))
           (tor_min_ p) (tor_max_ p) 12 |>.

Definition parse_dm_servo_status (r : Registry) (h : heap) (now : prof_time_t) (f : can_frame)
    (ss : slots) : ReturnCode * slots :=
  if can_dlc f <? 8 then (INVALID_PARAM, ss)
  else
    let motor_id := Z.land (byte f 0) 0x0F in
    let data_index := find_data_index r motor_id in
    if negb (slot_index_ok data_index) then (INVALID_PARAM, ss)
    else if byte f 2 =? DM_CMD_WRITE then (SUCCESS, ss)
    else
      match dm_param r h motor_id with
      | None => (INVALID_PARAM, ss)
      | Some p =>
          let x := (slot data_index ss) <| motor_id_ := motor_id |>
                                        <| error_ := Z.shiftr (byte f 0) 4 |> in
          let x := (store_measurements p f x) <| received_temperature_ := byte f 7 |>
                                              <| last_update_perf_ := now |> in
          (SUCCESS, set_slot data_index x ss)
      end.

(** A binary32 pattern as a float. *)
Definition f32_of_bits (b : Z) : f32 :=
  match ieee_decode 8 23 b with
  | IeeeZero s => S754_zero s
  | IeeeInf s => S754_infinity s
  | IeeeNan => S754_nan
  | IeeeFinite s m e => S754_finite s (Z.to_pos m) e
  end.

Definition parser_encos_servo_status (r : Registry) (h : heap) (now : prof_time_t) (f : can_frame)
    (ss : slots) : ReturnCode * slots :=
  let ack_status := Z.shiftr (byte f 0) 5 in
  let motor_id := u8 (can_id f) in
  let data_index := find_data_index r motor_id in
  if negb (slot_index_ok data_index) then (INVALID_PARAM, ss)
  else if can_dlc f <? 8 then
    (SUCCESS, set_slot data_index ((slot data_index ss) <| motor_id_ := motor_id |>
                                                        <| last_update_perf_ := now |>) ss)
  else
    let x := (slot data_index ss) <| motor_id_ := motor_id |>
               <| error_ := Z.land (byte f 0) 0x1F |> <| last_update_perf_ := now |> in
    if ack_status =? 1 then
      match dm_param r h motor_id with
      | None => (INVALID_PARAM, set_slot data_index x ss)
      | Some p =>
          (SUCCESS, set_slot data_index
            ((store_measurements p f x) <| received_temperature_ := u8 ((byte f 6 - 50) `quot` 2) |>) ss)
      end
    else if ack_status =? 2 then
      let bits := Z.lor (Z.lor (Z.lor (Z.shiftl (byte f 1) 24) (Z.shiftl (byte f 2) 16))
                           (Z.shiftl (byte f 3) 8)) (byte f 4) in
      (SUCCESS, set_slot data_index
        (x <| angle_actual_rad_ := f32_of_bits bits |>
           <| current_actual_float_ :=
                (f32_of_Z (Z.lor (Z.shiftl (byte f 5) 8) (byte f 6)) / f32_of_Z 100)%f32 |>
           <| received_temperature_ := u8 ((byte f 7 - 50) `quot` 2) |>) ss)
    else (SUCCESS, set_slot data_index x ss).

(** ** Encoder reports (src/pi_servo_can_encoder.cpp, src/pi_driver_arx_encoder.cpp) *)

(** [(float)M_PI]. *)
Definition M_PI_f32 : f32 := S754_finite false 13176795 (-22).

Definition PASSIVE_ENCODER_RESPONSE_LEN : Z := 6.
Definition PASSIVE_ENCODER_RAD_PER_TICK : f32 := (f32_of_Z 2 * M_PI_f32 / f32_of_Z 4096)%f32.

Definition parse_encoder_status (frame : can_frame) (expected_encoder_id : Z) (now : prof_time_t)
    (x : ReceivedServoData) : ReturnCode * ReceivedServoData :=
  if can_dlc frame <? PASSIVE_ENCODER_RESPONSE_LEN then (INVALID_PARAM, x)
  else
    let position_ticks := i16 (Z.lor (Z.shiftl (byte frame 1) 8) (byte frame 2)) in
    let velocity_ticks := i16 (Z.lor (Z.shiftl (byte frame 3) 8) (byte frame 4)) in
    (SUCCESS, x <| motor_id_ := expected_encoder_id |> <| error_ := 0 |>
      <| angle_actual_rad_ := (f32_of_Z position_ticks * PASSIVE_ENCODER_RAD_PER_TICK)%f32 |>
      <| speed_actual_rad_ := (f32_of_Z velocity_ticks * PASSIVE_ENCODER_RAD_PER_TICK)%f32 |>
      <| current_actual_float_ := f0 |> <| received_temperature_ := 0 |>
      <| digital_inputs_ := byte frame 5 |> <| update_count_ := u32 (update_count_ x + 1) |>
      <| last_update_perf_ := now |>).

Definition arx_encoder_angle (frame : can_frame) : f32 :=
  let raw := u16 (Z.lor (Z.shiftl (byte frame 0) 8) (byte frame 1)) in
  (f32_of_Z (raw - ARX_ENCODER_ZERO_RAW) * M_PI_f32 / ARX_ENCODER_RAD_DIVISOR)%f32.

(** ** Adopting a reported range ([ServoDm::adopt_encos_mit_range]) *)

Definition on_dm (f : ServoDmPart → ServoDmPart) (s : Servo) : Servo := s <| dm_ := f <$> dm_ s |>.

Definition kRangeMatchEpsilon : f32 := lit32 1 1000.

Definition adopt_encos_mit_range (query_code : Z) (range_min range_max : f32) : St Servo ReturnCode := λ s,
  match p_servo_param_ s with
  | None => (NOT_INITIALIZED, s)
  | Some p_current =>
      if negb (range_min <?. range_max) then (FAIL, s)
      else if negb (query_code =? ENCOS_QUERY_SPD_RANGE) && negb (query_code =? ENCOS_QUERY_TOR_RANGE)
      then (INVALID_PARAM, s)
      else
        let speed := query_code =? ENCOS_QUERY_SPD_RANGE in
        let current_min := if speed then vel_min_ p_current else tor_min_ p_current in
        let current_max := if speed then vel_max_ p_current else tor_max_ p_current in
        let s := on_dm (λ d,
          if speed then d <| reported_spd_range_valid_ := true |> <| reported_spd_min_ := range_min |>
                          <| reported_spd_max_ := range_max |>
          else d <| reported_tor_range_valid_ := true |> <| reported_tor_min_ := range_min |>
                 <| reported_tor_max_ := range_max |>) s in
        if (SFabs (range_min - current_min)%f32 <=?. kRangeMatchEpsilon) &&
           (SFabs (range_max - current_max)%f32 <=?. kRangeMatchEpsilon)
        then (SUCCESS, s)
        else if negb speed then (SUCCESS, s)
        else
          let base := match dm_ s ≫= encos_param_override_ with Some o => o | None => p_current end in
          let override := base <| vel_min_ := range_min |> <| vel_max_ := range_max |> in
          let s := on_dm (λ d, d <| encos_param_override_ := Some override |>) s in
          (SUCCESS, s <| p_servo_param_ := Some override |>)
  end.

(** ** Theorems: command frames *)

(** The number a big-endian byte string stands for. *)
Definition be_value (bytes : list Z) : Z := foldl (λ a b, a * 256 + b) 0 bytes.

Ltac field_bytes :=
  change 0xFF with (Z.ones 8); change 0xF with (Z.ones 4); change 0x7F with (Z.ones 7);
  rewrite !Z.shiftr_div_pow2, ?Z.land_ones by lia;
  rewrite ?lor_add by (unfold is_unsigned; Z.to_euclidean_division_equations; lia).

Lemma dm_command_bytes_value pos vel kp kd tor :
  is_unsigned 16 pos → is_unsigned 12 vel → is_unsigned 12 kp → is_unsigned 12 kd →
  is_unsigned 12 tor →
  be_value (dm_command_bytes pos vel kp kd tor) =
    pos * 2 ^ 48 + vel * 2 ^ 36 + kp * 2 ^ 24 + kd * 2 ^ 12 + tor.
Proof.
  unfold is_unsigned. intros. unfold be_value, dm_command_bytes. cbn [map foldl]. field_bytes.
  rewrite !wrap_small by (unfold is_unsigned; Z.to_euclidean_division_equations; lia).
  Z.to_euclidean_division_equations. lia.
Qed.

Lemma encos_command_bytes_value pos vel kp kd tor :
  is_unsigned 16 pos → is_unsigned 12 vel → is_unsigned 12 kp → is_unsigned 9 kd →
  is_unsigned 12 tor →
  be_value (encos_command_bytes kp kd pos vel tor) =
    kp * 2 ^ 49 + kd * 2 ^ 40 + pos * 2 ^ 24 + vel * 2 ^ 12 + tor.
Proof.
  unfold is_unsigned. intros. unfold be_value, encos_command_bytes. cbn [map foldl].
  rewrite Z.lor_0_l. change (Z.land kd 0x100) with (Z.land kd (Z.shiftl (Z.ones 1) 8)). rewrite land_mask by lia.
  rewrite (Z.shiftr_div_pow2 (_ * _)), Z.div_mul, (Z.mod_small (kd `div` 2 ^ 8)) by
    (lia || (Z.to_euclidean_division_equations; lia)).
  field_bytes.
  rewrite !wrap_small by (unfold is_unsigned; Z.to_euclidean_division_equations; lia).
  Z.to_euclidean_division_equations. lia.
Qed.

Lemma command_bytes_wf l : length l = 8%nat →
  frame_wf (mkFrame 0 8 (map u8 l)).
Proof.
  intros H. split_and!; try done; cbn [data].
  - by rewrite length_map.
  - apply Forall_map, Forall_true. intros x. by apply wrap_range.
Qed.

(** The parameter sets whose five encodings stay in their fields. *)
Definition field_ok (lo hi : f32) (bits : Z) : bool := codec_ok lo hi bits && (lo <=?. hi).

Definition codec_param_ok (kd_bits : Z) (p : ServoDmParam) : bool :=
  field_ok (pos_min_ p) (pos_max_ p) 16 && field_ok (vel_min_ p) (vel_max_ p) 12 &&
  field_ok (kp_min_ p) (kp_max_ p) 12 && field_ok (kd_min_ p) (kd_max_ p) kd_bits &&
  field_ok (tor_min_ p) (tor_max_ p) 12.

(** The compiled sets of the driven servos. *)
Lemma compiled_params_ok :
  codec_param_ok 12 g_servo_dm_param_4340 = true ∧ codec_param_ok 12 g_servo_dm_param_4310 = true ∧
  codec_param_ok 9 g_servo_dm_param_encos_A4310 = true.
Proof. split_and!; vm_compute; reflexivity. Qed.

Definition is_number (x : f32) : Prop := is_f32 x = true ∧ is_nan x = false.

Lemma clipping_is_f32 x lo hi : is_f32 x = true → is_f32 lo = true → is_f32 hi = true →
  is_f32 (clipping x lo hi) = true.
Proof. intros. unfold clipping. by split_ifs. Qed.

(** A command value is encoded as its clamp, in its field, whatever the platform
    does on undefined conversions. *)
Lemma field_in_range cast x lo hi bits : field_ok lo hi bits = true → is_number x →
  float_to_uint (clipping x lo hi) lo hi bits = Some (field cast x lo hi bits) ∧
  is_unsigned bits (field cast x lo hi bits).
Proof.
  intros [Hok Hle]%andb_true_iff [Vx Nx].
  pose proof Hok as Hok'. unfold codec_ok in Hok'. rewrite !andb_true_iff in Hok'.
  destruct Hok' as ((((((Vlo & Vhi) & _) & _) & _) & _) & _).
  destruct (float_to_uint_in_field lo hi bits (clipping x lo hi)) as (n & En & Hn).
  - done.
  - by apply clipping_is_f32.
  - by apply clipping_in_range.
  - unfold field. rewrite En. split; [done|]. unfold is_unsigned. lia.
Qed.

(** The five fields of a command, in the order of the arguments. *)
Definition command_fields (p : ServoDmParam) (kd_bits : Z) (kp kd pos spd tor : f32)
    (fields : Z * Z * Z * Z * Z) : Prop :=
  let '(kp', kd', pos', spd', tor') := fields in
  (float_to_uint (clipping kp (kp_min_ p) (kp_max_ p)) (kp_min_ p) (kp_max_ p) 12 = Some kp' ∧
     is_unsigned 12 kp') ∧
  (float_to_uint (clipping kd (kd_min_ p) (kd_max_ p)) (kd_min_ p) (kd_max_ p) kd_bits = Some kd' ∧
     is_unsigned kd_bits kd') ∧
  (float_to_uint (clipping pos (pos_min_ p) (pos_max_ p)) (pos_min_ p) (pos_max_ p) 16 = Some pos' ∧
     is_unsigned 16 pos') ∧
  (float_to_uint (clipping spd (vel_min_ p) (vel_max_ p)) (vel_min_ p) (vel_max_ p) 12 = Some spd' ∧
     is_unsigned 12 spd') ∧
  (float_to_uint (clipping tor (tor_min_ p) (tor_max_ p)) (tor_min_ p) (tor_max_ p) 12 = Some tor' ∧
     is_unsigned 12 tor').

Lemma command_fields_exist cast p kd_bits kp kd pos spd tor : codec_param_ok kd_bits p = true →
  Forall is_number [kp; kd; pos; spd; tor] →
  command_fields p kd_bits kp kd pos spd tor
    (field cast kp (kp_min_ p) (kp_max_ p) 12, field cast kd (kd_min_ p) (kd_max_ p) kd_bits,
     field cast pos (pos_min_ p) (pos_max_ p) 16, field cast spd (vel_min_ p) (vel_max_ p) 12,
     field cast tor (tor_min_ p) (tor_max_ p) 12).
Proof.
  unfold codec_param_ok. rewrite !andb_true_iff. intros ((((H1 & H2) & H3) & H4) & H5) Hn.
  rewrite !Forall_cons in Hn. destruct Hn as (N1 & N2 & N3 & N4 & N5 & _).
  split_and!; by apply field_in_range.
Qed.

(** [C32] A DM command reaches the motor as commanded.  For a registered DM servo
    and arguments that are numbers (infinities included), the frame is addressed
    to the motor and its eight bytes are, most significant first, the position
    (16 bits), velocity, kp, kd and torque (12 bits each): every field the
    fixed-point code of the value clamped to the servo's range, none truncated,
    none spilling into its neighbour. *)
Theorem dm_command_encodes cast r h id p kp kd pos spd tor :
  dm_param r h id = Some p → codec_param_ok 12 p = true →
  Forall is_number [kp; kd; pos; spd; tor] →
  ∃ kp' kd' pos' spd' tor' bytes,
    can_frame_to_command_dm_servo cast r h id kp kd pos spd tor = (SUCCESS, mkFrame id 8 bytes) ∧
    length bytes = 8%nat ∧ Forall is_byte bytes ∧
    command_fields p 12 kp kd pos spd tor (kp', kd', pos', spd', tor') ∧
    be_value bytes = pos' * 2 ^ 48 + spd' * 2 ^ 36 + kp' * 2 ^ 24 + kd' * 2 ^ 12 + tor'.
Proof.
  intros Hp Hok Hn. pose proof (command_fields_exist cast p 12 kp kd pos spd tor Hok Hn) as Hf.
  unfold can_frame_to_command_dm_servo. rewrite Hp.
  destruct Hf as ((F1 & R1) & (F2 & R2) & (F3 & R3) & (F4 & R4) & (F5 & R5)).
  do 5 eexists. exists (dm_command_bytes (field cast pos (pos_min_ p) (pos_max_ p) 16)
    (field cast spd (vel_min_ p) (vel_max_ p) 12) (field cast kp (kp_min_ p) (kp_max_ p) 12)
    (field cast kd (kd_min_ p) (kd_max_ p) 12) (field cast tor (tor_min_ p) (tor_max_ p) 12)).
  rewrite !(wrap_small 16) by (unfold is_unsigned in *; lia).
  split_and!; [done|done| |by split_and!|by apply dm_command_bytes_value].
  apply Forall_map, Forall_true. intros x. by apply wrap_range.
Qed.

(** A registered servo on which the theorems are tried. *)
Definition example_servo (t : ServoType) (p : ServoDmParam) : Servo :=
  (new_Servo follower_arm None) <| id_ := 1 |> <| type_ := t |> <| p_servo_param_ := Some p |>
    <| pos_min_rel_ := f32_of_Z (-3) |> <| pos_max_rel_ := f32_of_Z 3 |> <| pos_kp_ := f32_of_Z 40 |>
    <| dm_ := Some new_ServoDmPart |>.
Definition example_registry : Registry := register_servo_data_index 1 0 1%positive empty_registry.
Definition example_heap (t : ServoType) (p : ServoDmParam) : heap := {[ 1%positive := example_servo t p ]}.

Lemma dm_command_encodes_witness :
  ∃ kp' kd' pos' spd' tor' bytes,
    can_frame_to_command_dm_servo (λ _, 0) example_registry (example_heap DM_4340 g_servo_dm_param_4340)
      1 (f32_of_Z 40) f1 (lit32 3 2) f0 (f32_of_Z 99) = (SUCCESS, mkFrame 1 8 bytes) ∧
    length bytes = 8%nat ∧ Forall is_byte bytes ∧
    command_fields g_servo_dm_param_4340 12 (f32_of_Z 40) f1 (lit32 3 2) f0 (f32_of_Z 99)
      (kp', kd', pos', spd', tor') ∧
    be_value bytes = pos' * 2 ^ 48 + spd' * 2 ^ 36 + kp' * 2 ^ 24 + kd' * 2 ^ 12 + tor'.
Proof.
  apply dm_command_encodes; [vm_compute; reflexivity | apply compiled_params_ok |].
  repeat constructor; vm_compute; reflexivity.
Defined.

(** The same for an ENCOS command: mode bits 0, kp (12 bits), kd (9),
    position (16), velocity and torque (12 each). *)
Theorem encos_command_encodes cast r h id p kp kd pos spd tor :
  dm_param r h id = Some p → codec_param_ok 9 p = true →
  Forall is_number [kp; kd; pos; spd; tor] →
  ∃ kp' kd' pos' spd' tor' bytes,
    can_frame_to_command_encos_servo cast r h id kp kd pos spd tor = (SUCCESS, mkFrame id 8 bytes) ∧
    length bytes = 8%nat ∧ Forall is_byte bytes ∧
    command_fields p 9 kp kd pos spd tor (kp', kd', pos', spd', tor') ∧
    be_value bytes = kp' * 2 ^ 49 + kd' * 2 ^ 40 + pos' * 2 ^ 24 + spd' * 2 ^ 12 + tor'.
Proof.
  intros Hp Hok Hn. pose proof (command_fields_exist cast p 9 kp kd pos spd tor Hok Hn) as Hf.
  unfold can_frame_to_command_encos_servo. rewrite Hp.
  destruct Hf as ((F1 & R1) & (F2 & R2) & (F3 & R3) & (F4 & R4) & (F5 & R5)).
  do 5 eexists. exists (encos_command_bytes (field cast kp (kp_min_ p) (kp_max_ p) 12)
    (field cast kd (kd_min_ p) (kd_max_ p) 9) (field cast pos (pos_min_ p) (pos_max_ p) 16)
    (field cast spd (vel_min_ p) (vel_max_ p) 12) (field cast tor (tor_min_ p) (tor_max_ p) 12)).
  split_and!; [done|done| |by split_and!|by apply encos_command_bytes_value].
  apply Forall_map, Forall_true. intros x. by apply wrap_range.
Qed.

Lemma encos_command_encodes_witness :
  ∃ kp' kd' pos' spd' tor' bytes,
    can_frame_to_command_encos_servo (λ _, 0) example_registry
      (example_heap ENCOS_A4310 g_servo_dm_param_encos_A4310)
      1 (f32_of_Z 40) f1 (lit32 3 2) f0 (f32_of_Z 99) = (SUCCESS, mkFrame 1 8 bytes) ∧
    length bytes = 8%nat ∧ Forall is_byte bytes ∧
    command_fields g_servo_dm_param_encos_A4310 9 (f32_of_Z 40) f1 (lit32 3 2) f0 (f32_of_Z 99)
      (kp', kd', pos', spd', tor') ∧
    be_value bytes = kp' * 2 ^ 49 + kd' * 2 ^ 40 + pos' * 2 ^ 24 + spd' * 2 ^ 12 + tor'.
Proof.
  apply encos_command_encodes; [vm_compute; reflexivity | apply compiled_params_ok |].
  repeat constructor; vm_compute; reflexivity.
Defined.

(** The service frames a motor tells from commands by their payload. *)
Definition service_frames (id : Z) : list can_frame :=
  [snd (can_frame_to_enable_dm_servo id true); snd (can_frame_to_enable_dm_servo id false);
   snd (can_frame_to_reset_dm_servo id); snd (can_frame_to_set_zero_dm_servo id)].

(** No command is taken for a service frame by accident.  A DM command whose
    payload is that of enable, disable, reset or set-zero has position, velocity,
    kp and kd all at the top of their scales: below full kp (500) or full
    velocity it cannot happen. *)
Theorem command_not_service_frame cast r h id p kp kd pos spd tor :
  dm_param r h id = Some p → codec_param_ok 12 p = true →
  Forall is_number [kp; kd; pos; spd; tor] →
  snd (can_frame_to_command_dm_servo cast r h id kp kd pos spd tor) ∈ service_frames id →
  ∃ tor', command_fields p 12 kp kd pos spd tor (0xFFF, 0xFFF, 0xFFFF, 0xFFF, tor') ∧ 0xFFB ≤ tor'.
Proof.
  intros Hp Hok Hn. pose proof (command_fields_exist cast p 12 kp kd pos spd tor Hok Hn) as Hf.
  unfold can_frame_to_command_dm_servo. rewrite Hp. cbn [snd].
  pose proof Hf as ((F1 & R1) & (F2 & R2) & (F3 & R3) & (F4 & R4) & (F5 & R5)).
  rewrite !(wrap_small 16) by (unfold is_unsigned in *; lia).
  pose proof (dm_command_bytes_value _ _ _ _ _ R3 R4 R1 R2 R5) as E. revert E.
  set (bytes := dm_command_bytes _ _ _ _ _). intros E Hin.
  assert (2 ^ 64 - 5 ≤ be_value bytes ≤ 2 ^ 64 - 2) as Hb.
  { assert (take 8 (bytes ++ replicate 8 0) = bytes) as Et by done.
    unfold make_frame in Hin. rewrite Et in Hin. unfold service_frames, make_frame in Hin.
    rewrite !elem_of_cons, elem_of_nil in Hin.
    destruct Hin as [H|[H|[H|[H|[]]]]]; apply (f_equal data) in H; cbn [data snd] in H; by rewrite H. }
  revert Hf R1 R2 R3 R4 R5 E Hb. clear. unfold is_unsigned.
  generalize (field cast kp (kp_min_ p) (kp_max_ p) 12), (field cast kd (kd_min_ p) (kd_max_ p) 12),
    (field cast pos (pos_min_ p) (pos_max_ p) 16), (field cast spd (vel_min_ p) (vel_max_ p) 12),
    (field cast tor (tor_min_ p) (tor_max_ p) 12). intros k d q v t Hf Rk Rd Rq Rv Rt E Hb.
  assert (q = 0xFFFF ∧ v = 0xFFF ∧ k = 0xFFF ∧ d = 0xFFF ∧ 0xFFB ≤ t) as (-> & -> & -> & -> & Ht) by lia.
  by exists t.
Qed.

Lemma command_not_service_frame_witness :
  snd (can_frame_to_command_dm_servo (λ _, 0) example_registry
    (example_heap DM_4340 g_servo_dm_param_4340) 1 (f32_of_Z 500) (f32_of_Z 5) (f32_of_Z 13)
    (lit32 27966 1000) (f32_of_Z 12)) ∉ service_frames 1 ∧
  ∃ tor', command_fields g_servo_dm_param_4340 12 (f32_of_Z 500) (f32_of_Z 5) (f32_of_Z 13) (f32_of_Z 11)
    (lit32 27966 1000) (0xFFF, 0xFFF, 0xFFFF, 0xFFF, tor') ∧ 0xFFB ≤ tor'.
Proof.
  split; [apply (bool_decide_unpack _); vm_compute; reflexivity|].
  apply (command_not_service_frame (λ _, 0) example_registry
    (example_heap DM_4340 g_servo_dm_param_4340) 1); [vm_compute; reflexivity | apply compiled_params_ok | |].
  - repeat constructor; vm_compute; reflexivity.
  - apply (bool_decide_unpack _). vm_compute. reflexivity.
Defined.

(** ** Theorems: status frames *)

(** A parser either leaves the cache alone or writes the one slot of the motor the
    frame names, stamping it with the time. *)
Definition writes_slot (r : Registry) (id : Z) (now : prof_time_t) (ss ss' : slots) : Prop :=
  ss' = ss ∨
  let i := find_data_index r id in
  slot_index_ok i = true ∧
  ∃ x, ss' = set_slot i x ss ∧ motor_id_ x = id ∧ last_update_perf_ x = now ∧
       digital_inputs_ x = digital_inputs_ (slot i ss) ∧ update_count_ x = update_count_ (slot i ss).

Lemma parse_dm_writes_slot r h now f ss :
  writes_slot r (Z.land (byte f 0) 0x0F) now ss (snd (parse_dm_servo_status r h now f ss)).
Proof.
  unfold parse_dm_servo_status. destruct (can_dlc f <? 8); [by left|]. cbv zeta.
  destruct (slot_index_ok _) eqn:Hi; cbn [negb]; [|by left].
  destruct (byte f 2 =? DM_CMD_WRITE); [by left|].
  destruct (dm_param r h _) as [p|]; [|by left]. right. split; [done|]. by eexists.
Qed.

Lemma parser_encos_writes_slot r h now f ss :
  writes_slot r (u8 (can_id f)) now ss (snd (parser_encos_servo_status r h now f ss)).
Proof.
  unfold parser_encos_servo_status. cbv zeta.
  destruct (slot_index_ok _) eqn:Hi; cbn [negb]; [|by left].
  right. split; [done|].
  destruct (can_dlc f <? 8); [by eexists|].
  destruct (Z.shiftr (byte f 0) 5 =? 1); [destruct (dm_param r h _) as [p|]; by eexists|].
  destruct (Z.shiftr (byte f 0) 5 =? 2); by eexists.
Qed.

Lemma slot_set_eq i x ss : slot_index_ok i = true → length ss = Z.to_nat MAX_SERVO_INFO_BUF_SIZE →
  slot i (set_slot i x ss) = x.
Proof.
  unfold slot_index_ok, slot, set_slot. rewrite andb_true_iff, Z.leb_le, Z.ltb_lt.
  intros Hi Hl. rewrite nth_lookup, list_lookup_insert_eq; [done|]. rewrite Hl. lia.
Qed.

Lemma slot_set_ne i j x ss : 0 ≤ i → 0 ≤ j → i ≠ j → slot j (set_slot i x ss) = slot j ss.
Proof.
  intros. unfold slot, set_slot. rewrite !nth_lookup, list_lookup_insert_ne; [done|lia].
Qed.

(** Two consequences of the frame layouts.  A DM status frame whose position has
    the low byte 0x55 is taken for a register-write acknowledgement: it is accepted
    and its measurements are dropped.  An ENCOS temperature byte below 50 (under
    0 C) wraps: -5 C is stored as 251 C. *)
Lemma dm_status_dropped_at_0x55 r h now f ss : byte f 2 = DM_CMD_WRITE →
  snd (parse_dm_servo_status r h now f ss) = ss.
Proof.
  intros H. unfold parse_dm_servo_status. rewrite H. cbv zeta.
  destruct (can_dlc f <? 8); [done|]. by destruct (negb _).
Qed.

Lemma encos_temperature_wraps :
  received_temperature_ (slot 0 (snd (parser_encos_servo_status example_registry
    (example_heap ENCOS_A4310 g_servo_dm_param_encos_A4310) 7
    (mkFrame 1 8 [0x20; 0x80; 0; 0x80; 0x08; 0; 40; 0]) new_slots))) = 251.
Proof. vm_compute. reflexivity. Qed.
