(* ===== verification/DriverCanMit.v ===== *)
(** * The MIT-mode CAN driver (src/pi_driver_can_mit.cpp,
    include/pi_driver_can_mit.hpp)

    [World] is what the driver's calls read and write: its socket, the process
    registry, the servos the registry points to and the driver's own fields.  The
    kernel and the clock answer through [env]; [undefined_cast] is as in
    [DmCodec]; [p_device_] is [None] when null; [poll_fuel] bounds the polls of a
    loop that runs until a deadline ([until_deadline_fuel]).  Mutexes and sleeps
    have no effect on the state of one thread and are not written. *)

From stdpp Require Import sorting.
From S2P Require Import Prelude.
From S2P Require Import FloatSpec.
From S2P Require Import Control.
From S2P Require Import MathOps.
From S2P Require Import DmStatus.
From S2P Require Import CanBus.
From S2P Require Import Servo.
From S2P Require Import DmCodec.

(** ** State *)

Record PassiveEncoderRoute := mkRoute {
  encoder_id_ : Z;
  route_data_index_ : Z;
  firmware_compat_ : bool;
}.

Record MitDriver := mkMitDriver {
  received_servo_data_ : slots;
  passive_encoder_routes_ : gmap Z PassiveEncoderRoute;
  last_enable_fault_status_ : Z;
  dead_servo_ids_ : gset Z;
  last_failed_servo_id_ : Z;
  any_motor_moved_ : bool;
  stall_warned_since_ : gmap Z prof_time_t;
}.
#[export] Instance eta_MitDriver : Eta MitDriver := λ r, mkMitDriver
  (received_servo_data_ r) (passive_encoder_routes_ r) (last_enable_fault_status_ r)
  (dead_servo_ids_ r) (last_failed_servo_id_ r) (any_motor_moved_ r) (stall_warned_since_ r).

Definition new_MitDriver : MitDriver := mkMitDriver new_slots ∅ (-1) ∅ (-1) false ∅.

Record World := mkWorld {
  bus : Bus;
  registry : Registry;
  servos : heap;
  mit : MitDriver;
}.
#[export] Instance eta_World : Eta World := λ r, mkWorld (bus r) (registry r) (servos r) (mit r).

Definition on_bus {A} (m : St Bus A) : St World A :=
  lift_into bus (λ b w, w <| bus := b |>) m.

Definition on_mit (f : MitDriver → MitDriver) : St World unit :=
  modify (λ w, w <| mit := f (mit w) |>).

Definition modify_servo (p : ptr) (f : Servo → Servo) : St World unit :=
  modify (λ w, w <| servos := alter f p (servos w) |>).

(** ** Free functions *)

Definition dm_response_motor_id (frame : can_frame) : Z :=
  if can_dlc frame <? 8 then -1
  else
    let id := Z.land (can_id frame) 0x7FF in
    let payload_motor_id := Z.land (byte frame 0) 0x0F in
    if id =? 0x00 then payload_motor_id
    else if (0x11 <=? id) && (id <=? 0x1F) && (id - 0x10 =? payload_motor_id) then payload_motor_id
    else -1.

Definition kPassiveEncoderAllDevices : Z := 0xFF.
Definition kPassiveEncoderReqReportFrequency : Z := 0x01.
Definition kPassiveEncoderReqVersion : Z := 0x03.
Definition kPassiveEncoderReqAdcFrequency : Z := 0x04.
Definition kPassiveEncoderReqReadings : Z := 0x06.
Definition kPassiveEncoderReqGetEeprom : Z := 0x07.
Definition kPassiveEncoderResponseFlag : Z := 0x80.
Definition kPassiveEncoderAdcFrequencyHighOffset : Z := 27.
Definition kPassiveEncoderAdcFrequencyLowOffset : Z := 8.
Definition kPassiveEncoderReportFrequencyHighOffset : Z := 28.
Definition kPassiveEncoderReportFrequencyLowOffset : Z := 25.
Definition kPassiveEncoderRequiredAdcFrequency : Z := 255.
Definition kPassiveEncoderRequiredReportFrequency : Z := 0.
Definition kPassiveEncoderVersionTimeoutMs : Z := 1000.
Definition kPassiveEncoderEepromTimeoutMs : Z := 500.
Definition kPassiveEncoderDrainTimeoutMs : Z := 50.

(** Less than the minimum firmware 2.2.12, as tuples compare. *)
Definition firmware_too_old (a b c : Z) : bool :=
  (a <? 2) || ((a =? 2) && ((b <? 2) || ((b =? 2) && (c <? 12)))).

Section driver.
Context (env : BusEnv) (undefined_cast : f32 → Z) (p_device_ : option Device) (poll_fuel : nat).

Definition send (frame : can_frame) : St World ReturnCode := on_bus (send_frame env frame).
Definition receive : St World (ReturnCode * can_frame) := on_bus (read_frame env).
Definition now : St World prof_time_t := on_bus (get_time_now env).
Definition socket_open : St World bool := gets (λ w, is_socket_open (bus w)).

(** ** Passive-encoder startup checks

    [while (now() < deadline) { body }], then [timeout]. *)
Fixpoint until_deadline {A} (fuel : nat) (deadline : Z) (body : St World (option A)) (timeout : A)
    : St World A :=
  match fuel with
  | O => mret timeout
  | S fuel =>
      t ← now;
      if t <? deadline then
        o ← body;
        match o with Some a => mret a | None => until_deadline fuel deadline body timeout end
      else mret timeout
  end.

Definition send_passive_encoder_request (request_can_id : Z) (p_data : list Z) : St World ReturnCode :=
  let data_len := Z.of_nat (length p_data) in
  if (data_len =? 0) || (data_len >? 8) then mret INVALID_PARAM
  else send (make_frame request_can_id data_len p_data).

(** One iteration: keep waiting, fail, or the reply. *)
Definition passive_reply_step (request_can_id expected_device expected_command expected_len : Z)
    : St World (option (ReturnCode * can_frame)) :=
  '(rc, frame) ← receive;
  if bool_decide (rc = NO_RESPONSE) then mret None
  else if negb (ok rc) then mret (Some (rc, zero_frame))
  else if negb (Z.land (can_id frame) 0x7FF =? request_can_id) ||
          negb (can_dlc frame =? expected_len) || negb (byte frame 1 =? expected_command) ||
          ((0 <=? expected_device) && negb (byte frame 0 =? u8 expected_device))
  then mret None
  else mret (Some (SUCCESS, frame)).

Definition wait_for_passive_encoder_reply (request_can_id expected_device expected_command
    expected_len timeout_ms : Z) : St World (ReturnCode * can_frame) :=
  t ← now;
  until_deadline poll_fuel (t + milliseconds timeout_ms)
    (passive_reply_step request_can_id expected_device expected_command expected_len)
    (NO_RESPONSE, zero_frame).

(** The low byte of a READINGS reply's big-endian int16. *)
Definition readings_value (frame : can_frame) : Z :=
  u8 (Z.land (i16 (Z.lor (Z.shiftl (byte frame 2) 8) (byte frame 3))) 0xFF).

Definition eeprom_compat_step (request_can_id device : Z) : St World (option (ReturnCode * Z)) :=
  '(rc, frame) ← receive;
  if bool_decide (rc = NO_RESPONSE) then mret None
  else if negb (ok rc) then mret (Some (rc, 0))
  else if negb (Z.land (can_id frame) 0x7FF =? request_can_id) || negb (byte frame 0 =? device)
  then mret None
  else if (can_dlc frame =? 5) &&
          (byte frame 1 =? Z.lor kPassiveEncoderReqReadings kPassiveEncoderResponseFlag)
  then mret (Some (SUCCESS, readings_value frame))
  else if (can_dlc frame =? 3) &&
          (byte frame 1 =? Z.lor kPassiveEncoderReqGetEeprom kPassiveEncoderResponseFlag)
  then mret (Some (SUCCESS, byte frame 2))
  else mret None.

(** The value is meaningful on [SUCCESS]. *)
Definition read_passive_encoder_eeprom (request_can_id device offset : Z) (firmware_compat : bool)
    : St World (ReturnCode * Z) :=
  rc ← send_passive_encoder_request request_can_id [device; kPassiveEncoderReqGetEeprom; offset];
  if negb (ok rc) then mret (rc, 0)
  else if negb firmware_compat then
    '(rc, reply) ← wait_for_passive_encoder_reply request_can_id device
      (Z.lor kPassiveEncoderReqReadings kPassiveEncoderResponseFlag) 5 kPassiveEncoderEepromTimeoutMs;
    if negb (ok rc) then mret (rc, 0) else mret (SUCCESS, readings_value reply)
  else
    t ← now;
    until_deadline poll_fuel (t + milliseconds kPassiveEncoderEepromTimeoutMs)
      (eeprom_compat_step request_can_id device) (NO_RESPONSE, 0).

Definition read_passive_encoder_frequency (request_can_id device high_offset low_offset : Z)
    (firmware_compat : bool) : St World (ReturnCode * Z) :=
  '(rc, high) ← read_passive_encoder_eeprom request_can_id device high_offset firmware_compat;
  let legacy := firmware_compat && bool_decide (rc = NO_RESPONSE) in
  if negb legacy && negb (ok rc) then mret (rc, 0)
  else
    let high := if legacy then 0xFF else high in
    '(rc, low) ← read_passive_encoder_eeprom request_can_id device low_offset firmware_compat;
    if negb (ok rc) then mret (rc, 0)
    else mret (SUCCESS, if high =? 0xFF then low else Z.lor (Z.shiftl high 8) low).

(** Bring one frequency to its required value: set it, read it back. *)
Definition correct_frequency (request_can_id device request required high_offset low_offset : Z)
    (firmware_compat : bool) (frequency : Z) : St World ReturnCode :=
  if frequency =? required then mret SUCCESS
  else
    rc ← send_passive_encoder_request request_can_id [kPassiveEncoderAllDevices; request; required];
    if negb (ok rc) then mret rc
    else
      '(rc, frequency) ← read_passive_encoder_frequency request_can_id device high_offset low_offset
                           firmware_compat;
      if negb (ok rc) || negb (frequency =? required)
      then mret (if ok rc then FAIL else rc)
      else mret SUCCESS.

Definition configure_passive_encoder (request_can_id : Z) (firmware_compat : bool)
    : St World ReturnCode :=
  rc ← send_passive_encoder_request request_can_id [kPassiveEncoderAllDevices; kPassiveEncoderReqVersion];
  if negb (ok rc) then mret rc
  else
    '(rc, version_reply) ← wait_for_passive_encoder_reply request_can_id (-1)
      (Z.lor kPassiveEncoderReqVersion kPassiveEncoderResponseFlag) 5 kPassiveEncoderVersionTimeoutMs;
    if negb (ok rc) then mret rc
    else
      let device := byte version_reply 0 in
      if firmware_too_old (byte version_reply 2) (byte version_reply 3) (byte version_reply 4)
      then mret NOT_SUPPORTED
      else
        '(rc, adc_frequency) ← read_passive_encoder_frequency request_can_id device
           kPassiveEncoderAdcFrequencyHighOffset kPassiveEncoderAdcFrequencyLowOffset firmware_compat;
        if negb (ok rc) then mret rc
        else
          '(rc, report_frequency) ← read_passive_encoder_frequency request_can_id device
             kPassiveEncoderReportFrequencyHighOffset kPassiveEncoderReportFrequencyLowOffset
             firmware_compat;
          if negb (ok rc) then mret rc
          else
            rc ← correct_frequency request_can_id device kPassiveEncoderReqAdcFrequency
                   kPassiveEncoderRequiredAdcFrequency kPassiveEncoderAdcFrequencyHighOffset
                   kPassiveEncoderAdcFrequencyLowOffset firmware_compat adc_frequency;
            if negb (ok rc) then mret rc
            else
              correct_frequency request_can_id device kPassiveEncoderReqReportFrequency
                kPassiveEncoderRequiredReportFrequency kPassiveEncoderReportFrequencyHighOffset
                kPassiveEncoderReportFrequencyLowOffset firmware_compat report_frequency.

Definition drain_startup_frames : St World unit :=
  t ← now;
  until_deadline poll_fuel (t + milliseconds kPassiveEncoderDrainTimeoutMs)
    ('(rc, _) ← receive; mret (if ok rc then None else Some tt)) tt.

(** [request_can_id -> firmware_compat], flags of one encoder's routes or-ed. *)
Definition request_firmware_compat (routes : gmap Z PassiveEncoderRoute) : gmap Z bool :=
  map_fold (λ _ route m,
    <[encoder_id_ route := default false (m !! encoder_id_ route) || firmware_compat_ route]> m)
    ∅ routes.

(** The loop over the map, in key order; the first failure ends it. *)
Fixpoint configure_each (l : list (Z * bool)) : St World ReturnCode :=
  match l with
  | [] => mret SUCCESS
  | (id, compat) :: l =>
      rc ← configure_passive_encoder id compat;
      if negb (ok rc) then mret rc else configure_each l
  end.

Definition in_key_order {A} (m : gmap Z A) : list (Z * A) :=
  @merge_sort _ (λ x y, x.1 ≤ y.1) (λ x y, Z_le_dec x.1 y.1) (map_to_list m).

Definition configure_passive_encoders : St World ReturnCode :=
  compat ← gets (λ w, request_firmware_compat (passive_encoder_routes_ (mit w)));
  rc ← configure_each (in_key_order compat);
  if negb (ok rc) then mret rc
  else
    when_ (negb (bool_decide (compat = ∅))) drain_startup_frames;;
    mret SUCCESS.

Definition open : St World ReturnCode :=
  rc ← on_bus (bus_open env);
  if negb (ok rc) then mret rc
  else
    rc ← configure_passive_encoders;
    if negb (ok rc) then on_bus bus_close;; mret rc
    else
      rc ← on_bus (start_reception true);
      if negb (ok rc) then on_bus bus_close;; mret rc
      else mret SUCCESS.

Definition close : St World ReturnCode :=
  rc ← on_bus bus_close;
  if negb (ok rc) then mret rc else mret SUCCESS.
(** ** Dead-servo scan *)

(** One iteration of the loop of [group_read_hardware_values]; the flag is
    [any_alive_this_cycle]. *)
Definition scan_servo (r : Registry) (now threshold_ms : Z) (acc : MitDriver * bool) (servo_id : Z)
    : MitDriver * bool :=
  let '(m, any_alive) := acc in
  let mark_dead (m : MitDriver) := m <| dead_servo_ids_ := {[ servo_id ]} ∪ dead_servo_ids_ m |> in
  let data_index := find_data_index r servo_id in
  if negb (slot_index_ok data_index) then (mark_dead m, any_alive)
  else
    let last_update := last_update_perf_ (slot data_index (received_servo_data_ m)) in
    if is_zero last_update then (mark_dead m, any_alive)
    else
      let age_ms := get_time_diff last_update now in
      let m := if age_ms >? threshold_ms then mark_dead m else m in
      let warned := stall_warned_since_ m !! servo_id in
      let m :=
        if age_ms >? CAN_MIT_STALL_WARN_AGE_MS then
          match warned with
          | None => m <| stall_warned_since_ := <[servo_id := last_update]> (stall_warned_since_ m) |>
          | Some _ => m
          end
        else
          match warned with
          | Some _ => m <| stall_warned_since_ := delete servo_id (stall_warned_since_ m) |>
          | None => m
          end in
      (m, true).

Definition group_read_hardware_values : St World ReturnCode :=
  on_mit (λ m, m <| dead_servo_ids_ := ∅ |> <| last_failed_servo_id_ := -1 |>);;
  match p_device_ with
  | None => mret FAIL
  | Some d =>
      match servo_ids_ d with
      | [] => mret SUCCESS
      | servo_ids =>
          now ← now;
          w ← get_state;
          let threshold_ms := if any_motor_moved_ (mit w) then CAN_MIT_STALE_FRAME_AGE_NORMAL_MS
                              else CAN_MIT_STALE_FRAME_AGE_INITIAL_MS in
          let '(m, any_alive_this_cycle) :=
            foldl (scan_servo (registry w) now threshold_ms) (mit w, false) servo_ids in
          on_mit (λ _, if negb (any_motor_moved_ m) && (any_alive_this_cycle : bool)
                       then m <| any_motor_moved_ := true |> else m);;
          match set_begin (dead_servo_ids_ m) with
          | None => mret SUCCESS
          | Some id => on_mit (λ m, m <| last_failed_servo_id_ := id |>);; mret FAIL
          end
      end
  end.

(** ** Communication-loss protection *)

Definition query_and_adopt (id : Z) (code : Z) (scale : f32) : St World unit :=
  let '(rc, frame) := can_frame_to_get_mit_range_encos_servo zero_frame (u16 id) code in
  if negb (ok rc) then mret tt
  else
    rc ← send frame;
    if negb (ok rc) then mret tt
    else
      '(rc, reply_frame) ← receive;
      match (if ok rc then parse_mit_range_reply_encos_servo reply_frame (u16 id) code scale else None) with
      | None => mret tt
      | Some (range_min, range_max) =>
          w ← get_state;
          match lock_servo_dm (registry w) (servos w) id with
          | None => mret tt
          | Some _ =>
              match lock_registered_servo (registry w) id with
              | Some p => modify_servo p (λ s, snd (adopt_encos_mit_range code range_min range_max s))
              | None => mret tt
              end
          end
      end.

Definition query_and_adopt_encos_mit_ranges (id : Z) : St World unit :=
  query_and_adopt id ENCOS_QUERY_SPD_RANGE ENCOS_SPD_RANGE_SCALE;;
  query_and_adopt id ENCOS_QUERY_TOR_RANGE ENCOS_TOR_RANGE_SCALE.

(** Send a frame and drain its reply, when it was sent. *)
Definition send_and_drain (frame : can_frame) : St World ReturnCode :=
  rc ← send frame;
  if negb (ok rc) then mret rc else receive;; mret SUCCESS.

Definition arm_encos (id encos_timeout_ms : Z) : St World unit :=
  query_and_adopt_encos_mit_ranges id;;
  rc ← send (snd (can_frame_to_get_can_timeout_encos_servo (u16 id)));
  needs_write ←
    (if negb (ok rc) then mret true
     else
       '(rc, reply_frame) ← receive;
       mret (if negb (ok rc) then true
             else match parse_can_timeout_reply_encos_servo reply_frame (u16 id) with
                  | Some current_ms => negb (current_ms =? encos_timeout_ms)
                  | None => true
                  end));
  when_ needs_write
    (send_and_drain (snd (can_frame_to_set_can_timeout_encos_servo (u16 id) encos_timeout_ms));; mret tt).

Definition arm_dm (id : Z) (stop_on_comm_loss : bool) : St World unit :=
  rc ← send_and_drain (snd (can_frame_to_enable_dm_servo (u16 id) true));
  when_ (ok rc)
    (send_and_drain (snd (can_frame_to_write_register_dm_servo (u16 id) RegAddr_TIMEOUT
       (if stop_on_comm_loss then DM_SERVO_CAN_TIMEOUT_MS * DM_TIMEOUT_COUNTS_PER_MS
        else DM_SERVO_CAN_TIMEOUT_DISARM)));; mret tt).

Definition arm_servo (stop_on_comm_loss : bool) (encos_timeout_ms id : Z) : St World unit :=
  w ← get_state;
  match lock_servo_dm (registry w) (servos w) id with
  | None => mret tt
  | Some s =>
      match type_ s with
      | ENCOS_A4310 => arm_encos id encos_timeout_ms
      | DM_4340 | DM_4310 => arm_dm id stop_on_comm_loss
      | _ => mret tt
      end
  end.

Fixpoint arm_each (stop_on_comm_loss : bool) (encos_timeout_ms : Z) (ids : list Z) : St World unit :=
  match ids with
  | [] => mret tt
  | id :: ids => arm_servo stop_on_comm_loss encos_timeout_ms id;;
                 arm_each stop_on_comm_loss encos_timeout_ms ids
  end.

Definition arm_comm_loss_protection : St World ReturnCode :=
  open ← socket_open;
  if negb open then mret NOT_INITIALIZED
  else
    match p_device_ with
    | None => mret FAIL
    | Some d =>
        match servo_ids_ d with
        | [] => mret SUCCESS
        | servo_ids =>
            let stop_on_comm_loss := wants_comm_loss_stop d in
            let encos_timeout_ms := if stop_on_comm_loss then ENCOS_SERVO_CAN_TIMEOUT_MS
                                    else ENCOS_SERVO_CAN_TIMEOUT_DISARM in
            on_bus stop_reception;;
            arm_each stop_on_comm_loss encos_timeout_ms servo_ids;;
            on_bus (start_reception true)
        end
    end.
(** ** Commands *)

Definition send_command (p_servo_dm : Servo) (kp kd position velocity torque : f32)
    : St World ReturnCode :=
  open ← socket_open;
  if negb open then mret NOT_INITIALIZED
  else
    w ← get_state;
    let build := match type_ p_servo_dm with
      | ENCOS_A4310 => Some can_frame_to_command_encos_servo
      | DM_4340 | DM_4310 => Some can_frame_to_command_dm_servo
      | _ => None
      end in
    match build with
    | None => mret NOT_SUPPORTED
    | Some build =>
        let '(rc, frame) := build undefined_cast (registry w) (servos w) (u16 (id_ p_servo_dm))
                              kp kd position velocity torque in
        if negb (ok rc) then mret rc else send frame
    end.

Definition send_disable_once (id : Z) (type : ServoType) : St World ReturnCode :=
  open ← socket_open;
  if negb open then mret NOT_INITIALIZED
  else match type with
    | DM_4340 | DM_4310 =>
        let '(rc, frame) := can_frame_to_enable_dm_servo (u16 id) false in
        if negb (ok rc) then mret rc else send frame
    | _ => mret NOT_SUPPORTED
    end.

Definition reset_zero_position (id : Z) (type : ServoType) : St World ReturnCode :=
  open ← socket_open;
  if negb open then mret NOT_INITIALIZED
  else match type with
    | DM_4340 | DM_4310 =>
        rc ← send (snd (can_frame_to_set_zero_dm_servo (u16 id)));
        if negb (ok rc) then mret rc else mret SUCCESS
    | ENCOS_A4310 => mret SUCCESS
    | _ => mret NOT_SUPPORTED
    end.

(** ** The enable handshake

    What an attempt leaves for the next one; the counters that only feed the
    log are not kept. *)
Record Handshake := mkHandshake {
  last_non_normal_status : Z;
  startup_fault_reset_attempted : bool;
}.

Inductive attempt_outcome :=
  | Return (rc : ReturnCode)
  | Acknowledged
  | Retry (l : Handshake).

Definition max_retry_count : nat := 10.
Definition max_response_count : nat := Z.to_nat MAX_SERVO_INFO_BUF_SIZE.

Fixpoint send_times (n : nat) (frame : can_frame) : St World ReturnCode :=
  match n with
  | O => mret SUCCESS
  | S n => rc ← send frame; if negb (ok rc) then mret rc else send_times n frame
  end.

Definition send_reset_sequence (id : Z) : St World ReturnCode :=
  send_times 3 (snd (can_frame_to_reset_dm_servo (u16 id))).

(** [ServoDm::parse_dm_servo_status] on the driver's cache. *)
Definition parse_into_cache (frame : can_frame) : St World ReturnCode :=
  t ← now;
  w ← get_state;
  let '(rc, ss) := parse_dm_servo_status (registry w) (servos w) t frame
                     (received_servo_data_ (mit w)) in
  on_mit (λ m, m <| received_servo_data_ := ss |>);;
  mret rc.

(** [normal_code >> 4]. *)
Definition normal_nibble (enable_flag : bool) : Z := if enable_flag then 0x1 else 0x0.

(** A reply of the servo itself. *)
Definition handle_own_response (id : Z) (enable_flag : bool) (l : Handshake) (frame : can_frame)
    : St World attempt_outcome :=
  let status_code := Z.shiftr (byte frame 0) 4 in
  when_ enable_flag (parse_into_cache frame;; mret tt);;
  if status_code =? normal_nibble enable_flag then mret Acknowledged
  else
    let l := mkHandshake status_code (startup_fault_reset_attempted l) in
    let status := dm_servo_status_info status_code in
    if is_fault status then
      if enable_flag && is_resettable_on_enable status && negb (startup_fault_reset_attempted l) then
        rc ← send_reset_sequence id;
        if negb (ok rc) then mret (Return rc) else mret (Retry (mkHandshake status_code true))
      else
        on_mit (λ m, m <| last_enable_fault_status_ := status_code |>);;
        mret (Return HARDWARE_FAULT)
    else
      rc ← send_reset_sequence id;
      if negb (ok rc) then mret (Return rc) else mret (Retry l).

Fixpoint read_responses (n : nat) (id : Z) (enable_flag : bool) (l : Handshake)
    : St World attempt_outcome :=
  match n with
  | O => mret (Retry l)
  | S n =>
      '(rc, frame) ← receive;
      if bool_decide (rc = NO_RESPONSE) then mret (Retry l)
      else if negb (ok rc) then mret (Return rc)
      else
        let parsed_motor_id := dm_response_motor_id frame in
        if parsed_motor_id <? 0 then read_responses n id enable_flag l
        else if negb (parsed_motor_id =? id) then read_responses n id enable_flag l
        else handle_own_response id enable_flag l frame
  end.

Fixpoint attempts (n : nat) (id : Z) (enable_flag : bool) (l : Handshake) : St World attempt_outcome :=
  match n with
  | O => mret (Retry l)
  | S n =>
      rc ← send (snd (can_frame_to_enable_dm_servo (u16 id) enable_flag));
      if bool_decide (rc = BUSY) then attempts n id enable_flag l
      else if negb (ok rc) then mret (Return rc)
      else
        o ← read_responses max_response_count id enable_flag l;
        match o with
        | Retry l => attempts n id enable_flag l
        | _ => mret o
        end
  end.

Definition disarm_stale_window (id : Z) : St World unit :=
  send_and_drain (snd (can_frame_to_write_register_dm_servo (u16 id) RegAddr_TIMEOUT
                         DM_SERVO_CAN_TIMEOUT_DISARM));;
  mret tt.

Definition handshake (id : Z) (enable_flag : bool) : St World ReturnCode :=
  o ← attempts max_retry_count id enable_flag (mkHandshake (-1) false);
  match o with
  | Return rc => mret rc
  | Retry l => mret (if 0 <=? last_non_normal_status l then FAIL else NO_RESPONSE)
  | Acknowledged => when_ enable_flag (disarm_stale_window id);; mret SUCCESS
  end.

Definition enable (id : Z) (type : ServoType) (enable_flag : bool) : St World ReturnCode :=
  on_mit (λ m, m <| last_enable_fault_status_ := -1 |>);;
  open ← socket_open;
  if negb open then mret NOT_INITIALIZED
  else match type with
    | ENCOS_A4310 =>
        w ← get_state;
        let '(rc, frame) := can_frame_to_command_encos_servo undefined_cast (registry w) (servos w)
                              (u16 id) f0 f0 f0 f0 f0 in
        if negb (ok rc) then mret rc
        else rc ← send frame; if negb (ok rc) then mret rc else mret SUCCESS
    | _ =>
        rc ← send (snd (can_frame_to_set_operation_mode_dm_servo (u16 id) OperationMode_MIT));
        if negb (ok rc) then mret rc
        else
          on_bus stop_reception;;
          handshake_code ← handshake id enable_flag;
          restart_code ← on_bus (start_reception true);
          if negb (ok restart_code) then mret restart_code
          else mret handshake_code
    end.

(** ** Reading back *)

Definition get_received_motor_id (m : MitDriver) (data_index : Z) : Z :=
  if negb (slot_index_ok data_index) then 0
  else motor_id_ (slot data_index (received_servo_data_ m)).

Definition get_last_update_perf (m : MitDriver) (data_index : Z) : prof_time_t :=
  if negb (slot_index_ok data_index) then prof_time_zero
  else last_update_perf_ (slot data_index (received_servo_data_ m)).

(** Position, velocity, digital inputs and update count of a slot. *)
Definition get_received_encoder_data (m : MitDriver) (data_index : Z) : option (f32 * f32 * Z * Z) :=
  if negb (slot_index_ok data_index) then None
  else
    let x := slot data_index (received_servo_data_ m) in
    Some (angle_actual_rad_ x, speed_actual_rad_ x, digital_inputs_ x, update_count_ x).

Definition copy_slot (x : ReceivedServoData) (s : Servo) : Servo :=
  s <| curr_pos_abs_ := angle_actual_rad_ x |> <| curr_vel_ := speed_actual_rad_ x |>
    <| curr_tor_ := current_actual_float_ x |>
    <| temperature_ := f32_of_Z (received_temperature_ x) |> <| motor_error_code_ := error_ x |>.

Definition read_hardware_values (p_servo : ptr) : St World ReturnCode :=
  w ← get_state;
  match servos w !! p_servo with
  | None => mret FAIL
  | Some s =>
      if bool_decide (dm_ s = None) then mret INVALID_PARAM
      else if negb (slot_index_ok (data_index_ s)) then mret INVALID_PARAM
      else
        let x := slot (data_index_ s) (received_servo_data_ (mit w)) in
        let s := copy_slot x s in
        let '(rc, s) := if motor_id_ x =? 0 then (SUCCESS, s) else initialize_position_wrap s in
        modify_servo p_servo (λ _, s);;
        if negb (ok rc) then mret rc else mret SUCCESS
  end.

Definition update_encoder_slot (data_index motor_id : Z) (angle_rad : f32) : St World ReturnCode :=
  if negb (slot_index_ok data_index) then mret FAIL
  else
    t ← now;
    on_mit (λ m, m <| received_servo_data_ :=
      set_slot data_index ((slot data_index (received_servo_data_ m)) <| motor_id_ := motor_id |>
        <| angle_actual_rad_ := angle_rad |> <| last_update_perf_ := t |>) (received_servo_data_ m) |>);;
    mret SUCCESS.

Definition register_passive_encoder (response_can_id encoder_id data_index : Z) (firmware_compat : bool)
    : St World ReturnCode :=
  if negb (slot_index_ok data_index) then mret INVALID_PARAM
  else
    on_mit (λ m, m <| passive_encoder_routes_ :=
      <[response_can_id := mkRoute encoder_id data_index firmware_compat]> (passive_encoder_routes_ m) |>);;
    mret SUCCESS.

(** ** Frames from the reception thread *)

Definition handle_received_message (p_frame : can_frame) (data_buf_size read_bytes : Z) : St World unit :=
  if (data_buf_size <? sizeof_can_frame) || (read_bytes <? sizeof_can_frame) then mret tt
  else
    t ← now;
    w ← get_state;
    let m := mit w in
    let ss := received_servo_data_ m in
    let store (ss : slots) := on_mit (λ m, m <| received_servo_data_ := ss |>) in
    match passive_encoder_routes_ m !! Z.land (can_id p_frame) 0x7FF with
    | Some route =>
        let i := route_data_index_ route in
        store (set_slot i (snd (parse_encoder_status p_frame (encoder_id_ route) t (slot i ss))) ss)
    | None =>
        if 0 <=? dm_response_motor_id p_frame then
          store (snd (parse_dm_servo_status (registry w) (servos w) t p_frame ss))
        else if (0x01 <=? can_id p_frame) && (can_id p_frame <=? 0x07) then
          store (snd (parser_encos_servo_status (registry w) (servos w) t p_frame ss))
        else mret tt
    end.
End driver.
