(* ===== verification/DriverCanMitFacts.v ===== *)
(** * Theorems on the MIT-mode CAN driver ([DriverCanMit]) *)

From stdpp Require Import sorting.
From S2P Require Import Prelude.
From S2P Require Import FloatSpec.
From S2P Require Import Control.
From S2P Require Import MathOps.
From S2P Require Import DmStatus.
From S2P Require Import CanBus.
From S2P Require Import Servo.
From S2P Require Import DmCodec.
From S2P Require Import DriverCanMit.

(** ** Dead-servo detection *)

(** Whether a listed servo counts as heard, and as dead, at a time. *)
Definition servo_heard (r : Registry) (ss : slots) (id : Z) : bool :=
  let i := find_data_index r id in
  slot_index_ok i && negb (is_zero (last_update_perf_ (slot i ss))).

Definition servo_age_ms (r : Registry) (ss : slots) (now : prof_time_t) (id : Z) : Z :=
  get_time_diff (last_update_perf_ (slot (find_data_index r id) ss)) now.

Definition servo_dead (r : Registry) (ss : slots) (now threshold_ms id : Z) : bool :=
  negb (servo_heard r ss id) || (servo_age_ms r ss now id >? threshold_ms).

(** The fields the scan does not write. *)
Definition scan_keeps (m m' : MitDriver) : Prop :=
  received_servo_data_ m' = received_servo_data_ m ∧
  passive_encoder_routes_ m' = passive_encoder_routes_ m ∧
  last_enable_fault_status_ m' = last_enable_fault_status_ m ∧
  last_failed_servo_id_ m' = last_failed_servo_id_ m ∧ any_motor_moved_ m' = any_motor_moved_ m.

Lemma scan_servo_spec r t thr m alive id :
  let acc := scan_servo r t thr (m, alive) id in
  scan_keeps m (fst acc) ∧
  snd acc = alive || servo_heard r (received_servo_data_ m) id ∧
  dead_servo_ids_ (fst acc) =
    (if servo_dead r (received_servo_data_ m) t thr id then {[id]} else ∅) ∪ dead_servo_ids_ m.
Proof.
  unfold scan_servo, servo_dead, servo_age_ms, servo_heard.
  destruct (slot_index_ok _); cbn [negb andb orb]; [|by rewrite orb_false_r].
  destruct (is_zero _); cbn [negb andb orb]; [by rewrite orb_false_r|].
  rewrite orb_true_r. cbn [fst snd].
  destruct (get_time_diff _ _ >? thr), (get_time_diff _ _ >? CAN_MIT_STALL_WARN_AGE_MS),
    (stall_warned_since_ _ !! id); cbn; rewrite ?union_empty_l_L; try done; by split_and!.
Qed.

Lemma scan_all_spec r t thr ids : ∀ m alive,
  let acc := foldl (scan_servo r t thr) (m, alive) ids in
  scan_keeps m (fst acc) ∧
  snd acc = alive || existsb (servo_heard r (received_servo_data_ m)) ids ∧
  ∀ id, id ∈ dead_servo_ids_ (fst acc) ↔
    (id ∈ ids ∧ servo_dead r (received_servo_data_ m) t thr id = true) ∨ id ∈ dead_servo_ids_ m.
Proof.
  induction ids as [|i ids IH]; intros m alive; cbn [foldl existsb].
  - cbn. rewrite orb_false_r. split_and!; try done. intros id. clear. set_solver.
  - destruct (scan_servo_spec r t thr m alive i) as (K & A & D).
    destruct (scan_servo r t thr (m, alive) i) as [m1 alive1]. cbn [fst snd] in K, A, D.
    destruct (IH m1 alive1) as (K2 & A2 & D2).
    destruct K as (R & K). rewrite R in A2, D2. split_and!.
    + destruct K2 as (? & ? & ? & ? & ?), K as (? & ? & ? & ?). split_and!; congruence.
    + rewrite A2, A. by rewrite orb_assoc.
    + intros id. rewrite D2, D, elem_of_cons. clear.
      destruct (servo_dead r (received_servo_data_ m) t thr i) eqn:E.
      * set_solver.
      * split; [set_solver|]. intros [[[->|H] H']|H]; [congruence|by left|set_solver].
Qed.

Section dead.
Context (env : BusEnv).

(** What one scan leaves, and everything else it leaves alone. *)
Definition scan_result (d : Device) (w : World) (rc : ReturnCode) (w' : World) : Prop :=
  let t := env_clock env (clock_count (bus w)) in
  let ss := received_servo_data_ (mit w) in
  let threshold_ms := if any_motor_moved_ (mit w) then 10000 else 2500 in
  let dead := dead_servo_ids_ (mit w') in
  let failed := last_failed_servo_id_ (mit w') in
  (∀ id, id ∈ dead ↔ id ∈ servo_ids_ d ∧ servo_dead (registry w) ss t threshold_ms id = true) ∧
  (rc = SUCCESS ∧ dead = ∅ ∧ failed = -1 ∨
   rc = FAIL ∧ failed ∈ dead ∧ ∀ id, id ∈ dead → failed ≤ id) ∧
  any_motor_moved_ (mit w') =
    any_motor_moved_ (mit w) || existsb (servo_heard (registry w) ss) (servo_ids_ d) ∧
  received_servo_data_ (mit w') = ss ∧ registry w' = registry w ∧ servos w' = servos w.

Lemma group_read_spec d w : servo_ids_ d ≠ [] →
  wp (group_read_hardware_values env (Some d)) (λ rc w', scan_result d w rc w' ∧
    passive_encoder_routes_ (mit w') = passive_encoder_routes_ (mit w) ∧
    bus w' = (bus w) <| clock_count := S (clock_count (bus w)) |>) w.
Proof.
  intros Hids. unfold scan_result.
  set (t := env_clock env (clock_count (bus w))). set (ss := received_servo_data_ (mit w)).
  set (thr := if any_motor_moved_ (mit w) then 10000 else 2500).
  unfold wp, group_read_hardware_values.
  destruct (servo_ids_ d) as [|i0 ids0] eqn:E; [done|]. rewrite <- E. clear i0 ids0 E Hids.
  unfold on_mit, now, on_bus, get_time_now, mbind, St_bind, lift_into, modify, get_state.
  cbn [mit bus registry servos upd any_motor_moved_ received_servo_data_ dead_servo_ids_].
  fold t. set (m0 := mkMitDriver _ _ _ _ _ _ _).
  destruct (scan_all_spec (registry w) t thr (servo_ids_ d) m0 false) as ((R & P & _ & F & M) & A & D).
  change (received_servo_data_ m0) with ss in R, A, D.
  change (passive_encoder_routes_ m0) with (passive_encoder_routes_ (mit w)) in P.
  change (any_motor_moved_ m0) with (any_motor_moved_ (mit w)) in M.
  change CAN_MIT_STALE_FRAME_AGE_NORMAL_MS with 10000. change CAN_MIT_STALE_FRAME_AGE_INITIAL_MS with 2500.
  fold thr. destruct (foldl (scan_servo (registry w) t thr) (m0, false) (servo_ids_ d)) as [m alive].
  cbn [fst snd] in R, P, A, D, F, M. rewrite orb_false_l in A. subst alive.
  pose proof (set_begin_spec (dead_servo_ids_ m)) as Hb.
  assert (∀ id, id ∈ dead_servo_ids_ m ↔ id ∈ servo_ids_ d ∧ servo_dead (registry w) ss t thr id = true) as D'.
  { intros id. rewrite D. change (dead_servo_ids_ m0) with (∅ : gset Z). clear. set_solver. }
  set (moved := if negb (any_motor_moved_ m) && _ then _ else m).
  assert (received_servo_data_ moved = ss ∧ dead_servo_ids_ moved = dead_servo_ids_ m ∧
    last_failed_servo_id_ moved = -1 ∧ passive_encoder_routes_ moved = passive_encoder_routes_ (mit w) ∧
    any_motor_moved_ moved = any_motor_moved_ (mit w) ||
      existsb (servo_heard (registry w) ss) (servo_ids_ d)) as (E1 & E2 & E3 & E4 & E5).
  { unfold moved. rewrite M.
    destruct (any_motor_moved_ (mit w)), (existsb _ _); cbn; by rewrite ?R, ?M, ?F, ?P. }
  clearbody moved. destruct (set_begin (dead_servo_ids_ m)) as [x|]; cbn.
  - rewrite E1, E2, E4, E5. split_and!; try done. right. by destruct Hb.
  - rewrite E1, E2, E3, E4, E5. split_and!; try done. left. done.
Qed.

(** [C6] Dead-servo detection is exact.  One scan at time [t] declares dead
    exactly the configured servos that are unmapped, were never heard, or whose
    newest frame is older than the threshold of the phase (2.5 s until a servo
    has been heard, 10 s ever after); it succeeds exactly when there is none,
    and otherwise reports the smallest of them.  Receive cache, registry and
    servos are not touched. *)
Theorem group_read_reports_dead d w : servo_ids_ d ≠ [] →
  let '(rc, w') := group_read_hardware_values env (Some d) w in scan_result d w rc w'.
Proof.
  intros Hids. pose proof (group_read_spec d w Hids) as [H _].
  by destruct (group_read_hardware_values env (Some d) w).
Qed.
End dead.

Lemma group_read_reports_dead_witness :
  let env := mkBusEnv (λ _, 20000000000) (λ _, 3) (λ _, 0) (λ _, 0) (λ _, (1, false)) (λ _, 16)
               (λ _, (16, false, zero_frame)) in
  let r := register_servo_data_index 2 1 2%positive (register_servo_data_index 1 0 1%positive empty_registry) in
  let heard := new_ReceivedServoData <| last_update_perf_ := 19000000000 |> in
  let w := mkWorld new_Bus r ∅ (new_MitDriver <| received_servo_data_ := set_slot 0 heard new_slots |>) in
  let '(rc, w') := group_read_hardware_values env (Some follower_arm) w in
  scan_result env follower_arm w rc w' ∧ dead_servo_ids_ (mit w') = {[2]}.
Proof.
  intros env r heard w. pose proof (group_read_reports_dead env follower_arm w ltac:(discriminate)) as H.
  destruct (group_read_hardware_values env (Some follower_arm) w) as [rc w'] eqn:E. split; [exact H|].
  vm_compute in E. injection E as <- <-. vm_compute. reflexivity.
Defined.

(** ** Lifecycle and cache invariant *)

Definition bus_wf (b : Bus) : Prop :=
  is_running_ b = reception_joinable b ∧ (is_running_ b = true → is_socket_open b = true).

Definition routes_ok (m : MitDriver) : Prop :=
  map_Forall (λ _ route, slot_index_ok (route_data_index_ route) = true) (passive_encoder_routes_ m).

Definition mit_wf (m : MitDriver) : Prop :=
  length (received_servo_data_ m) = Z.to_nat MAX_SERVO_INFO_BUF_SIZE ∧ routes_ok m.

Definition world_wf (w : World) : Prop := bus_wf (bus w) ∧ mit_wf (mit w).

Lemma traffic_bus_wf allowed b b' : traffic allowed b b' → bus_wf b → bus_wf b'.
Proof.
  unfold bus_wf, is_socket_open. intros (E1 & E2 & E3 & _) [H1 H2]. rewrite E1, E2, E3. done.
Qed.

Lemma wp_syscall {A} (answer : nat → A) (Q : A → Bus → Prop) b :
  Q (answer (io_count b)) (b <| io_count := S (io_count b) |>) → wp (syscall answer) Q b.
Proof. done. Qed.

(** The states the lifecycle calls leave. *)
Definition stopped (b : Bus) : Prop := is_running_ b = false ∧ reception_joinable b = false.

Lemma stopped_wf b : stopped b → bus_wf b.
Proof. intros [H1 H2]. split; [by rewrite H1, H2|]. by rewrite H1. Qed.

Lemma stop_reception_spec b : bus_wf b →
  wp stop_reception (λ rc b', rc = SUCCESS ∧ stopped b' ∧ sock_ b' = sock_ b ∧ sent b' = sent b) b.
Proof.
  intros [H1 H2]. unfold stop_reception, join_reception_thread. wp_steps. cbn.
  destruct (reception_joinable b) eqn:E; cbn; by split_and!.
Qed.

Lemma bus_close_spec b : bus_wf b →
  wp bus_close (λ rc b', rc = SUCCESS ∧ stopped b' ∧ is_socket_open b' = false ∧ sent b' = sent b) b.
Proof.
  intros Hb. unfold bus_close. wp_step. eapply wp_mono; [by apply stop_reception_spec|].
  cbn beta. intros _ b' (_ & [S1 S2] & E & F). wp_steps. unfold is_socket_open.
  destruct (0 <=? sock_ b') eqn:E'; cbn; by split_and!.
Qed.

Lemma start_reception_spec b : bus_wf b →
  wp (start_reception true) (λ rc b', bus_wf b' ∧ sock_ b' = sock_ b ∧ sent b' = sent b ∧
    (rc = SUCCESS → is_running_ b' = true) ∧ (is_socket_open b = true → rc = SUCCESS)) b.
Proof.
  intros Hb. pose proof Hb as [H1 H2]. unfold start_reception, join_reception_thread. cbn [negb].
  wp_step. wp_step. apply wp_if; intros Hr; [by wp_step|].
  wp_step. wp_step. rewrite <- H1, Hr. wp_step. wp_step. apply wp_if; intros Ho.
  - apply negb_true_iff in Ho. wp_step. split_and!; try done. by rewrite Ho.
  - apply negb_false_iff in Ho. by wp_steps.
Qed.

(** Closing on the way out with a failure. *)
Lemma close_and_fail b rc : bus_wf b → rc ≠ SUCCESS →
  wp (bus_close;; mret rc) (λ rc' b', rc' = rc ∧ stopped b' ∧ is_socket_open b' = false ∧ sent b' = sent b) b.
Proof.
  intros Hb Hrc. wp_step. eapply wp_mono; [by apply bus_close_spec|].
  intros _ b' (_ & H). by wp_step.
Qed.

Lemma bus_open_spec env b : bus_wf b →
  wp (bus_open env) (λ rc b', bus_wf b' ∧ sent b' = sent b ∧
    (rc = SUCCESS ∧ is_socket_open b' = true ∨ rc ≠ SUCCESS ∧ stopped b' ∧ is_socket_open b' = false)) b.
Proof.
  intros Hb. unfold bus_open. wp_step. wp_step. apply wp_if; intros Ho; [wp_step; auto|].
  assert (stopped b) as [Hr Hj].
  { destruct Hb as [H1 H2]. assert (is_running_ b = false) as E
      by (destruct (is_running_ b); [by rewrite H2 in Ho|done]). split; [done|by rewrite <- H1]. }
  wp_step. apply wp_syscall. wp_step. wp_step.
  apply wp_if; intros Hs.
  { wp_step. split_and!; [by apply stopped_wf|done|]. right. split_and!; try done.
    unfold is_socket_open. cbn. apply Z.leb_gt. by apply Z.ltb_lt in Hs. }
  apply Z.ltb_ge in Hs.
  assert (∀ b', stopped b' → sent b' = sent b →
    wp (bus_close;; mret FAIL) (λ rc b', bus_wf b' ∧ sent b' = sent b ∧
    (rc = SUCCESS ∧ is_socket_open b' = true ∨ rc ≠ SUCCESS ∧ stopped b' ∧ is_socket_open b' = false)) b') as Hfail.
  { intros b' Hb' E. eapply wp_mono; [apply close_and_fail; [by apply stopped_wf|done]|].
    intros rc b2 (-> & S & O & E2). split_and!; [by apply stopped_wf|congruence|]. by right. }
  wp_step. apply wp_syscall. apply wp_if; intros _; [by apply Hfail|].
  wp_step. apply wp_syscall. apply wp_if; intros _; [by apply Hfail|].
  wp_step. split_and!; [by apply stopped_wf|done|]. left. split; [done|].
  unfold is_socket_open. cbn. by apply Z.leb_le.
Qed.

(** Every operation keeps the invariant. *)
Lemma wf_on_bus {A} (m : St Bus A) : steps (keeps bus_wf) m → steps (keeps world_wf) (on_bus m).
Proof. intros H. eapply steps_lift_into; [exact H|]. intros w b Hb [H1 H2]. split; [by apply Hb|done]. Qed.

Lemma traffic_wf {A} (m : St Bus A) allowed : steps (traffic allowed) m → steps (keeps bus_wf) m.
Proof. intros H b Hb. exact (traffic_bus_wf allowed _ _ (H b) Hb). Qed.

Lemma wf_bus_calls env :
  steps (keeps bus_wf) (bus_open env) ∧ steps (keeps bus_wf) bus_close ∧
  steps (keeps bus_wf) stop_reception ∧ steps (keeps bus_wf) (start_reception true).
Proof.
  split_and!; intros b Hb.
  - by apply (bus_open_spec env b Hb).
  - by apply stopped_wf, (bus_close_spec b Hb).
  - by apply stopped_wf, (stop_reception_spec b Hb).
  - by apply (start_reception_spec b Hb).
Qed.

Lemma wf_lifecycle env :
  steps (keeps world_wf) (on_bus (bus_open env)) ∧ steps (keeps world_wf) (on_bus bus_close) ∧
  steps (keeps world_wf) (on_bus stop_reception) ∧
  steps (keeps world_wf) (on_bus (start_reception true)).
Proof. destruct (wf_bus_calls env) as (? & ? & ? & ?). split_and!; by apply wf_on_bus. Qed.

Lemma wf_send env f : steps (keeps world_wf) (send env f).
Proof. apply wf_on_bus, (traffic_wf _ (λ _, True)), send_frame_traffic. done. Qed.

Lemma wf_receive env : steps (keeps world_wf) (receive env).
Proof. apply wf_on_bus, (traffic_wf _ (λ _, True)), read_frame_traffic. Qed.

Lemma wf_now env : steps (keeps world_wf) (now env).
Proof. apply wf_on_bus, (traffic_wf _ (λ _, True)), get_time_now_traffic. Qed.

Lemma wf_on_mit f : (∀ m, mit_wf m → mit_wf (f m)) → steps (keeps world_wf) (on_mit f).
Proof. intros H. apply steps_modify. intros w [H1 H2]. split; [done|by apply H]. Qed.

Lemma wf_modify_servo p f : steps (keeps world_wf) (modify_servo p f).
Proof. apply steps_modify. by intros w [H1 H2]. Qed.

Lemma wf_socket_open : steps (keeps world_wf) socket_open.
Proof. unfold socket_open. steps_go. Qed.

#[export] Hint Resolve wf_send wf_receive wf_now wf_modify_servo wf_socket_open : steps.

Lemma wf_until_deadline {A} env fuel deadline (body : St World (option A)) timeout :
  steps (keeps world_wf) body → steps (keeps world_wf) (until_deadline env fuel deadline body timeout).
Proof. intros Hb. induction fuel; cbn; steps_go. Qed.

Section wf.
Context (env : BusEnv) (cast : f32 → Z) (dev : option Device) (fuel : nat).

Lemma wf_eeprom id device offset compat :
  steps (keeps world_wf) (read_passive_encoder_eeprom env fuel id device offset compat).
Proof.
  unfold read_passive_encoder_eeprom, send_passive_encoder_request, wait_for_passive_encoder_reply.
  steps_go; apply wf_until_deadline; unfold passive_reply_step, eeprom_compat_step; steps_go.
Qed.
Hint Resolve wf_eeprom : steps.

Lemma wf_frequency id device hi lo compat :
  steps (keeps world_wf) (read_passive_encoder_frequency env fuel id device hi lo compat).
Proof. unfold read_passive_encoder_frequency. steps_go. Qed.
Hint Resolve wf_frequency : steps.

Lemma wf_configure_passive_encoder id compat :
  steps (keeps world_wf) (configure_passive_encoder env fuel id compat).
Proof.
  unfold configure_passive_encoder, send_passive_encoder_request, wait_for_passive_encoder_reply,
    correct_frequency, send_passive_encoder_request.
  steps_go; apply wf_until_deadline; unfold passive_reply_step; steps_go.
Qed.
Hint Resolve wf_configure_passive_encoder : steps.

Lemma wf_configure_passive_encoders : steps (keeps world_wf) (configure_passive_encoders env fuel).
Proof.
  unfold configure_passive_encoders, drain_startup_frames. steps_go.
  - generalize (in_key_order a). intros l. induction l as [|[id c] l IH]; cbn; steps_go.
  - apply wf_until_deadline. steps_go.
Qed.
Hint Resolve wf_configure_passive_encoders : steps.

Lemma wf_open : steps (keeps world_wf) (open env fuel).
Proof. destruct (wf_lifecycle env) as (? & ? & ? & ?). unfold open. steps_go. Qed.

(** A store of the cache that keeps its length. *)
Lemma wf_store (f : MitDriver → slots) :
  (∀ m, length (f m) = length (received_servo_data_ m)) →
  steps (keeps world_wf) (on_mit (λ m, m <| received_servo_data_ := f m |>)).
Proof. intros H. apply wf_on_mit. intros m [H1 H2]. split; [cbn; by rewrite H|done]. Qed.

Lemma writes_slot_length r id t ss ss' : writes_slot r id t ss ss' → length ss' = length ss.
Proof. intros [->|(_ & x & -> & _)]; [done|]. apply length_insert. Qed.

Lemma wf_parse_into_cache frame : steps (keeps world_wf) (parse_into_cache env frame).
Proof.
  intros w Hw. unfold parse_into_cache. unfold mbind, St_bind, get_state.
  pose proof (wf_now env w Hw) as Hw1. destruct (now env w) as [t w1]. cbn [snd] in Hw1.
  pose proof (writes_slot_length _ _ _ _ _ (parse_dm_writes_slot (registry w1) (servos w1) t frame
                (received_servo_data_ (mit w1)))) as E.
  destruct (parse_dm_servo_status _ _ _ _ _) as [rc ss]. destruct Hw1 as [H1 [H2 H3]].
  split; [done|]. split; [|done]. cbn in E |- *. congruence.
Qed.
Hint Resolve wf_parse_into_cache : steps.

Lemma wf_fault_status z :
  steps (keeps world_wf) (on_mit (λ m, m <| last_enable_fault_status_ := z |>)).
Proof. by apply wf_on_mit. Qed.
Hint Resolve wf_fault_status : steps.

Lemma wf_handle_own_response id flag l frame :
  steps (keeps world_wf) (handle_own_response env id flag l frame).
Proof. unfold handle_own_response, send_reset_sequence. cbn [send_times]. steps_go. Qed.
Hint Resolve wf_handle_own_response : steps.

Lemma wf_read_responses n id flag l : steps (keeps world_wf) (read_responses env n id flag l).
Proof. revert l. induction n as [|n IH]; intros l; cbn; steps_go; apply IH. Qed.
Hint Resolve wf_read_responses : steps.

Lemma wf_attempts n id flag : ∀ l, steps (keeps world_wf) (attempts env n id flag l).
Proof. induction n as [|n IH]; intros l; cbn -[read_responses]; steps_go; apply IH. Qed.
Hint Resolve wf_attempts : steps.

Lemma wf_enable id type flag : steps (keeps world_wf) (enable env cast id type flag).
Proof.
  destruct (wf_lifecycle env) as (? & ? & ? & ?).
  unfold enable, handshake, disarm_stale_window, send_and_drain. steps_go.
Qed.

Lemma wf_group_read : steps (keeps world_wf) (group_read_hardware_values env dev).
Proof.
  assert (steps (keeps world_wf) (on_mit (λ m, m <| dead_servo_ids_ := ∅ |> <| last_failed_servo_id_ := -1 |>)))
    by by apply wf_on_mit.
  destruct dev as [d|] eqn:Ed; [|unfold group_read_hardware_values; steps_go].
  destruct (servo_ids_ d) as [|i ids] eqn:E.
  { unfold group_read_hardware_values. rewrite E. steps_go. }
  intros w (H1 & H2 & H3). destruct (group_read_spec env d w) as ((_ & _ & _ & R & _) & P & B); [by rewrite E|].
  split; [|split].
  - by rewrite B.
  - by rewrite R.
  - unfold routes_ok. by rewrite P.
Qed.

Lemma wf_arm_servo stop t id : steps (keeps world_wf) (arm_servo env stop t id).
Proof.
  unfold arm_servo, arm_encos, arm_dm, query_and_adopt_encos_mit_ranges, query_and_adopt, send_and_drain.
  steps_go.
Qed.
Hint Resolve wf_arm_servo : steps.

Lemma wf_arm : steps (keeps world_wf) (arm_comm_loss_protection env dev).
Proof.
  destruct (wf_lifecycle env) as (? & ? & ? & ?). unfold arm_comm_loss_protection. steps_go.
  match goal with |- context [arm_each _ _ _ ?ids] => generalize ids end.
  intros ids. induction ids; cbn; steps_go.
Qed.

Lemma wf_simple_calls s id type kp kd pos vel tor :
  steps (keeps world_wf) (send_command env cast s kp kd pos vel tor) ∧
  steps (keeps world_wf) (send_disable_once env id type) ∧
  steps (keeps world_wf) (reset_zero_position env id type).
Proof.
  unfold send_command, send_disable_once, reset_zero_position. split_and!; steps_go.
Qed.

Lemma wf_read_hardware_values p : steps (keeps world_wf) (read_hardware_values p).
Proof. unfold read_hardware_values. steps_go. Qed.

Lemma wf_update_encoder_slot i id angle : steps (keeps world_wf) (update_encoder_slot env i id angle).
Proof.
  unfold update_encoder_slot. steps_go. apply wf_on_mit. intros m [H1 H2].
  split; [|done]. cbn. unfold set_slot. by rewrite length_insert.
Qed.

Lemma wf_register_passive_encoder rid eid i c :
  steps (keeps world_wf) (register_passive_encoder rid eid i c).
Proof.
  unfold register_passive_encoder. steps_go. apply wf_on_mit. intros m [H1 H2]. split; [done|].
  match goal with H : negb _ = false |- _ => apply negb_false_iff in H end.
  apply map_Forall_insert_2; done.
Qed.

Lemma wf_handle_received_message f n1 n2 :
  steps (keeps world_wf) (handle_received_message env f n1 n2).
Proof.
  assert (∀ w ss, length ss = length (received_servo_data_ (mit w)) → world_wf w →
    world_wf (snd (on_mit (λ m, m <| received_servo_data_ := ss |>) w))) as Hstore.
  { intros w ss E (H1 & H2 & H3). split; [done|]. split; [|done]. cbn. by rewrite E. }
  intros w Hw. unfold handle_received_message. destruct (_ || _); [done|].
  unfold mbind, St_bind, get_state. pose proof (wf_now env w Hw) as Hw1.
  destruct (now env w) as [t w1]. cbn [snd] in Hw1.
  destruct (passive_encoder_routes_ _ !! _); [apply Hstore; [by apply length_insert|done]|].
  destruct (0 <=? _).
  { apply Hstore; [|done]. eapply writes_slot_length, parse_dm_writes_slot. }
  destruct (_ && _); [|done].
  apply Hstore; [|done]. eapply writes_slot_length, parser_encos_writes_slot.
Qed.
End wf.

(** Histories: the driver's operations, the registry and changes of the servos by
    the rest of the program, in any order, whatever the bus and the clock answer. *)
Inductive driver_op :=
  | OpOpen | OpClose | OpGroupRead | OpArm
  | OpCommand (s : Servo) (kp kd pos vel tor : f32)
  | OpEnable (id : Z) (type : ServoType) (flag : bool)
  | OpDisableOnce (id : Z) (type : ServoType)
  | OpResetZero (id : Z) (type : ServoType)
  | OpRead (p : ptr)
  | OpRoute (response_can_id encoder_id data_index : Z) (compat : bool)
  | OpFrame (f : can_frame) (data_buf_size read_bytes : Z)
  | OpRegistry (o : registry_op)
  | OpServos (h : heap).

Definition driver_step (env : BusEnv) (cast : f32 → Z) (dev : option Device) (fuel : nat)
    (w : World) (o : driver_op) : World :=
  match o with
  | OpOpen => snd (open env fuel w)
  | OpClose => snd (close w)
  | OpGroupRead => snd (group_read_hardware_values env dev w)
  | OpArm => snd (arm_comm_loss_protection env dev w)
  | OpCommand s kp kd pos vel tor => snd (send_command env cast s kp kd pos vel tor w)
  | OpEnable id type flag => snd (enable env cast id type flag w)
  | OpDisableOnce id type => snd (send_disable_once env id type w)
  | OpResetZero id type => snd (reset_zero_position env id type w)
  | OpRead p => snd (read_hardware_values p w)
  | OpRoute rid eid i c => snd (register_passive_encoder rid eid i c w)
  | OpFrame f n1 n2 => snd (handle_received_message env f n1 n2 w)
  | OpRegistry o => w <| registry := registry_step (registry w) o |>
  | OpServos h => w <| servos := h |>
  end.

Definition driver_run env cast dev fuel (os : list driver_op) : World :=
  foldl (driver_step env cast dev fuel) (mkWorld new_Bus empty_registry ∅ new_MitDriver) os.

(** The lifecycle never goes wrong.  After any history of calls, frames and
    registrations, on any bus: the reception thread runs exactly when it is
    joinable and never without an open socket, the cache has its twenty slots, and
    every passive-encoder route leads into it. *)
Theorem driver_invariant env cast dev fuel os :
  world_wf (driver_run env cast dev fuel os).
Proof.
  unfold driver_run. induction os as [|o os IH] using rev_ind.
  { split; [by split|]. split; [done|]. apply map_Forall_empty. }
  rewrite foldl_snoc. generalize dependent (foldl (driver_step env cast dev fuel)
    (mkWorld new_Bus empty_registry ∅ new_MitDriver) os). intros w Hw.
  assert (steps (keeps world_wf) close) as Hclose.
  { destruct (wf_lifecycle env) as (_ & Hc & _). unfold close. steps_go. }
  destruct o; cbn [driver_step].
  - by apply wf_open.
  - by apply Hclose.
  - by apply wf_group_read.
  - by apply wf_arm.
  - by apply (wf_simple_calls env cast s 0 DM_4340).
  - by apply wf_enable.
  - by apply (wf_simple_calls env cast (new_Servo follower_arm None) id type f0 f0 f0 f0 f0).
  - by apply (wf_simple_calls env cast (new_Servo follower_arm None) id type f0 f0 f0 f0 f0).
  - by apply wf_read_hardware_values.
  - by apply wf_register_passive_encoder.
  - by apply wf_handle_received_message.
  - done.
  - done.
Qed.
