(* ===== verification/DriverCanMitProtocol.v ===== *)
(** * The exchanges of the MIT-mode CAN driver: enable handshake, frame dispatch,
    communication-loss pass, deadline loops ([DriverCanMit]) *)

From S2P Require Import Prelude.
From S2P Require Import FloatSpec.
From S2P Require Import Control.
From S2P Require Import MathOps.
From S2P Require Import DmStatus.
From S2P Require Import CanBus.
From S2P Require Import Servo.
From S2P Require Import DmCodec.
From S2P Require Import DriverCanMit.
From S2P Require Import DriverCanMitFacts.

(** ** The enable handshake *)

Section handshake.
Context (env : BusEnv).

(** A complete frame that the [k]-th system call delivered. *)
Definition delivered (k : nat) (f : can_frame) : Prop :=
  ∃ n, env_recvmsg env k = (n, false, f) ∧ sizeof_can_frame ≤ n.

(** A reply of servo [id] with status [n], read at or after call number [k0]. *)
Definition own_reply (k0 : nat) (id n : Z) : Prop :=
  ∃ k f, (k0 ≤ k)%nat ∧ delivered k f ∧ dm_response_motor_id f = id ∧ Z.shiftr (byte f 0) 4 = n.

Lemma own_reply_mono k0 k1 id n : (k0 ≤ k1)%nat → own_reply k1 id n → own_reply k0 id n.
Proof. intros H (k & f & Hk & H'). exists k, f. split; [lia|done]. Qed.

(** Calls are numbered in order. *)
Definition io_grows (w w' : World) : Prop := (io_count (bus w) ≤ io_count (bus w'))%nat.
#[local] Instance io_grows_preorder : PreOrder io_grows.
Proof. unfold io_grows. split; [intros w; lia|]. intros w1 w2 w3. lia. Qed.

(** The calls the handshake is made of, and what they leave alone: the status
    of the last enable, and their own effect. *)
Definition quiet (w w' : World) : Prop :=
  io_grows w w' ∧ last_enable_fault_status_ (mit w') = last_enable_fault_status_ (mit w) ∧
  ∃ new, sent (bus w') = new ++ sent (bus w).
#[local] Instance quiet_preorder : PreOrder quiet.
Proof.
  split.
  - intros w. split_and!; [reflexivity|done|by exists []].
  - intros w1 w2 w3 (A1 & B1 & n1 & C1) (A2 & B2 & n2 & C2).
    split_and!; [by etrans|congruence|]. exists (n2 ++ n1). by rewrite C2, C1, (assoc_L (++)).
Qed.

Lemma send_spec f w : wp (send env f) (λ rc w', quiet w w' ∧ rc ≠ HARDWARE_FAULT ∧
  (rc = SUCCESS → f ∈ sent (bus w'))) w.
Proof.
  apply wp_lift_into. unfold send_frame, send_frame_buf.
  change (sizeof_can_frame =? sizeof_can_frame) with true. cbn [negb].
  assert (∀ b' rc, (io_count (bus w) ≤ io_count b')%nat → sent b' = sent (bus w) → rc ≠ HARDWARE_FAULT →
    rc ≠ SUCCESS → quiet w (w <| bus := b' |>) ∧ rc ≠ HARDWARE_FAULT ∧
    (rc = SUCCESS → f ∈ sent (bus (w <| bus := b' |>)))) as Hq.
  { intros b' rc Hio Hs H1 H2. split_and!; [by split_and!; [..|exists []]|done|done]. }
  wp_step. wp_step. apply wp_if; intros _; [wp_step; by apply Hq|].
  wp_step. apply wp_syscall. destruct (env_select env (io_count (bus w))) as [ret eintr].
  apply wp_if; intros _; [wp_step; destruct eintr; apply Hq; cbn; (done || lia)|].
  apply wp_if; intros _; [wp_step; apply Hq; cbn; (done || lia)|].
  wp_step. apply wp_syscall. apply wp_if; intros _; [wp_step; apply Hq; cbn; (done || lia)|].
  wp_step. wp_step. wp_step. split_and!; [split_and!|done|].
  - cbn. unfold io_grows. cbn. lia.
  - done.
  - by exists [f].
  - intros _. cbn. by left.
Qed.

Lemma receive_spec w : wp (receive env) (λ '(rc, f) w', quiet w w' ∧ rc ≠ HARDWARE_FAULT ∧
  (rc = SUCCESS → ∃ k, (io_count (bus w) ≤ k)%nat ∧ delivered k f)) w.
Proof.
  apply wp_lift_into. unfold read_frame, read_frame_buf.
  change (sizeof_can_frame =? sizeof_can_frame) with true. cbn [negb].
  assert (∀ b' rc f, (io_count (bus w) ≤ io_count b')%nat → sent b' = sent (bus w) → rc ≠ HARDWARE_FAULT →
    (rc = SUCCESS → ∃ k, (io_count (bus w) ≤ k)%nat ∧ delivered k f) →
    (λ '(rc, f) w', quiet w w' ∧ rc ≠ HARDWARE_FAULT ∧
       (rc = SUCCESS → ∃ k, (io_count (bus w) ≤ k)%nat ∧ delivered k f)) (rc, f) (w <| bus := b' |>)) as Hq.
  { intros b' rc f Hio Hs H1 H2. split_and!; [by split_and!; [..|exists []]|done|done]. }
  wp_step. wp_step. apply wp_if; intros _; [wp_step; by apply Hq|].
  wp_step. apply wp_syscall. destruct (env_select env (io_count (bus w))) as [ret eintr].
  apply wp_if; intros _; [wp_step; destruct eintr; apply Hq; cbn; (done || lia)|].
  apply wp_if; intros _; [wp_step; apply Hq; cbn; (done || lia)|].
  wp_step. apply wp_syscall. cbn [io_count upd].
  destruct (env_recvmsg env _) as [[nbytes trunc] frame] eqn:E.
  apply wp_if; intros _; [wp_step; apply Hq; cbn; (done || lia)|].
  apply wp_if; intros Htr; [wp_step; apply Hq; cbn; (done || lia)|].
  apply wp_if; intros Hn; [wp_step; apply Hq; cbn; (done || lia)|].
  wp_step. apply Hq; cbn; [lia|done|done|]. intros _. exists (S (io_count (bus w))). split; [lia|].
  exists nbytes. apply Z.ltb_ge in Hn. split; [|done]. rewrite E. by subst trunc.
Qed.

Lemma send_quiet f : steps quiet (send env f).
Proof. intros w. apply (send_spec f w). Qed.
Lemma receive_quiet : steps quiet (receive env).
Proof. intros w. pose proof (receive_spec w) as H. unfold wp in H.
  destruct (fst (receive env w)) as [rc f]. apply H.
Qed.
Lemma now_quiet : steps quiet (now env).
Proof. intros w. split_and!; [by apply Nat.le_refl|done|by exists []]. Qed.
Lemma on_mit_quiet f :
  (∀ m, last_enable_fault_status_ (f m) = last_enable_fault_status_ m) → steps quiet (on_mit f).
Proof. intros H w. split_and!; [by apply Nat.le_refl|apply H|by exists []]. Qed.
Hint Resolve send_quiet receive_quiet now_quiet on_mit_quiet : steps.

Lemma parse_into_cache_quiet f : steps quiet (parse_into_cache env f).
Proof. unfold parse_into_cache. steps_go. Qed.
Lemma drain_quiet f : steps quiet (send_and_drain env f).
Proof. unfold send_and_drain. steps_go. Qed.
Hint Resolve parse_into_cache_quiet drain_quiet : steps.

(** What an attempt can end in, from a state with [k0] calls made. *)
Definition outcome_ok (id : Z) (flag : bool) (w : World) (o : attempt_outcome) (w' : World) : Prop :=
  let k0 := io_count (bus w) in
  let unchanged := last_enable_fault_status_ (mit w') = last_enable_fault_status_ (mit w) in
  io_grows w w' ∧ (∃ new, sent (bus w') = new ++ sent (bus w)) ∧
  match o with
  | Acknowledged => unchanged ∧ own_reply k0 id (normal_nibble flag)
  | Retry _ => unchanged
  | Return rc => rc ≠ SUCCESS ∧
      (rc = HARDWARE_FAULT ∧ own_reply k0 id (last_enable_fault_status_ (mit w')) ∧
         is_fault (dm_servo_status_info (last_enable_fault_status_ (mit w'))) = true
       ∨ rc ≠ HARDWARE_FAULT ∧ unchanged)
  end.

Lemma outcome_after id flag w w1 o w' : quiet w w1 →
  outcome_ok id flag w1 o w' → outcome_ok id flag w o w'.
Proof.
  intros (A1 & B1 & n1 & C1) (A2 & (n2 & C2) & H).
  split; [by etrans|]. split; [exists (n2 ++ n1); by rewrite C2, C1, (assoc_L (++))|].
  destruct o as [rc| |l].
  - destruct H as [H1 [(H2 & H3 & H4)|[H2 H3]]]; (split; [done|]).
    + left. split_and!; [done|by eapply own_reply_mono|done].
    + right. split; [done|congruence].
  - destruct H as [H1 H2]. split; [congruence|by eapply own_reply_mono].
  - congruence.
Qed.

Lemma outcome_quiet id flag w w' o : quiet w w' →
  match o with
  | Acknowledged => own_reply (io_count (bus w)) id (normal_nibble flag)
  | Retry _ => True
  | Return rc => rc ≠ SUCCESS ∧ rc ≠ HARDWARE_FAULT
  end → outcome_ok id flag w o w'.
Proof.
  intros (A1 & B1 & C1) H. split_and!; try done. destruct o; [|done..].
  destruct H. split; [done|by right].
Qed.

(** Sending the reset frames ends in another attempt or in a failure. *)
Lemma reset_spec id flag l w :
  wp (rc ← send_reset_sequence env id;
      if negb (ok rc) then mret (Return rc) else mret (Retry l)) (outcome_ok id flag w) w.
Proof.
  assert (∀ n w, wp (send_times env n (snd (can_frame_to_reset_dm_servo (u16 id))))
    (λ rc w', quiet w w' ∧ rc ≠ HARDWARE_FAULT) w) as Hn.
  { clear w. induction n as [|n IH]; intros w; cbn [send_times]; [by wp_step|].
    wp_step. eapply wp_mono; [apply send_spec|]. intros rc w1 (Q1 & H1 & _).
    apply wp_if; intros _; [by wp_step|]. eapply wp_mono; [apply IH|]. intros rc2 w2 [Q2 H2].
    split; [by etrans|done]. }
  wp_step. eapply wp_mono; [apply Hn|]. cbv beta. intros rc w1 [Q1 H1].
  apply wp_if; intros E; wp_step; apply outcome_quiet; try done.
  split; [|done]. apply negb_true_iff in E. by apply ok_false.
Qed.

Lemma own_response_spec id flag l frame w w0 k :
  quiet w0 w → (io_count (bus w0) ≤ k)%nat → delivered k frame → dm_response_motor_id frame = id →
  wp (handle_own_response env id flag l frame) (outcome_ok id flag w0) w.
Proof.
  intros Q0 Hk Hd Hid. set (n := Z.shiftr (byte frame 0) 4).
  assert (own_reply (io_count (bus w0)) id n) as Hown by (exists k, frame; by split_and!).
  unfold handle_own_response. fold n. wp_step. eapply wp_mono.
  { apply (steps_wp quiet). steps_go. }
  intros [] w1 Q1. assert (quiet w0 w1) as Q01 by by etrans.
  apply wp_if; intros En.
  { wp_step. apply outcome_quiet; [done|]. apply Z.eqb_eq in En. by rewrite <- En. }
  apply wp_if; intros Ef.
  - apply wp_if; intros _.
    + eapply wp_mono; [apply reset_spec|]. intros o w2. by apply outcome_after.
    + unfold on_mit. wp_step. wp_step. wp_step. destruct Q01 as (A & B & C). split_and!; try done.
      left. by split_and!.
  - eapply wp_mono; [apply reset_spec|]. intros o w2. by apply outcome_after.
Qed.

Lemma read_responses_spec n id flag l w :
  wp (read_responses env n id flag l) (outcome_ok id flag w) w.
Proof.
  revert w l. induction n as [|n IH]; intros w l; cbn [read_responses].
  { wp_step. by apply outcome_quiet. }
  wp_step. eapply wp_mono; [apply receive_spec|]. intros [rc frame] w1 (Q1 & H1 & H2).
  apply wp_if; intros E1; [wp_step; by apply outcome_quiet|].
  apply wp_if; intros E2.
  { wp_step. apply outcome_quiet; [done|]. split; [|done]. apply negb_true_iff in E2. by apply ok_false. }
  assert (wp (read_responses env n id flag l) (outcome_ok id flag w) w1) as Hrest.
  { eapply wp_mono; [apply IH|]. intros o w2. by apply outcome_after. }
  apply wp_if; intros E3; [exact Hrest|]. apply wp_if; intros E4; [exact Hrest|].
  apply negb_false_iff, Z.eqb_eq in E4. apply negb_false_iff, ok_spec in E2.
  destruct (H2 E2) as (k & Hk & Hd). by eapply own_response_spec.
Qed.

Lemma attempts_spec n id flag l w :
  wp (attempts env n id flag l) (λ o w', outcome_ok id flag w o w' ∧
    (o = Acknowledged → snd (can_frame_to_enable_dm_servo (u16 id) flag) ∈ sent (bus w'))) w.
Proof.
  revert w l. induction n as [|n IH]; intros w l; cbn [attempts].
  { wp_step. split; [by apply outcome_quiet|done]. }
  wp_step. eapply wp_mono; [apply send_spec|]. intros rc w1 (Q1 & H1 & Hin).
  assert (∀ l w2, outcome_ok id flag w (Retry l) w2 →
    wp (attempts env n id flag l) (λ o w', outcome_ok id flag w o w' ∧
      (o = Acknowledged → snd (can_frame_to_enable_dm_servo (u16 id) flag) ∈ sent (bus w'))) w2) as Hrest.
  { intros l' w2 (A & C & B). eapply wp_mono; [apply IH|]. intros o w3 [H3 H4]. split; [|done].
    eapply outcome_after; [|exact H3]. by split_and!. }
  apply wp_if; intros E1; [apply Hrest; by apply outcome_quiet|].
  apply wp_if; intros E2.
  { wp_step. split; [|done]. apply outcome_quiet; [done|]. split; [|done].
    apply negb_true_iff in E2. by apply ok_false. }
  wp_step. eapply wp_mono; [apply read_responses_spec|]. intros o w2 H2.
  pose proof (outcome_after _ _ _ _ _ _ Q1 H2) as H2'.
  destruct o as [rc'| |l']; [wp_step; by split| |by apply Hrest].
  wp_step. split; [done|]. intros _. destruct H2 as (_ & (new & ->) & _).
  apply elem_of_app. right. apply Hin. apply negb_false_iff in E2. by apply ok_spec.
Qed.
End handshake.

(** ** Traffic on an open socket *)

Definition exchange (allowed : can_frame → Prop) (w w' : World) : Prop :=
  traffic allowed (bus w) (bus w').

#[export] Instance exchange_preorder allowed : PreOrder (exchange allowed).
Proof. split; [intros w; unfold exchange; reflexivity|intros w1 w2 w3 H1 H2; unfold exchange; by etrans]. Qed.

Lemma exchange_send env allowed f : allowed f → steps (exchange allowed) (send env f).
Proof. intros H. by apply (steps_lift_into (traffic allowed)); [apply send_frame_traffic|]. Qed.
Lemma exchange_receive env allowed : steps (exchange allowed) (receive env).
Proof. by apply (steps_lift_into (traffic allowed)); [apply read_frame_traffic|]. Qed.
Lemma exchange_now env allowed : steps (exchange allowed) (now env).
Proof. by apply (steps_lift_into (traffic allowed)); [apply get_time_now_traffic|]. Qed.
Lemma exchange_on_mit allowed f : steps (exchange allowed) (on_mit f).
Proof. intros w. change (traffic allowed (bus w) (bus w)). reflexivity. Qed.
Lemma exchange_modify_servo allowed p f : steps (exchange allowed) (modify_servo p f).
Proof. intros w. change (traffic allowed (bus w) (bus w)). reflexivity. Qed.
#[export] Hint Resolve exchange_send exchange_receive exchange_now exchange_on_mit exchange_modify_servo : steps.

Lemma exchange_parse env allowed f : steps (exchange allowed) (parse_into_cache env f).
Proof. unfold parse_into_cache. steps_go. Qed.
Lemma exchange_drain env allowed f : allowed f → steps (exchange allowed) (send_and_drain env f).
Proof. intros H. unfold send_and_drain. steps_go. Qed.
#[export] Hint Resolve exchange_parse exchange_drain : steps.

(** The frames the handshake of servo [id] sends. *)
Definition handshake_frame (id : Z) (flag : bool) (f : can_frame) : Prop :=
  f = snd (can_frame_to_enable_dm_servo (u16 id) flag) ∨ f = snd (can_frame_to_reset_dm_servo (u16 id)) ∨
  flag = true ∧ f = snd (can_frame_to_write_register_dm_servo (u16 id) RegAddr_TIMEOUT 0).

Lemma exchange_handshake env id flag : steps (exchange (handshake_frame id flag)) (handshake env id flag).
Proof.
  assert (∀ l f, steps (exchange (handshake_frame id flag)) (handle_own_response env id flag l f)) as H1.
  { intros l f. assert (handshake_frame id flag (snd (can_frame_to_reset_dm_servo (u16 id)))) by by right; left.
    unfold handle_own_response, send_reset_sequence. cbn [send_times]. steps_go. }
  assert (∀ n l, steps (exchange (handshake_frame id flag)) (read_responses env n id flag l)) as H2.
  { induction n as [|n IH]; intros l; cbn [read_responses]; steps_go. }
  assert (∀ n l, steps (exchange (handshake_frame id flag)) (attempts env n id flag l)) as H3.
  { assert (handshake_frame id flag (snd (can_frame_to_enable_dm_servo (u16 id) flag))) by by left.
    induction n as [|n IH]; intros l; cbn [attempts]; steps_go. }
  unfold handshake, disarm_stale_window. steps_go. apply exchange_drain. by right; right.
Qed.

Section enable.
Context (env : BusEnv) (cast : f32 → Z).

Lemma handshake_spec id flag w :
  wp (handshake env id flag) (λ rc w',
    (rc = SUCCESS → snd (can_frame_to_enable_dm_servo (u16 id) flag) ∈ sent (bus w') ∧
       own_reply env (io_count (bus w)) id (normal_nibble flag)) ∧
    (rc = HARDWARE_FAULT →
       own_reply env (io_count (bus w)) id (last_enable_fault_status_ (mit w')) ∧
       is_fault (dm_servo_status_info (last_enable_fault_status_ (mit w'))) = true) ∧
    (rc ≠ HARDWARE_FAULT →
       last_enable_fault_status_ (mit w') = last_enable_fault_status_ (mit w))) w.
Proof.
  unfold handshake. wp_step. eapply wp_mono; [apply attempts_spec|].
  intros o w1 [(_ & _ & H) Hin]. destruct o as [rc| |l].
  - wp_step. destruct H as [H1 [(-> & H2 & H3)|[H2 H3]]]; split_and!; done.
  - destruct H as [H1 H2]. specialize (Hin eq_refl).
    wp_step. eapply wp_mono.
    { apply (steps_wp quiet). apply steps_when; [apply quiet_preorder|]. intros _.
      unfold disarm_stale_window. apply steps_bind; [apply quiet_preorder|apply drain_quiet|].
      intros _. apply steps_ret, quiet_preorder. }
    intros _ w2 (_ & B & new & C). wp_step. split_and!; [|done|by intros _; rewrite B].
    intros _. rewrite C. split; [|done]. apply elem_of_app. by right.
  - wp_step. split_and!; destruct (0 <=? _); done.
Qed.

(** What enabling (or disabling) a DM servo reports. *)
Definition enable_report (id : Z) (flag : bool) (w : World) (rc : ReturnCode) (w' : World) : Prop :=
  let status := last_enable_fault_status_ (mit w') in
  (rc = SUCCESS → snd (can_frame_to_enable_dm_servo (u16 id) flag) ∈ sent (bus w') ∧
     own_reply env (io_count (bus w)) id (normal_nibble flag)) ∧
  (rc = HARDWARE_FAULT → own_reply env (io_count (bus w)) id status ∧
     is_fault (dm_servo_status_info status) = true) ∧
  (rc ≠ HARDWARE_FAULT → status = -1) ∧
  (rc = SUCCESS ∨ rc = HARDWARE_FAULT → is_running_ (bus w') = true).

Lemma enable_dm_wp id type flag w : type ≠ ENCOS_A4310 → bus_wf (bus w) →
  wp (enable env cast id type flag) (enable_report id flag w) w.
Proof.
  intros Hty Hb. unfold enable, on_mit. wp_step. wp_step.
  set (w0 := w <| mit := _ |>). assert (bus w0 = bus w ∧ last_enable_fault_status_ (mit w0) = -1) as [Eb El] by done.
  clearbody w0. wp_step. unfold socket_open. wp_step.
  apply wp_if; intros Ho; [wp_step; split_and!; try done; by intros [|]|]. apply negb_false_iff in Ho.
  set (rest := (rc ← send env _; _)). enough (wp rest (enable_report id flag w) w0) as Hr.
  { by destruct type. }
  subst rest. wp_step. eapply wp_mono.
  { apply wp_and; [apply send_spec|]. apply (steps_wp (exchange (λ _, True))), exchange_send. done. }
  intros rc w1 [((Hio & Hlef & _) & Hf & _) Hx].
  apply wp_if; intros Erc.
  { wp_step. apply negb_true_iff, ok_false in Erc. split_and!; [done|done|congruence|]. by intros [|]. }
  assert (bus_wf (bus w1) ∧ is_socket_open (bus w1) = true) as [Hb1 Ho1].
  { split; [by eapply traffic_bus_wf; [apply Hx|rewrite Eb]|].
    destruct Hx as (Hs & _). unfold is_socket_open. by rewrite Hs. }
  wp_step. unfold on_bus at 1. wp_step. eapply wp_mono.
  { apply wp_and; [by apply stop_reception_spec|].
    instantiate (1 := λ _ b, io_count b = io_count (bus w1)). unfold stop_reception, join_reception_thread.
    wp_steps. cbn. by destruct (reception_joinable (bus w1)). }
  intros _ b ((_ & Hst & Hsock & _) & Hiob). set (w2 := w1 <| bus := b |>).
  wp_step. eapply wp_mono.
  { apply wp_and; [apply handshake_spec|]. apply (steps_wp (exchange (handshake_frame id flag))).
    apply exchange_handshake. }
  intros rch w3 [(A1 & A2 & A3) Hx3]. change (io_count (bus w2)) with (io_count b) in A1, A2.
  change (last_enable_fault_status_ (mit w2)) with (last_enable_fault_status_ (mit w1)) in A3.
  assert (bus_wf (bus w3) ∧ is_socket_open (bus w3) = true) as [Hb3 Ho3].
  { split; [by eapply traffic_bus_wf; [apply Hx3|apply stopped_wf]|].
    destruct Hx3 as (Hs & _). unfold is_socket_open in *. rewrite Hs. cbn. by rewrite Hsock. }
  wp_step. unfold on_bus. wp_step. eapply wp_mono; [by apply start_reception_spec|].
  intros rcs b' (_ & _ & Hsent & Hrun & Hok). rewrite (Hok Ho3) in *.
  apply wp_if; intros Hok'; [discriminate|]. wp_step.
  assert (io_count (bus w) ≤ io_count b)%nat by (rewrite Hiob, <- Eb; exact Hio).
  split_and!; cbn.
  - intros E. destruct (A1 E). rewrite Hsent. split; [done|by eapply own_reply_mono].
  - intros E. destruct (A2 E). split; [by eapply own_reply_mono|done].
  - intros E. rewrite (A3 E), Hlef. done.
  - intros _. by apply Hrun.
Qed.

(** An ENCOS servo has no handshake: a zero command is sent, and nothing is read. *)
Definition zero_command_report (id : Z) (w : World) (rc : ReturnCode) (w' : World) : Prop :=
  last_enable_fault_status_ (mit w') = -1 ∧ rc ≠ HARDWARE_FAULT ∧
  (rc = SUCCESS → let '(rc', f) := can_frame_to_command_encos_servo cast (registry w) (servos w) (u16 id) f0 f0 f0 f0 f0 in
     rc' = SUCCESS ∧ f ∈ sent (bus w')).

Lemma enable_encos_wp id flag w : wp (enable env cast id ENCOS_A4310 flag) (zero_command_report id w) w.
Proof.
  unfold enable, on_mit, socket_open. wp_step. wp_step. wp_step. wp_step.
  apply wp_if; intros _; [by wp_step|]. wp_step. wp_step.
  change (registry (w <| mit := _ |>)) with (registry w). change (servos (w <| mit := _ |>)) with (servos w).
  unfold zero_command_report. destruct (can_frame_to_command_encos_servo _ _ _ _ _ _ _ _ _) as [rc f] eqn:Ef.
  assert (rc = SUCCESS ∨ rc = INVALID_PARAM) as Hrc.
  { unfold can_frame_to_command_encos_servo in Ef. destruct (dm_param _ _ _); injection Ef as <- _; auto. }
  destruct Hrc as [-> | ->]; cbn [ok negb]; [|by wp_step].
  change (negb (ok SUCCESS)) with false. cbv iota. wp_step. eapply wp_mono; [apply send_spec|].
  intros rc w1 ((_ & El & _) & Hf & Hin). cbn in El. apply wp_if; intros E; wp_step; (split_and!; [done| |]); try done.
  - intros ->. done.
  - intros _. split; [done|]. apply Hin. by apply negb_false_iff, ok_spec in E.
Qed.

(** [C33] What [enable] answers is what the servo said, for every type but ENCOS:
    whatever the bus delivers, success means the enable (or disable) frame was sent and a
    reply of that servo carried the wanted status; a hardware fault means a
    reply of that servo carried a fault status, which is the one reported; no
    other result leaves a fault status behind; and after either the reception
    thread runs again.  For an ENCOS servo nothing is read: success means only that a zero
    command was sent, and it never is a hardware fault. *)
Theorem enable_reports_servo id type flag w : bus_wf (bus w) →
  (if bool_decide (type = ENCOS_A4310) then zero_command_report id w else enable_report id flag w)
    (fst (enable env cast id type flag w)) (snd (enable env cast id type flag w)).
Proof.
  intros Hb. case_bool_decide as Hty; [subst; by apply (enable_encos_wp id flag w)|].
  by apply (enable_dm_wp id type flag w).
Qed.
End enable.

(** A bus on which servo 1 answers every poll with the given status. *)
Definition answering_bus (status : Z) : BusEnv :=
  mkBusEnv (λ _, 1000000000) (λ _, 3) (λ _, 0) (λ _, 0) (λ _, (1, false)) (λ _, 16)
    (λ _, (16, false, make_frame 0 8 [status * 16 + 1; 128; 0; 128; 8; 0; 30; 30])).
Definition open_bus : Bus := new_Bus <| sock_ := 3 |> <| is_running_ := true |> <| reception_joinable := true |>.
Definition example_world (t : ServoType) (p : ServoDmParam) : World :=
  mkWorld open_bus example_registry (example_heap t p) new_MitDriver.

Lemma enable_reports_servo_witness :
  let w := example_world DM_4340 g_servo_dm_param_4340 in
  let run n := enable (answering_bus n) (λ _, 0) 1 DM_4340 true w in
  let w' := example_world ENCOS_A4310 g_servo_dm_param_encos_A4310 in
  let encos := enable (answering_bus 0xB) (λ _, 0) 1 ENCOS_A4310 true w' in
  (fst (run 1) = SUCCESS ∧ enable_report (answering_bus 1) 1 true w (fst (run 1)) (snd (run 1))) ∧
  (fst (run 0xB) = HARDWARE_FAULT ∧ enable_report (answering_bus 0xB) 1 true w (fst (run 0xB)) (snd (run 0xB))) ∧
  (fst encos = SUCCESS ∧ zero_command_report (λ _, 0) 1 w' (fst encos) (snd encos)).
Proof.
  intros w run w' encos.
  pose proof (enable_reports_servo (answering_bus 1) (λ _, 0) 1 DM_4340 true w ltac:(by split)) as H1.
  pose proof (enable_reports_servo (answering_bus 0xB) (λ _, 0) 1 DM_4340 true w ltac:(by split)) as H2.
  pose proof (enable_reports_servo (answering_bus 0xB) (λ _, 0) 1 ENCOS_A4310 true w' ltac:(by split)) as H3.
  split; [|split]; (split; [vm_compute; reflexivity|]); [exact H1|exact H2|exact H3].
Defined.

(** ** Communication-loss protection *)

(** The servo registered under an id, when it is a [ServoDm]. *)
Definition servo_type (w : World) (id : Z) : option ServoType := type_ <$> lock_servo_dm (registry w) (servos w) id.

Definition enable_frame (id : Z) : can_frame := snd (can_frame_to_enable_dm_servo id true).
(** The TIMEOUT register of a DM servo: 500 ms in 50 us counts to stop, 0 to hold. *)
Definition dm_window (stop : bool) (id : Z) : can_frame :=
  make_frame 0x7FF 8 (map u8 ([Z.land id 0xFF; Z.shiftr id 8; 0x55; 9] ++
                              (if stop then [0x10; 0x27; 0; 0] else [0; 0; 0; 0]))).
(** The window of an ENCOS servo, 500 ms or 0, and the queries for it and for the ranges. *)
Definition encos_window (stop : bool) (id : Z) : can_frame :=
  make_frame id 4 ([0xC0; 0x0B] ++ (if stop then [0x01; 0xF4] else [0; 0])).
Definition encos_window_query (id : Z) : can_frame := snd (can_frame_to_get_can_timeout_encos_servo id).
Definition encos_range_query (code id : Z) : can_frame := make_frame id 2 [0xE0; code].

(** What the pass may send for a servo of type [t]. *)
Definition policy_frame (stop : bool) (t : option ServoType) (id : Z) (f : can_frame) : Prop :=
  match t with
  | Some DM_4340 | Some DM_4310 => f ∈ [enable_frame id; dm_window stop id]
  | Some ENCOS_A4310 =>
      f ∈ [encos_window stop id; encos_window_query id; encos_range_query 27 id; encos_range_query 26 id]
  | _ => False
  end.

(** What it does send, newest first, when the bus takes every frame: an ENCOS servo is sent
    no window if a frame that arrived reports that it has that window already. *)
Definition policy_sent (env : BusEnv) (stop : bool) (t : option ServoType) (id : Z) (seg : list can_frame) : Prop :=
  match t with
  | Some DM_4340 | Some DM_4310 => seg = [dm_window stop id; enable_frame id]
  | Some ENCOS_A4310 =>
      let queries := [encos_window_query id; encos_range_query 27 id; encos_range_query 26 id] in
      seg = encos_window stop id :: queries ∨
      seg = queries ∧ ∃ k f, delivered env k f ∧
        parse_can_timeout_reply_encos_servo f id = Some (if stop then 500 else 0)
  | _ => seg = []
  end.

Definition takes_frames (env : BusEnv) : Prop := ∀ k, 0 < fst (env_select env k) ∧ 0 ≤ env_write env k.

(** The pass keeps the driver's own fields, the registry and the types of the servos. *)
Definition same_driver (w w' : World) : Prop :=
  mit w' = mit w ∧ registry w' = registry w ∧ ∀ id, servo_type w' id = servo_type w id.
#[export] Instance same_driver_preorder : PreOrder same_driver.
Proof.
  split; [by intros w|]. intros w1 w2 w3 (A1 & B1 & C1) (A2 & B2 & C2). split_and!; [congruence..|].
  intros id. by rewrite C2.
Qed.

Lemma same_driver_bus {A} (m : St Bus A) : steps same_driver (on_bus m).
Proof. intros w. unfold on_bus, lift_into. by destruct (m (bus w)). Qed.
Lemma same_driver_send env f : steps same_driver (send env f).
Proof. apply same_driver_bus. Qed.
Lemma same_driver_receive env : steps same_driver (receive env).
Proof. apply same_driver_bus. Qed.

Lemma adopt_keeps_type code lo hi s : let s' := snd (adopt_encos_mit_range code lo hi s) in
  type_ s' = type_ s ∧ (is_Some (dm_ s') ↔ is_Some (dm_ s)).
Proof.
  unfold adopt_encos_mit_range. destruct (p_servo_param_ s); [|done]. destruct (negb _); [done|].
  destruct (negb _ && _); [done|]. destruct (_ && _); cbn; [|destruct (negb _); cbn]; by rewrite ?fmap_is_Some.
Qed.

Lemma same_driver_adopt p code lo hi :
  steps same_driver (modify_servo p (λ s, snd (adopt_encos_mit_range code lo hi s))).
Proof.
  intros w. split_and!; [done..|]. intros id. unfold servo_type, lock_servo_dm, modify_servo, modify.
  cbn [snd registry servos upd]. destruct (lock_registered_servo (registry w) id) as [q|]; [|done].
  cbn [mbind option_bind]. destruct (decide (p = q)) as [->|Hne]; [|by rewrite lookup_alter_ne].
  rewrite lookup_alter_eq. destruct (servos w !! q) as [s|]; [|done]. cbn [fmap option_fmap option_map].
  destruct (adopt_keeps_type code lo hi s) as [Et Ed]. revert Et Ed.
  generalize (snd (adopt_encos_mit_range code lo hi s)). intros s' Et [E1 E2].
  cbn [mbind option_bind].
  destruct (dm_ s') as [m'|] eqn:A', (dm_ s) as [m|] eqn:A; rewrite ?A', ?A; [|by destruct E1|by destruct E2|done].
  cbn [fmap option_fmap option_map]. by rewrite Et.
Qed.
#[export] Hint Resolve same_driver_send same_driver_receive same_driver_adopt : steps.

Lemma arm_servo_same_driver env stop t id : steps same_driver (arm_servo env stop t id).
Proof.
  unfold arm_servo, arm_encos, arm_dm, query_and_adopt_encos_mit_ranges, query_and_adopt, send_and_drain.
  steps_go.
Qed.

Ltac find_in := first [left; reflexivity | right; find_in].

Definition window_ms (stop : bool) : Z := if stop then ENCOS_SERVO_CAN_TIMEOUT_MS else ENCOS_SERVO_CAN_TIMEOUT_DISARM.

Lemma arm_servo_policy env (stop : bool) id w :
  exchange (policy_frame stop (servo_type w id) (u16 id)) w (snd (arm_servo env stop (window_ms stop) id w)).
Proof.
  set (t := servo_type w id). unfold arm_servo. rewrite bind_run. cbn [get_state fst snd].
  unfold servo_type in t. destruct (lock_servo_dm (registry w) (servos w) id) as [s|]; [|reflexivity].
  cbn [fmap option_fmap option_map] in t. assert (t = Some (type_ s)) as -> by done.
  enough (∀ m : St World unit, steps (exchange (policy_frame stop (Some (type_ s)) (u16 id))) m →
    exchange (policy_frame stop (Some (type_ s)) (u16 id)) w (snd (m w))) as Hm; [|intros m Hm; apply Hm].
  apply Hm. destruct (type_ s); try (apply steps_ret; exact _);
    unfold arm_encos, arm_dm, query_and_adopt_encos_mit_ranges, query_and_adopt, can_frame_to_get_mit_range_encos_servo, window_ms;
    cbn [negb andb Z.eqb Pos.eqb ENCOS_QUERY_SPD_RANGE ENCOS_QUERY_TOR_RANGE];
    steps_go; first [apply exchange_send|apply exchange_drain]; cbn [policy_frame]; destruct stop; find_in.
Qed.

Section taken.
Context (env : BusEnv) (Htakes : takes_frames env).

(** An open bus with exactly these frames sent since. *)
Definition has_sent (seg : list can_frame) (w w' : World) : Prop :=
  is_socket_open (bus w') = is_socket_open (bus w) ∧ sent (bus w') = seg ++ sent (bus w) ∧
  registry w' = registry w ∧ ∀ id, servo_type w' id = servo_type w id.

Lemma has_sent_app seg1 seg2 w1 w2 w3 : has_sent seg1 w1 w2 → has_sent seg2 w2 w3 → has_sent (seg2 ++ seg1) w1 w3.
Proof.
  intros (A1 & B1 & C1 & D1) (A2 & B2 & C2 & D2). split_and!; [congruence|by rewrite B2, B1, (assoc_L (++))|congruence|].
  intros id. by rewrite D2.
Qed.
Lemma has_sent_nil w w' : exchange (λ _, False) w w' → same_driver w w' → has_sent [] w w'.
Proof.
  intros (Hs & _ & _ & new & E & F) (_ & Hr & Ht). split_and!; [unfold is_socket_open; by rewrite Hs| |done..].
  rewrite E. by destruct F.
Qed.

Lemma receive_taken w : wp (receive env) (λ '(rc, f) w', has_sent [] w w' ∧ (rc = SUCCESS → ∃ k, delivered env k f)) w.
Proof.
  eapply wp_mono; [apply wp_and; [apply receive_spec|apply wp_and;
    [apply (steps_wp (exchange (λ _, False))), exchange_receive|apply (steps_wp same_driver), same_driver_receive]]|].
  intros [rc f] w' [(_ & _ & Hd) [Hx Hs]]. split; [by apply has_sent_nil|]. intros E. destruct (Hd E) as (k & _ & Hk). by exists k.
Qed.

Lemma send_taken f w : is_socket_open (bus w) = true → wp (send env f) (λ rc w', rc = SUCCESS ∧ has_sent [f] w w') w.
Proof.
  intros Ho. apply wp_lift_into. unfold send_frame, send_frame_buf.
  change (sizeof_can_frame =? sizeof_can_frame) with true. cbn [negb]. wp_step. wp_step. rewrite Ho. cbn [negb].
  wp_step. apply wp_syscall. destruct (Htakes (io_count (bus w))) as [Hsel _].
  destruct (env_select env (io_count (bus w))) as [ret eintr]. cbn [fst] in Hsel.
  rewrite (proj2 (Z.ltb_ge ret 0)), (proj2 (Z.eqb_neq ret 0)) by lia. wp_step. apply wp_syscall.
  cbn [io_count upd]. destruct (Htakes (S (io_count (bus w)))) as [_ Hwr]. rewrite (proj2 (Z.ltb_ge _ 0)) by lia.
  wp_steps. by split_and!.
Qed.

Lemma has_sent_open seg w w' : has_sent seg w w' → is_socket_open (bus w) = true → is_socket_open (bus w') = true.
Proof. intros (-> & _). done. Qed.

Lemma drain_taken f w : is_socket_open (bus w) = true → wp (send_and_drain env f) (λ rc w', rc = SUCCESS ∧ has_sent [f] w w') w.
Proof.
  intros Ho. unfold send_and_drain. wp_step. eapply wp_mono; [by apply send_taken|]. intros rc w1 [-> H1]. cbn [ok negb].
  change (negb (ok SUCCESS)) with false. cbv iota. wp_step. eapply wp_mono; [apply receive_taken|]. intros [rc f'] w2 [H2 _]. wp_step.
  split; [done|]. exact (has_sent_app _ _ _ _ _ H1 H2).
Qed.

Lemma arm_dm_taken id stop w : is_socket_open (bus w) = true →
  wp (arm_dm env id stop) (λ _ w', has_sent [dm_window stop (u16 id); enable_frame (u16 id)] w w') w.
Proof.
  intros Ho. unfold arm_dm. wp_step. eapply wp_mono; [by apply drain_taken|]. intros rc w1 [-> H1].
  change (ok SUCCESS) with true. cbn [when_]. wp_step. eapply wp_mono; [apply drain_taken; by eapply has_sent_open|].
  intros rc w2 [_ H2]. wp_step. pose proof (has_sent_app _ _ _ _ _ H1 H2) as H12. destruct stop; exact H12.
Qed.

Lemma query_taken id code scale w : is_socket_open (bus w) = true → code = 26 ∨ code = 27 →
  wp (query_and_adopt env id code scale) (λ _ w', has_sent [encos_range_query code (u16 id)] w w') w.
Proof.
  intros Ho Hc. unfold query_and_adopt, can_frame_to_get_mit_range_encos_servo.
  assert (negb (code =? ENCOS_QUERY_SPD_RANGE) && negb (code =? ENCOS_QUERY_TOR_RANGE) = false) as -> by (by destruct Hc as [-> | ->]).
  change (negb (ok SUCCESS)) with false. cbv iota. wp_step. eapply wp_mono; [by apply send_taken|]. intros rc w1 [-> H1].
  change (negb (ok SUCCESS)) with false. cbv iota. wp_step. eapply wp_mono; [apply receive_taken|]. intros [rc f] w2 [H2 _].
  pose proof (has_sent_app _ _ _ _ _ H1 H2) as H12. cbn [app] in H12.
  destruct (if ok rc then _ else None) as [[lo hi]|]; [|by wp_step]. wp_step. wp_step.
  destruct (lock_servo_dm _ _ id); [|by wp_step]. destruct (lock_registered_servo _ id) as [p|]; [|by wp_step].
  eapply wp_mono; [apply (steps_wp (λ w w', bus w' = bus w ∧ same_driver w w'))|].
  { intros w'. split; [done|apply same_driver_adopt]. }
  intros [] w3 (E & _ & Hr & Ht). destruct H12 as (A & B & C & D). unfold has_sent. rewrite E, Hr. split_and!; try done.
  intros id'. by rewrite Ht.
Qed.

Lemma arm_encos_taken id stop w : is_socket_open (bus w) = true →
  wp (arm_encos env id (window_ms stop)) (λ _ w',
    ∃ seg, has_sent seg w w' ∧ policy_sent env stop (Some ENCOS_A4310) (u16 id) seg) w.
Proof.
  intros Ho. unfold arm_encos, query_and_adopt_encos_mit_ranges. wp_step. wp_step.
  eapply wp_mono; [apply query_taken; [done|by left]|]. intros [] w1 H1.
  eapply wp_mono; [apply query_taken; [by eapply has_sent_open|by right]|]. intros [] w2 H2.
  pose proof (has_sent_app _ _ _ _ _ H1 H2) as H12. wp_step.
  eapply wp_mono; [apply send_taken; by eapply has_sent_open|]. intros rc w3 [-> H3].
  pose proof (has_sent_app _ _ _ _ _ H12 H3) as H13. wp_step. change (negb (ok SUCCESS)) with false. cbv iota.
  wp_step. eapply wp_mono; [apply receive_taken|]. intros [rc f] w4 [H4 Hd].
  pose proof (has_sent_app _ _ _ _ _ H13 H4) as H14. cbn [app] in H14. wp_step.
  assert (∀ b : bool, (b = false → ∃ k f, delivered env k f ∧
      parse_can_timeout_reply_encos_servo f (u16 id) = Some (if stop then 500 else 0)) →
    wp (when_ b (send_and_drain env (snd (can_frame_to_set_can_timeout_encos_servo (u16 id) (window_ms stop)));; mret tt))
      (λ _ w', ∃ seg, has_sent seg w w' ∧ policy_sent env stop (Some ENCOS_A4310) (u16 id) seg) w4) as Hgo.
  { intros [] Hb; cbn [when_].
    - wp_step. eapply wp_mono; [apply drain_taken; by eapply has_sent_open|]. intros rc5 w5 [_ H5]. wp_step.
      pose proof (has_sent_app _ _ _ _ _ H14 H5) as H15. eexists. split; [exact H15|]. left. by destruct stop.
    - wp_step. eexists. split; [exact H14|]. right. by split; [|apply Hb]. }
  apply Hgo. destruct (ok rc) eqn:Eok; cbn [negb]; [|done]. apply ok_spec, Hd in Eok as [k Hk].
  destruct (parse_can_timeout_reply_encos_servo f (u16 id)) as [ms|] eqn:Ep; [|done].
  intros Hms%negb_false_iff%Z.eqb_eq. exists k, f. split; [done|]. rewrite Ep, Hms. by destruct stop.
Qed.

Lemma arm_servo_taken id (stop : bool) w : is_socket_open (bus w) = true →
  wp (arm_servo env stop (window_ms stop) id) (λ _ w',
    ∃ seg, has_sent seg w w' ∧ policy_sent env stop (servo_type w id) (u16 id) seg) w.
Proof.
  intros Ho. unfold arm_servo, servo_type. wp_step. wp_step.
  assert (has_sent [] w w) as H0 by by split_and!.
  destruct (lock_servo_dm (registry w) (servos w) id) as [s|]; cbn; [|wp_step; by exists []].
  destruct (type_ s); try (wp_step; by exists []); try by apply arm_encos_taken.
  all: eapply wp_mono; [by apply arm_dm_taken|]; intros [] w' H; by eexists.
Qed.
End taken.

(** What the pass sends for each of the device's ids, in their order. *)
Definition segment_ok (env : BusEnv) (stop : bool) (w : World) (id : Z) (seg : list can_frame) : Prop :=
  Forall (policy_frame stop (servo_type w id) (u16 id)) seg ∧
  (takes_frames env → policy_sent env stop (servo_type w id) (u16 id) seg).

Lemma arm_each_spec env (stop : bool) ids : ∀ w, is_socket_open (bus w) = true →
  wp (arm_each env stop (window_ms stop) ids) (λ _ w',
    exchange (λ _, True) w w' ∧ same_driver w w' ∧
    ∃ segs, sent (bus w') = concat (reverse segs) ++ sent (bus w) ∧ Forall2 (segment_ok env stop w) ids segs) w.
Proof.
  induction ids as [|id ids IH]; intros w Ho; cbn [arm_each].
  { wp_step. split_and!; [reflexivity..|]. by exists []. }
  wp_step. unfold wp at 1. set (w1 := snd (arm_servo env stop (window_ms stop) id w)).
  pose proof (arm_servo_policy env stop id w) as Hx. fold w1 in Hx.
  pose proof (arm_servo_same_driver env stop (window_ms stop) id w) as Hs. fold w1 in Hs.
  pose proof Hx as (A & B & C & seg & E & F).
  assert (is_socket_open (bus w1) = true) as Ho1 by (unfold is_socket_open in *; by rewrite A).
  assert (segment_ok env stop w id seg) as Hseg.
  { split; [done|]. intros Ht. pose proof (arm_servo_taken env Ht id stop w Ho) as (seg' & (_ & E' & _) & P).
    fold w1 in E'. rewrite E in E'. by apply app_inv_tail in E' as ->. }
  eapply wp_mono; [by apply IH|]. intros [] w2 (Hx2 & Hs2 & segs & E2 & F2). split_and!; [|by etrans|].
  - etrans; [|exact Hx2]. split_and!; [done..|]. exists seg. split; [done|]. by eapply Forall_impl.
  - exists (seg :: segs). rewrite reverse_cons, concat_app, E2, E, <- !(assoc_L (++)). cbn. rewrite app_nil_r.
    split; [done|]. constructor; [done|]. eapply Forall2_impl; [exact F2|]. intros id' seg' H'.
    destruct Hs as (_ & _ & Ht). unfold segment_ok in *. by rewrite <- !Ht.
Qed.

(** [C30] The communication-loss pass asserts the device's policy, servo by servo, and
    nothing else.  On an open socket with at least one id it succeeds, leaves the reception
    thread running, and keeps the driver's fields, the registry and the types of the
    servos.  Whatever the bus answers, the frames it sends fall into one run per id of the
    device, in their order: for an id under which a DM servo is registered only its enable
    and its TIMEOUT window, for an ENCOS servo only queries and its window, for any other
    id nothing; the windows have the value the policy asks for, 500 ms for a device that
    must stop, 0 (never trip) for one that must keep holding its position.  When the bus
    takes every frame these are exactly: for a DM servo the enable and right after it the
    window; for an ENCOS servo the three queries and then the window, which is left out
    only if a frame that arrived reported that value already. *)
Theorem comm_loss_policy env d w : bus_wf (bus w) → is_socket_open (bus w) = true → servo_ids_ d ≠ [] →
  let '(rc, w') := arm_comm_loss_protection env (Some d) w in
  rc = SUCCESS ∧ is_running_ (bus w') = true ∧ same_driver w w' ∧
  ∃ segs, sent (bus w') = concat (reverse segs) ++ sent (bus w) ∧
    Forall2 (λ id seg,
      Forall (policy_frame (wants_comm_loss_stop d) (servo_type w id) (u16 id)) seg ∧
      (takes_frames env → policy_sent env (wants_comm_loss_stop d) (servo_type w id) (u16 id) seg))
      (servo_ids_ d) segs.
Proof.
  intros Hb Ho Hids. apply (wp_let (arm_comm_loss_protection env (Some d))).
  unfold arm_comm_loss_protection, socket_open. wp_step. wp_step. rewrite Ho. cbn [negb].
  destruct (servo_ids_ d) as [|i ids]; [done|]. generalize (i :: ids). clear Hids i ids. intros ids.
  fold (window_ms (wants_comm_loss_stop d)).
  wp_step. unfold on_bus at 1. wp_step. eapply wp_mono; [by apply stop_reception_spec|].
  intros _ b (_ & Hst & Hsock & Hsent). set (w1 := w <| bus := b |>).
  assert (is_socket_open (bus w1) = true) as Ho1 by (unfold is_socket_open in *; cbn; by rewrite Hsock).
  wp_step. eapply wp_mono; [by apply arm_each_spec|]. intros [] w2 (Hx & Hs & segs & E & F).
  assert (bus_wf (bus w2) ∧ is_socket_open (bus w2) = true) as [Hb2 Ho2].
  { split; [by eapply traffic_bus_wf; [apply Hx|apply stopped_wf]|].
    destruct Hx as (Hs' & _). unfold is_socket_open in *. by rewrite Hs'. }
  unfold on_bus. wp_step. eapply wp_mono; [by apply start_reception_spec|].
  intros rc b' (_ & _ & Hsent' & Hrun & Hok). rewrite (Hok Ho2) in *. split_and!; [done|by apply Hrun|exact Hs|].
  exists segs. split; [|exact F]. cbn. rewrite Hsent', E. cbn. by rewrite Hsent.
Qed.

(** One DM servo of a follower arm on a bus that takes every frame; id 2 is not registered. *)
Lemma comm_loss_policy_witness :
  let w := example_world DM_4340 g_servo_dm_param_4340 in
  let '(rc, w') := arm_comm_loss_protection (answering_bus 1) (Some follower_arm) w in
  rc = SUCCESS ∧ servo_ids_ follower_arm = [1; 2] ∧ sent (bus w') = [dm_window false 1; enable_frame 1].
Proof.
  intros w. pose proof (comm_loss_policy (answering_bus 1) follower_arm w
    ltac:(by split) ltac:(done) ltac:(discriminate)) as H.
  destruct (arm_comm_loss_protection (answering_bus 1) (Some follower_arm) w) as [rc w'].
  destruct H as (Hrc & _ & _ & segs & E & F). split_and!; [exact Hrc|reflexivity|]. rewrite E.
  inversion F as [|id1 seg1 ids1 segs1 [_ P1] F1 E1 E2]. inversion F1 as [|id2 seg2 ids2 segs2 [_ P2] F2 E3 E4].
  inversion F2. subst.
  assert (takes_frames (answering_bus 1)) as Ht by (intros k; cbn; lia).
  specialize (P1 Ht). specialize (P2 Ht). cbn in P1, P2. rewrite P1, P2. reflexivity.
Defined.

(** ** Frame dispatch *)

(** The slot a received frame is for: a registered encoder route first, then a DM
    status (master id 0, or 0x10 + motor), then an ENCOS status (ids 1 to 7). *)
Definition target_slot (r : Registry) (m : MitDriver) (f : can_frame) : option Z :=
  match passive_encoder_routes_ m !! Z.land (can_id f) 0x7FF with
  | Some route => Some (route_data_index_ route)
  | None =>
      if 0 <=? dm_response_motor_id f then Some (find_data_index r (Z.land (byte f 0) 0x0F))
      else if (0x01 <=? can_id f) && (can_id f <=? 0x07) then Some (find_data_index r (can_id f))
      else None
  end.

Lemma writes_slot_other r id t ss ss' j : writes_slot r id t ss ss' → slot_index_ok j = true →
  slot j ss' ≠ slot j ss → find_data_index r id = j.
Proof.
  intros [->|(Hi & x & -> & _)] Hj Hne; [done|].
  destruct (decide (find_data_index r id = j)) as [|Hij]; [done|].
  unfold slot_index_ok in *. rewrite andb_true_iff, Z.leb_le, Z.ltb_lt in Hi, Hj.
  by rewrite slot_set_ne in Hne by (done || lia).
Qed.

Lemma writes_slot_bad r id t ss ss' : writes_slot r id t ss ss' →
  slot_index_ok (find_data_index r id) = false → ss' = ss.
Proof. intros [->|(Hi & _)] H; [done|congruence]. Qed.

(** [C31] A frame touches the slot it is for and no other.  Whatever arrives: a
    slot that changes is the frame's own; a frame of another bus participant, or
    of a motor that is not configured, changes nothing; and no frame changes
    anything but the cache (servos, registry, routes, socket and the frames sent
    stay as they were). *)
Theorem frame_touches_own_slot env f n1 n2 w :
  routes_ok (mit w) →
  let w' := snd (handle_received_message env f n1 n2 w) in
  let ss := received_servo_data_ (mit w) in
  let ss' := received_servo_data_ (mit w') in
  (∀ j, slot_index_ok j = true → slot j ss' ≠ slot j ss → target_slot (registry w) (mit w) f = Some j) ∧
  (match target_slot (registry w) (mit w) f with Some i => slot_index_ok i = false | None => True end →
     ss' = ss) ∧
  length ss' = length ss ∧
  mit w' = (mit w) <| received_servo_data_ := ss' |> ∧ servos w' = servos w ∧ registry w' = registry w ∧
  sent (bus w') = sent (bus w) ∧ sock_ (bus w') = sock_ (bus w).
Proof.
  intros Hr. unfold handle_received_message. destruct (_ || _) eqn:E0.
  { cbn. split_and!; try done. by destruct (mit w). }
  unfold now, on_bus, get_time_now, lift_into, get_state, on_mit, modify, mbind, St_bind.
  cbn [fst snd bus mit registry servos upd]. unfold target_slot.
  destruct (passive_encoder_routes_ (mit w) !! Z.land (can_id f) 0x7FF) as [route|] eqn:Er.
  - apply Hr in Er. cbn [fst snd mit bus registry servos received_servo_data_ upd]. split_and!; try done.
    + intros j Hj Hne. f_equal. destruct (decide (route_data_index_ route = j)) as [|Hij]; [done|].
      unfold slot_index_ok in Er, Hj. rewrite andb_true_iff, Z.leb_le, Z.ltb_lt in Er, Hj.
      by rewrite slot_set_ne in Hne by (done || lia).
    + by rewrite Er.
    + apply length_insert.
  - destruct (0 <=? dm_response_motor_id f).
    { cbn [fst snd mit bus registry servos received_servo_data_ upd].
      pose proof (parse_dm_writes_slot (registry w) (servos w) (env_clock env (clock_count (bus w))) f
        (received_servo_data_ (mit w))) as Hw. revert Hw. generalize (snd (parse_dm_servo_status (registry w)
        (servos w) (env_clock env (clock_count (bus w))) f (received_servo_data_ (mit w)))). intros ss' Hw.
      split_and!; try done.
      + intros j Hj Hne. f_equal. by eapply writes_slot_other.
      + by eapply writes_slot_bad.
      + by eapply writes_slot_length. }
    destruct ((0x01 <=? can_id f) && (can_id f <=? 0x07)) eqn:Ei.
    + cbn [fst snd mit bus registry servos received_servo_data_ upd].
      pose proof (parser_encos_writes_slot (registry w) (servos w) (env_clock env (clock_count (bus w))) f
        (received_servo_data_ (mit w))) as Hw.
      apply andb_true_iff in Ei as [Ei1%Z.leb_le Ei2%Z.leb_le].
      rewrite (wrap_small 8 (can_id f)) in Hw by (unfold is_unsigned; lia).
      revert Hw. generalize (snd (parser_encos_servo_status (registry w)
        (servos w) (env_clock env (clock_count (bus w))) f (received_servo_data_ (mit w)))). intros ss' Hw.
      split_and!; try done.
      * intros j Hj Hne. f_equal. by eapply writes_slot_other.
      * by eapply writes_slot_bad.
      * by eapply writes_slot_length.
    + cbn. split_and!; try done. by destruct (mit w).
Qed.

(** A frame of the power-control board (id 0x80) and a status of motor 1. *)
Lemma frame_touches_own_slot_witness :
  let w := example_world DM_4340 g_servo_dm_param_4340 in
  let status := make_frame 0x11 8 [0x11; 0x80; 0; 0x80; 8; 0; 30; 31] in
  let board := make_frame 0x80 8 [0x11; 0x80; 0; 0x80; 8; 0; 30; 31] in
  let step f := snd (handle_received_message (answering_bus 1) f 16 16 w) in
  target_slot (registry w) (mit w) status = Some 0 ∧ received_servo_data_ (mit (step status)) ≠ new_slots ∧
  received_servo_data_ (mit (step board)) = new_slots.
Proof.
  intros w status board step. split; [vm_compute; reflexivity|]. split; [by vm_compute|].
  apply (frame_touches_own_slot (answering_bus 1) board 16 16 w); [apply map_Forall_empty|].
  vm_compute. exact I.
Defined.

(** ** Loops that run until a deadline *)

(** The body of such a loop reads frames, not the clock. *)
Definition keeps_clock (w w' : World) : Prop := clock_count (bus w') = clock_count (bus w).

(** When the clock reaches the deadline by its [k]-th reading from now, [k + 1]
    polls are enough: more fuel never changes what the loop returns or leaves. *)
Lemma until_deadline_fuel env {A} deadline (body : St World (option A)) timeout k n w :
  steps keeps_clock body → deadline ≤ env_clock env (clock_count (bus w) + k) →
  until_deadline env (S k + n) deadline body timeout w = until_deadline env (S k) deadline body timeout w.
Proof.
  intros Hbody. revert w. induction k as [|k IH]; intros w Hd.
  - cbn [Nat.add until_deadline]. unfold now, on_bus, lift_into, get_time_now, mbind, St_bind.
    rewrite Nat.add_0_r in Hd. cbn [fst snd]. by apply Z.ltb_ge in Hd as ->.
  - change (S (S k) + n)%nat with (S (S k + n)).
    change (until_deadline env (S (S k + n)) deadline body timeout) with
      (t ← now env; if t <? deadline then o ← body; match o with
         | Some a => mret a | None => until_deadline env (S k + n) deadline body timeout end else mret timeout).
    change (until_deadline env (S (S k)) deadline body timeout) with
      (t ← now env; if t <? deadline then o ← body; match o with
         | Some a => mret a | None => until_deadline env (S k) deadline body timeout end else mret timeout).
    unfold now, on_bus, lift_into, get_time_now, mbind, St_bind. cbn [fst snd].
    set (w1 := w <| bus := _ |>). destruct (_ <? deadline); [|done].
    specialize (Hbody w1). destruct (body w1) as [[a|] w2]; [done|].
    apply IH. unfold keeps_clock in Hbody. cbn [snd] in Hbody. rewrite Hbody. subst w1. cbn.
    by rewrite <- plus_n_Sm in Hd.
Qed.

#[export] Instance keeps_clock_preorder : PreOrder keeps_clock.
Proof. split; [by intros w|]. intros w1 w2 w3 H1 H2. unfold keeps_clock in *. congruence. Qed.

Lemma receive_keeps_clock env : steps keeps_clock (receive env).
Proof.
  apply (steps_lift_into (λ b b', clock_count b' = clock_count b)); [|done].
  assert (PreOrder (λ b b' : Bus, clock_count b' = clock_count b)) by
    (split; [by intros b|intros b1 b2 b3; congruence]).
  assert (∀ A (answer : nat → A), steps (λ b b', clock_count b' = clock_count b) (syscall answer)) by done.
  unfold read_frame, read_frame_buf. steps_go.
Qed.

Lemma passive_reply_step_keeps_clock env id dev cmd len :
  steps keeps_clock (passive_reply_step env id dev cmd len).
Proof. pose proof (receive_keeps_clock env). unfold passive_reply_step. steps_go. Qed.

(** Waiting for a passive encoder ends.  If the clock is past the timeout at
    the [k]-th reading after the wait began (it always is, for some [k], when time
    advances), [k + 1] polls decide the wait: with any more the result, the frame
    and the state are the same, so the loop of the code, which has no bound of its
    own, returns them. *)
Theorem passive_wait_ends env id dev cmd len timeout_ms k n w :
  env_clock env (clock_count (bus w)) + milliseconds timeout_ms ≤
    env_clock env (S (clock_count (bus w)) + k) →
  wait_for_passive_encoder_reply env (S k + n) id dev cmd len timeout_ms w =
  wait_for_passive_encoder_reply env (S k) id dev cmd len timeout_ms w.
Proof.
  intros Hk. unfold wait_for_passive_encoder_reply. unfold now, on_bus, lift_into, get_time_now, mbind, St_bind.
  cbn [fst snd]. apply until_deadline_fuel; [apply passive_reply_step_keeps_clock|exact Hk].
Qed.

(** A silent bus and a clock that gains a millisecond at every reading. *)
Definition silent_bus : BusEnv :=
  mkBusEnv (λ n, 1000000000 + 1000000 * Z.of_nat n) (λ _, 3) (λ _, 0) (λ _, 0) (λ _, (0, false)) (λ _, 16)
    (λ _, (16, false, zero_frame)).

Lemma passive_wait_ends_witness :
  let w := example_world DM_4340 g_servo_dm_param_4340 in
  let wait fuel := wait_for_passive_encoder_reply silent_bus fuel 0x50 (-1) 0x83 5 50 w in
  fst (fst (wait 50%nat)) = NO_RESPONSE ∧ wait (50 + 7)%nat = wait 50%nat.
Proof.
  intros w wait. split; [vm_compute; reflexivity|].
  apply (passive_wait_ends silent_bus 0x50 (-1) 0x83 5 50 49 7 w). vm_compute. discriminate.
Defined.
