(* ===== verification/ServoConfig.v ===== *)
(** * Servo configuration (src/pi_servo.cpp: [init_config_model] and
    [init_config_individual]; include/pi_device_config.hpp: [get_field_value])

    The JSON library is a parameter: [JsonReader] says which fields an object
    contains and what [get<T>()] gives for each type ([None] when it throws). *)

From S2P Require Import Prelude.
From S2P Require Import FloatSpec.
From S2P Require Import Control.
From S2P Require Import CanBus.
From S2P Require Import Servo.

Class JsonReader (J : Type) := {
  json_contains : J → string → bool;
  json_get_int : J → string → option Z;
  json_get_float : J → string → option f32;
  json_get_bool : J → string → option bool;
  json_get_string : J → string → option string;
}.

(** Field names (include/pi_device_config.hpp). *)
Definition fn_servo_id := "servo_id".
Definition fn_servo_data_index := "data_index".
Definition fn_servo_model := "servo_model".
Definition fn_servo_pos_kp := "pos_kp".
Definition fn_servo_pos_ki := "pos_ki".
Definition fn_servo_pos_kd := "pos_kd".
Definition fn_servo_kt := "kT".
Definition fn_servo_kv := "kV".
Definition fn_servo_ka := "kA".
Definition fn_servo_response_delay := "response_delay".
Definition fn_servo_dir_invert := "dir_invert".
Definition fn_servo_abs_position := "abs_position".
Definition fn_servo_pos_min := "pos_min".
Definition fn_servo_pos_max := "pos_max".
Definition fn_servo_zero_pos := "zero_pos".
Definition fn_servo_position_wrap_period := "position_wrap_period".
Definition fn_servo_spring_home_pos := "spring_home_pos".
Definition fn_servo_home_pos := "home_pos".

Section config.
Context {J : Type} `{JsonReader J}.

(** [get_field_value(json, name, value)]: [value] is assigned on success only. *)
Definition get_field_value {S T} (get : J → string → option T) (json_data : J) (field_name : string)
    (assign : T → S → S) : St S ReturnCode := λ s,
  if json_contains json_data field_name then
    match get json_data field_name with
    | Some v => (SUCCESS, assign v s)
    | None => (INVALID_PARAM, s)
    end
  else (INVALID_PARAM, s).

(** The state of the model pass: the servo and the registry it enters. *)
Definition SR : Type := Servo * Registry.

Definition on_servo {T} (f : T → Servo → Servo) : T → SR → SR := λ v '(s, r), (f v s, r).

Definition dir_ok (v : Z) : bool := (v =? 1) || (v =? -1).

Definition init_config_model (this : ptr) (servo_config : J)
    (init_current_estimation : St Servo ReturnCode) : St SR ReturnCode :=
  require (get_field_value json_get_int servo_config fn_servo_id
             (on_servo (λ v s, s <| id_ := v |>)))
  (require (get_field_value json_get_int servo_config fn_servo_data_index
             (on_servo (λ v s, s <| data_index_ := v |>)))
  (modify (λ '(s, r), (s, register_servo_data_index (id_ s) (data_index_ s) this r));;
   require (get_field_value json_get_string servo_config fn_servo_model
             (on_servo (λ v s, s <| servo_model_ := v |>)))
  (get_field_value json_get_float servo_config fn_servo_pos_kp
     (on_servo (λ v s, s <| pos_kp_ := v |>));;
   get_field_value json_get_float servo_config fn_servo_pos_ki
     (on_servo (λ v s, s <| pos_ki_ := v |>));;
   get_field_value json_get_float servo_config fn_servo_pos_kd
     (on_servo (λ v s, s <| pos_kd_ := v |>));;
   get_field_value json_get_float servo_config fn_servo_kt (on_servo (λ v s, s <| kt_ := v |>));;
   get_field_value json_get_float servo_config fn_servo_kv (on_servo (λ v s, s <| kv_ := v |>));;
   get_field_value json_get_float servo_config fn_servo_ka (on_servo (λ v s, s <| ka_ := v |>));;
   get_field_value json_get_float servo_config fn_servo_response_delay
     (on_servo (λ v s, s <| response_delay_ := v |>));;
   rc ← get_field_value json_get_int servo_config fn_servo_dir_invert
          (on_servo (λ v s, s <| dir_invert_ := v |>));
   dir ← gets (λ '(s, _), dir_invert_ s);
   if ok rc && negb (dir_ok dir) then mret INVALID_PARAM
   else
     require (if json_contains servo_config fn_servo_abs_position
              then get_field_value json_get_bool servo_config fn_servo_abs_position
                     (on_servo (λ v s, s <| abs_position_ := v |>))
              else mret SUCCESS)
    (get_field_value json_get_float servo_config fn_servo_pos_min
       (on_servo (λ v s, s <| pos_min_rel_ := v |> <| pos_min_configured_ := true |>));;
     rc ← get_field_value json_get_float servo_config fn_servo_pos_max
            (on_servo (λ v s, s <| pos_max_rel_ := v |> <| pos_max_configured_ := true |>));
     s ← gets fst;
     if ok rc && pos_min_configured_ s && (pos_max_rel_ s <?. pos_min_rel_ s)
     then mret INVALID_PARAM
     else
       require (lift_into fst (λ s '(_, r), (s, r)) init_current_estimation)
       (mret SUCCESS))))).

(** Whether the wrap period is acceptable for the limits. *)
Definition wrap_period_bad (s : Servo) : bool :=
  let raw_range := (pos_max_rel_ s - pos_min_rel_ s)%f32 in
  negb (isfinite (pos_min_rel_ s)) || negb (isfinite (pos_max_rel_ s)) ||
  (pos_min_rel_ s >=?. pos_max_rel_ s) || negb (isfinite (position_wrap_period_ s)) ||
  (position_wrap_period_ s <=?. f0) || (raw_range >=?. position_wrap_period_ s).

Definition init_config_individual (servo_config : J) : St Servo ReturnCode :=
  modify (λ s, s <| position_wrap_period_ := f0 |> <| position_wrap_offset_rel_ := f0 |>
                 <| position_wrap_initialized_ := false |>);;
  (* the local dir_invert_individual is assigned, checked and then stored *)
  let dir := if json_contains servo_config fn_servo_dir_invert
             then json_get_int servo_config fn_servo_dir_invert else None in
  if match dir with Some d => negb (dir_ok d) | None => false end then mret INVALID_PARAM
  else
    modify (λ s, match dir with Some d => s <| dir_invert_ := d |> | None => s end);;
    get_field_value json_get_float servo_config fn_servo_pos_kp (λ v s, s <| pos_kp_ := v |>);;
    get_field_value json_get_float servo_config fn_servo_pos_ki (λ v s, s <| pos_ki_ := v |>);;
    get_field_value json_get_float servo_config fn_servo_pos_kd (λ v s, s <| pos_kd_ := v |>);;
    get_field_value json_get_float servo_config fn_servo_pos_min
      (λ v s, s <| pos_min_rel_ := v |> <| pos_min_configured_ := true |>);;
    get_field_value json_get_float servo_config fn_servo_pos_max
      (λ v s, s <| pos_max_rel_ := v |> <| pos_max_configured_ := true |>);;
    s ← get_state;
    if pos_min_configured_ s && pos_max_configured_ s && (pos_max_rel_ s <?. pos_min_rel_ s)
    then mret INVALID_PARAM
    else
      get_field_value json_get_float servo_config fn_servo_zero_pos
        (λ v s, s <| zero_pos_abs_ := v |>);;
      rc ← get_field_value json_get_float servo_config fn_servo_position_wrap_period
             (λ v s, s <| position_wrap_period_ := v |>);
      s ← get_state;
      if ok rc && (negb (pos_min_configured_ s) || negb (pos_max_configured_ s))
      then mret INVALID_PARAM
      else if ok rc && wrap_period_bad s then mret INVALID_PARAM
      else
        get_field_value json_get_float servo_config fn_servo_spring_home_pos
          (λ v s, s <| spring_home_pos_rel_ := v |>);;
        get_field_value json_get_float servo_config fn_servo_home_pos
          (λ v s, s <| home_pos_rel_ := v |>);;
        mret SUCCESS.
End config.

(** ** Theorems *)

Section theorems.
Context {J : Type} `{JsonReader J}.

Lemma wp_get_field_value {S T} (get : J → string → option T) j name (assign : T → S → S)
    (Q : ReturnCode → S → Prop) s :
  (∀ v, Q SUCCESS (assign v s)) → Q INVALID_PARAM s →
  wp (get_field_value get j name assign) Q s.
Proof. intros H1 H2. unfold wp, get_field_value. destruct (json_contains j name), (get j name); cbn; auto. Qed.

Definition limits_ordered (s : Servo) : Prop :=
  pos_min_configured_ s = true → pos_max_configured_ s = true →
  pos_max_rel_ s <?. pos_min_rel_ s = false.

(** The wrap is off, or its period is acceptable for configured limits. *)
Definition wrap_configured (s : Servo) : Prop :=
  position_wrap_offset_rel_ s = f0 ∧ position_wrap_initialized_ s = false ∧
  (position_wrap_period_ s = f0 ∨
   pos_min_configured_ s = true ∧ pos_max_configured_ s = true ∧ wrap_period_bad s = false).

(** A field that an invariant of the configuration does not depend on. *)
Lemma get_field_keeps {S T} (K : S → Prop) (get : J → string → option T) j name
    (assign : T → S → S) (Q : ReturnCode → S → Prop) s :
  (∀ v, K (assign v s)) → K s → (∀ rc s', K s' → Q rc s') →
  wp (get_field_value get j name assign) Q s.
Proof. intros H1 H2 H3. apply wp_get_field_value; [intros v|]; by apply H3. Qed.

(** Before the limits and the wrap are read: the direction is valid, the wrap
    reset. *)
Definition direction_set (s : Servo) : Prop :=
  dir_ok (dir_invert_ s) = true ∧ position_wrap_period_ s = f0 ∧
  position_wrap_offset_rel_ s = f0 ∧ position_wrap_initialized_ s = false.

Definition config_ok (s : Servo) : Prop :=
  dir_ok (dir_invert_ s) = true ∧ limits_ordered s ∧ wrap_configured s.

Lemma init_config_individual_wp j s : dir_ok (dir_invert_ s) = true →
  wp (init_config_individual j) (λ rc s', rc = SUCCESS → config_ok s') s.
Proof.
  intros Hdir. unfold init_config_individual. wp_steps; [done|].
  match goal with Hd : _ = false |- _ => rename Hd into Hnd end.
  set (dir := if json_contains j fn_servo_dir_invert then _ else _) in *.
  set (s1 := match dir with Some _ => _ | None => _ end).
  assert (direction_set s1) as Hs1.
  { subst s1. destruct dir as [d|]; cbn; split_and!; try done. by apply negb_false_iff. }
  clearbody s1. clear s Hdir.
  do 5 (apply (get_field_keeps direction_set); [by intros v; apply Hs1|exact Hs1|];
        clear s1 Hs1; intros _ s1 Hs1; wp_step; cbv beta).
  wp_steps; [done|].
  match goal with Hd : _ = false |- _ => rename Hd into Hord end.
  assert (limits_ordered s1) as Hlim.
  { intros H1 H2. rewrite H1, H2 in Hord. done. }
  apply (get_field_keeps (λ s, direction_set s ∧ limits_ordered s)); [done..|].
  clear s1 Hs1 Hord Hlim. intros _ s1 [Hs1 Hlim]. wp_step; cbv beta.
  assert (∀ s2, config_ok s2 →
    wp (get_field_value json_get_float j fn_servo_spring_home_pos
          (λ v s, s <| spring_home_pos_rel_ := v |>);;
        get_field_value json_get_float j fn_servo_home_pos (λ v s, s <| home_pos_rel_ := v |>);;
        mret SUCCESS) (λ rc s', rc = SUCCESS → config_ok s') s2) as Hrest.
  { intros s2 H2. wp_step. apply (get_field_keeps config_ok); [done..|]. clear s2 H2.
    intros _ s2 H2. wp_step. apply (get_field_keeps config_ok); [done..|]. intros _ s3 H3. wp_step. by intros _. }
  destruct Hs1 as (Hdir & Hper & Hoff & Hini).
  apply wp_get_field_value; [intros v|]; wp_step; wp_step; cbv beta;
    (apply wp_if; intros ?; [done|]); (apply wp_if; intros ?; [done|]); apply Hrest.
  - match goal with H1 : _ && (_ || _) = false, H2 : _ && wrap_period_bad _ = false |- _ =>
      apply orb_false_iff in H1 as [H1%negb_false_iff H1'%negb_false_iff] end.
    split; [done|]. split; [done|]. split; [done|]. split; [done|]. right. split_and!; done.
  - split; [done|]. split; [done|]. split; [done|]. split; [done|]. by left.
Qed.

(** What the individual configuration guarantees.  From any servo whose
    direction is 1 or -1, a successful [init_config_individual] leaves the
    direction 1 or -1, ordered limits when both are configured, a reset wrap
    offset, and either no wrapping or a finite positive period larger than a
    finite configured range. *)
Theorem init_config_individual_ok j s :
  dir_ok (dir_invert_ s) = true → fst (init_config_individual j s) = SUCCESS →
  config_ok (snd (init_config_individual j s)).
Proof. intros Hdir. by apply (init_config_individual_wp j s Hdir). Qed.
End theorems.

(** A concrete JSON object for the witnesses: a list of typed fields. *)
Inductive json_example := JInt (z : Z) | JFloat (x : f32) | JBool (b : bool) | JString (s : string).

#[export] Instance json_example_reader : JsonReader (gmap string json_example) := {
  json_contains j n := bool_decide (is_Some (j !! n));
  json_get_int j n := match j !! n with Some (JInt z) => Some z | _ => None end;
  json_get_float j n := match j !! n with
    | Some (JFloat x) => Some x | Some (JInt z) => Some (f32_of_Z z) | _ => None end;
  json_get_bool j n := match j !! n with Some (JBool b) => Some b | _ => None end;
  json_get_string j n := match j !! n with Some (JString s) => Some s | _ => None end;
}.

Definition device_example : Device := mkDevice FOLLOWER MODE_NORMAL ARM JOINT_INFO false true false
  MTR_IDLE EMERGENCY_NONE false f0 false false [1; 2].
Definition individual_example : gmap string json_example := {[
  fn_servo_dir_invert := JInt (-1); fn_servo_pos_min := JInt (-2); fn_servo_pos_max := JInt 2;
  fn_servo_position_wrap_period := JFloat (lit32 628 100) ]}.

Lemma init_config_individual_ok_witness :
  let s := new_Servo device_example None in
  fst (init_config_individual individual_example s) = SUCCESS ∧
  config_ok (snd (init_config_individual individual_example s)).
Proof.
  split; [vm_compute; reflexivity|].
  apply (init_config_individual_ok individual_example (new_Servo device_example None));
    vm_compute; reflexivity.
Defined.
