(* ===== verification/Joint.v ===== *)
(** * Joints (src/pi_joint.cpp, include/pi_joint.hpp)

    A joint owns servos of any family; [JointServos] is the interface it calls them
    through, over the state [W] they live in.  [JointWorld] is that state with the
    joint.  [servos_[reference_servo_index_]] past the end of the vector is
    undefined behaviour: the getters then read [undefined_servo], an arbitrary
    object.  [new_joints], which makes the objects, is in [JointFactory]. *)

From S2P Require Import Prelude.
From S2P Require Import FloatSpec.
From S2P Require Import Rounding.
From S2P Require Import SumBounds.
From S2P Require Import Control.
From S2P Require Import MathOps.
From S2P Require Import CanBus.
From S2P Require Import SafeMode.
From S2P Require Import Servo.
From S2P Require Import ServoConfig.

(** ** State *)

Definition SPRING_TYPE_BIDIRECTIONAL : Z := 2.
Definition SPRING_TYPE_UNIDIRECTIONAL : Z := 1.
Definition SPRING_TYPE_REVERSE_UNIDIR : Z := -1.

Record Joint := mkJoint {
  id_ : Z;
  pos_error_margin_ : f32;
  pos_max_safety_margin_ : f32;
  pos_max_safety_margin_configured_ : bool;
  normalized_pos_min_ : f32;
  normalized_pos_max_ : f32;
  normalized_pos_min_configured_ : bool;
  normalized_pos_max_configured_ : bool;
  pos_rescale_ : f32;
  vel_max_ : f32;
  follow_vel_max_ : f32;
  follow_vel_max_configured_ : bool;
  follow_viscous_damping_ : f32;
  gravity_comp_factor_ : f32;
  grip_torque_limit_nm_ : f32;
  last_grip_requested_target_pos_ : f32;
  last_grip_applied_target_pos_ : f32;
  grip_limiter_active_ : bool;
  accel_max_ : f32;
  safe_mode_derating_ : f32;
  torq_min_ : f32;
  torq_max_ : f32;
  torq_rescale_ : f32;
  safe_torq_min_ : f32;
  safe_torq_max_ : f32;
  tele_pos_ : f32;
  tele_vel_ : f32;
  tele_tor_ : f32;
  prev_pos_ : f32;
  spring_invert_ : bool;
  spring_enabled_ : bool;
  spring_constant_ : f32;
  spring_preload_ : f32;
  spring_force_config_ : bool;
  spring_type_ : Z;
  threshold_angle_change_ : f32;
  threshold_time_sec_ : f32;
  last_significant_change_time_ : prof_time_t;
  target_pos_ : f32;
  prev_target_pos_ : f32;
  stuck_last_pos_rad_ : f32;
  stuck_iter_count_ : Z;
  stuck_latched_ : bool;
  reference_servo_index_ : Z;
  servos_ : list ptr;
  prev_tele_pos_ : f32;
  tele_pos_moving_dir_ : f32;
  stalled_position_ : f32;
  follower_pos_ : f32;
  follower_pos_valid_ : bool;
  follower_vel_ : f32;
  follower_tor_ : f32;
  follower_temperature_ : f32;
  follower_idc_current_ : f32;
  adjusted_target_pos_ : f32;
  target_tor_ : f32;
  prev_target_tor_ : f32;
}.
#[export] Instance eta_Joint : Eta Joint := λ r, mkJoint
  (id_ r) (pos_error_margin_ r) (pos_max_safety_margin_ r) (pos_max_safety_margin_configured_ r)
  (normalized_pos_min_ r) (normalized_pos_max_ r) (normalized_pos_min_configured_ r)
  (normalized_pos_max_configured_ r) (pos_rescale_ r) (vel_max_ r) (follow_vel_max_ r)
  (follow_vel_max_configured_ r) (follow_viscous_damping_ r) (gravity_comp_factor_ r)
  (grip_torque_limit_nm_ r) (last_grip_requested_target_pos_ r) (last_grip_applied_target_pos_ r)
  (grip_limiter_active_ r) (accel_max_ r) (safe_mode_derating_ r) (torq_min_ r) (torq_max_ r)
  (torq_rescale_ r) (safe_torq_min_ r) (safe_torq_max_ r) (tele_pos_ r) (tele_vel_ r) (tele_tor_ r)
  (prev_pos_ r) (spring_invert_ r) (spring_enabled_ r) (spring_constant_ r) (spring_preload_ r)
  (spring_force_config_ r) (spring_type_ r) (threshold_angle_change_ r) (threshold_time_sec_ r)
  (last_significant_change_time_ r) (target_pos_ r) (prev_target_pos_ r) (stuck_last_pos_rad_ r)
  (stuck_iter_count_ r) (stuck_latched_ r) (reference_servo_index_ r) (servos_ r)
  (prev_tele_pos_ r) (tele_pos_moving_dir_ r) (stalled_position_ r)
  (follower_pos_ r) (follower_pos_valid_ r) (follower_vel_ r) (follower_tor_ r)
  (follower_temperature_ r) (follower_idc_current_ r) (adjusted_target_pos_ r) (target_tor_ r)
  (prev_target_tor_ r).

(** The constructor.  Members without an initialiser ([id_], the rescales, limits
    and margins the configuration sets) are zero here. *)
Definition new_Joint (ps : list ptr) : Joint := mkJoint
  0 f0 f0 false f0 f0 false false f0 f0 f0 false f0 f1 f0 f0 f0 false f0 f0 f0 f0 f0 f0 f0 f0 f0 f0
  f0 false false f0 f0 false 1 f0 f0 prof_time_zero f0 f0 f0 0 false 0 ps f0 f0 f0 f0 false f0 f0 f0 f0 f0 f0 f0.

(** What the servos read of their joint. *)
Definition joint_view (j : Joint) : JointView :=
  mkJointView (tele_pos_ j) (torq_min_ j) (torq_max_ j) (pos_error_margin_ j) (torq_rescale_ j).

Class JointServos (W : Type) := {
  js_servo : ptr → W → Servo;                     (* the base-class fields *)
  js_update : ptr → (Servo → Servo) → W → W;
  js_effective_pos_kp : ptr → W → f32;
  js_read_hardware_values : ptr → St W ReturnCode;
  js_park_safely : ptr → St W ReturnCode;
  js_start_hardware : ptr → St W ReturnCode;
  js_verify_position_fresh : ptr → St W ReturnCode;
  js_verify_operational : ptr → St W ReturnCode;
  js_change_control_mode_for_leader : ptr → St W ReturnCode;
  js_change_control_mode_for_follower : ptr → St W ReturnCode;
  js_move : ptr → f32 → St W ReturnCode;
  js_move_with : ptr → f32 → f32 → f32 → St W ReturnCode;
  js_apply_torque : ptr → f32 → St W ReturnCode;
  js_apply_torque_with_damping : ptr → f32 → St W ReturnCode;
  js_frame_age_ms : ptr → St W Z;
  js_mit_codec_report : ptr → W → option MitCodecReport;
}.

Record JointWorld (W : Type) := mkJointWorld { joint : Joint; hw : W }.
Arguments mkJointWorld {W}.
Arguments joint {W}.
Arguments hw {W}.
#[export] Instance eta_JointWorld W : Eta (JointWorld W) := λ r, mkJointWorld (joint r) (hw r).

(** ** Configuration *)

Definition fn_joint_id := "joint_id".
Definition fn_joint_pos_rescale := "pos_rescale".
Definition fn_joint_safe_mode_derating := "safe_mode_derating".
Definition fn_joint_pos_error_margin := "pos_error_margin".
Definition fn_joint_pos_max_safety_margin := "pos_max_safety_margin".
Definition fn_joint_normalized_pos_min := "normalized_pos_min".
Definition fn_joint_normalized_pos_max := "normalized_pos_max".
Definition fn_joint_torq_min := "torq_min".
Definition fn_joint_torq_max := "torq_max".
Definition fn_joint_safe_torq_min := "safe_torq_min".
Definition fn_joint_safe_torq_max := "safe_torq_max".
Definition fn_joint_torq_rescale := "torq_rescale".
Definition fn_joint_vel_max := "vel_max".
Definition fn_joint_follow_vel_max := "follow_vel_max".
Definition fn_joint_follow_viscous_damping := "follow_viscous_damping".
Definition fn_joint_grip_torque_limit := "grip_torque_limit".
Definition fn_joint_accel_max := "accel_max".
Definition fn_joint_gravity_comp_factor := "gravity_comp_factor".
Definition fn_joint_reference_servo_index := "reference_servo_index".
Definition fn_joint_spring_constant := "spring_constant".
Definition fn_joint_spring_preload := "spring_preload".
Definition fn_joint_spring_force_config := "spring_force_config".
Definition fn_joint_spring_type := "spring_type".
Definition fn_joint_threshold_angle_change := "threshold_angle_change".
Definition fn_joint_threshold_time_sec := "threshold_time_sec".
Definition fn_joint_spring_invert := "spring_invert".

(** [!std::isfinite(x) || x <= 0.0f]. *)
Definition not_positive (x : f32) : bool := negb (isfinite x) || (x <=?. f0).

Section config.
Context {J : Type} `{JsonReader J} (joint_config : J).
Local Abbreviation float_field := (get_field_value json_get_float joint_config).
Local Abbreviation bool_field := (get_field_value json_get_bool joint_config).
Local Abbreviation int_field := (get_field_value json_get_int joint_config).

(** The optional fields at the head and at the tail of the model pass. *)
Definition config_spring_and_limits : St Joint unit :=
  float_field fn_joint_spring_constant (λ v j, j <| spring_constant_ := v |>);;
  float_field fn_joint_spring_preload (λ v j, j <| spring_preload_ := v |>);;
  bool_field fn_joint_spring_force_config (λ v j, j <| spring_force_config_ := v |>);;
  int_field fn_joint_spring_type (λ v j, j <| spring_type_ := v |>);;
  float_field fn_joint_threshold_angle_change (λ v j, j <| threshold_angle_change_ := v |>);;
  float_field fn_joint_threshold_time_sec (λ v j, j <| threshold_time_sec_ := v |>);;
  float_field fn_joint_torq_rescale (λ v j, j <| torq_rescale_ := v |>);;
  float_field fn_joint_torq_min (λ v j, j <| torq_min_ := v |>);;
  float_field fn_joint_torq_max (λ v j, j <| torq_max_ := v |>);;
  float_field fn_joint_safe_torq_min (λ v j, j <| safe_torq_min_ := v |>);;
  float_field fn_joint_safe_torq_max (λ v j, j <| safe_torq_max_ := v |>);;
  float_field fn_joint_vel_max (λ v j, j <| vel_max_ := v |>);;
  mret tt.

Definition config_position_and_safety : St Joint unit :=
  float_field fn_joint_pos_rescale (λ v j, j <| pos_rescale_ := v |>);;
  float_field fn_joint_pos_error_margin (λ v j, j <| pos_error_margin_ := v |>);;
  float_field fn_joint_pos_max_safety_margin
    (λ v j, j <| pos_max_safety_margin_ := v |> <| pos_max_safety_margin_configured_ := true |>);;
  float_field fn_joint_normalized_pos_min
    (λ v j, j <| normalized_pos_min_ := v |> <| normalized_pos_min_configured_ := true |>);;
  float_field fn_joint_normalized_pos_max
    (λ v j, j <| normalized_pos_max_ := v |> <| normalized_pos_max_configured_ := true |>);;
  float_field fn_joint_accel_max (λ v j, j <| accel_max_ := v |>);;
  float_field fn_joint_safe_mode_derating (λ v j, j <| safe_mode_derating_ := v |>);;
  bool_field fn_joint_spring_invert (λ v j, j <| spring_invert_ := v |>);;
  mret tt.

Definition init_config_model : St Joint ReturnCode :=
  require (int_field fn_joint_id (λ v j, j <| id_ := v |>))
  (config_spring_and_limits;;
   rc ← float_field fn_joint_follow_vel_max (λ v j, j <| follow_vel_max_ := v |>);
   modify (λ j, if ok rc then j <| follow_vel_max_configured_ := true |>
                else j <| follow_vel_max_ := vel_max_ j |>);;
   j ← get_state;
   if not_positive (follow_vel_max_ j) then mret INVALID_PARAM
   else
     rc ← float_field fn_joint_follow_viscous_damping (λ v j, j <| follow_viscous_damping_ := v |>);
     j ← get_state;
     if ok rc && (negb (isfinite (follow_viscous_damping_ j)) || (follow_viscous_damping_ j <?. f0))
     then mret INVALID_PARAM
     else
       float_field fn_joint_gravity_comp_factor (λ v j, j <| gravity_comp_factor_ := v |>);;
       rc ← float_field fn_joint_grip_torque_limit (λ v j, j <| grip_torque_limit_nm_ := v |>);
       j ← get_state;
       if ok rc && (grip_torque_limit_nm_ j <?. f0) then mret INVALID_PARAM
       else config_position_and_safety;; mret SUCCESS).

(** [torq_rescale_individual] and [spring_invert_individual] are locals: the member
    is assigned after the check. *)
Definition init_config_individual : St Joint ReturnCode :=
  bool_field fn_joint_spring_invert (λ v j, j <| spring_invert_ := v |>);;
  int_field fn_joint_reference_servo_index (λ v j, j <| reference_servo_index_ := v |>);;
  j ← get_state;
  if (reference_servo_index_ j <? 0) || (Z.of_nat (length (servos_ j)) <=? reference_servo_index_ j)
  then mret INVALID_PARAM
  else
    float_field fn_joint_vel_max (λ v j, j <| vel_max_ := v |>);;
    float_field fn_joint_accel_max (λ v j, j <| accel_max_ := v |>);;
    rc ← float_field fn_joint_follow_vel_max (λ v j, j <| follow_vel_max_ := v |>);
    modify (λ j, if ok rc then j <| follow_vel_max_configured_ := true |>
                 else if negb (follow_vel_max_configured_ j) then j <| follow_vel_max_ := vel_max_ j |>
                 else j);;
    j ← get_state;
    if not_positive (vel_max_ j) || not_positive (accel_max_ j) || not_positive (follow_vel_max_ j)
    then mret INVALID_PARAM
    else
      match (if json_contains joint_config fn_joint_torq_rescale
             then json_get_float joint_config fn_joint_torq_rescale else None) with
      | Some v =>
          if negb (isfinite v) || (v <?. f0) then mret INVALID_PARAM
          else modify (λ j, j <| torq_rescale_ := v |>);; mret SUCCESS
      | None => mret SUCCESS
      end.
End config.

(** ** Operations *)

Section joint.
Context {W : Type} `{JointServos W} (undefined_servo : Servo).
Local Abbreviation JW := (JointWorld W).

Definition on_joint (f : Joint → Joint) : St JW unit := modify (λ w, w <| joint := f (joint w) |>).
Definition on_hw {A} (m : St W A) : St JW A := lift_into hw (λ h w, w <| hw := h |>) m.
Definition on_config (m : St Joint ReturnCode) : St JW ReturnCode :=
  lift_into joint (λ j w, w <| joint := j |>) m.

(** The servos hold a pointer to the joint: they see its fields from here on. *)
Definition publish_view : St JW unit :=
  modify (λ w, w <| hw := foldr (λ p h, js_update p
    (λ s, s <| p_joint_ := Some (joint_view (joint w)) |>) h) (hw w) (servos_ (joint w)) |>).

Definition reference_ptr (j : Joint) : option ptr :=
  if reference_servo_index_ j <? 0 then None else servos_ j !! Z.to_nat (reference_servo_index_ j).
Definition reference_servo (w : JW) : Servo :=
  match reference_ptr (joint w) with Some p => js_servo p (hw w) | None => undefined_servo end.

Definition get_pos_rad_relative (w : JW) : f32 := Servo.get_pos_rad_relative (reference_servo w).
Definition get_pos_rad_absolute (w : JW) : f32 := curr_pos_abs_ (reference_servo w).
Definition get_pos_min_relative (w : JW) : f32 := pos_min_rel_ (reference_servo w).
Definition get_pos_max_relative (w : JW) : f32 := pos_max_rel_ (reference_servo w).
Definition get_spring_home_pos_absolute (w : JW) : f32 :=
  get_pos_rad_absolute_of (reference_servo w) (spring_home_pos_rel_ (reference_servo w)).
Definition get_safe_tele_pos_rad_of (w : JW) (tele_pos : f32) : f32 :=
  SafeMode.get_safe_tele_pos_rad (safe_mode_ (reference_servo w)) (reference_servo w) tele_pos.
Definition get_safe_tele_pos_rad (w : JW) : f32 := get_safe_tele_pos_rad_of w (tele_pos_ (joint w)).

Definition get_vel_rad_sec (w : JW) : f32 := curr_vel_ (reference_servo w).
Definition get_tor_nm (w : JW) : f32 := curr_tor_ (reference_servo w).
Definition get_temperature (w : JW) : f32 := temperature_ (reference_servo w).
Definition get_home_pos_relative (w : JW) : f32 := home_pos_rel_ (reference_servo w).
Definition get_dir_invert (w : JW) : Z := dir_invert_ (reference_servo w).
Definition get_idc_current (w : JW) : f32 :=
  foldl (λ sum p, (sum + idc_current_ (js_servo p (hw w)))%f32) f0 (servos_ (joint w)).
Definition get_servo_ids (w : JW) : list Z := map (λ p, Servo.id_ (js_servo p (hw w))) (servos_ (joint w)).

(** The index falls back to the first servo; -1 without servos. *)
Definition reference_servo_id (w : JW) : Z :=
  match servos_ (joint w) with
  | [] => -1
  | p :: _ => i16 (Servo.id_ (js_servo (default p (reference_ptr (joint w))) (hw w)))
  end.

Definition set_reference (f : Servo → Servo) : St JW ReturnCode :=
  w ← get_state;
  match reference_ptr (joint w) with
  | None => mret NOT_INITIALIZED
  | Some p => on_hw (modify (js_update p f));; mret SUCCESS
  end.
Definition set_pos_max_relative (pos_max : f32) : St JW ReturnCode :=
  set_reference (λ s, s <| pos_max_rel_ := pos_max |>).
Definition set_pos_min_relative (pos_min : f32) : St JW ReturnCode :=
  set_reference (λ s, s <| pos_min_rel_ := pos_min |>).
Definition set_pos_kd (pos_kd : f32) : St JW ReturnCode :=
  set_reference (λ s, s <| pos_kd_ := pos_kd |>).

Definition has_normalized_position_range (j : Joint) : bool :=
  normalized_pos_min_configured_ j && normalized_pos_max_configured_ j.
Definition get_normalized_pos_min_relative (w : JW) : f32 :=
  if has_normalized_position_range (joint w) then normalized_pos_min_ (joint w) else get_pos_min_relative w.
Definition get_normalized_pos_max_relative (w : JW) : f32 :=
  if has_normalized_position_range (joint w) then normalized_pos_max_ (joint w) else get_pos_max_relative w.

Definition validate_normalized_position_range (w : JW) : ReturnCode :=
  let j := joint w in
  if negb (bool_decide (normalized_pos_min_configured_ j = normalized_pos_max_configured_ j))
  then INVALID_PARAM
  else if negb (has_normalized_position_range j) then SUCCESS
  else
    let raw_pos_min := get_pos_min_relative w in
    let raw_pos_max := get_pos_max_relative w in
    if pos_max_safety_margin_configured_ j then INVALID_PARAM
    else if negb (isfinite raw_pos_min) || negb (isfinite raw_pos_max) || (raw_pos_min >=?. raw_pos_max)
    then INVALID_PARAM
    else if negb (isfinite (normalized_pos_min_ j)) || negb (isfinite (normalized_pos_max_ j)) ||
            (normalized_pos_min_ j >=?. normalized_pos_max_ j)
    then INVALID_PARAM
    else if (normalized_pos_min_ j <?. raw_pos_min) || (normalized_pos_max_ j >?. raw_pos_max)
    then INVALID_PARAM
    else SUCCESS.

(** *** Calls that fan out to the servos *)

Definition fan_out (m : ptr → St W ReturnCode) : St JW ReturnCode :=
  w ← get_state; on_hw (each m (servos_ (joint w))).

Definition park_safely : St JW ReturnCode :=
  w ← get_state; on_hw (each_all js_park_safely (servos_ (joint w)) SUCCESS).
Definition start_hardware : St JW ReturnCode := fan_out js_start_hardware.
Definition verify_operational : St JW ReturnCode := fan_out js_verify_operational.
Definition change_control_mode_for_follower : St JW ReturnCode :=
  fan_out js_change_control_mode_for_follower.
Definition move (target_pos : f32) : St JW ReturnCode := fan_out (λ p, js_move p target_pos).
Definition move_with (target_pos target_vel target_tor : f32) : St JW ReturnCode :=
  fan_out (λ p, js_move_with p target_pos target_vel target_tor).
Definition apply_torque (torque : f32) : St JW ReturnCode := fan_out (λ p, js_apply_torque p torque).
Definition apply_torque_with_damping (torque : f32) : St JW ReturnCode :=
  fan_out (λ p, js_apply_torque_with_damping p torque).

Definition verify_position_fresh : St JW ReturnCode :=
  w ← get_state;
  match reference_ptr (joint w) with
  | None => mret NOT_INITIALIZED
  | Some p => on_hw (js_verify_position_fresh p)
  end.

Definition get_frame_age_ms : St JW Z :=
  w ← get_state;
  match reference_ptr (joint w) with
  | None => mret (-1)
  | Some p => on_hw (js_frame_age_ms p)
  end.

(** The report of the reference servo; the joint adds its [torq_rescale_]. *)
Definition get_mit_codec_report (w : JW) : option (MitCodecReport * f32) :=
  p ← reference_ptr (joint w); r ← js_mit_codec_report p (hw w); Some (r, torq_rescale_ (joint w)).

(** The loop of [read_hardware_values]: whether a servo stalled, the first error. *)
Fixpoint read_each (ps : list ptr) (stalled : bool) (first_error : ReturnCode)
    : St W (bool * ReturnCode) :=
  match ps with
  | [] => mret (stalled, first_error)
  | p :: ps =>
      rc ← js_read_hardware_values p;
      if bool_decide (rc = STALL) then read_each ps true first_error
      else read_each ps stalled (if negb (ok rc) && ok first_error then rc else first_error)
  end.

Definition read_hardware_values (has_driver : bool) : St JW ReturnCode :=
  if negb has_driver then mret NOT_INITIALIZED
  else
    w ← get_state;
    '(stalled, first_error) ← on_hw (read_each (servos_ (joint w)) false SUCCESS);
    if negb (ok first_error) then on_joint (λ j, j <| stalled_position_ := f0 |>);; mret first_error
    else if (stalled : bool) then
      w ← get_state;
      on_joint (λ j, j <| stalled_position_ := get_pos_rad_relative w |>
                       <| tele_pos_ := get_pos_rad_relative w |>);;
      publish_view;; mret SUCCESS
    else on_joint (λ j, j <| stalled_position_ := f0 |>);; mret SUCCESS.

(** [adjusted_tele_pos] is computed by the code and not used. *)
Definition set_tele_pos_rad (tele_pos : f32) : St JW unit :=
  on_joint (λ j,
    let j :=
      if negb (stalled_position_ j =?. f0) then
        if (tele_pos_moving_dir_ j >?. f0) && (tele_pos <?. stalled_position_ j)
        then j <| stalled_position_ := f0 |>
        else if (tele_pos_moving_dir_ j <?. f0) && (tele_pos >?. stalled_position_ j)
        then j <| stalled_position_ := f0 |>
        else j
      else
        j <| tele_pos_moving_dir_ := (tele_pos_ j - prev_tele_pos_ j)%f32 |>
          <| prev_tele_pos_ := tele_pos_ j |> in
    j <| tele_pos_ := tele_pos |>);;
  publish_view.
(** *** Springs *)

Definition calc_spring_force (w : JW) : f32 :=
  let j := joint w in
  let displacement := (get_pos_rad_absolute w - get_spring_home_pos_absolute w)%f32 in
  let displacement_preload := (spring_preload_ j / spring_constant_ j)%f32 in
  let adjusted_displacement := (displacement + displacement_preload)%f32 in
  let adjusted_spring_type := if spring_invert_ j then - spring_type_ j else spring_type_ j in
  let pull := (- spring_constant_ j * adjusted_displacement)%f32 in
  let spring_torque :=
    if spring_type_ j =? SPRING_TYPE_BIDIRECTIONAL then pull
    else if adjusted_spring_type =? SPRING_TYPE_UNIDIRECTIONAL then
      if adjusted_displacement >?. f0 then pull else f0
    else if adjusted_spring_type =? SPRING_TYPE_REVERSE_UNIDIR then
      if adjusted_displacement <?. f0 then pull else f0
    else f0 in
  clipping spring_torque (torq_min_ j) (torq_max_ j).

Definition update_stability (step_started_time : prof_time_t) : St JW bool :=
  w ← get_state;
  let delta_pos := SFabs (get_pos_rad_absolute w - prev_pos_ (joint w))%f32 in
  let is_prev_time_never_used := is_zero (last_significant_change_time_ (joint w)) in
  when_ (is_prev_time_never_used || (delta_pos >?. threshold_angle_change_ (joint w)))
    (on_joint (λ j, j <| last_significant_change_time_ := step_started_time |>
                      <| prev_pos_ := get_pos_rad_absolute w |>));;
  w ← get_state;
  let time_since := get_time_diff (last_significant_change_time_ (joint w)) step_started_time in
  mret ((f64_of_Z time_since / f64_of_Z 1000)%f64 >?. to_f64 (threshold_time_sec_ (joint w))).

Definition apply_spring_force (base_torque : f32) (commandline_flag : bool) : St JW ReturnCode :=
  w ← get_state;
  let spring_force :=
    if commandline_flag && spring_force_config_ (joint w) && spring_enabled_ (joint w)
    then calc_spring_force w else f0 in
  apply_torque (spring_force + base_torque)%f32.

Definition change_control_mode_for_spring : St JW ReturnCode :=
  on_joint (λ j, j <| spring_enabled_ := spring_force_config_ j |>);; mret SUCCESS.

Definition change_control_mode_for_leader (current_time : prof_time_t) : St JW ReturnCode :=
  require change_control_mode_for_spring
  (w ← get_state;
   on_joint (λ j, j <| prev_pos_ := get_pos_rad_relative w |>
                    <| last_significant_change_time_ := current_time |>);;
   fan_out js_change_control_mode_for_leader).

(** *** Ready move: hold, stuck detection *)

Definition hold_at_current_position : St JW ReturnCode :=
  w ← get_state;
  let curr := get_pos_rad_relative w in
  on_joint (λ j, j <| prev_target_pos_ := curr |> <| target_pos_ := curr |>);;
  move curr.

Definition note_stuck (last_pos : f32) (count : Z) (latched : bool) (j : Joint) : Joint :=
  j <| stuck_last_pos_rad_ := last_pos |> <| stuck_iter_count_ := count |> <| stuck_latched_ := latched |>.

Definition reset_stuck_counter : St JW unit :=
  w ← get_state; on_joint (note_stuck (get_pos_rad_relative w) 0 false).

Definition update_and_check_stuck : St JW bool :=
  w ← get_state;
  let j := joint w in
  let curr_pos := get_pos_rad_relative w in
  let move_delta := SFabs (curr_pos - stuck_last_pos_rad_ j)%f32 in
  let displacement := SFabs (target_pos_ j - curr_pos)%f32 in
  let count :=
    if displacement >?. pos_error_margin_ j then
      if move_delta <?. READY_MOVE_STUCK_POS_DELTA_RAD then stuck_iter_count_ j + 1 else 0
    else 0 in
  let latched := if READY_MOVE_STUCK_ITER_THRESHOLD <? count then true else stuck_latched_ j in
  on_joint (note_stuck curr_pos count latched);; mret latched.

(** *** The gripper's torque limit

    The index is compared with the size only: a negative one is undefined behaviour
    here too. *)
Definition grip_limit (j : Joint) (temperature : f32) : f32 :=
  let limit := grip_torque_limit_nm_ j in
  if to_f64 temperature >=?. TEMPERATURE_THRESHOLD_CAUTIOUS then
    let capped := to_f32 (if to_f64 temperature <?. TEMPERATURE_THRESHOLD_CRITICAL
                          then to_f64 temperature else TEMPERATURE_THRESHOLD_CRITICAL) in
    to_f32 (to_f64 limit *
      (to_f64 f1 - (to_f64 capped - TEMPERATURE_THRESHOLD_CAUTIOUS) / TEMPERATURE_THRESHOLD_RANGE))%f64
  else limit.

Definition reference_kp (w : JW) : f32 :=
  match reference_ptr (joint w) with
  | Some p => js_effective_pos_kp p (hw w)
  | None => pos_kp_ undefined_servo
  end.

Definition note_grip (requested applied : f32) (active : bool) (j : Joint) : Joint :=
  j <| last_grip_requested_target_pos_ := requested |>
    <| last_grip_applied_target_pos_ := applied |> <| grip_limiter_active_ := active |>.

Definition clamp_target_to_grip_torque_limit (target_pos : f32) : St JW f32 :=
  on_joint (note_grip target_pos target_pos false);;
  w ← get_state;
  if (grip_torque_limit_nm_ (joint w) <=?. f0) || bool_decide (servos_ (joint w) = []) ||
     (Z.of_nat (length (servos_ (joint w))) <=? reference_servo_index_ (joint w))
  then mret target_pos
  else if reference_kp w <=?. f0 then mret target_pos
  else
    let window := (grip_limit (joint w) (temperature_ (reference_servo w)) / reference_kp w)%f32 in
    let current := get_pos_rad_relative w in
    let clamped := clipping target_pos (current - window)%f32 (current + window)%f32 in
    on_joint (note_grip target_pos clamped (negb (clamped =?. target_pos)));;
    mret clamped.
End joint.
