(* ===== verification/ServoDm.v ===== *)
(** * DM and ENCOS servos (src/pi_servo_dm.cpp, include/pi_servo_dm.hpp)

    A servo talks to its driver through the virtual methods of [DriverCanMit]: the
    class [CanMitDriver].  Its methods run on the [World]; [this] is the servo's
    own address, [p_device_] its device and [has_driver] whether the cast of the
    driver pointer succeeded. *)

From S2P Require Import Prelude.
From S2P Require Import FloatSpec.
From S2P Require Import Control.
From S2P Require Import MathOps.
From S2P Require Import DmStatus.
From S2P Require Import HoldChecker.
From S2P Require Import CurrentEstimation.
From S2P Require Import SafeMode.
From S2P Require Import CanBus.
From S2P Require Import Servo.
From S2P Require Import DmCodec.
From S2P Require Import DriverCanMit.
From S2P Require Import ServoConfig.

(** ** The driver interface *)

Class CanMitDriver := {
  drv_send_command : Servo → f32 → f32 → f32 → f32 → f32 → St World ReturnCode;
  drv_enable : Z → ServoType → bool → St World ReturnCode;
}.

(** What a servo relies on: commands and enabling leave the servo objects and the
    registry alone. *)
Definition same_servos (w w' : World) : Prop := servos w' = servos w ∧ registry w' = registry w.

#[export] Instance same_servos_preorder : PreOrder same_servos.
Proof. split; [by intros w|]. intros w1 w2 w3 [A1 B1] [A2 B2]. split; congruence. Qed.

Class CanMitDriverLaws `{CanMitDriver} := {
  drv_send_same : ∀ s kp kd pos vel tor, steps same_servos (drv_send_command s kp kd pos vel tor);
  drv_enable_same : ∀ id type flag, steps same_servos (drv_enable id type flag);
}.
#[export] Hint Resolve drv_send_same drv_enable_same : steps.

Definition SERVO_DM_ERR_ENABLED : Z := 0x1.
Definition SERVO_ENCOS_ERR_NONE : Z := 0x0.
Definition SERVO_DM_DEFAULT_KP : Z := 10.
Definition MAX_CNT_MOTOR_NO_RESPONSE_NORMAL : Z := 10000.

Definition val_servo_model_dm_4340 := "DM J4340".
Definition val_servo_model_dm_4310 := "DM J4310".
Definition val_servo_model_encos_A4310 := "Encos EC-A4310-P2-36".
Definition val_servo_model_arx_encoder := "ARX Remote Encoder".

(** ** Operations that need no bus *)

(** [sel] of a servo that is a [ServoDm]; any other servo has no such fields. *)
Definition dm_field {A} (sel : ServoDmPart → A) (d : A) (s : Servo) : A :=
  match dm_ s with Some part => sel part | None => d end.

Definition thermal_latched (s : Servo) : bool := dm_field thermal_fault_latched_ false s.

Definition reject_if_thermal_fault_latched (s : Servo) : ReturnCode :=
  if thermal_latched s then HARDWARE_FAULT else SUCCESS.

Definition get_effective_pos_kp (s : Servo) : f32 :=
  if pos_kp_ s =?. f0 then f32_of_Z SERVO_DM_DEFAULT_KP else pos_kp_ s.

Definition get_mit_codec_report (s : Servo) : option MitCodecReport :=
  match p_servo_param_ s, dm_ s with
  | Some p, Some d => Some (mkMitCodecReport (vel_min_ p) (vel_max_ p) (tor_min_ p) (tor_max_ p)
      (reported_spd_range_valid_ d) (reported_spd_min_ d) (reported_spd_max_ d)
      (reported_tor_range_valid_ d) (reported_tor_min_ d) (reported_tor_max_ d)
      (get_effective_pos_kp s) (pos_kd_ s))
  | _, _ => None
  end.

Definition dm_4340_motor : MotorParams := mkMotorParams
  (to_f32 (lit64 1087 10000)) (to_f32 (lit64 9292449 10000000)) (f32_of_Z 25)
  (to_f32 (lit64 (-15) 10000)) (to_f32 (lit64 39 10000)) f0 f0 (to_f32 (lit64 96 100)) (f32_of_Z 2)
  (to_f32 (lit64 90 100)) (f32_of_Z 40).
Definition dm_4310_motor : MotorParams := mkMotorParams
  (to_f32 (lit64 1032 10000)) (to_f32 (lit64 8413959 10000000)) (f32_of_Z 25)
  (to_f32 (lit64 (-15) 10000)) (to_f32 (lit64 39 10000)) f0 f0 (to_f32 (lit64 96 100)) (f32_of_Z 2)
  (to_f32 (lit64 90 100)) (f32_of_Z 10).
Definition arx_encoder_motor : MotorParams := mkMotorParams
  f0 f0 (f32_of_Z 25) f0 f0 f0 f0 f1 f0 f1 f1.

Definition init_current_estimation (servo_model : string) : St Servo ReturnCode :=
  modify (λ s,
    if String.eqb servo_model val_servo_model_dm_4340 then s <| motor_params_current_estimation_ := dm_4340_motor |>
    else if String.eqb servo_model val_servo_model_dm_4310 then s <| motor_params_current_estimation_ := dm_4310_motor |>
    else if String.eqb servo_model val_servo_model_arx_encoder then s <| motor_params_current_estimation_ := arx_encoder_motor |>
    else s);;
  mret SUCCESS.

Section config.
Context {J : Type} `{JsonReader J} (this : ptr) (has_driver : bool).

(** [init_current_estimation] is called with the model just read. *)
Definition ServoDm_init_config_model (servo_config : J) : St SR ReturnCode :=
  if negb has_driver then mret NOT_INITIALIZED
  else
    require (init_config_model this servo_config (λ s, init_current_estimation (servo_model_ s) s))
      (λ '(s, r),
         if String.eqb (servo_model_ s) val_servo_model_dm_4340
         then (SUCCESS, (s <| type_ := DM_4340 |> <| p_servo_param_ := Some g_servo_dm_param_4340 |>, r))
         else if String.eqb (servo_model_ s) val_servo_model_dm_4310
         then (SUCCESS, (s <| type_ := DM_4310 |> <| p_servo_param_ := Some g_servo_dm_param_4310 |>, r))
         else if String.eqb (servo_model_ s) val_servo_model_encos_A4310
         then (SUCCESS, (s <| type_ := ENCOS_A4310 |>
                           <| p_servo_param_ := Some g_servo_dm_param_encos_A4310 |>, r))
         else if String.eqb (servo_model_ s) val_servo_model_arx_encoder
         then (SUCCESS, (s <| type_ := ARX_ENCODER |>
                           <| p_servo_param_ := Some g_servo_dm_param_arx_encoder |>, r))
         else (NOT_SUPPORTED, (s, r))).

Definition ServoDm_init_config_individual (servo_config : J) : St Servo ReturnCode :=
  require (init_config_individual servo_config)
    (if negb has_driver then mret NOT_INITIALIZED else mret SUCCESS).
End config.

(** ** Operations on the bus *)

Section servo.
Context `{CanMitDriver} (env : BusEnv) (p_device_ : Device) (has_driver : bool) (this : ptr).

(** The object behind [this]; it exists as long as its methods run. *)
Definition this_servo (w : World) : Servo :=
  match servos w !! this with Some s => s | None => new_Servo p_device_ None end.
Definition set_this (s : Servo) (w : World) : World := w <| servos := <[this := s]> (servos w) |>.
Definition update_this (f : Servo → Servo) : St World unit := modify (λ w, set_this (f (this_servo w)) w).
Definition on_this {A} (m : St Servo A) : St World A := lift_into this_servo set_this m.

Definition is_effector : bool := bool_decide (device_type_ p_device_ = EFFECTOR).

Definition latch_effector_thermal_fault (status_code : Z) : St World ReturnCode :=
  s ← gets this_servo;
  if thermal_latched s then mret HARDWARE_FAULT
  else
    update_this (λ s, (on_dm (λ d, d <| thermal_fault_latched_ := true |>) s) <| parked_ := true |>);;
    when_ has_driver
      (s ← gets this_servo;
       drv_send_command s f0 f0 f0 f0 f0;;
       send_disable_once env (id_ s) (type_ s);;
       mret tt);;
    update_this (on_dm (λ d, d <| last_reported_fault_code_ := u8 status_code |>));;
    mret HARDWARE_FAULT.

Definition park_safely : St World ReturnCode :=
  s ← gets this_servo;
  if parked_ s then mret SUCCESS
  else if negb has_driver then mret NOT_INITIALIZED
  else
    rc ← drv_send_command s f0 (pos_kd_ s) f0 f0 f0;
    if negb (ok rc) then mret rc
    else
      rc ← drv_enable (id_ s) (type_ s) false;
      if negb (ok rc) then mret rc
      else update_this (λ s, s <| parked_ := true |>);; mret rc.

Definition start_hardware : St World ReturnCode :=
  s ← gets this_servo;
  if negb (ok (reject_if_thermal_fault_latched s)) then mret HARDWARE_FAULT
  else if negb has_driver then mret NOT_INITIALIZED
  else
    rc ← drv_enable (id_ s) (type_ s) true;
    if ok rc then mret SUCCESS
    else
      status_code ← gets (λ w, last_enable_fault_status_ (mit w));
      if bool_decide (rc = HARDWARE_FAULT) && (0 <=? status_code) && is_effector &&
         is_thermal_fault (dm_servo_status_info (u8 status_code))
      then
        read_hardware_values this;;
        update_this estimate_idc;;
        latch_effector_thermal_fault (u8 status_code)
      else mret rc.

Definition verify_position_fresh : St World ReturnCode :=
  if negb has_driver then mret NOT_INITIALIZED
  else
    w ← get_state;
    mret (if get_received_motor_id (mit w) (data_index_ (this_servo w)) =? 0 then FAIL else SUCCESS).

Definition verify_operational : St World ReturnCode :=
  if negb has_driver then mret NOT_INITIALIZED
  else
    s ← gets this_servo;
    if bool_decide (type_ s = CAN_PASSIVE_ENCODER) || bool_decide (type_ s = ARX_ENCODER)
    then mret SUCCESS
    else
      let is_dm := bool_decide (type_ s = DM_4340) || bool_decide (type_ s = DM_4310) in
      let healthy_code := if is_dm then SERVO_DM_ERR_ENABLED else SERVO_ENCOS_ERR_NONE in
      rc ← read_hardware_values this;
      if negb (ok rc) then mret rc
      else
        code ← gets (λ w, motor_error_code_ (this_servo w));
        if code =? healthy_code then mret SUCCESS
        else if negb is_dm then mret FAIL
        else
          rc ← drv_enable (id_ s) (type_ s) true;
          if negb (ok rc) then mret rc
          else
            rc ← read_hardware_values this;
            if negb (ok rc) then mret rc
            else
              code ← gets (λ w, motor_error_code_ (this_servo w));
              mret (if negb (code =? healthy_code) then FAIL else SUCCESS).

(** The proportional gain of a position command. *)
Definition command_kp (s : Servo) : f32 :=
  if is_force_feedback_enabled p_device_ then get_adjusted_pos_kp p_device_ s
  else get_effective_pos_kp s.

Definition clipped_absolute (s : Servo) (target_pos : f32) : f32 :=
  get_pos_rad_absolute_of s (clipping target_pos (pos_min_rel_ s) (pos_max_rel_ s)).

Definition move (target_pos : f32) : St World ReturnCode :=
  s ← gets this_servo;
  if negb (ok (reject_if_thermal_fault_latched s)) then mret HARDWARE_FAULT
  else if negb has_driver then mret NOT_INITIALIZED
  else drv_send_command s (command_kp s) (get_adjusted_pos_kd p_device_ s) (clipped_absolute s target_pos) f0 f0.

Definition move_with (target_pos target_vel target_tor : f32) : St World ReturnCode :=
  s ← gets this_servo;
  if negb (ok (reject_if_thermal_fault_latched s)) then mret HARDWARE_FAULT
  else match p_joint_ s with
    | Some j =>
        if negb has_driver then mret NOT_INITIALIZED
        else drv_send_command s (command_kp s) (get_adjusted_pos_kd p_device_ s)
               (clipped_absolute s target_pos) target_vel
               (clipping target_tor (joint_torq_min j) (joint_torq_max j))
    | None => mret NOT_INITIALIZED
    end.

(** [apply_torque] and [apply_torque_with_damping] differ in the damping gain. *)
Definition apply_torque_kd (pos_kd : Servo → f32) (torque : f32) : St World ReturnCode :=
  s ← gets this_servo;
  if negb (ok (reject_if_thermal_fault_latched s)) then mret HARDWARE_FAULT
  else match p_joint_ s with
    | Some j =>
        if negb has_driver then mret NOT_INITIALIZED
        else drv_send_command s f0 (pos_kd s) f0 f0
               (clipping (torque * joint_torq_rescale j)%f32 (joint_torq_min j) (joint_torq_max j))
    | None => mret NOT_INITIALIZED
    end.

Definition apply_torque : f32 → St World ReturnCode := apply_torque_kd (λ _, f0).
Definition apply_torque_with_damping : f32 → St World ReturnCode :=
  apply_torque_kd (get_adjusted_pos_kd p_device_).

Definition get_frame_age_ms : St World Z :=
  if negb has_driver then mret (-1)
  else
    w ← get_state;
    let last_update_perf := get_last_update_perf (mit w) (data_index_ (this_servo w)) in
    if is_zero last_update_perf then mret (-1)
    else t ← now env; mret (get_time_diff last_update_perf t).

(** ** Reading back *)

Definition checker_no_response (s : Servo) : HoldChecker :=
  dm_field checker_motor_no_response_ (new_HoldChecker MAX_CNT_MOTOR_NO_RESPONSE_INITIAL) s.
Definition set_checker_no_response (h : HoldChecker) : Servo → Servo :=
  on_dm (λ d, d <| checker_motor_no_response_ := h |>).
Definition motor_moved (s : Servo) : bool := dm_field motor_moved_ false s.

(** Whether the cached frame is too old, and whether there never was one. *)
Definition cache_stale : St World (bool * bool) :=
  w ← get_state;
  let s := this_servo w in
  let last_update_perf := if has_driver then get_last_update_perf (mit w) (data_index_ s)
                          else prof_time_zero in
  let threshold_ms := if motor_moved s then CAN_MIT_STALE_FRAME_AGE_NORMAL_MS
                      else CAN_MIT_STALE_FRAME_AGE_INITIAL_MS in
  if is_zero last_update_perf then mret (true, true)
  else t ← now env; mret (get_time_diff last_update_perf t >? threshold_ms, false).

(** The last part of [read_hardware_values]: firmware faults and the effector's
    immediate thermal stop. *)
Definition check_firmware_status (return_code : ReturnCode) : St World ReturnCode :=
  s ← gets this_servo;
  if bool_decide (type_ s = ENCOS_A4310) || bool_decide (type_ s = ARX_ENCODER) then mret return_code
  else
    let status := dm_servo_status_info (motor_error_code_ s) in
    if is_effector && is_thermal_fault status then latch_effector_thermal_fault (motor_error_code_ s)
    else if is_effector && temperature_above_force_stop s
    then latch_effector_thermal_fault (motor_error_code_ s)
    else if is_fault status then
      update_this (on_dm (λ d, d <| last_reported_fault_code_ := motor_error_code_ s |>));;
      mret (if ok return_code then HARDWARE_FAULT else return_code)
    else
      update_this (on_dm (λ d, d <| last_reported_fault_code_ := 0 |>));;
      mret return_code.

Definition ServoDm_read_hardware_values : St World ReturnCode :=
  '(stale, last_update_is_zero) ← cache_stale;
  holding ← on_this (check checker_no_response set_checker_no_response (λ _, stale));
  if (holding : bool) then on_this (graceful SAFE_MODE_SIG)
  else
    on_this (exit_safe SAFE_MODE_SIG);;
    update_this (λ s,
      if negb (motor_moved s) && negb last_update_is_zero
      then on_dm (λ d, d <| motor_moved_ := true |>
             <| checker_motor_no_response_ :=
                  set_hold_count_threshold MAX_CNT_MOTOR_NO_RESPONSE_NORMAL
                    (checker_motor_no_response_ d) |>) s
      else s);;
    rc ← Servo_read_hardware_values this_servo set_this p_device_
           (if has_driver then Some (read_hardware_values this) else None);
    check_firmware_status rc.
End servo.
