(* ===== verification/ServoDmFacts.v ===== *)
(** * Theorems on DM and ENCOS servos ([ServoDm]) *)

From S2P Require Import Prelude.
From S2P Require Import FloatSpec.
From S2P Require Import Control.
From S2P Require Import MathOps.
From S2P Require Import DmStatus.
From S2P Require Import HoldChecker.
From S2P Require Import CurrentEstimation.
From S2P Require Import SafeMode.
From S2P Require Import CanBus.
From S2P Require Import Servo.
From S2P Require Import DmCodec.
From S2P Require Import DriverCanMit.
From S2P Require Import DriverCanMitFacts.
From S2P Require Import DriverCanMitProtocol.
From S2P Require Import ServoConfig.
From S2P Require Import ServoDm.

(** ** [DriverCanMit] implements the interface *)

Definition mit_driver (env : BusEnv) (cast : f32 → Z) : CanMitDriver := {|
  drv_send_command := send_command env cast;
  drv_enable := enable env cast;
|}.

Lemma same_servos_bus {A} (m : St Bus A) : steps same_servos (on_bus m).
Proof. intros w. unfold on_bus, lift_into. by destruct (m (bus w)). Qed.
Lemma same_servos_send env f : steps same_servos (send env f).
Proof. apply same_servos_bus. Qed.
Lemma same_servos_receive env : steps same_servos (receive env).
Proof. apply same_servos_bus. Qed.
Lemma same_servos_now env : steps same_servos (now env).
Proof. apply same_servos_bus. Qed.
Lemma same_servos_on_mit f : steps same_servos (on_mit f).
Proof. by intros w. Qed.
Lemma same_servos_open : steps same_servos socket_open.
Proof. by intros w. Qed.
#[export] Hint Resolve same_servos_bus same_servos_send same_servos_receive same_servos_now
  same_servos_on_mit same_servos_open : steps.

Lemma same_servos_command env cast s kp kd pos vel tor :
  steps same_servos (send_command env cast s kp kd pos vel tor).
Proof. unfold send_command. steps_go. Qed.

Lemma same_servos_disable env id type : steps same_servos (send_disable_once env id type).
Proof. unfold send_disable_once. steps_go. Qed.

Lemma same_servos_enable env cast id type flag : steps same_servos (enable env cast id type flag).
Proof.
  assert (∀ f, steps same_servos (parse_into_cache env f)) by (intros f; unfold parse_into_cache; steps_go).
  assert (∀ f, steps same_servos (send_and_drain env f)) by (intros f; unfold send_and_drain; steps_go).
  assert (∀ l f, steps same_servos (handle_own_response env id flag l f)).
  { intros l f. unfold handle_own_response, send_reset_sequence. cbn [send_times]. steps_go. }
  assert (∀ n l, steps same_servos (read_responses env n id flag l)).
  { induction n as [|n IH]; intros l; cbn [read_responses]; steps_go. }
  assert (∀ n l, steps same_servos (attempts env n id flag l)).
  { induction n as [|n IH]; intros l; cbn [attempts]; steps_go. }
  unfold enable, handshake, disarm_stale_window. steps_go.
Qed.

#[export] Instance mit_driver_laws env cast : @CanMitDriverLaws (mit_driver env cast).
Proof.
  split; intros; [apply same_servos_command|apply same_servos_enable].
Qed.
#[export] Hint Resolve same_servos_disable : steps.

(** ** What the safety ladder leaves alone *)

(** What a servo holds of its motor, and what a slot of the cache says of it. *)
Definition measured (s : Servo) := (curr_pos_abs_ s, curr_vel_ s, curr_tor_ s, temperature_ s, motor_error_code_ s).
Definition slot_values (x : ReceivedServoData) :=
  (angle_actual_rad_ x, speed_actual_rad_ x, current_actual_float_ x, f32_of_Z (received_temperature_ x), error_ x).

Definition same_identity (s s' : Servo) : Prop :=
  dm_ s' = dm_ s ∧ type_ s' = type_ s ∧ parked_ s' = parked_ s ∧ id_ s' = id_ s ∧
  data_index_ s' = data_index_ s ∧ measured s' = measured s ∧ p_servo_param_ s' = p_servo_param_ s.

#[export] Instance same_identity_preorder : PreOrder same_identity.
Proof. split; [by intros s|]. unfold same_identity. intros s1 s2 s3 ?? . intuition congruence. Qed.

Lemma identity_graceful rc : steps same_identity (graceful rc).
Proof. intros s. by apply (wp_graceful rc (λ _ s', same_identity s s')). Qed.
Lemma identity_exit_safe rc : steps same_identity (exit_safe rc).
Proof. intros s. by apply (wp_exit_safe rc (λ _ s', same_identity s s')). Qed.
Lemma identity_check proj inj cond : (∀ h s, same_identity s (inj h s)) →
  steps same_identity (check proj inj cond).
Proof.
  intros H s. apply (wp_check proj inj cond (λ _ s', same_identity s s')). intros b h _ _. apply H.
Qed.
Lemma identity_modify (f : Servo → Servo) : (∀ s, same_identity s (f s)) → steps same_identity (modify f).
Proof. intros H s. apply H. Qed.
#[export] Hint Resolve identity_graceful identity_exit_safe : steps.

Lemma check_hardware_values_identity d : steps same_identity (check_hardware_values d).
Proof.
  assert (∀ r, r ∈ ladder d → steps same_identity r) as Hrung.
  { unfold ladder. intros r Hr. rewrite !elem_of_cons, elem_of_nil in Hr.
    destruct Hr as [->|[->|[->|[->|[->|[]]]]]];
    unfold rung_temperature, rung_pos_exceed, rung_pos_behind, rung_velocity, rung_torque; steps_go;
    try (by apply identity_check); apply identity_modify; intros s; try done.
    by destruct (torque_mode_disabled_warning_active_ s). }
  assert (∀ rs rc, (∀ r, r ∈ rs → steps same_identity r) → steps same_identity (climb rs rc)) as Hclimb.
  { clear. intros rs rc H. induction rs as [|r rs IH]; cbn [climb]; [steps_go|].
    apply steps_bind; [exact _|by apply H; left|]. intros [o|]; [steps_go|]. apply IH. intros r' Hr'. apply H. by right. }
  unfold check_hardware_values. steps_go. by apply identity_modify.
Qed.

(** ** The object behind [this] *)

Section this.
Context (d : Device) (this : ptr).
Local Abbreviation this_servo := (this_servo d this).

Lemma this_set s w : this_servo (set_this this s w) = s.
Proof. unfold ServoDm.this_servo, set_this. cbn. by rewrite lookup_insert_eq. Qed.

Lemma this_same w w' : servos w' = servos w → this_servo w' = this_servo w.
Proof. unfold ServoDm.this_servo. by intros ->. Qed.

(** A relation between the servo before and after, with nothing sent. *)
Definition on_servo_only (R : relation Servo) (w w' : World) : Prop :=
  R (this_servo w) (this_servo w') ∧ sent (bus w') = sent (bus w).

#[export] Instance on_servo_only_preorder R : PreOrder R → PreOrder (on_servo_only R).
Proof.
  intros HR. split; [intros w; by split|]. intros w1 w2 w3 [A1 B1] [A2 B2]. split; [by etrans|congruence].
Qed.

Lemma steps_on_this {A} (R : relation Servo) (m : St Servo A) :
  steps R m → steps (on_servo_only R) (on_this d this m).
Proof.
  intros Hm. apply (steps_lift_into R); [done|]. intros w s H. split; [by rewrite this_set|done].
Qed.

Lemma steps_update_this (R : relation Servo) f : (∀ s, R s (f s)) → steps (on_servo_only R) (update_this d this f).
Proof. intros H. apply steps_modify. intros w. split; [rewrite this_set; apply H|done]. Qed.

Lemma steps_now_servo R env : PreOrder R → steps (on_servo_only R) (now env).
Proof. intros HR w. split; [reflexivity|done]. Qed.

(** The driver's read copies the cache slot into the servo and touches nothing
    else: no frame is sent, the driver's state and the servo's identity stay. *)
Definition read_result (rc : ReturnCode) (w w' : World) : Prop :=
  let s := this_servo w in let s' := this_servo w' in
  bus w' = bus w ∧ mit w' = mit w ∧ registry w' = registry w ∧
  dm_ s' = dm_ s ∧ type_ s' = type_ s ∧ parked_ s' = parked_ s ∧ id_ s' = id_ s ∧
  data_index_ s' = data_index_ s ∧
  (rc = SUCCESS → measured s' = slot_values (slot (data_index_ s) (received_servo_data_ (mit w)))).

Lemma position_wrap_frame s : wp initialize_position_wrap (λ _ s',
  dm_ s' = dm_ s ∧ type_ s' = type_ s ∧ parked_ s' = parked_ s ∧ id_ s' = id_ s ∧
  data_index_ s' = data_index_ s ∧ measured s' = measured s) s.
Proof. unfold wp, initialize_position_wrap. by repeat case_match. Qed.

Lemma read_hardware_values_spec w : wp (read_hardware_values this) (λ rc w', read_result rc w w') w.
Proof.
  unfold read_hardware_values. wp_step. wp_step.
  destruct (servos w !! this) as [s|] eqn:Es; [|wp_step; by split_and!].
  assert (this_servo w = s) as Et by (unfold ServoDm.this_servo; by rewrite Es).
  apply wp_if; intros E1; [wp_step; by split_and!|]. apply wp_if; intros E2; [wp_step; by split_and!|].
  set (x := slot (data_index_ s) (received_servo_data_ (mit w))).
  assert (∀ rc s', (dm_ s' = dm_ s ∧ type_ s' = type_ s ∧ parked_ s' = parked_ s ∧ id_ s' = id_ s ∧
      data_index_ s' = data_index_ s ∧ measured s' = slot_values x) →
    wp (modify_servo this (λ _, s');; (if negb (ok rc) then mret rc else mret SUCCESS))
      (λ rc w', read_result rc w w') w) as Hstore.
  { intros rc s' Hs'. unfold modify_servo. wp_step. wp_step.
    assert (this_servo (w <| servos := alter (λ _, s') this (servos w) |>) = s') as Et'.
    { unfold ServoDm.this_servo. cbn. by rewrite lookup_alter_eq, Es. }
    apply wp_if; intros _; wp_step; unfold read_result; rewrite Et, Et'; cbn; intuition congruence. }
  destruct (motor_id_ x =? 0).
  - by apply Hstore.
  - pose proof (position_wrap_frame (copy_slot x s)) as Hw. unfold wp in Hw.
    destruct (initialize_position_wrap (copy_slot x s)) as [rc s']. by apply Hstore.
Qed.
End this.

(** ** The thermal latch *)

Definition stays_latched (s s' : Servo) : Prop :=
  (thermal_latched s = true → thermal_latched s' = true) ∧ (parked_ s = true → parked_ s' = true).

#[export] Instance stays_latched_preorder : PreOrder stays_latched.
Proof. split; [by intros s|]. unfold stays_latched. intros s1 s2 s3 ??. intuition. Qed.

Lemma identity_stays_latched s s' : same_identity s s' → stays_latched s s'.
Proof. intros (E1 & _ & E2 & _). unfold stays_latched, thermal_latched, dm_field. by rewrite E1, E2. Qed.

Lemma steps_weaken {S A} (R R' : relation S) (m : St S A) :
  (∀ s s', R s s' → R' s s') → steps R m → steps R' m.
Proof. intros H Hm s. apply H, Hm. Qed.

Lemma on_dm_stays_latched f s :
  (∀ d, thermal_fault_latched_ d = true → thermal_fault_latched_ (f d) = true) → stays_latched s (on_dm f s).
Proof.
  intros Hf. unfold stays_latched, thermal_latched, dm_field, on_dm. cbn. split; [|done].
  destruct (dm_ s); cbn; [apply Hf|done].
Qed.

Inductive servo_op :=
  | OpMove (target_pos : f32) | OpMoveWith (target_pos target_vel target_tor : f32)
  | OpTorque (torque : f32) | OpTorqueDamped (torque : f32) | OpStart
  | OpPark | OpReadServo | OpFresh | OpAge.

(** The operations that would make the motor move or come on. *)
Definition is_motion (o : servo_op) : bool :=
  match o with OpMove _ | OpMoveWith _ _ _ | OpTorque _ | OpTorqueDamped _ | OpStart => true | _ => false end.

Section latch.
Context `{CanMitDriver} (env : BusEnv) (d : Device) (has_driver : bool) (this : ptr).
Local Abbreviation this_servo := (this_servo d this).

Definition servo_call (o : servo_op) : St World ReturnCode :=
  match o with
  | OpMove p => move d has_driver this p
  | OpMoveWith p v t => move_with d has_driver this p v t
  | OpTorque t => apply_torque d has_driver this t
  | OpTorqueDamped t => apply_torque_with_damping d has_driver this t
  | OpStart => start_hardware env d has_driver this
  | OpPark => park_safely d has_driver this
  | OpReadServo => ServoDm_read_hardware_values env d has_driver this
  | OpFresh => verify_position_fresh d has_driver this
  | OpAge => get_frame_age_ms env d has_driver this;; mret SUCCESS
  end.

Lemma motion_rejected o w : thermal_latched (this_servo w) = true → is_motion o = true →
  servo_call o w = (HARDWARE_FAULT, w).
Proof.
  intros Hl Hm. destruct o; try discriminate;
    unfold servo_call, move, move_with, apply_torque, apply_torque_with_damping, apply_torque_kd,
      start_hardware, mbind, St_bind, gets, reject_if_thermal_fault_latched; by rewrite Hl.
Qed.

Lemma latch_again code w : thermal_latched (this_servo w) = true →
  latch_effector_thermal_fault env d has_driver this code w = (HARDWARE_FAULT, w).
Proof. intros Hl. unfold latch_effector_thermal_fault, mbind, St_bind, gets. by rewrite Hl. Qed.

(** From a latched servo, what its own calls keep. *)
Definition latched (s0 : list can_frame) (w : World) : Prop :=
  thermal_latched (this_servo w) = true ∧ parked_ (this_servo w) = true ∧ sent (bus w) = s0.

Lemma keeps_latched {A} (m : St World A) s0 :
  steps (on_servo_only d this stays_latched) m → steps (keeps (latched s0)) m.
Proof. apply steps_weaken. intros w w' [[H1 H2] H3] (L1 & L2 & L3). split_and!; [auto..|congruence]. Qed.

Lemma read_keeps_latched s0 : steps (keeps (latched s0)) (ServoDm_read_hardware_values env d has_driver this).
Proof.
  assert (∀ h s, stays_latched s (set_checker_no_response h s)) as Hck by (intros; by apply on_dm_stays_latched).
  assert (∀ {A} (m : St Servo A), steps stays_latched m → steps (keeps (latched s0)) (on_this d this m)) as Hthis.
  { intros A m Hm. by apply keeps_latched, steps_on_this. }
  assert (∀ f, (∀ s, stays_latched s (f s)) → steps (keeps (latched s0)) (update_this d this f)) as Hupd.
  { intros f Hf. by apply keeps_latched, steps_update_this. }
  assert (steps (keeps (latched s0)) (now env)) as Hnow by by apply keeps_latched, steps_now_servo, _.
  assert (steps (keeps (latched s0)) (read_hardware_values this)) as Hread.
  { intros w (L1 & L2 & L3). destruct (read_hardware_values_spec d this w) as (Eb & _ & _ & Ed & _ & Ep & _).
    unfold latched, thermal_latched, dm_field. rewrite Ed, Ep, Eb. by split_and!. }
  unfold ServoDm_read_hardware_values, cache_stale.
  apply steps_bind; [exact _|steps_go|]. intros [stale zero].
  apply steps_bind; [exact _| |intros holding].
  { apply Hthis. intros s. apply (wp_check checker_no_response set_checker_no_response (λ _, stale)
      (λ _ s', stays_latched s s')). intros b h _ _. apply Hck. }
  destruct holding.
  { apply Hthis. eapply steps_weaken; [apply identity_stays_latched|apply identity_graceful]. }
  apply steps_bind; [exact _| |intros _].
  { apply Hthis. eapply steps_weaken; [apply identity_stays_latched|apply identity_exit_safe]. }
  apply steps_bind; [exact _| |intros _].
  { apply Hupd. intros s. destruct (negb (motor_moved s) && negb zero); [by apply on_dm_stays_latched|done]. }
  apply steps_bind; [exact _| |intros rc].
  { unfold Servo_read_hardware_values. apply steps_bind; [exact _| |intros _].
    { apply (Hthis unit (modify save_previous)). by apply steps_modify. }
    destruct has_driver; [|steps_go]. apply steps_bind; [exact _|exact Hread|]. intros rc.
    destruct (negb (ok rc)); [steps_go|]. apply (Hthis _ (check_hardware_values d)).
    eapply steps_weaken; [apply identity_stays_latched|apply check_hardware_values_identity]. }
  intros w Hw. unfold check_firmware_status, mbind, St_bind, gets.
  destruct (bool_decide _ || bool_decide _); [exact Hw|].
  assert (∀ code, latched s0 (snd (latch_effector_thermal_fault env d has_driver this code w))) as Hlatch.
  { intros code. destruct Hw as (L1 & L2 & L3). rewrite latch_again by done. by split_and!. }
  assert (∀ f rc, (∀ p, thermal_fault_latched_ p = true → thermal_fault_latched_ (f p) = true) →
    latched s0 (snd ((update_this d this (on_dm f);; mret (rc : ReturnCode)) w))) as Hdm.
  { intros f rc' Hf. apply Hupd; [intros s; by apply on_dm_stays_latched|exact Hw]. }
  cbv zeta. destruct (is_effector d && is_thermal_fault _); [apply Hlatch|].
  destruct (is_effector d && temperature_above_force_stop _); [apply Hlatch|].
  destruct (is_fault _); by apply Hdm.
Qed.

Lemma call_keeps_latched o s0 : steps (keeps (latched s0)) (servo_call o).
Proof.
  intros w Hw. destruct (is_motion o) eqn:Em.
  { destruct Hw as (L1 & L2 & L3). by rewrite motion_rejected. }
  destruct o; try discriminate; unfold servo_call.
  - unfold park_safely, mbind, St_bind, gets. destruct Hw as (L1 & L2 & L3). rewrite L2. by split_and!.
  - by apply read_keeps_latched.
  - revert w Hw. change (steps (keeps (latched s0)) (verify_position_fresh d has_driver this)).
    unfold verify_position_fresh. steps_go.
  - revert w Hw. change (steps (keeps (latched s0)) (get_frame_age_ms env d has_driver this;; mret SUCCESS)).
    assert (steps (keeps (latched s0)) (now env)) as Hnow by by apply keeps_latched, steps_now_servo, _.
    unfold get_frame_age_ms. steps_go.
Qed.

Definition servo_run (os : list servo_op) (w : World) : World :=
  foldl (λ w o, snd (servo_call o w)) w os.

(** [C3] A thermal fault is final.  Once latched, whatever sequence of moves,
    torques, starts, parkings and reads follows, with whatever driver: every
    motion call is refused with HARDWARE_FAULT and changes nothing, not one frame
    leaves on the bus, and the servo is still latched and parked at the end. *)
Theorem thermal_fault_is_final os o w :
  thermal_latched (this_servo w) = true → parked_ (this_servo w) = true →
  let w' := servo_run os w in
  thermal_latched (this_servo w') = true ∧ parked_ (this_servo w') = true ∧
  sent (bus w') = sent (bus w) ∧
  (if is_motion o then servo_call o w' = (HARDWARE_FAULT, w') else sent (bus (snd (servo_call o w'))) = sent (bus w)).
Proof.
  intros Hl Hp. assert (latched (sent (bus w)) (servo_run os w)) as (L1 & L2 & L3).
  { assert (latched (sent (bus w)) w) as Hw by by split_and!. revert Hw. generalize (sent (bus w)) as s0.
    unfold servo_run. generalize w. clear. induction os as [|o os IH]; intros w s0 Hw; [done|].
    cbn [foldl]. apply IH. by apply call_keeps_latched. }
  split_and!; try done. destruct (is_motion o) eqn:Em; [by apply motion_rejected|].
  by destruct (call_keeps_latched o (sent (bus w)) (servo_run os w)) as (_ & _ & ->).
Qed.
End latch.

(** A gripper whose motor has just reported a coil overtemperature (0xC). *)
Definition gripper : Device := follower_arm <| device_type_ := EFFECTOR |> <| servo_ids_ := [1] |>.
Definition status_slot (error temperature : Z) : ReceivedServoData :=
  new_ReceivedServoData <| motor_id_ := 1 |> <| error_ := error |> <| received_temperature_ := temperature |>
    <| last_update_perf_ := 999000000 |>.
Definition gripper_world (error temperature : Z) : World :=
  (example_world DM_4310 g_servo_dm_param_4310) <| mit := new_MitDriver
    <| received_servo_data_ := set_slot 0 (status_slot error temperature) new_slots |> |>.
Definition gripper_driver : CanMitDriver := mit_driver (answering_bus 1) (λ _, 0).

Lemma thermal_fault_is_final_witness :
  let read w := @ServoDm_read_hardware_values gripper_driver (answering_bus 1) gripper true 1%positive w in
  let w := snd (read (gripper_world 0xC 70)) in
  let os := [OpPark; OpMove f1; OpReadServo; OpStart] in
  let w' := @servo_run gripper_driver (answering_bus 1) gripper true 1%positive os w in
  fst (read (gripper_world 0xC 70)) = HARDWARE_FAULT ∧
  thermal_latched (this_servo gripper 1%positive w') = true ∧ parked_ (this_servo gripper 1%positive w') = true ∧
  sent (bus w') = sent (bus w) ∧
  @servo_call gripper_driver (answering_bus 1) gripper true 1%positive (OpTorque f1) w' = (HARDWARE_FAULT, w').
Proof.
  intros read w os w'. split; [vm_compute; reflexivity|].
  apply (@thermal_fault_is_final gripper_driver (answering_bus 1) gripper true 1%positive os (OpTorque f1) w);
    vm_compute; reflexivity.
Defined.

(** ** Reading back *)

Section reading.
Context `{CanMitDriver} (env : BusEnv) (d : Device) (has_driver : bool) (this : ptr).
Local Abbreviation this_servo := (this_servo d this).

(** The firmware reports on this servo: DM motors only. *)
Definition reports_status (s : Servo) : Prop := type_ s ≠ ENCOS_A4310 ∧ type_ s ≠ ARX_ENCODER.

Lemma latch_result code w : wp (latch_effector_thermal_fault env d has_driver this code) (λ rc w', rc = HARDWARE_FAULT) w.
Proof. unfold latch_effector_thermal_fault. wp_steps; try done. unfold wp. by rewrite !bind_run. Qed.

Lemma check_firmware_status_success rc w :
  wp (check_firmware_status env d has_driver this rc) (λ rc' w', rc' = SUCCESS →
    rc = SUCCESS ∧ (measured (this_servo w') = measured (this_servo w) ∧
      data_index_ (this_servo w') = data_index_ (this_servo w)) ∧
    (reports_status (this_servo w') →
       is_fault (dm_servo_status_info (motor_error_code_ (this_servo w'))) = false ∧
       (device_type_ d = EFFECTOR → temperature_above_force_stop (this_servo w') = false))) w.
Proof.
  unfold check_firmware_status. wp_step. wp_step. cbv beta.
  apply wp_if; intros Ht.
  { wp_step. intros ->. split; [done|]. split; [done|]. intros [N1 N2].
    apply orb_true_iff in Ht as [Ht%bool_decide_eq_true|Ht%bool_decide_eq_true]; congruence. }
  apply wp_if; intros E1; [eapply wp_mono; [apply latch_result|]; by intros ? ? ->|].
  apply wp_if; intros E2; [eapply wp_mono; [apply latch_result|]; by intros ? ? ->|].
  apply wp_if; intros E3.
  { unfold update_this. wp_step. wp_step. wp_step. destruct (ok rc) eqn:Eo; [done|]. intros ->. done. }
  unfold update_this. wp_step. wp_step. wp_step. intros ->. rewrite this_set.
  split; [done|]. split; [done|]. intros _. split; [exact E3|]. intros He.
  unfold is_effector in E2. rewrite He in E2. exact E2.
Qed.

(** The base part of the read succeeds only on fresh values. *)
Definition copied (w w' : World) : Prop :=
  let s' := this_servo w' in measured s' = slot_values (slot (data_index_ s') (received_servo_data_ (mit w))).

Lemma base_read_spec w :
  wp (Servo_read_hardware_values this_servo (set_this this) d
        (if has_driver then Some (read_hardware_values this) else None))
     (λ rc w', rc = SUCCESS → copied w w') w.
Proof.
  unfold Servo_read_hardware_values. wp_step. wp_step. wp_step.
  set (w1 := set_this this _ w). assert (mit w1 = mit w) as Em by done. clearbody w1.
  destruct has_driver; [|by wp_step]. wp_step.
  eapply wp_mono; [apply (read_hardware_values_spec d this)|]. cbv beta.
  intros rc w2 (_ & Em2 & _ & _ & _ & _ & _ & Ei & Hx). apply wp_if; intros Hok.
  { wp_step. apply negb_true_iff, ok_false in Hok. done. }
  apply negb_false_iff, ok_spec in Hok. specialize (Hx Hok).
  wp_step. eapply wp_mono; [apply (steps_wp same_identity), check_hardware_values_identity|].
  intros rc' s' (_ & _ & _ & _ & I1 & I2 & _) _. unfold copied. rewrite this_set.
  by rewrite I1, I2, Ei, <- Em.
Qed.

Lemma cache_stale_frame w : wp (cache_stale env d has_driver this) (λ _ w', mit w' = mit w) w.
Proof. unfold cache_stale. wp_steps; done. Qed.

Lemma on_this_mit {A} (m : St Servo A) w : wp (on_this d this m) (λ _ w', mit w' = mit w) w.
Proof. unfold on_this. by apply wp_lift_into. Qed.

Lemma graceful_sig_result s : fst (graceful SAFE_MODE_SIG s) = SAFE_MODE_SIG.
Proof.
  unfold graceful, with_safe_mode, lift_into. destruct (safe_mode_ s) as [[] tm pe pb v t ns te x y z a]; cbn; done.
Qed.

(** [C38] A successful read is a just-copied one, and of a motor whose firmware reports
    its status a healthy one.  When [read_hardware_values] succeeds, position, velocity,
    torque, temperature and status of the servo are those of its slot in the driver's
    cache, as it was when the call began.  If the motor reports its status (any type but
    ENCOS and the ARX encoder, whose status the code does not look at here), that status is
    no fault, and in an effector the motor is not above 93 C.  So no cycle with a reported
    fault, and no first hot sample of a gripper, ends in success. *)
Theorem read_success_is_healthy w :
  let rc := fst (ServoDm_read_hardware_values env d has_driver this w) in
  let w' := snd (ServoDm_read_hardware_values env d has_driver this w) in
  rc = SUCCESS →
  copied w w' ∧
  (reports_status (this_servo w') →
     is_fault (dm_servo_status_info (motor_error_code_ (this_servo w'))) = false ∧
     (device_type_ d = EFFECTOR → temperature_above_force_stop (this_servo w') = false)).
Proof.
  cbv zeta. change (wp (ServoDm_read_hardware_values env d has_driver this) (λ rc w', rc = SUCCESS →
    copied w w' ∧ (reports_status (this_servo w') →
     is_fault (dm_servo_status_info (motor_error_code_ (this_servo w'))) = false ∧
     (device_type_ d = EFFECTOR → temperature_above_force_stop (this_servo w') = false))) w).
  unfold ServoDm_read_hardware_values. wp_step. eapply wp_mono; [apply cache_stale_frame|].
  intros [stale zero] w1 E1. wp_step. eapply wp_mono; [apply on_this_mit|]. intros holding w2 E2.
  destruct holding.
  { unfold on_this. apply wp_lift_into. unfold wp. rewrite graceful_sig_result. discriminate. }
  wp_step. eapply wp_mono; [apply on_this_mit|]. intros ? w3 E3; cbv beta in E3. unfold update_this. wp_step. wp_step.
  set (w4 := set_this this _ w3). assert (mit w4 = mit w) as E4 by (change (mit w4) with (mit w3); congruence).
  clearbody w4. wp_step. eapply wp_mono; [apply base_read_spec|]. cbv beta. intros rc w5 Hc.
  eapply wp_mono; [apply check_firmware_status_success|]. cbv beta. intros rc' w6 H6 Hrc'.
  destruct (H6 Hrc') as (Hrc & (C1 & C2) & Hst). split; [|done].
  specialize (Hc Hrc). unfold copied in *. by rewrite C1, C2, <- E4.
Qed.
End reading.

Lemma read_success_is_healthy_witness :
  let w := gripper_world 1 70 in
  let read := @ServoDm_read_hardware_values gripper_driver (answering_bus 1) gripper true 1%positive w in
  fst read = SUCCESS ∧
  (copied gripper 1%positive w (snd read) ∧
   (reports_status (this_servo gripper 1%positive (snd read)) →
      is_fault (dm_servo_status_info (motor_error_code_ (this_servo gripper 1%positive (snd read)))) = false ∧
      (device_type_ gripper = EFFECTOR →
         temperature_above_force_stop (this_servo gripper 1%positive (snd read)) = false))).
Proof.
  intros w read. split; [vm_compute; reflexivity|].
  apply (@read_success_is_healthy gripper_driver (answering_bus 1) gripper true 1%positive w).
  vm_compute. reflexivity.
Defined.

(** ** Commands *)

Section commands.
Context `{CanMitDriver} (env : BusEnv) (d : Device) (this : ptr).
Local Abbreviation this_servo := (this_servo d this).

(** A value is brought to the nearest one within the limits. *)
Definition limited (lo hi x y : f32) : Prop :=
  in_range lo hi y ∧ (in_range lo hi x → y = x) ∧ (x <?. lo = true → y = lo) ∧ (hi <?. x = true → y = hi).

Lemma clipping_limited x lo hi : is_nan x = false → lo <=?. hi = true → limited lo hi x (clipping x lo hi).
Proof.
  intros Hx Hle. destruct (SFleb_not_nan _ _ Hle). split_and!; [by apply clipping_in_range..|by apply clipping_id| |].
  - intros Hlt. unfold clipping. rewrite Hlt. destruct (hi <?. x) eqn:E; [|done].
    assert (x <=?. hi = true) as Hc by (eapply SFleb_trans; eauto with pi).
    rewrite SFltb_nleb, Hc in E by done. done.
  - intros Hlt. unfold clipping. by rewrite Hlt.
Qed.

(** [C39] Commands respect the joint's limits.  A servo with a joint that is not latched
    hands its driver, for a target and a torque that are numbers, also after the rescale:
    from [move] and the three-argument [move], the absolute position of the target brought
    into the position limits; from the latter, the torque brought into the joint's torque
    limits; from both torque calls, the torque times the rescale brought into them.  A
    value that is within its limits is handed on as it is, one beyond a limit becomes that
    limit.  The position gain is the configured one, 10 when it is zero, outside force
    feedback. *)
Theorem commands_within_limits s j w p v t :
  this_servo w = s → thermal_latched s = false → p_joint_ s = Some j →
  is_nan p = false → is_nan t = false → is_nan (t * joint_torq_rescale j)%f32 = false →
  pos_min_rel_ s <=?. pos_max_rel_ s = true → joint_torq_min j <=?. joint_torq_max j = true →
  let kd := get_adjusted_pos_kd d s in
  ∃ pos tor tor',
    limited (pos_min_rel_ s) (pos_max_rel_ s) p pos ∧
    limited (joint_torq_min j) (joint_torq_max j) t tor ∧
    limited (joint_torq_min j) (joint_torq_max j) (t * joint_torq_rescale j)%f32 tor' ∧
    move d true this p w =
      drv_send_command s (command_kp d s) kd (get_pos_rad_absolute_of s pos) f0 f0 w ∧
    move_with d true this p v t w =
      drv_send_command s (command_kp d s) kd (get_pos_rad_absolute_of s pos) v tor w ∧
    apply_torque d true this t w = drv_send_command s f0 f0 f0 f0 tor' w ∧
    apply_torque_with_damping d true this t w = drv_send_command s f0 kd f0 f0 tor' w ∧
    (is_force_feedback_enabled d = false →
       command_kp d s = if pos_kp_ s =?. f0 then f32_of_Z 10 else pos_kp_ s).
Proof.
  intros Es Hl Hj Np Nt Nt' Hp Ht kd.
  exists (clipping p (pos_min_rel_ s) (pos_max_rel_ s)),
    (clipping t (joint_torq_min j) (joint_torq_max j)),
    (clipping (t * joint_torq_rescale j)%f32 (joint_torq_min j) (joint_torq_max j)).
  split_and!; try (by apply clipping_limited).
  all: try (unfold move, move_with, apply_torque, apply_torque_with_damping, apply_torque_kd,
    mbind, St_bind, gets, reject_if_thermal_fault_latched; by rewrite Es, Hl, ?Hj).
  unfold command_kp. by intros ->.
Qed.

(** Startup verification: when [verify_operational] succeeds for a driven
    servo, its status is the healthy one (enabled for DM, no error for ENCOS). *)
Theorem verify_operational_healthy `{!CanMitDriverLaws} w :
  fst (verify_operational d true this w) = SUCCESS →
  let s := this_servo (snd (verify_operational d true this w)) in
  type_ s = CAN_PASSIVE_ENCODER ∨ type_ s = ARX_ENCODER ∨
  motor_error_code_ s = (if bool_decide (type_ s = DM_4340) || bool_decide (type_ s = DM_4310)
                         then SERVO_DM_ERR_ENABLED else SERVO_ENCOS_ERR_NONE).
Proof.
  cbv zeta. change (wp (verify_operational d true this) (λ rc w', rc = SUCCESS →
    let s := this_servo w' in type_ s = CAN_PASSIVE_ENCODER ∨ type_ s = ARX_ENCODER ∨
    motor_error_code_ s = (if bool_decide (type_ s = DM_4340) || bool_decide (type_ s = DM_4310)
                           then SERVO_DM_ERR_ENABLED else SERVO_ENCOS_ERR_NONE)) w).
  unfold verify_operational. change (negb true) with false. cbv iota. wp_step. wp_step. cbv beta.
  apply wp_if; intros Ht.
  { wp_step. intros _. apply orb_true_iff in Ht as [Ht%bool_decide_eq_true|Ht%bool_decide_eq_true]; auto. }
  wp_step. eapply wp_mono; [apply (read_hardware_values_spec d this)|].
  intros rc w1 (_ & _ & _ & _ & T1 & _). rewrite <- T1.
  apply wp_if; intros Hok; [wp_step; intros ->; discriminate|].
  wp_step. wp_step. cbv beta. apply wp_if; intros Hc; [wp_step; intros _; right; right; by apply Z.eqb_eq in Hc|].
  apply wp_if; intros Hd; [by wp_step|]. apply negb_false_iff in Hd.
  wp_step. eapply wp_mono; [apply (steps_wp same_servos), drv_enable_same|]. intros rc2 w2 [S2 _].
  assert (this_servo w2 = this_servo w1) as E2 by by apply this_same.
  apply wp_if; intros Hok2; [wp_step; intros ->; discriminate|].
  wp_step. eapply wp_mono; [apply (read_hardware_values_spec d this)|].
  intros rc3 w3 (_ & _ & _ & _ & T3 & _). rewrite E2 in T3.
  apply wp_if; intros Hok3; [wp_step; intros ->; discriminate|].
  wp_step. wp_step. cbv beta. wp_step. rewrite T3, Hd.
  destruct (motor_error_code_ (this_servo w3) =? SERVO_DM_ERR_ENABLED) eqn:Ec; cbn [negb]; [|done].
  intros _. right. right. by apply Z.eqb_eq.
Qed.
End commands.

Definition joint_example : JointView := mkJointView f0 (f32_of_Z (-5)) (f32_of_Z 5) f0 (lit32 1 2).
Definition limited_world : World :=
  (example_world DM_4340 g_servo_dm_param_4340) <| servos :=
    {[ 1%positive := (example_servo DM_4340 g_servo_dm_param_4340) <| p_joint_ := Some joint_example |> ]} |>.

(** Beyond the position limit and the torque limit, within it after the rescale by a half. *)
Lemma commands_within_limits_witness :
  let w := limited_world in
  let s := this_servo follower_arm 1%positive w in
  let p := f32_of_Z 100 in let t := f32_of_Z (-7) in
  @move_with gripper_driver follower_arm true 1%positive p f0 t w =
    @drv_send_command gripper_driver s (command_kp follower_arm s) (get_adjusted_pos_kd follower_arm s)
      (get_pos_rad_absolute_of s (pos_max_rel_ s)) f0 (f32_of_Z (-5)) w ∧
  @apply_torque gripper_driver follower_arm true 1%positive t w =
    @drv_send_command gripper_driver s f0 f0 f0 f0 (lit32 (-7) 2) w.
Proof.
  intros w s p t.
  destruct (@commands_within_limits gripper_driver follower_arm 1%positive s joint_example w p f0 t)
    as (pos & tor & tor' & (_ & _ & _ & Hp) & (_ & _ & Ht & _) & (_ & Ht' & _) & _ & Hmove & Htorque & _);
    try (vm_compute; reflexivity).
  rewrite Hmove, Htorque. rewrite Hp by (vm_compute; reflexivity). rewrite Ht by (vm_compute; reflexivity).
  rewrite Ht' by (split; vm_compute; reflexivity). split; [reflexivity|]. f_equal; vm_compute; reflexivity.
Defined.

Lemma verify_operational_healthy_witness :
  let w := gripper_world 1 30 in
  let verify := @verify_operational gripper_driver gripper true 1%positive w in
  fst verify = SUCCESS ∧
  let s := this_servo gripper 1%positive (snd verify) in
  type_ s = CAN_PASSIVE_ENCODER ∨ type_ s = ARX_ENCODER ∨
  motor_error_code_ s = (if bool_decide (type_ s = DM_4340) || bool_decide (type_ s = DM_4310)
                         then SERVO_DM_ERR_ENABLED else SERVO_ENCOS_ERR_NONE).
Proof.
  intros w verify. split; [vm_compute; reflexivity|].
  apply (@verify_operational_healthy gripper_driver gripper 1%positive (mit_driver_laws _ _) w).
  vm_compute. reflexivity.
Defined.

(** ** What the thermal stop puts on the bus *)

(** Every write is possible at once and goes through. *)
Definition bus_writable (env : BusEnv) : Prop :=
  (∀ k, 0 < fst (env_select env k)) ∧ (∀ k, 0 ≤ env_write env k).

Lemma send_writable env f w : bus_writable env → is_socket_open (bus w) = true →
  wp (send env f) (λ rc w', rc = SUCCESS ∧ sent (bus w') = f :: sent (bus w) ∧
    is_socket_open (bus w') = true ∧ servos w' = servos w ∧ registry w' = registry w) w.
Proof.
  intros [Hs Hw] Ho. apply wp_lift_into. unfold send_frame, send_frame_buf.
  change (sizeof_can_frame =? sizeof_can_frame) with true. cbn [negb].
  wp_step. wp_step. rewrite Ho. cbn [negb]. wp_step. apply wp_syscall.
  specialize (Hs (io_count (bus w))). destruct (env_select env (io_count (bus w))) as [ret eintr]. cbn [fst] in Hs.
  assert ((ret <? 0) = false) as -> by lia. assert ((ret =? 0) = false) as -> by lia.
  wp_step. apply wp_syscall.
  match goal with |- context [env_write env ?k <? 0] => specialize (Hw k);
    assert ((env_write env k <? 0) = false) as -> by (apply Z.ltb_ge; exact Hw) end.
  wp_step. wp_step. wp_step. by split_and!.
Qed.

(** A command and the disabling of a DM servo on such a bus. *)
Lemma send_command_writable env cast s p w kp kd pos vel tor : bus_writable env →
  is_socket_open (bus w) = true → dm_param (registry w) (servos w) (u16 (id_ s)) = Some p →
  type_ s = DM_4340 ∨ type_ s = DM_4310 →
  wp (send_command env cast s kp kd pos vel tor) (λ _ w',
    sent (bus w') = snd (can_frame_to_command_dm_servo cast (registry w) (servos w) (u16 (id_ s))
                           kp kd pos vel tor) :: sent (bus w) ∧
    is_socket_open (bus w') = true ∧ servos w' = servos w) w.
Proof.
  intros Hw Ho Hp Ht. unfold send_command, socket_open. wp_step. wp_step. rewrite Ho. cbn [negb].
  wp_step. wp_step. unfold can_frame_to_command_dm_servo. rewrite Hp.
  destruct Ht as [-> | ->]; rewrite Hp; cbn [fst snd negb ok bool_decide];
    change (negb (ok SUCCESS)) with false; cbv iota; (eapply wp_mono; [by apply send_writable|]); by intros rc w' (_ & E & O & S & _).
Qed.

Lemma send_disable_writable env id type w : bus_writable env → is_socket_open (bus w) = true →
  type = DM_4340 ∨ type = DM_4310 →
  wp (send_disable_once env id type) (λ _ w',
    sent (bus w') = snd (can_frame_to_enable_dm_servo (u16 id) false) :: sent (bus w) ∧
    servos w' = servos w) w.
Proof.
  intros Hw Ho Ht. unfold send_disable_once, socket_open. wp_step. wp_step. rewrite Ho. cbn [negb].
  destruct Ht as [-> | ->]; (eapply wp_mono; [by apply send_writable|]); by intros rc w' (_ & E & _ & S & _).
Qed.

Section stop.
Context (env : BusEnv) (cast : f32 → Z) (d : Device) (this : ptr).
#[local] Existing Instance mit_driver.
Local Abbreviation this_servo := (this_servo d this).

(** The servo is the one its id leads to, a DM motor with parameters. *)
Definition registered_dm (w : World) (p : ServoDmParam) : Prop :=
  let s := this_servo w in
  servos w !! this = Some s ∧ lock_registered_servo (registry w) (u16 (id_ s)) = Some this ∧
  dm_ s ≠ None ∧ p_servo_param_ s = Some p ∧ (type_ s = DM_4340 ∨ type_ s = DM_4310).

(** The thermal stop reaches the motor once, in order.  On a bus that takes
    writes, the first thermal fault of a registered DM servo sends exactly two
    frames, a command with zero gains, position, velocity and torque and then the
    disable frame, and leaves the servo latched and parked. *)
Theorem thermal_stop_frames code p w :
  bus_writable env → is_socket_open (bus w) = true → registered_dm w p →
  thermal_latched (this_servo w) = false →
  let s := this_servo w in
  let '(rc, w') := @latch_effector_thermal_fault (mit_driver env cast) env d true this code w in
  let zero_command := snd (can_frame_to_command_dm_servo cast (registry w) (servos w) (u16 (id_ s)) f0 f0 f0 f0 f0) in
  let disable := snd (can_frame_to_enable_dm_servo (u16 (id_ s)) false) in
  rc = HARDWARE_FAULT ∧ sent (bus w') = disable :: zero_command :: sent (bus w) ∧
  thermal_latched (this_servo w') = true ∧ parked_ (this_servo w') = true.
Proof.
  intros Hw Ho (Hs & Hr & Hdm & Hp & Ht) Hl s. fold s in Hs, Hr, Hdm, Hp, Ht, Hl.
  assert (wp (@latch_effector_thermal_fault (mit_driver env cast) env d true this code) (λ rc w',
    rc = HARDWARE_FAULT ∧
    sent (bus w') = snd (can_frame_to_enable_dm_servo (u16 (id_ s)) false) ::
      snd (can_frame_to_command_dm_servo cast (registry w) (servos w) (u16 (id_ s)) f0 f0 f0 f0 f0) ::
      sent (bus w) ∧
    thermal_latched (this_servo w') = true ∧ parked_ (this_servo w') = true) w) as H.
  { unfold latch_effector_thermal_fault. wp_step. wp_step. cbv beta. fold s. rewrite Hl. cbv iota.
    wp_step. unfold update_this at 1. wp_step. fold s.
    set (s1 := (on_dm _ s) <| parked_ := true |>). set (w1 := set_this this s1 w).
    assert (this_servo w1 = s1) as Es1 by apply this_set.
    destruct (dm_ s) as [part|] eqn:Edm; [|done].
    assert (thermal_latched s1 = true) as Hl1 by (unfold thermal_latched, dm_field; cbn; by rewrite Edm).
    assert (dm_param (registry w1) (servos w1) (u16 (id_ s)) = Some p) as Hp1.
    { change (registry w1) with (registry w). change (servos w1) with (<[this := s1]> (servos w)).
      unfold dm_param, lock_servo_dm. rewrite Hr. cbn. rewrite lookup_insert_eq. cbn. by rewrite Edm. }
    assert (can_frame_to_command_dm_servo cast (registry w) (servos w) (u16 (id_ s)) f0 f0 f0 f0 f0 =
            can_frame_to_command_dm_servo cast (registry w1) (servos w1) (u16 (id_ s)) f0 f0 f0 f0 f0) as ->.
    { assert (dm_param (registry w) (servos w) (u16 (id_ s)) = Some p) as Hp0.
      { unfold dm_param, lock_servo_dm. rewrite Hr. cbn. rewrite Hs. cbn. by rewrite Edm. }
      unfold can_frame_to_command_dm_servo. by rewrite Hp0, Hp1. }
    assert (is_socket_open (bus w1) = true ∧ sent (bus w1) = sent (bus w)) as [Ho1 Hsent1] by done.
    assert (id_ s1 = id_ s ∧ type_ s1 = type_ s ∧ parked_ s1 = true) as (Ei & Et & Epk) by done.
    clearbody s1 w1. rewrite <- Ei in *. rewrite <- Et in Ht.
    wp_step. change (when_ true ?m) with m. wp_step. wp_step. cbv beta. rewrite Es1.
    wp_step. eapply wp_mono; [by apply (send_command_writable _ _ _ p)|]. intros _ w2 (F2 & O2 & S2).
    wp_step. eapply wp_mono; [by apply send_disable_writable|]. intros _ w3 (F3 & S3).
    wp_step. wp_step. unfold update_this. wp_step. wp_step.
    assert (this_servo w3 = s1) as E3 by (rewrite <- Es1; apply this_same; congruence).
    rewrite this_set, E3. cbn [set_this bus upd]. split_and!; [done|by rewrite F3, F2, Hsent1| |].
    - unfold thermal_latched, dm_field, on_dm in *. cbn. by destruct (dm_ s1).
    - exact Epk. }
  unfold wp in H. by destruct (latch_effector_thermal_fault env d true this code w).
Qed.
End stop.

Lemma thermal_stop_frames_witness :
  let env := answering_bus 1 in let cast := λ _ : f32, 0 in
  let w := gripper_world 0xC 70 in
  let s := this_servo gripper 1%positive w in
  thermal_latched s = false ∧
  let '(rc, w') := @latch_effector_thermal_fault (mit_driver env cast) env gripper true 1%positive 0xC w in
  let zero_command := snd (can_frame_to_command_dm_servo cast (registry w) (servos w) (u16 (id_ s)) f0 f0 f0 f0 f0) in
  let disable := snd (can_frame_to_enable_dm_servo (u16 (id_ s)) false) in
  rc = HARDWARE_FAULT ∧ sent (bus w') = disable :: zero_command :: sent (bus w) ∧
  thermal_latched (this_servo gripper 1%positive w') = true ∧ parked_ (this_servo gripper 1%positive w') = true.
Proof.
  intros env cast w s. split; [vm_compute; reflexivity|].
  apply (thermal_stop_frames env cast gripper 1%positive 0xC g_servo_dm_param_4310 w).
  - split; intros k; vm_compute; congruence.
  - vm_compute. reflexivity.
  - split_and!; try (vm_compute; reflexivity); [by vm_compute|by right].
  - vm_compute. reflexivity.
Defined.
