(* ===== verification/JointFacts.v ===== *)
(** * Theorems on joints ([Joint])

    The grip torque limit, the stuck detector of the ready move, reading, and
    [dm_joint_servos]: DM and ENCOS servos behind the interface [JointServos]. *)

From S2P Require Import Prelude.
From S2P Require Import FloatSpec.
From S2P Require Import Rounding.
From S2P Require Import SumBounds.
From S2P Require Import Control.
From S2P Require Import MathOps.
From S2P Require Import CanBus.
From S2P Require Import DmCodec.
From S2P Require Import DriverCanMit.
From S2P Require Import DriverCanMitProtocol.
From S2P Require Import SafeMode.
From S2P Require Import Servo.
From S2P Require Import ServoConfig.
From S2P Require Import ServoDm.
From S2P Require Import Joint.
From S2P Require Import ServoDmFacts.

(** ** DM servos as the servos of a joint *)

Definition dm_joint_servos `{CanMitDriver} (env : BusEnv) (d : Device) (has_driver : bool)
    : JointServos World := {|
  js_servo := this_servo d;
  js_update := λ p f w, set_this p (f (this_servo d p w)) w;
  js_effective_pos_kp := λ p w, get_effective_pos_kp (this_servo d p w);
  js_read_hardware_values := ServoDm_read_hardware_values env d has_driver;
  js_park_safely := ServoDm.park_safely d has_driver;
  js_start_hardware := ServoDm.start_hardware env d has_driver;
  js_verify_position_fresh := ServoDm.verify_position_fresh d has_driver;
  js_verify_operational := ServoDm.verify_operational d has_driver;
  js_change_control_mode_for_leader := λ _, mret SUCCESS;
  js_change_control_mode_for_follower := λ _, mret SUCCESS;
  js_move := ServoDm.move d has_driver;
  js_move_with := ServoDm.move_with d has_driver;
  js_apply_torque := ServoDm.apply_torque d has_driver;
  js_apply_torque_with_damping := ServoDm.apply_torque_with_damping d has_driver;
  js_frame_age_ms := ServoDm.get_frame_age_ms env d has_driver;
  js_mit_codec_report := λ p w, ServoDm.get_mit_codec_report (this_servo d p w);
|}.

(** ** The grip torque limit *)

Lemma SFltb_nleb_false x y : x <?. y = true → y <=?. x = false.
Proof.
  intros H. destruct (SFleb_not_nan _ _ (SFltb_SFleb _ _ H)).
  rewrite SFltb_nleb in H by done. by destruct (y <=?. x).
Qed.

Lemma SFleb_antisym x y : x <=?. y = true → y <=?. x = true → x =?. y = true.
Proof.
  intros H1 H2. destruct (SFleb_not_nan _ _ H1). apply SFleb_key in H1, H2; [|done..].
  unfold key_le in *.
  destruct x as [[]|[]| |[] mx ex], y as [[]|[]| |[] my ey]; try done;
    cbn [key_class key_exp key_man cond_Zopp] in *; try lia;
    assert (ex = ey ∧ mx = my) as [-> ->] by lia; unfold SFeqb, SFcompare;
    rewrite Z.compare_refl; by rewrite Pos.compare_cont_refl.
Qed.

Lemma between_mono prec emax lo elo hi ehi lo' elo' hi' ehi' x :
  dy_le lo' elo' lo elo → dy_le hi ehi hi' ehi' →
  lies_between prec emax lo elo hi ehi x → lies_between prec emax lo' elo' hi' ehi' x.
Proof. destruct x as [| | |[] m e]; try done. intros H1 H2 (? & ? & ?). split_and!; [done|by eapply dy_le_trans..]. Qed.

(** The derating ramp, in both formats. *)
Definition on_ramp (prec emax : Z) : spec_float → Prop := lies_between prec emax 60 0 90 0.

Lemma on_ramp_grid prec emax t : (prec = 24 ∧ emax = 128 ∨ prec = 53 ∧ emax = 1024) →
  on_ramp prec emax t → isfinite t = true ∧ valid_binary prec emax t = true ∧
  60 * 2 ^ (- emin prec emax) ≤ grid prec emax t ≤ 90 * 2 ^ (- emin prec emax).
Proof.
  intros Hp. destruct t as [| | |[] m e]; try done. intros (Hb & H1 & H2).
  pose proof (valid_exp prec emax false m e Hb) as [He _]. split_and!; [done..| |]; cbn [grid cond_Zopp].
  - rewrite (dy_le_scale (emin prec emax)) in H1 by (unfold emin in *; lia). by rewrite Z.sub_0_l in H1.
  - rewrite (dy_le_scale (emin prec emax)) in H2 by (unfold emin in *; lia). by rewrite Z.sub_0_l in H2.
Qed.

Lemma cautious_eq : TEMPERATURE_THRESHOLD_CAUTIOUS = S754_finite false 8444249301319680 (-47).
Proof. by vm_compute. Qed.
Lemma critical_eq : TEMPERATURE_THRESHOLD_CRITICAL = S754_finite false 6333186975989760 (-46).
Proof. by vm_compute. Qed.

Lemma cautious_on_ramp t : valid_binary prec64 emax64 t = true →
  t >=?. TEMPERATURE_THRESHOLD_CAUTIOUS = true →
  on_ramp prec64 emax64 (if t <?. TEMPERATURE_THRESHOLD_CRITICAL then t else TEMPERATURE_THRESHOLD_CRITICAL).
Proof.
  rewrite cautious_eq, critical_eq. intros Hv H1.
  destruct (t <?. _) eqn:H2; [apply SFltb_SFleb in H2|by vm_compute].
  destruct t as [[]|[]| |[] m e]; try done.
  apply (grid_le prec64 emax64) in H1, H2; try done.
  pose proof (valid_exp prec64 emax64 false m e Hv) as [He _].
  split_and!; [done| |]; rewrite (dy_le_scale (emin prec64 emax64)) by (unfold emin, prec64, emax64 in *; lia).
  - etrans; [|exact H1]. by vm_compute.
  - etrans; [exact H2|]. by vm_compute.
Qed.

Lemma on_ramp_to_f32 t : on_ramp prec64 emax64 t → on_ramp prec32 emax32 (to_f32 t).
Proof.
  intros H. apply (between_mono _ _ (Zpos 15728640) (-18) (Zpos 11796480) (-17)); [done..|].
  apply (convert_between _ _ _ _ _ _ prec64 emax64); [done..|]. by eapply between_mono; [..|exact H].
Qed.

Lemma on_ramp_to_f64 t : on_ramp prec32 emax32 t → on_ramp prec64 emax64 (to_f64 t).
Proof.
  intros H. apply (between_mono _ _ (Zpos 8444249301319680) (-47) (Zpos 6333186975989760) (-46)); [done..|].
  apply (convert_between _ _ _ _ _ _ prec32 emax32); [done..|]. by eapply between_mono; [..|exact H].
Qed.

Lemma grid_const x z : grid prec64 emax64 x =? z * 2 ^ (- emin prec64 emax64) = true →
  grid prec64 emax64 x = z * 2 ^ (- emin prec64 emax64).
Proof. apply Z.eqb_eq. Qed.

(** The factor of the ramp is between 0 and 1. *)
Lemma ramp_factor c : on_ramp prec64 emax64 c →
  nn_below prec64 emax64 1 0
    (to_f64 f1 - (c - TEMPERATURE_THRESHOLD_CAUTIOUS) / TEMPERATURE_THRESHOLD_RANGE)%f64.
Proof.
  intros H. apply on_ramp_grid in H as (Fc & Vc & Hc); [|by right].
  pose proof (grid_const TEMPERATURE_THRESHOLD_CAUTIOUS 60 ltac:(by vm_compute)) as G60.
  pose proof (grid_const (to_f64 f1) 1 ltac:(by vm_compute)) as G1.
  assert (0 < 2 ^ (- emin prec64 emax64)) as HK by by vm_compute.
  pose proof (λ x Hx, grid_nn prec64 emax64 1 x Hx ltac:(done) ltac:(done)) as HN.
  assert (∀ z, dy_le (z * 2 ^ (- emin prec64 emax64)) (emin prec64 emax64) z 0) as HD.
  { intros z. rewrite (dy_le_scale (emin prec64 emax64)) by (vm_compute; discriminate).
    replace (emin prec64 emax64 - emin prec64 emax64) with 0 by lia. replace (0 - emin prec64 emax64) with (- emin prec64 emax64) by lia. lia. }
  set (K := 2 ^ (- emin prec64 emax64)) in *. clearbody K.
  assert (nn_below prec64 emax64 (Zpos 8444249301319680) (-48) (c - TEMPERATURE_THRESHOLD_CAUTIOUS)%f64) as Hy.
  { apply SFsub_nn; try done; [by vm_compute..|rewrite G60; lia|].
    rewrite G60. apply (dy_le_trans _ _ (30 * K) (emin prec64 emax64)); [apply dy_le_same; lia|].
    eapply dy_le_trans; [apply HD|]. by vm_compute. }
  assert (nn_below prec64 emax64 1 0
    ((c - TEMPERATURE_THRESHOLD_CAUTIOUS) / TEMPERATURE_THRESHOLD_RANGE)%f64) as Hd.
  { eapply nn_below_mono; [apply (SFdiv_nn prec64 emax64 ltac:(done) ltac:(done) _ 8444249301319680 (-48)
      4503599627370496 (-52) _ _ Hy); [by vm_compute..]|by vm_compute]. }
  apply HN in Hd as (Fd & Vd & Hd).
  eapply nn_below_mono; [apply (SFsub_nn prec64 emax64 ltac:(done) ltac:(done) _ _ 4503599627370496 (-52))|by vm_compute].
  1-5: first [exact Fd|exact Vd|reflexivity].
  - rewrite G1. lia.
  - rewrite G1. apply (dy_le_trans _ _ 1 0); [|by vm_compute]. eapply dy_le_trans; [apply dy_le_same|apply (HD 1)]. lia.
Qed.

Lemma nn_nonneg prec emax b eb x : nn_below prec emax b eb x → f0 <=?. x = true ∧ isfinite x = true.
Proof. by destruct x as [| | |[] m e]. Qed.

(** Derating never turns the limit round. *)
Lemma grip_limit_nonneg j t : is_f32 t = true → is_f32 (grip_torque_limit_nm_ j) = true →
  f0 <=?. grip_torque_limit_nm_ j = true → isfinite (grip_torque_limit_nm_ j) = true →
  f0 <=?. grip_limit j t = true.
Proof.
  intros Ht HL H0 HF. unfold grip_limit.
  destruct (to_f64 t >=?. TEMPERATURE_THRESHOLD_CAUTIOUS) eqn:E; [|done].
  apply to_f64_valid in Ht as [Ht _], HL as [_ HL].
  pose proof (cautious_on_ramp (to_f64 t) Ht E) as HR.
  apply on_ramp_to_f32, on_ramp_to_f64, ramp_factor, nn_nonneg in HR as [R1 R2].
  apply convert_nonneg, SFmul_nonneg; [by apply convert_nonneg|done|congruence|done].
Qed.

(** From 90 C on nothing of it is left. *)
Lemma grip_limit_hot j t : is_f32 t = true → is_f32 (grip_torque_limit_nm_ j) = true →
  f0 <=?. grip_torque_limit_nm_ j = true → isfinite (grip_torque_limit_nm_ j) = true →
  to_f64 t >=?. TEMPERATURE_THRESHOLD_CRITICAL = true → grip_limit j t =?. f0 = true.
Proof.
  intros Ht HL H0 HF Hot. unfold grip_limit.
  assert (to_f64 t >=?. TEMPERATURE_THRESHOLD_CAUTIOUS = true) as ->.
  { eapply SFleb_trans; [|exact Hot]. by vm_compute. }
  assert (to_f64 t <?. TEMPERATURE_THRESHOLD_CRITICAL = false) as ->.
  { destruct (SFleb_not_nan _ _ Hot). rewrite SFltb_nleb by done. by rewrite Hot. }
  apply to_f64_valid in HL as [_ HL]. rewrite HF in HL.
  assert (to_f64 f1 - (to_f64 (to_f32 TEMPERATURE_THRESHOLD_CRITICAL) - TEMPERATURE_THRESHOLD_CAUTIOUS) /
    TEMPERATURE_THRESHOLD_RANGE = S754_zero false)%f64 as -> by by vm_compute.
  by destruct (to_f64 (grip_torque_limit_nm_ j)).
Qed.

Section grip.
Context {W : Type} `{JointServos W} (undefined_servo : Servo).
Local Abbreviation clamp := (clamp_target_to_grip_torque_limit undefined_servo).
Local Abbreviation temperature w := (temperature_ (reference_servo undefined_servo w)).

(** The half-width of the window, in radians. *)
Definition grip_window (w : JointWorld W) : f32 :=
  (grip_limit (joint w) (temperature w) / reference_kp undefined_servo w)%f32.

(** The limiter acts: a positive limit, a reference servo, a positive gain; and the
    readings it uses are numbers. *)
Record grip_limited (w : JointWorld W) : Prop := {
  gl_servo : is_Some (reference_ptr (joint w));
  gl_limit : f0 <?. grip_torque_limit_nm_ (joint w) = true;
  gl_limit_finite : isfinite (grip_torque_limit_nm_ (joint w)) = true;
  gl_limit_valid : is_f32 (grip_torque_limit_nm_ (joint w)) = true;
  gl_kp : f0 <?. reference_kp undefined_servo w = true;
  gl_kp_finite : isfinite (reference_kp undefined_servo w) = true;
  gl_temperature : is_f32 (temperature w) = true;
  gl_pos : isfinite (get_pos_rad_relative undefined_servo w) = true ∧
           is_f32 (get_pos_rad_relative undefined_servo w) = true;
  gl_window : isfinite (grip_window w) = true ∧ is_f32 (grip_window w) = true;
}.

Lemma grip_window_nonneg w : grip_limited w → f0 <=?. grip_window w = true.
Proof.
  intros [_ HL HF HV Hk Fk HT _ _]. unfold grip_window.
  destruct (reference_kp undefined_servo w) as [[]|[]| |[] m e]; try done.
  apply SFdiv_nonneg, grip_limit_nonneg; auto with pi.
Qed.

Lemma current_in_window w : grip_limited w →
  in_range (get_pos_rad_relative undefined_servo w - grip_window w)%f32
    (get_pos_rad_relative undefined_servo w + grip_window w)%f32 (get_pos_rad_relative undefined_servo w).
Proof.
  intros L. pose proof (grip_window_nonneg w L) as H0. destruct L as [_ _ _ _ _ _ _ [? ?] [? ?]].
  split; [by apply SFsub_le|by apply SFadd_ge].
Qed.

Lemma grip_window_hot w : grip_limited w →
  to_f64 (temperature w) >=?. TEMPERATURE_THRESHOLD_CRITICAL = true → ∃ s, grip_window w = S754_zero s.
Proof.
  intros [_ HL HF HV Hk Fk HT _ _] Hot. unfold grip_window.
  pose proof (grip_limit_hot _ _ HT HV (SFltb_SFleb _ _ HL) HF Hot) as E.
  destruct (reference_kp undefined_servo w) as [[]|[]| |[] m e]; try done.
  destruct (grip_limit _ _) as [s|[]| |[] ? ?]; try done. cbn. destruct s; eauto.
Qed.

Lemma clamp_limited t w : grip_limited w →
  let cur := get_pos_rad_relative undefined_servo w in
  let t' := clipping t (cur - grip_window w)%f32 (cur + grip_window w)%f32 in
  clamp t w = (t', mkJointWorld (note_grip t t' (negb (t' =?. t)) (note_grip t t false (joint w))) (hw w)).
Proof.
  intros [[p Hp] HL _ _ Hk _ _ _ _] cur t'. unfold reference_ptr in Hp.
  destruct (reference_servo_index_ (joint w) <? 0) eqn:E0; [done|].
  apply lookup_lt_Some in Hp as Hlt.
  assert (grip_torque_limit_nm_ (joint w) <=?. f0 = false) as EL by by apply SFltb_nleb_false.
  assert (reference_kp undefined_servo w <=?. f0 = false) as Ek by by apply SFltb_nleb_false.
  assert (bool_decide (servos_ (joint w) = []) = false) as Es.
  { apply bool_decide_false. intros Es. rewrite Es in Hlt. cbn in Hlt. lia. }
  assert (Z.of_nat (length (servos_ (joint w))) <=? reference_servo_index_ (joint w) = false) as Ei by lia.
  transitivity ((if (grip_torque_limit_nm_ (joint w) <=?. f0) || bool_decide (servos_ (joint w) = []) ||
      (Z.of_nat (length (servos_ (joint w))) <=? reference_servo_index_ (joint w))
    then mret t
    else if reference_kp undefined_servo w <=?. f0 then mret t
    else on_joint (note_grip t t' (negb (t' =?. t)));; mret t')
    (mkJointWorld (note_grip t t false (joint w)) (hw w))); [reflexivity|].
  by rewrite EL, Es, Ei, Ek.
Qed.

(** The grip limiter: the target it passes on is within [limit / kp] of the
    measured position, so that the position loop cannot ask for more than the limit;
    a target already there passes unchanged.  From 90 C on the window is empty and the
    target is the measured position itself.  The joint records what was asked for and
    what was applied. *)
Theorem grip_torque_limited w t : grip_limited w → is_nan t = false →
  let cur := get_pos_rad_relative undefined_servo w in
  let lo := (cur - grip_window w)%f32 in
  let hi := (cur + grip_window w)%f32 in
  let '(t', w') := clamp t w in
  in_range lo hi t' ∧ in_range lo hi cur ∧ (in_range lo hi t → t' = t) ∧
  (to_f64 (temperature w) >=?. TEMPERATURE_THRESHOLD_CRITICAL = true → t' =?. cur = true) ∧
  hw w' = hw w ∧ last_grip_requested_target_pos_ (joint w') = t ∧
  last_grip_applied_target_pos_ (joint w') = t' ∧
  grip_limiter_active_ (joint w') = negb (t' =?. t).
Proof.
  intros L Ht cur lo hi. pose proof (current_in_window w L) as Hcur.
  pose proof (grip_window_hot w L) as Hot.
  rewrite (clamp_limited t w L). fold cur lo hi.
  assert (lo <=?. hi = true) as Hle by (destruct Hcur; by eapply SFleb_trans).
  split_and!; [by apply clipping_in_range|done|by apply clipping_id| |done..].
  intros Hhot. destruct (Hot Hhot) as [s Es].
  destruct (clipping_in_range t lo hi Ht Hle) as [H1 H2]. destruct L as [_ _ _ _ _ _ _ [Fc _] _].
  apply SFleb_antisym; [eapply SFleb_trans; [exact H2|]|eapply SFleb_trans; [|exact H1]].
  all: unfold lo, hi; rewrite Es; fold cur in Fc |- *.
  all: destruct cur as [[]|[]| |[] m e], s; try done; by apply (SFleb_refl (S754_finite _ m e)).
Qed.
End grip.

(** A gripper joint with a limit of 2 Nm whose motor (at 0.5 rad, kp 10) has the
    temperature [t]. *)
Definition gripper_joint_world (t : Z) : JointWorld World :=
  mkJointWorld ((new_Joint [1%positive]) <| grip_torque_limit_nm_ := f32_of_Z 2 |>)
    ((example_world DM_4310 g_servo_dm_param_4310) <| servos :=
      {[ 1%positive := (example_servo DM_4310 g_servo_dm_param_4310)
           <| temperature_ := f32_of_Z t |> <| curr_pos_abs_ := lit32 1 2 |> ]} |>).
Definition gripper_servos : JointServos World :=
  @dm_joint_servos gripper_driver (answering_bus 1) gripper true.

Lemma grip_torque_limited_witness :
  let u := new_Servo gripper None in
  let w := gripper_joint_world 75 in
  let t := f1 in
  let cur := @get_pos_rad_relative World gripper_servos u w in
  let window := @grip_window World gripper_servos u w in
  let '(t', w') := @clamp_target_to_grip_torque_limit World gripper_servos u t w in
  (in_range (cur - window)%f32 (cur + window)%f32 t' ∧ in_range (cur - window)%f32 (cur + window)%f32 cur ∧
   (in_range (cur - window)%f32 (cur + window)%f32 t → t' = t) ∧
   (to_f64 (temperature_ (@reference_servo World gripper_servos u w)) >=?. TEMPERATURE_THRESHOLD_CRITICAL = true →
    t' =?. cur = true) ∧
   hw w' = hw w ∧ last_grip_requested_target_pos_ (joint w') = t ∧
   last_grip_applied_target_pos_ (joint w') = t' ∧ grip_limiter_active_ (joint w') = negb (t' =?. t)) ∧
  grip_limiter_active_ (joint w') = true.
Proof.
  intros u w t cur window.
  assert (@grip_limited World gripper_servos u w) as L.
  { split; try split; try (vm_compute; reflexivity). vm_compute. eauto. }
  pose proof (@grip_torque_limited World gripper_servos u w t L eq_refl) as G.
  destruct (@clamp_target_to_grip_torque_limit World gripper_servos u t w) as [t' w'] eqn:E.
  split; [exact G|]. vm_compute in E. by injection E as <- <-.
Defined.

(** ** Stuck joints *)

(** The number of trailing [true]s. *)
Definition streak (bs : list bool) : nat := foldl (λ (n : nat) (b : bool), if b then S n else O) O bs.

Lemma streak_snoc bs b : streak (bs ++ [b]) = if b then S (streak bs) else O.
Proof. unfold streak. by rewrite foldl_snoc. Qed.

Lemma streak_spec bs m : (m ≤ streak bs ↔
  m ≤ length bs ∧ ∀ k, length bs - m ≤ k < length bs → bs !! k = Some true)%nat.
Proof.
  revert m. induction bs as [|b bs IH] using rev_ind; intros m.
  { cbn. split; [intros ?; split; [done|]; intros; lia|]. by intros []. }
  rewrite streak_snoc, length_app. cbn [length].
  assert (∀ k, (k < length bs)%nat → (bs ++ [b]) !! k = bs !! k) as Hl by (intros; by apply lookup_app_l).
  assert ((bs ++ [b]) !! length bs = Some b) as Hlast by by apply list_lookup_middle.
  destruct m as [|m]; [split; [split; [lia|]; intros; lia|lia]|].
  destruct b; split.
  - intros [Hm Hk]%le_S_n%IH. split; [lia|]. intros k Hk'. destruct (decide (k = length bs)) as [->|]; [done|].
    rewrite Hl by lia. apply Hk. lia.
  - intros [Hm Hk]. apply le_n_S, IH. split; [lia|]. intros k Hk'. rewrite <- Hl by lia. apply Hk. lia.
  - lia.
  - intros [Hm Hk]. specialize (Hk (length bs) ltac:(lia)). congruence.
Qed.

(** [n] consecutive [true]s. *)
Definition has_run (n : nat) (bs : list bool) : Prop :=
  ∃ i, ∀ k, (k < n)%nat → bs !! (i + k)%nat = Some true.

Lemma has_run_snoc n bs b : (0 < n)%nat →
  has_run n (bs ++ [b]) ↔ has_run n bs ∨ (n ≤ streak (bs ++ [b]))%nat.
Proof.
  intros Hn. split.
  - intros [i Hi]. pose proof (lookup_lt_Some _ _ _ (Hi (n - 1)%nat ltac:(lia))) as Hlen.
    rewrite length_app in Hlen. cbn in Hlen. destruct (decide (i + n ≤ length bs)%nat) as [Hle|Hgt].
    + left. exists i. intros k Hk. rewrite <- (Hi k Hk). symmetry. apply lookup_app_l. lia.
    + right. apply streak_spec. rewrite length_app. cbn. split; [lia|]. intros k Hk.
      rewrite <- (Hi (k - i)%nat) by lia. f_equal. lia.
  - intros [[i Hi]|Hs].
    + exists i. intros k Hk. specialize (Hi k Hk). rewrite lookup_app_l; [done|]. by eapply lookup_lt_Some.
    + apply streak_spec in Hs as [Hlen Hs]. exists (length (bs ++ [b]) - n)%nat. intros k Hk. apply Hs. lia.
Qed.

Section stuck.
Context {W : Type} `{JointServos W} (undefined_servo : Servo).
Local Abbreviation pos := (get_pos_rad_relative undefined_servo).

(** Short of the target and not moving between two readings. *)
Definition no_progress (j : Joint) (prev cur : f32) : bool :=
  (SFabs (target_pos_ j - cur)%f32 >?. pos_error_margin_ j) &&
  (SFabs (cur - prev)%f32 <?. READY_MOVE_STUCK_POS_DELTA_RAD).

Fixpoint progress_flags (j : Joint) (prev : f32) (ps : list f32) : list bool :=
  match ps with
  | [] => []
  | p :: ps => no_progress j prev p :: progress_flags j p ps
  end.

(** One check per iteration; the servos do anything in between. *)
Definition stuck_run (hs : list W) (w : JointWorld W) : JointWorld W :=
  foldl (λ w h, snd (update_and_check_stuck undefined_servo (w <| hw := h |>))) w hs.

Lemma update_stuck_step prev n l h j :
  let cur := pos (mkJointWorld j h) in
  let n' := if no_progress j prev cur then n + 1 else 0 in
  let l' := if 200 <? n' then true else l in
  update_and_check_stuck undefined_servo (mkJointWorld (note_stuck prev n l j) h) =
    (l', mkJointWorld (note_stuck cur n' l' j) h).
Proof.
  intros cur. cbv zeta. unfold no_progress.
  transitivity (let n' := if SFabs (target_pos_ j - cur)%f32 >?. pos_error_margin_ j then
      if SFabs (cur - prev)%f32 <?. READY_MOVE_STUCK_POS_DELTA_RAD then n + 1 else 0 else 0 in
    let l' := if 200 <? n' then true else l in
    (l', mkJointWorld (note_stuck cur n' l' (note_stuck prev n l j)) h)); [reflexivity|].
  destruct (pos_error_margin_ j <?. _); cbn [andb]; [|reflexivity].
  destruct (_ <?. READY_MOVE_STUCK_POS_DELTA_RAD); reflexivity.
Qed.

Lemma progress_flags_snoc j prev ps p :
  progress_flags j prev (ps ++ [p]) = progress_flags j prev ps ++ [no_progress j (default prev (last ps)) p].
Proof.
  revert prev. induction ps as [|q ps IH]; intros prev; [done|]. cbn [app progress_flags]. rewrite IH, last_cons.
  by destruct (last ps).
Qed.

Lemma stuck_run_flags hs j h0 :
  let flags := progress_flags j (pos (mkJointWorld j h0)) ((λ h, pos (mkJointWorld j h)) <$> hs) in
  ∃ prev h l, stuck_run hs (snd (reset_stuck_counter undefined_servo (mkJointWorld j h0))) =
    mkJointWorld (note_stuck prev (Z.of_nat (streak flags)) l j) h ∧
  prev = pos (mkJointWorld j (default h0 (last hs))) ∧ (l = true ↔ has_run 201 flags).
Proof.
  induction hs as [|h hs IH] using rev_ind.
  { exists (pos (mkJointWorld j h0)), h0, false. split; [reflexivity|]. split; [done|].
    split; [done|]. intros [i Hi]. by specialize (Hi O ltac:(lia)). }
  destruct IH as (prev & h' & l & E & Ep & El).
  unfold stuck_run in *. rewrite foldl_snoc, E, fmap_app, last_snoc. cbn [fmap list_fmap default].
  rewrite progress_flags_snoc, fmap_last. set (flags := progress_flags _ _ _) in *.
  change (update_and_check_stuck _ _) with (update_and_check_stuck undefined_servo
    (mkJointWorld (note_stuck prev (Z.of_nat (streak flags)) l j) h)).
  rewrite update_stuck_step. cbn [snd].
  set (b := no_progress j prev _).
  replace (no_progress j _ _) with b by (unfold b; rewrite Ep; by destruct (last hs)).
  exists (pos (mkJointWorld j h)), h. eexists. split; [|split; [done|]].
  - rewrite streak_snoc.
    assert (Z.of_nat (if b then S (streak flags) else O) = if b then Z.of_nat (streak flags) + 1 else 0) as ->
      by (destruct b; lia). reflexivity.
  - rewrite has_run_snoc, <- El, streak_snoc by lia.
    assert (∀ z n, z = Z.of_nat n → (if 200 <? z then true else l) = true ↔ l = true ∨ (201 ≤ n)%nat) as Hz.
    { intros z n ->. destruct (200 <? Z.of_nat n) eqn:En; [|intuition lia]. split; [right; lia|done]. }
    apply Hz. destruct b; lia.
Qed.

(** A joint is reported stuck in a ready move exactly when, since the counter was
    reset, 201 consecutive iterations measured it short of its target (by more than its
    margin) and moving less than the motion floor; the report then stays until the
    next reset. *)
Theorem stuck_latched_iff w hs :
  let flags := progress_flags (joint w) (pos w) ((λ h, pos (mkJointWorld (joint w) h)) <$> hs) in
  stuck_latched_ (joint (stuck_run hs (snd (reset_stuck_counter undefined_servo w)))) = true ↔
  has_run 201 flags.
Proof.
  destruct w as [j h0]. destruct (stuck_run_flags hs j h0) as (prev & h & l & E & _ & El).
  cbn zeta. rewrite E. exact El.
Qed.
End stuck.
