(* ===== verification/Device.v ===== *)
(** * The device base class (src/pi_device.cpp, include/pi_device.hpp)

    A control node drives one device: [step] reads the hardware, advances the
    move-to-ready command and the emergency recovery, moves or operates the device,
    writes, publishes and lets the topic deliver messages.  The virtual methods, the
    driver and the topic are the class [DeviceObject] over the state [S] of the
    concrete device; [DeviceArm] is an instance ([Arm]).

    The state is the record [Device] of [Control], which servos and drivers read
    through their pointer, inside [DeviceBase].  A null [p_driver_] or [p_topic_] is a
    flag.  [init] and [new_device] are in [DeviceInit]. *)

From S2P Require Import Prelude.
From S2P Require Import FloatSpec.
From S2P Require Import Control.
From S2P Require Import CanBus.
From S2P Require Import Servo.
From S2P Require Import ServoConfig.
From S2P Require Import Joint.

(** ** Messages (include/pi_topic.hpp) *)

Definition DEVICE_INFO_READY_NOW : Z := 1.
Definition DEVICE_INFO_ERROR_DETECTED : Z := 20.
Definition DEVICE_INFO_RECOVERY_IN_PROGRESS : Z := 21.
Definition DEVICE_INFO_SHUTDOWN_AFTER_ERROR : Z := 22.
Definition DEVICE_INFO_READY_MOVE_IN_PROGRESS : Z := 23.
Definition DEVICE_INFO_SERVO_PARAM : Z := 33.
Definition READY_MOVE_SOURCE_STARTUP : Z := 0.
Definition READY_MOVE_SOURCE_COMMAND : Z := 1.
Definition READY_MOVE_SOURCE_EMERGENCY : Z := 2.

Record DataJoint := mkDataJoint {
  msg_pos : f32; msg_vel : f32; msg_tor : f32;
  msg_temperature : f32; msg_idc_current : f32; msg_frame_age_ms : f32;
}.

(** [measured_idc_current_] is always set to zero before publishing; [msg_id_] is
    never read. *)
Definition MsgJoints : Type := list DataJoint.

Record MsgDeviceInfo := mkMsgDeviceInfo {
  info_key_ : Z; float_data_ : list f32; int_data_ : list Z }.

(** ** State *)

Inductive ControlModeIntent := NORMAL_OPERATION | READY_MOVE_OVERRIDE.
Inductive MovingMode := MOVING_INVALID | SEQUENTIAL | PARALLEL.
#[export] Instance ControlModeIntent_eq_dec : EqDecision ControlModeIntent.
Proof. solve_decision. Defined.
#[export] Instance MovingMode_eq_dec : EqDecision MovingMode.
Proof. solve_decision. Defined.

Definition DEVICE_ARRIVED_CONFIRM_CNT : Z := 30.
Definition READY_MOVE_TOLERANCE_HYSTERESIS_RAD : f32 := lit32 1 1000.
Definition READY_MOVE_BUDGET_TRAVEL_SCALE : Z := 3.
Definition READY_MOVE_BUDGET_MIN_ITERS : Z := 1500.
Definition kClientHeartbeatTimeoutMs : Z := 5000.
Definition kGravityFloatAbortRadDefault : f32 := lit32 1 4.
Definition EMERGENCY_PROGRESS_PUBLISH_INTERVAL_MS : Z := 200.

(** The command-line arguments a running device reads. *)
Record CommandLine := mkCommandLine {
  cla_control_frequency : Z;
  cla_move_to_ready_vel_rad_s_normal : f32;
  cla_move_to_ready_vel_rad_s_error : f32;
  cla_emergency_shutdown_timeout_ms : Z;
  cla_dont_go_to_home_pos : bool;
}.

Record DeviceBase := mkDeviceBase {
  view : Device;
  is_normal_status_ : bool;
  is_driver_created_by_this_ : bool;
  is_topic_created_by_this_ : bool;
  has_driver : bool;
  has_topic : bool;
  enabled_spring_effect_ : bool;
  init_count_ : Z;
  reached_cnt_ : Z;
  ready_move_budget_total_ : Z;
  ready_move_budget_used_ : Z;
  moving_mode_ : MovingMode;
  follower_gravity_compensation_ : bool;
  gravity_float_active_ : bool;
  gravity_float_baseline_ : list f32;
  gravity_float_abort_rad_ : f32;
  control_frequency_ : Z;
  cla_ : CommandLine;
  move_to_ready_request_id_ : Z;
  completed_move_to_ready_request_id_ : Z;
  stop_after_ready_ : bool;
  client_heartbeat_seen_ : bool;
  client_watchdog_tripped_ : bool;
  last_client_heartbeat_ : prof_time_t;
  slow_move_active_ : bool;
  emergency_cause_ : Z;
  emergency_failed_joint_id_ : Z;
  last_failed_joint_id_ : Z;
  failed_joint_ids_ : gset Z;
  emergency_start_time_ : prof_time_t;
  last_recovery_progress_publish_ : prof_time_t;
  last_step_heartbeat_ : prof_time_t;
  emergency_completed_published_ : bool;
  last_ready_move_progress_publish_ : prof_time_t;
}.
#[export] Instance eta_DeviceBase : Eta DeviceBase := λ r, mkDeviceBase
  (view r) (is_normal_status_ r) (is_driver_created_by_this_ r) (is_topic_created_by_this_ r)
  (has_driver r) (has_topic r) (enabled_spring_effect_ r) (init_count_ r) (reached_cnt_ r)
  (ready_move_budget_total_ r) (ready_move_budget_used_ r) (moving_mode_ r)
  (follower_gravity_compensation_ r) (gravity_float_active_ r) (gravity_float_baseline_ r)
  (gravity_float_abort_rad_ r) (control_frequency_ r) (cla_ r) (move_to_ready_request_id_ r)
  (completed_move_to_ready_request_id_ r) (stop_after_ready_ r) (client_heartbeat_seen_ r)
  (client_watchdog_tripped_ r) (last_client_heartbeat_ r) (slow_move_active_ r) (emergency_cause_ r)
  (emergency_failed_joint_id_ r) (last_failed_joint_id_ r) (failed_joint_ids_ r)
  (emergency_start_time_ r) (last_recovery_progress_publish_ r) (last_step_heartbeat_ r)
  (emergency_completed_published_ r) (last_ready_move_progress_publish_ r).

(** A device constructed and initialised with the given view and arguments. *)
Definition new_DeviceBase (v : Device) (c : CommandLine) (m : MovingMode) : DeviceBase := mkDeviceBase
  v true true true true true false 0 0 0 0 m false false [] kGravityFloatAbortRadDefault
  (cla_control_frequency c) c 0 0 false false false prof_time_zero false 0 (-1) (-1) ∅
  prof_time_zero prof_time_zero prof_time_zero false prof_time_zero.

(** *** Assignments to the fields the servos see *)

Definition set_ready (b : bool) (d : DeviceBase) : DeviceBase := d <| view := (view d) <| is_ready_ := b |> |>.
Definition set_cmd_state (s : MoveToReadyCmdState) (d : DeviceBase) : DeviceBase :=
  d <| view := (view d) <| move_to_ready_cmd_state_ := s |> |>.
Definition set_emergency (s : EmergencyRecoveryState) (d : DeviceBase) : DeviceBase :=
  d <| view := (view d) <| emergency_state_ := s |> |>.

(** ** Queries *)

Definition ready (d : DeviceBase) : bool := is_ready_ (view d).
Definition cmd_state (d : DeviceBase) : MoveToReadyCmdState := move_to_ready_cmd_state_ (view d).
Definition emergency_recovery_state (d : DeviceBase) : EmergencyRecoveryState := emergency_state_ (view d).

Definition is_in_emergency_recovery (d : DeviceBase) : bool :=
  negb (bool_decide (emergency_recovery_state d = EMERGENCY_NONE)).
Definition is_startup_ready_phase (d : DeviceBase) : bool :=
  bool_decide (cmd_state d = MTR_IDLE) && negb (is_in_emergency_recovery d).
Definition rejects_direct_commands (d : DeviceBase) : bool :=
  is_in_emergency_recovery d || negb (bool_decide (cmd_state d = MTR_IDLE)).

Definition ready_move_step_rad_of (d : DeviceBase) (velocity_rad_s : f32) : f32 :=
  let freq := f32_of_Z (cla_control_frequency (cla_ d)) in
  let dt := if freq >?. f0 then (f1 / freq)%f32 else (f1 / f32_of_Z 50)%f32 in
  (velocity_rad_s * dt)%f32.
Definition ready_move_step_rad (d : DeviceBase) : f32 :=
  ready_move_step_rad_of d (if slow_move_active_ d then cla_move_to_ready_vel_rad_s_error (cla_ d)
                            else cla_move_to_ready_vel_rad_s_normal (cla_ d)).

(** The budget of a ready move.  The cast of the quotient to [long] is undefined out of
    range: [undefined_long] stands for what it gives then. *)
Definition long_of_float (x : f32) : option Z :=
  z ← SF_trunc x; if (- 2 ^ 63 <=? z) && (z <? 2 ^ 63) then Some z else None.

Definition ready_move_budget_init (undefined_long : Z) (max_displacement_rad step_rad : f32)
    (d : DeviceBase) : DeviceBase :=
  let step := if step_rad >?. lit32 1 1000000000 then step_rad else lit32 1 1000000000 in
  let travel_iters := default undefined_long (long_of_float (max_displacement_rad / step)%f32) + 1 in
  d <| ready_move_budget_total_ := Z.max READY_MOVE_BUDGET_MIN_ITERS
         (READY_MOVE_BUDGET_TRAVEL_SCALE * travel_iters + DEVICE_ARRIVED_CONFIRM_CNT) |>
    <| ready_move_budget_used_ := 0 |>.

(** The new state and whether the budget is exhausted. *)
Definition ready_move_budget_spend (d : DeviceBase) : bool * DeviceBase :=
  let d := d <| ready_move_budget_used_ := ready_move_budget_used_ d + 1 |> in
  ((0 <? ready_move_budget_total_ d) && (ready_move_budget_total_ d <? ready_move_budget_used_ d), d).

Definition mark_joint_failed_during_recovery (joint_id : Z) (d : DeviceBase) : DeviceBase :=
  d <| failed_joint_ids_ := {[ joint_id ]} ∪ failed_joint_ids_ d |>.

(** ** The virtual methods, the driver and the topic *)

Class HasDevice (S : Type) := {
  base : S → DeviceBase;
  update_base : (DeviceBase → DeviceBase) → S → S;
}.

Definition get_base {S} `{HasDevice S} : St S DeviceBase := gets base.
Definition on_base {S} `{HasDevice S} (f : DeviceBase → DeviceBase) : St S unit := modify (update_base f).

(** Methods of [Device] that a derived class overrides and calls; the virtual methods
    they call are arguments. *)
Section base_methods.
Context {S : Type} `{HasDevice S}.

Definition Device_set_runtime_force_feedback (set_control_mode : Role → ControlModeIntent → St S ReturnCode)
    (enabled : bool) (gain : f32) : St S ReturnCode :=
  d ← get_base;
  if negb (bool_decide (role_ (view d) = LEADER)) then mret NOT_SUPPORTED
  else if enabled && (gain <?. f0) then mret INVALID_PARAM
  else
    on_base (λ d, d <| view := (view d) <| enabled_force_feedback_ := enabled |>
      <| cla_force_feedback := if enabled then gain else (- f1)%f32 |> |>);;
    set_control_mode LEADER NORMAL_OPERATION.

Definition Device_set_runtime_force_feedback_gain (gain : f32) : St S ReturnCode :=
  d ← get_base;
  if negb (bool_decide (role_ (view d) = LEADER)) then mret NOT_SUPPORTED
  else if gain <?. f0 then mret INVALID_PARAM
  else on_base (λ d, d <| view := (view d) <| cla_force_feedback := gain |> |>);; mret SUCCESS.

Definition Device_runtime_hold (clear_command_buffers : St S unit) : St S ReturnCode :=
  d ← get_base;
  if rejects_direct_commands d then mret BUSY
  else clear_command_buffers;; mret SUCCESS.

Definition Device_request_move_to_ready_position (request_id : Z) : St S unit :=
  on_base (λ d, set_cmd_state MTR_REQUESTED (set_ready false (d
    <| move_to_ready_request_id_ := request_id |> <| completed_move_to_ready_request_id_ := 0 |>)
    <| last_ready_move_progress_publish_ := prof_time_zero |>)).

Definition Device_request_move_to_ready_and_stop (request : Z → St S unit) (request_id : Z) : St S unit :=
  on_base (λ d, d <| stop_after_ready_ := true |>);; request request_id.

Definition Device_reset_ready_state_for_move_to_ready : St S unit :=
  on_base (λ d, (set_ready false d) <| init_count_ := 0 |> <| reached_cnt_ := 0 |>).

Definition Device_publish_device_info (publish : MsgDeviceInfo → St S ReturnCode) (msg : MsgDeviceInfo)
    : St S ReturnCode :=
  d ← get_base;
  if negb (has_topic d) then mret NOT_INITIALIZED else publish msg.

(** [publish] and [stop] are those of [p_topic_]. *)
Definition Device_mark_emergency_recovery_completed (publish : MsgDeviceInfo → St S ReturnCode)
    (stop : St S ReturnCode) : St S unit :=
  d ← get_base;
  if bool_decide (emergency_recovery_state d = EMERGENCY_NONE) then mret tt
  else if emergency_completed_published_ d then on_base (set_emergency EMERGENCY_COMPLETED)
  else
    on_base (λ d, (set_emergency EMERGENCY_COMPLETED d) <| emergency_completed_published_ := true |>);;
    Device_publish_device_info publish (mkMsgDeviceInfo DEVICE_INFO_SHUTDOWN_AFTER_ERROR [f1]
      [emergency_cause_ d; emergency_failed_joint_id_ d; 0]);;
    when_ (has_topic d) (stop;; mret tt).
End base_methods.

Class DeviceObject (S : Type) := {
  device_state :: HasDevice S;
  (* std::chrono::steady_clock::now() *)
  clock_now : St S prof_time_t;
  (* virtual methods *)
  park_safely : St S ReturnCode;
  read_hardware_values : St S ReturnCode;
  write_hardware_values : St S ReturnCode;
  move_to_ready_position : St S ReturnCode;
  operate_as_leader : St S ReturnCode;
  operate_as_follower : St S ReturnCode;
  get_observation : St S (ReturnCode * MsgJoints);
  set_control_mode : Role → ControlModeIntent → St S ReturnCode;
  get_ready_move_completion_ratio : St S f32;
  reset_ready_state_for_move_to_ready : St S unit;
  clear_command_buffers_for_move_to_ready : St S unit;
  runtime_hold : St S ReturnCode;
  set_runtime_force_feedback : bool → f32 → St S ReturnCode;
  (* p_driver_ *)
  driver_open : Z → St S ReturnCode;
  driver_close : St S ReturnCode;
  driver_arm_comm_loss_protection : St S ReturnCode;
  (* p_topic_ *)
  topic_is_running : S → bool;
  topic_publish_joints : MsgJoints → St S ReturnCode;
  topic_publish_info : MsgDeviceInfo → St S ReturnCode;
  topic_step : St S ReturnCode;
  topic_sleep : St S ReturnCode;
  topic_stop : St S ReturnCode;
  topic_set_pause_leader_command_listening : bool → St S unit;
}.

Section device.
Context {S : Type} `{DeviceObject S}.

Definition elapsed_at_least (since : prof_time_t) (now : prof_time_t) (ms : Z) : bool :=
  ms <=? get_time_diff since now.

Definition clamp01 (progress : f32) : f32 :=
  let progress := if progress <?. f0 then f0 else progress in
  if progress >?. f1 then f1 else progress.

(** ** Publishing *)

Definition publish_device_info : MsgDeviceInfo → St S ReturnCode :=
  Device_publish_device_info topic_publish_info.

Definition publish_recovery_progress (progress : f32) : St S unit :=
  d ← get_base;
  if negb (bool_decide (emergency_recovery_state d = EMERGENCY_MOVING_SLOW)) then mret tt
  else
    publish_device_info (mkMsgDeviceInfo DEVICE_INFO_RECOVERY_IN_PROGRESS [clamp01 progress]
      [emergency_cause_ d; emergency_failed_joint_id_ d; 0]);;
    mret tt.

Definition publish_ready_move_progress (source : Z) (is_error : bool) (progress : f32) : St S unit :=
  publish_device_info (mkMsgDeviceInfo DEVICE_INFO_READY_MOVE_IN_PROGRESS [clamp01 progress]
    [source; if is_error then 1 else 0]);;
  mret tt.

(** ** Emergency recovery *)

Definition enter_emergency_recovery (cause : ReturnCode) (failed_joint_id : Z) : St S ReturnCode :=
  d ← get_base;
  let disable_failed_joint_for_move := bool_decide (cause = SAFE_MODE_SIG) in
  let mark d := if disable_failed_joint_for_move && (0 <=? failed_joint_id)
                then mark_joint_failed_during_recovery (i16 failed_joint_id) d else d in
  if bool_decide (emergency_recovery_state d = EMERGENCY_NONE) then
    on_base (λ d, mark ((set_emergency EMERGENCY_REQUESTED d)
      <| emergency_cause_ := ReturnCode_value cause |>
      <| emergency_failed_joint_id_ := failed_joint_id |>
      <| slow_move_active_ := true |> <| failed_joint_ids_ := ∅ |>
      <| emergency_completed_published_ := false |>));;
    when_ (has_topic d) (topic_set_pause_leader_command_listening true);;
    publish_device_info (mkMsgDeviceInfo DEVICE_INFO_ERROR_DETECTED [f0]
      [ReturnCode_value cause; failed_joint_id; 0]);;
    mret SUCCESS
  else on_base mark;; mret SUCCESS.

Definition mark_emergency_recovery_completed : St S unit :=
  Device_mark_emergency_recovery_completed topic_publish_info topic_stop.

Definition check_emergency_timeout_locked : St S bool :=
  d ← get_base;
  if negb (bool_decide (emergency_recovery_state d = EMERGENCY_MOVING_SLOW)) then mret false
  else if cla_emergency_shutdown_timeout_ms (cla_ d) <=? 0 then mret false
  else
    t ← clock_now;
    if elapsed_at_least (last_step_heartbeat_ d) t (cla_emergency_shutdown_timeout_ms (cla_ d))
    then on_base (set_emergency EMERGENCY_TIMED_OUT);; mret true
    else mret false.

(** ** The client-liveness watchdog *)

Definition note_client_heartbeat : St S unit :=
  on_base (λ d, d <| client_heartbeat_seen_ := true |> <| client_watchdog_tripped_ := false |>);;
  t ← clock_now; on_base (λ d, d <| last_client_heartbeat_ := t |>).

Definition check_client_heartbeat_watchdog : St S unit :=
  d ← get_base;
  if negb (client_heartbeat_seen_ d) || client_watchdog_tripped_ d then mret tt
  else if is_in_emergency_recovery d || is_in_any_move_to_ready_state (view d) || negb (ready d)
  then mret tt
  else
    t ← clock_now;
    if negb (elapsed_at_least (last_client_heartbeat_ d) t kClientHeartbeatTimeoutMs) then mret tt
    else
      on_base (λ d, d <| client_watchdog_tripped_ := true |>);;
      match role_ (view d) with
      | LEADER =>
          if is_force_feedback_enabled (view d)
          then set_runtime_force_feedback false (- f1)%f32;; mret tt
          else mret tt
      | FOLLOWER =>
          when_ (has_topic d) (topic_set_pause_leader_command_listening true);;
          runtime_hold;; mret tt
      | ROLE_UNKNOWN => mret tt
      end.

(** ** Lifecycle *)

Definition Device_is_running (s : S) : bool := has_topic (base s) && topic_is_running s.

Definition Device_start (baud_rate : Z) : St S ReturnCode :=
  d ← get_base;
  if negb (is_driver_created_by_this_ d) then mret SUCCESS
  else if negb (has_driver d) then mret NOT_INITIALIZED
  else driver_open baud_rate.

Definition arm_comm_loss_protection : St S ReturnCode :=
  d ← get_base;
  if negb (has_driver d) then mret SUCCESS else driver_arm_comm_loss_protection.

Definition Device_sleep : St S ReturnCode :=
  d ← get_base;
  if negb (is_topic_created_by_this_ d) then mret SUCCESS
  else if negb (has_topic d) then mret NOT_INITIALIZED
  else topic_sleep.

Definition keep_first (first_error rc : ReturnCode) : ReturnCode :=
  if negb (ok rc) && ok first_error then rc else first_error.

Definition Device_stop : St S ReturnCode :=
  d ← get_base;
  first_error ← park_safely;
  topic_rc ← (if negb (is_topic_created_by_this_ d) then mret SUCCESS
              else if negb (has_topic d) then mret NOT_INITIALIZED else topic_stop);
  let first_error := keep_first first_error topic_rc in
  driver_rc ← (if negb (is_driver_created_by_this_ d) then mret SUCCESS
               else if negb (has_driver d) then mret NOT_INITIALIZED else driver_close);
  mret (keep_first first_error driver_rc).

(** ** [step], in the order of the code *)

(** Switch to a position mode for a ready move; a failure is logged only. *)
Definition switch_to_ready_move : St S unit :=
  clear_command_buffers_for_move_to_ready;;
  set_control_mode FOLLOWER READY_MOVE_OVERRIDE;;
  reset_ready_state_for_move_to_ready.

Definition start_commanded_move : St S unit :=
  d ← get_base;
  when_ (bool_decide (cmd_state d = MTR_REQUESTED))
    (switch_to_ready_move;; on_base (set_cmd_state MTR_MOVING)).

Definition start_recovery : St S unit :=
  d ← get_base;
  when_ (bool_decide (emergency_recovery_state d = EMERGENCY_REQUESTED))
    (switch_to_ready_move;;
     t ← clock_now;
     on_base (λ d, set_emergency EMERGENCY_MOVING_SLOW
       (d <| emergency_start_time_ := t |> <| last_step_heartbeat_ := t |>))).

Definition recovery_watchdog : St S EmergencyRecoveryState :=
  d ← get_base;
  when_ (bool_decide (emergency_recovery_state d = EMERGENCY_MOVING_SLOW))
    (check_emergency_timeout_locked;; mret tt);;
  gets (λ s, emergency_recovery_state (base s)).

(** The two throttled progress messages. *)
Definition publish_recovery_heartbeat (state_now : EmergencyRecoveryState) (recovery_progress : f32)
    : St S unit :=
  when_ (bool_decide (state_now = EMERGENCY_MOVING_SLOW))
    (t ← clock_now;
     d ← get_base;
     when_ (elapsed_at_least (last_recovery_progress_publish_ d) t EMERGENCY_PROGRESS_PUBLISH_INTERVAL_MS)
       (on_base (λ d, d <| last_recovery_progress_publish_ := t |>);;
        publish_recovery_progress recovery_progress)).

Definition publish_ready_move_heartbeat (state_now : EmergencyRecoveryState) (recovery_progress : f32)
    : St S unit :=
  d ← get_base;
  let emergency := bool_decide (state_now = EMERGENCY_MOVING_SLOW) in
  let none := bool_decide (state_now = EMERGENCY_NONE) in
  let startup := negb (ready d) && bool_decide (cmd_state d = MTR_IDLE) && none in
  let command := bool_decide (cmd_state d = MTR_MOVING) && none in
  when_ (startup || command || emergency)
    (t ← clock_now;
     when_ (elapsed_at_least (last_ready_move_progress_publish_ d) t EMERGENCY_PROGRESS_PUBLISH_INTERVAL_MS)
       (on_base (λ d, d <| last_ready_move_progress_publish_ := t |>);;
        progress ← (if emergency then mret recovery_progress else get_ready_move_completion_ratio);
        publish_ready_move_progress
          (if emergency then READY_MOVE_SOURCE_EMERGENCY else if command then READY_MOVE_SOURCE_COMMAND
           else READY_MOVE_SOURCE_STARTUP)
          emergency progress)).

(** [!was_ready && is_ready_]. *)
Definition on_became_ready : St S unit :=
  d ← get_base;
  match cmd_state d with
  | MTR_IDLE => set_control_mode (role_ (view d)) NORMAL_OPERATION;; mret tt
  | MTR_MOVING =>
      on_base (λ d, d <| completed_move_to_ready_request_id_ := move_to_ready_request_id_ d |>
                      <| move_to_ready_request_id_ := 0 |>)
  | _ => mret tt
  end.

Definition step_not_ready : St S ReturnCode :=
  return_code ← move_to_ready_position;
  if negb (ok return_code) then mret return_code
  else
    d ← get_base;
    when_ (ready d) on_became_ready;;
    mret SUCCESS.

Definition restore_after_commanded_move : St S unit :=
  d ← get_base;
  when_ (bool_decide (cmd_state d = MTR_MOVING))
    (on_base (set_cmd_state MTR_RESTORE);;
     set_control_mode (role_ (view d)) NORMAL_OPERATION;;
     clear_command_buffers_for_move_to_ready;;
     on_base (set_cmd_state MTR_IDLE);;
     d ← get_base;
     when_ (stop_after_ready_ d && has_topic d) (topic_stop;; mret tt)).

Definition step_ready : St S ReturnCode :=
  restore_after_commanded_move;;
  d ← get_base;
  match role_ (view d) with
  | LEADER => operate_as_leader
  | FOLLOWER => operate_as_follower
  | ROLE_UNKNOWN => mret NOT_SUPPORTED
  end.

Definition publish_observation : St S ReturnCode :=
  '(return_code, msg) ← get_observation;
  if negb (ok return_code) then mret return_code else topic_publish_joints msg.

(** The leader of a recovery stays silent: its follower would replay the move. *)
Definition step_publish : St S ReturnCode :=
  d ← get_base;
  match role_ (view d) with
  | LEADER =>
      if is_in_emergency_recovery d then mret SUCCESS
      else match msg_type_ (view d) with
           | JOINT_INFO => publish_observation
           | MSG_INVALID => mret NOT_SUPPORTED
           end
  | FOLLOWER => publish_observation
  | ROLE_UNKNOWN => mret SUCCESS
  end.

Definition step_topic : St S ReturnCode :=
  d ← get_base;
  if negb (is_topic_created_by_this_ d) then mret SUCCESS
  else if negb (has_topic d) then mret NOT_INITIALIZED
  else
    require step_publish
      (topic_step;; check_client_heartbeat_watchdog;; mret SUCCESS).

Definition step_body : St S ReturnCode :=
  start_commanded_move;;
  start_recovery;;
  state_now ← recovery_watchdog;
  recovery_progress ← (if bool_decide (state_now = EMERGENCY_MOVING_SLOW)
                       then r ← get_ready_move_completion_ratio; mret (clamp01 r) else mret f0);
  if bool_decide (state_now = EMERGENCY_TIMED_OUT)
  then mark_emergency_recovery_completed;; mret SUCCESS
  else
    publish_recovery_heartbeat state_now recovery_progress;;
    publish_ready_move_heartbeat state_now recovery_progress;;
    d ← get_base;
    require (if negb (ready d) then step_not_ready else step_ready)
    (require write_hardware_values
     (require step_topic
      (t ← clock_now; on_base (λ d, d <| last_step_heartbeat_ := t |>);; mret SUCCESS))).

Definition Device_step : St S ReturnCode :=
  return_code ← read_hardware_values;
  d ← get_base;
  if negb (ok return_code) && negb (is_in_emergency_recovery d) then mret return_code
  else step_body.
End device.

(** ** [move], on a joint of the device *)

Definition Device_move {W} `{JointServos W} (follower_gravity_compensation : bool)
    (target_pos target_tor : f32) : St (JointWorld W) ReturnCode :=
  on_joint (λ j, j <| adjusted_target_pos_ := target_pos |> <| Joint.prev_target_pos_ := target_pos |>);;
  w ← get_state;
  return_code ←
    (if follower_gravity_compensation then
       on_joint (λ j, j <| target_tor_ := target_tor |>);;
       rc ← move_with target_pos f0 (target_tor * torq_rescale_ (joint w))%f32;
       on_joint (λ j, j <| prev_target_tor_ := target_tor |>);;
       mret rc
     else Joint.move target_pos);
  mret (if ok return_code then SUCCESS else FAIL).
