(* ===== verification/JointOwner.v ===== *)
(** * Devices that own joints (what pi_device_arm.cpp and pi_device_effector.cpp share)

    Arms and effectors keep a vector of joints and treat them alike: they start,
    verify, read, hold and observe them and step them to the ready position with the
    same code, which the sources repeat.  [JointOwner] is what that code needs of the
    device: its joints and the state [X] of the servos behind them.  The lines of the
    map are those of the arm; those of the effector are the same statements. *)

From S2P Require Import Prelude.
From S2P Require Import FloatSpec.
From S2P Require Import Control.
From S2P Require Import Servo.
From S2P Require Import Joint.
From S2P Require Import Device.

Definition VERIFY_SERVOS_PROBE_WAIT_US : Z := 5000.

(** What a device uses of the rest of the program. *)
Class DeviceWorld (X : Type) := {
  (* servos, driver and topic see the [Device] fields through their pointer *)
  dw_set_device : Device → X → X;
  dw_now : St X prof_time_t;
  dw_usleep : Z → St X unit;                            (* what arrives during the wait *)
  (* p_driver_ *)
  dw_group_read_hardware_values : St X ReturnCode;
  dw_group_write_hardware_values : St X ReturnCode;
  dw_driver_open : Z → St X ReturnCode;
  dw_driver_close : St X ReturnCode;
  dw_driver_arm_comm_loss_protection : St X ReturnCode;
  (* p_algo_ *)
  dw_has_algo : X → bool;
  (* p_topic_ *)
  dw_topic_is_running : X → bool;
  dw_topic_publish_joints : MsgJoints → St X ReturnCode;
  dw_topic_publish_info : MsgDeviceInfo → St X ReturnCode;
  dw_topic_sleep : St X ReturnCode;
  dw_topic_stop : St X ReturnCode;
  dw_topic_set_pause_leader_command_listening : bool → St X unit;
}.

#[export] Hint Mode DeviceWorld ! : typeclass_instances.

Class JointOwner (S X : Type) `{HasDevice S} `{DeviceWorld X} := {
  jo_joints : S → list Joint;
  jo_set_joints : list Joint → S → S;
  jo_world : S → X;
  jo_set_world : X → S → S;
}.

Section owner.
Context {S X : Type} `{JointOwner S X} `{JointServos X} (undefined_servo : Servo).

(** ** Access to the parts *)

(** The rest of the program sees the [Device] fields as they are when called. *)
Definition current_world (a : S) : X := dw_set_device (view (base a)) (jo_world a).
Definition on_world {T} (m : St X T) : St S T := lift_into current_world jo_set_world m.

Definition the_joint (i : nat) (a : S) : Joint := default (new_Joint []) (jo_joints a !! i).
Definition joint_world (i : nat) (a : S) : JointWorld X := mkJointWorld (the_joint i a) (current_world a).
Definition with_joint {T} (i : nat) (m : St (JointWorld X) T) : St S T :=
  lift_into (joint_world i)
    (λ w a, jo_set_world (hw w) (jo_set_joints (<[i := joint w]> (jo_joints a)) a)) (publish_view;; m).
Definition update_joint (i : nat) (f : Joint → Joint) : St S unit :=
  modify (λ a, jo_set_joints (alter f i (jo_joints a)) a).
Definition joint_indices (a : S) : list nat := seq 0 (length (jo_joints a)).

(** [for (auto& p_joint : joints_)]. *)
Definition for_joints (m : nat → St S ReturnCode) : St S ReturnCode :=
  a ← get_state; each m (joint_indices a).
Definition for_joints_ (m : nat → St S unit) : St S unit :=
  a ← get_state; each_ m (joint_indices a).

Definition pos_of (i : nat) (a : S) : f32 := get_pos_rad_relative undefined_servo (joint_world i a).
Definition home_of (i : nat) (a : S) : f32 := get_home_pos_relative undefined_servo (joint_world i a).
Definition sid_of (i : nat) (a : S) : Z := reference_servo_id (joint_world i a).

(** ** Modes *)

Definition joints_for_follower : St S ReturnCode :=
  for_joints (λ i, with_joint i change_control_mode_for_follower).
Definition joints_for_leader (now : St S prof_time_t) : St S ReturnCode :=
  t ← now;
  for_joints (λ i, with_joint i (change_control_mode_for_leader undefined_servo t)).

Definition use_follower_like (target_role : Role) (intent : ControlModeIntent) : bool :=
  bool_decide (intent = READY_MOVE_OVERRIDE) || bool_decide (target_role = FOLLOWER).

(** [Device::move] on a joint of this device; its last argument is not used. *)
Definition device_move (i : nat) (target_pos target_tor : f32) : St S ReturnCode :=
  d ← get_base;
  with_joint i (Device_move (follower_gravity_compensation_ d) target_pos target_tor).

(** ** Reading the joints *)

(** [failed_ids.count(sid)] of a joint that has an id. *)
Definition is_failed (failed : gset Z) (sid : Z) : bool := (0 <=? sid) && bool_decide (sid ∈ failed).

Definition note_failure (sid : Z) (d : DeviceBase) : DeviceBase :=
  let d := d <| is_normal_status_ := false |> in
  if 0 <=? sid then d <| last_failed_joint_id_ := sid |> else d.
Definition mark_failed (sid : Z) (d : DeviceBase) : DeviceBase :=
  if 0 <=? sid then mark_joint_failed_during_recovery sid d else d.

(** The loop over the joints.  [inl] leaves the function; otherwise [any_joint_success],
    [soft_escalation_code] and the last return code. *)
Fixpoint read_joints (tolerate : bool) (failed : gset Z) (js : list nat) (any : bool)
    (soft last : ReturnCode) : St S (ReturnCode + bool * ReturnCode * ReturnCode) :=
  match js with
  | [] => mret (inr (any, soft, last))
  | i :: js =>
      a ← get_state;
      let sid := sid_of i a in
      if is_failed failed sid then read_joints tolerate failed js any soft last
      else
        rc ← with_joint i (Joint.read_hardware_values undefined_servo (has_driver (base a)));
        match rc with
        | SUCCESS => read_joints tolerate failed js true soft rc
        | SAFE_MODE_SIG | HARDWARE_FAULT =>
            on_base (note_failure sid);;
            if tolerate then on_base (mark_failed sid);; read_joints tolerate failed js any soft rc
            else mret (inl rc)
        | SAFE_MODE_TEMPERATURE =>
            on_base (note_failure sid);;
            if tolerate then read_joints tolerate failed js true soft rc
            else mret (inl rc)
        | _ =>
            if tolerate then read_joints tolerate failed js true soft rc
            else
              on_base (note_failure sid);;
              read_joints tolerate failed js any (if ok soft then rc else soft) rc
        end
  end.

(** ** Springs (pi_algo.cpp)

    The joints are those of the device.  [check_stability_control] ignores what
    [set_control_mode] returns. *)

Inductive SpringMode := PASSIVE | SPRING | POSITION.

Definition Algo_set_control_mode (new_mode : SpringMode) : St S ReturnCode :=
  match new_mode with
  | PASSIVE => for_joints (λ i, with_joint i (apply_torque f0))
  | SPRING => for_joints (λ i, with_joint i change_control_mode_for_spring)
  | POSITION => for_joints_ (λ i, update_joint i (λ j, j <| spring_enabled_ := false |>));; mret SUCCESS
  end.

Fixpoint all_stable (step_start_time : prof_time_t) (is_ : list nat) (is_stable : bool) : St S bool :=
  match is_ with
  | [] => mret is_stable
  | i :: is_ =>
      is_joint_stable ← with_joint i (update_stability undefined_servo step_start_time);
      all_stable step_start_time is_ (is_stable && is_joint_stable)
  end.

Definition check_stability_control (step_start_time : prof_time_t) : St S ReturnCode :=
  a ← get_state;
  is_stable ← all_stable step_start_time (joint_indices a) true;
  Algo_set_control_mode (if (is_stable : bool) then POSITION else SPRING);;
  mret SUCCESS.

(** ** Stepping the joints to the ready position *)

(** [set_last_failed_joint_id] and the like, for a known servo id only. *)
Definition mark_failed_and_last (sid : Z) (d : DeviceBase) : DeviceBase :=
  if 0 <=? sid then (mark_joint_failed_during_recovery sid d) <| last_failed_joint_id_ := sid |> else d.
Definition note_abnormal (sid : Z) (d : DeviceBase) : DeviceBase :=
  (if 0 <=? sid then d <| last_failed_joint_id_ := sid |> else d) <| is_normal_status_ := false |>.

(** Baseline of a ready move: each joint from where it is to [target]. *)
Definition start_joint (target : nat → S → f32) (i : nat) (max_displacement : f32) : St S f32 :=
  a ← get_state;
  let start_pos := pos_of i a in
  update_joint i (λ j, j <| target_pos_ := target i a |> <| Joint.prev_target_pos_ := start_pos |>);;
  with_joint i (reset_stuck_counter undefined_servo);;
  let displacement := SFabs (target i a - start_pos)%f32 in
  mret (if max_displacement <?. displacement then displacement else max_displacement).

Fixpoint start_joints (target : nat → S → f32) (is_ : list nat) (max_displacement : f32) : St S f32 :=
  match is_ with
  | [] => mret max_displacement
  | i :: is_ => m ← start_joint target i max_displacement; start_joints target is_ m
  end.

Definition start_ready_move (undefined_long : Z) (target : nat → S → f32) (step : f32) : St S unit :=
  on_base (λ d, d <| reached_cnt_ := 0 |>);;
  a ← get_state;
  max_displacement ← start_joints target (joint_indices a) f0;
  on_base (ready_move_budget_init undefined_long max_displacement step).

(** The next command: from the last command towards the target, from the measured
    position when that passed the target. *)
Definition ready_command (margin target prev current step : f32) : f32 :=
  let delta_meas := (target - current)%f32 in
  let crossed := (SFabs delta_meas >?. margin) &&
    ((delta_meas >?. f0) && ((target - prev)%f32 <?. f0) || (delta_meas <?. f0) && ((target - prev)%f32 >?. f0)) in
  let cmd_pos := if crossed then current else prev in
  let delta_cmd := (target - cmd_pos)%f32 in
  if delta_cmd >?. step then (cmd_pos + step)%f32
  else if delta_cmd <?. (- step)%f32 then (cmd_pos - step)%f32
  else target.

Definition spend_ready_move_budget : St S bool :=
  d ← get_base;
  on_base (λ d, snd (ready_move_budget_spend d));;
  mret (fst (ready_move_budget_spend d)).

(** The counters of one pass. *)
Record Scan := mkScan {
  scan_arrived : bool;              (* all_within_tolerance_or_stuck *)
  scan_responsive : Z;
  scan_stuck : Z;
  scan_first_stuck : Z;
  scan_worst : f32;                 (* worst_displacement *)
  scan_worst_sid : Z;
  scan_rc : ReturnCode;             (* return_code: that of the last move *)
}.
Definition new_Scan : Scan := mkScan true 0 0 (-1) f0 (-1) SUCCESS.

Definition scan_joint (sid : Z) (displacement : f32) (is_stuck outside : bool) (rc : ReturnCode)
    (c : Scan) : Scan :=
  let stuck := is_stuck && outside in
  let worse := outside && (displacement >?. scan_worst c) in
  mkScan (scan_arrived c && negb (outside && negb is_stuck))
    (scan_responsive c + 1)
    (if stuck then scan_stuck c + 1 else scan_stuck c)
    (if stuck && (scan_first_stuck c <? 0) && (0 <=? sid) then sid else scan_first_stuck c)
    (if worse then displacement else scan_worst c)
    (if worse then sid else scan_worst_sid c) rc.

Definition outside_tolerance (j : Joint) (displacement : f32) : bool :=
  displacement >?. (pos_error_margin_ j + READY_MOVE_TOLERANCE_HYSTERESIS_RAD)%f32.

(** [send i new_pos] commands the joint. *)
Definition ready_move_joint (send : nat → f32 → St S ReturnCode) (failed : gset Z) (step : f32)
    (i : nat) (c : Scan) : St S Scan :=
  a ← get_state;
  let sid := sid_of i a in
  if is_failed failed sid then mret c
  else
    is_stuck ← with_joint i (update_and_check_stuck undefined_servo);
    a ← get_state;
    let j := the_joint i a in
    let displacement := SFabs (target_pos_ j - pos_of i a)%f32 in
    let outside := outside_tolerance j displacement in
    when_ (outside && negb is_stuck) (on_base (λ d, d <| reached_cnt_ := 0 |>));;
    let new_pos := ready_command (pos_error_margin_ j) (target_pos_ j) (Joint.prev_target_pos_ j)
                     (pos_of i a) step in
    update_joint i (λ j, j <| Joint.prev_target_pos_ := new_pos |>);;
    return_code ← send i new_pos;
    when_ (negb (ok return_code))
      (on_base (λ d, (mark_failed_and_last sid d) <| is_normal_status_ := false |>));;
    mret (scan_joint sid displacement is_stuck outside return_code c).

Fixpoint ready_move_joints (send : nat → f32 → St S ReturnCode) (failed : gset Z) (step : f32)
    (is_ : list nat) (c : Scan) : St S Scan :=
  match is_ with
  | [] => mret c
  | i :: is_ => c ← ready_move_joint send failed step i c; ready_move_joints send failed step is_ c
  end.

(** The end of a pass: the joints have arrived, or the move goes on. *)
Definition conclude (arrived not_arrived : St S unit) (c : Scan) (budget_exhausted : bool) : St S unit :=
  if scan_responsive c =? 0 then arrived
  else if scan_arrived c then
    on_base (λ d, d <| reached_cnt_ := reached_cnt_ d + 1 |>);;
    d ← get_base;
    when_ (DEVICE_ARRIVED_CONFIRM_CNT <? reached_cnt_ d) arrived
  else if budget_exhausted then on_base (note_abnormal (scan_worst_sid c));; arrived
  else not_arrived.

(** Every joint targets the place where it is. *)
Definition target_current_pose : St S unit :=
  for_joints_ (λ i, a ← get_state;
    let current := pos_of i a in
    update_joint i (λ j, j <| target_pos_ := current |> <| Joint.prev_target_pos_ := current |>)).

(** ** Messages *)

Definition joint_of_msg (msg : MsgJoints) (i : nat) : DataJoint := nth i msg (mkDataJoint f0 f0 f0 f0 f0 f0).

(** [add_joint_info] with the given position. *)
Definition observe_joint (position : St S f32) (i : nat) : St S DataJoint :=
  pos ← position;
  a ← get_state;
  let w := joint_world i a in
  age ← with_joint i get_frame_age_ms;
  mret (mkDataJoint pos (get_vel_rad_sec undefined_servo w) (get_tor_nm undefined_servo w)
    (get_temperature undefined_servo w) (get_idc_current w) (f32_of_Z age)).

Fixpoint observe_joints (position : nat → St S f32) (is_ : list nat) (msg : MsgJoints) : St S MsgJoints :=
  match is_ with
  | [] => mret msg
  | i :: is_ => d ← observe_joint (position i) i; observe_joints position is_ (msg ++ [d])
  end.

Definition joint_servo_ids (a : S) : list Z :=
  concat (map (λ i, get_servo_ids (joint_world i a)) (joint_indices a)).

(** ** Starting and verifying *)

(** The joints that are not in [failed], in order, until the first error. *)
Definition for_joints_outside (failed : gset Z) (m : nat → St S ReturnCode) : St S ReturnCode :=
  for_joints (λ i, a ← get_state; if is_failed failed (sid_of i a) then mret SUCCESS else m i).

Definition any_joint_outside (failed : gset Z) (a : S) : bool :=
  existsb (λ i, negb (is_failed failed (sid_of i a))) (joint_indices a).

(** The probe and the check of [verify_servos_operational]. *)
Definition verify_joints (flush : St S ReturnCode) (wait : St S unit) (failed : gset Z) : St S ReturnCode :=
  require (for_joints_outside failed (λ i, a ← get_state;
             with_joint i (Joint.move (Joint.prev_target_pos_ (the_joint i a)))))
  (a ← get_state;
   require
     (if any_joint_outside failed a then
        require (if has_driver (base a) then flush else mret SUCCESS) (wait;; mret SUCCESS)
      else mret SUCCESS)
     (for_joints_outside failed (λ i, with_joint i Joint.verify_operational))).

(** The one-shot hold of [start]; whether a command was sent. *)
Definition startup_hold (i : nat) : St S bool :=
  a ← get_state;
  let sid := sid_of i a in
  let skip_joint := on_base (λ d, (mark_failed_and_last sid d) <| is_normal_status_ := false |>);; mret false in
  verify_rc ← with_joint i Joint.verify_position_fresh;
  if negb (ok verify_rc) then skip_joint
  else
    hold_rc ← with_joint i (Joint.hold_at_current_position undefined_servo);
    if negb (ok hold_rc) then skip_joint
    else with_joint i (reset_stuck_counter undefined_servo);; mret true.

Fixpoint startup_holds (failed : gset Z) (is_ : list nat) (any_hold_sent : bool) : St S bool :=
  match is_ with
  | [] => mret any_hold_sent
  | i :: is_ =>
      a ← get_state;
      if is_failed failed (sid_of i a) then startup_holds failed is_ any_hold_sent
      else sent ← startup_hold i; startup_holds failed is_ (any_hold_sent || sent)
  end.

(** [start] holds every joint where it is before the ready move; [write] is
    [write_hardware_values]. *)
Definition start_holding (write : St S ReturnCode) : St S ReturnCode :=
  d ← get_base;
  if is_read_only_ (view d) then mret SUCCESS
  else
    require (for_joints_outside (failed_joint_ids_ d) (λ i, with_joint i Joint.verify_operational))
    (a ← get_state;
     any_hold_sent ← startup_holds (failed_joint_ids_ (base a)) (joint_indices a) false;
     if (any_hold_sent : bool) then write else mret SUCCESS).

(** [stop] after a failure that follows [Device::start]. *)
Definition or_stop (stop m : St S ReturnCode) : St S ReturnCode :=
  rc ← m; if negb (ok rc) then stop;; mret rc else mret SUCCESS.

Definition park_joints (first_error : ReturnCode) : St S ReturnCode :=
  a ← get_state;
  each_all (λ i, with_joint i Joint.park_safely) (joint_indices a) first_error.
End owner.
