(* ===== verification/Wire.v ===== *)
(** * The wire format of the topics (include/pi_topic_zmq.hpp)

    Messages are plain structures sent as their bytes.  The layout is that of the
    x86-64 and AArch64 ABIs the code asserts sizes for: little-endian, natural
    alignment.  A structure is a record; [encode_*] gives its bytes and [decode_*]
    reads them back. *)

From S2P Require Import Prelude.
From S2P Require Import FloatSpec.
From S2P Require Import Rounding.

(** ** Words as bytes *)

Fixpoint le_bytes (n : nat) (z : Z) : list Z :=
  match n with O => [] | S n => z `mod` 256 :: le_bytes n (z `div` 256) end.
Fixpoint of_le (bs : list Z) : Z :=
  match bs with [] => 0 | b :: bs => b + 256 * of_le bs end.

Lemma length_le_bytes n : ∀ z, length (le_bytes n z) = n.
Proof. induction n as [|n IH]; intros z; cbn; [done|by rewrite IH]. Qed.

Lemma of_le_bytes n : ∀ z, of_le (le_bytes n z) = z `mod` 2 ^ (8 * Z.of_nat n).
Proof.
  induction n as [|n IH]; intros z; cbn [le_bytes of_le]; [by rewrite Z.mod_1_r|].
  rewrite IH. replace (8 * Z.of_nat (S n)) with (8 + 8 * Z.of_nat n) by lia.
  rewrite Z.pow_add_r by lia. change (2 ^ 8) with 256.
  rewrite Z.rem_mul_r by (try apply Z.pow_nonzero; lia). lia.
Qed.

(** ** Floats as their bits

    A NaN is sent as the default quiet NaN: payloads of NaNs are not modelled. *)

Definition sign_bit (s : bool) : Z := if s then 2 ^ 31 else 0.
Definition bits_of_f32 (x : f32) : Z :=
  match x with
  | S754_zero s => sign_bit s
  | S754_infinity s => sign_bit s + 255 * 2 ^ 23
  | S754_nan => 255 * 2 ^ 23 + 2 ^ 22
  | S754_finite s m e =>
      if Zpos m <? 2 ^ 23 then sign_bit s + Zpos m
      else sign_bit s + (e + 150) * 2 ^ 23 + (Zpos m - 2 ^ 23)
  end.
Definition f32_of_bits (w : Z) : f32 :=
  let s := Z.odd (w `div` 2 ^ 31) in
  let e := (w `div` 2 ^ 23) `mod` 256 in
  let m := w `mod` 2 ^ 23 in
  if e =? 255 then (if m =? 0 then S754_infinity s else S754_nan)
  else if e =? 0 then (if m =? 0 then S754_zero s else S754_finite s (Z.to_pos m) (-149))
  else S754_finite s (Z.to_pos (m + 2 ^ 23)) (e - 150).

(** The fields of a word. *)
Lemma f32_of_fields s e m : 0 ≤ e < 256 → 0 ≤ m < 2 ^ 23 →
  f32_of_bits (sign_bit s + e * 2 ^ 23 + m) =
    if e =? 255 then (if m =? 0 then S754_infinity s else S754_nan)
    else if e =? 0 then (if m =? 0 then S754_zero s else S754_finite s (Z.to_pos m) (-149))
    else S754_finite s (Z.to_pos (m + 2 ^ 23)) (e - 150).
Proof.
  intros He Hm. unfold f32_of_bits.
  assert (sign_bit s + e * 2 ^ 23 + m = (Z.b2z s * 256 + e) * 2 ^ 23 + m) as -> by (destruct s; cbn; lia).
  assert (((Z.b2z s * 256 + e) * 2 ^ 23 + m) `div` 2 ^ 31 = Z.b2z s) as ->.
  { destruct s; cbn [Z.b2z]; Z.to_euclidean_division_equations; lia. }
  rewrite Z.div_add_l, (Z.div_small m) by lia.
  assert ((Z.b2z s * 256 + e + 0) `mod` 256 = e) as -> by (destruct s; cbn [Z.b2z]; Z.to_euclidean_division_equations; lia).
  rewrite Z.add_comm, Z.mod_add, Z.mod_small by lia. by destruct s.
Qed.

(** Sending the bits of a float loses nothing. *)
Lemma f32_bits_roundtrip x : valid_binary prec32 emax32 x = true → f32_of_bits (bits_of_f32 x) = x.
Proof.
  intros Hx. destruct x as [s|s| |s m e]; [by destruct s..|done|].
  cbn [valid_binary] in Hx. apply bounded_spec in Hx as [Hf He].
  unfold fexp, emin, prec32, emax32 in *. cbn [Z.sub Z.add Z.opp] in *.
  pose proof (Zdigits2_bounds (Zpos m) ltac:(lia)) as [Hd1 Hd2].
  assert (Zdigits2 (Zpos m) ≤ 24) as Hd by lia.
  pose proof (Z.pow_le_mono_r 2 _ 24 ltac:(lia) Hd) as Hm.
  cbn [bits_of_f32]. destruct (Z.ltb_spec (Zpos m) (2 ^ 23)) as [Hs|Hs].
  - assert (Zdigits2 (Zpos m) ≤ 23) by (apply Zdigits2_le_pow; lia).
    replace (sign_bit s + Zpos m) with (sign_bit s + 0 * 2 ^ 23 + Zpos m) by lia.
    rewrite f32_of_fields by lia. cbn [Z.eqb Z.to_pos]. f_equal. lia.
  - assert (Zdigits2 (Zpos m) = 24) by (apply Zdigits2_unique; lia).
    rewrite f32_of_fields by lia.
    assert ((e + 150 =? 255) = false) as -> by lia. assert ((e + 150 =? 0) = false) as -> by lia.
    f_equal; [|lia]. by replace (Zpos m - 2 ^ 23 + 2 ^ 23) with (Zpos m) by lia.
Qed.

Lemma bits_of_f32_range x : valid_binary prec32 emax32 x = true → is_unsigned 32 (bits_of_f32 x).
Proof.
  intros Hx. unfold is_unsigned. destruct x as [s|s| |s m e]; cbn [bits_of_f32]; [unfold sign_bit; destruct s; lia..|lia|].
  cbn [valid_binary] in Hx. apply bounded_spec in Hx as [Hf He].
  unfold fexp, emin, prec32, emax32 in *. cbn [Z.sub Z.add Z.opp] in *.
  pose proof (Zdigits2_bounds (Zpos m) ltac:(lia)) as [Hd1 Hd2].
  assert (Zdigits2 (Zpos m) ≤ 24) as Hd by lia.
  pose proof (Z.pow_le_mono_r 2 _ 24 ltac:(lia) Hd).
  unfold sign_bit. destruct (Z.ltb_spec (Zpos m) (2 ^ 23)), s; lia.
Qed.

(** ** Structures: words of given widths one after the other *)

Fixpoint encode_words (ws : list nat) (zs : list Z) : list Z :=
  match ws, zs with
  | w :: ws, z :: zs => le_bytes w z ++ encode_words ws zs
  | _, _ => []
  end.
Fixpoint decode_words (ws : list nat) (bs : list Z) : list Z :=
  match ws with
  | [] => []
  | w :: ws => of_le (take w bs) :: decode_words ws (drop w bs)
  end.

Lemma decode_encode_words ws : ∀ zs, length zs = length ws →
  decode_words ws (encode_words ws zs) = zip_with (λ w z, z `mod` 2 ^ (8 * Z.of_nat w)) ws zs.
Proof.
  induction ws as [|w ws IH]; intros [|z zs] Hl; try done. cbn [encode_words decode_words zip_with].
  rewrite take_app_length', drop_app_length' by (by rewrite length_le_bytes). rewrite of_le_bytes, IH; [done|].
  cbn in Hl. lia.
Qed.

Lemma length_encode_words ws : ∀ zs, length zs = length ws → length (encode_words ws zs) = sum_list ws.
Proof.
  induction ws as [|w ws IH]; intros [|z zs] Hl; try done. cbn [encode_words sum_list fold_right].
  rewrite length_app, length_le_bytes, IH; [done|]. cbn in Hl. lia.
Qed.

(** *** Joint states (252 bytes) *)

Record ZmqJointInfo := mkZmqJointInfo {
  z_joint_pos : list f32; z_joint_vel : list f32; z_joint_tor : list f32;      (* ten each *)
  z_temperature : list f32; z_idc_current : list f32; z_joint_age_ms : list f32;
  z_msg_id : Z; z_joint_num : Z; z_msg_type : Z; z_measured_idc_current : f32;
}.

Definition kMaxWireJoints : nat := 10.
Definition joint_info_layout : list nat := replicate 60 4%nat ++ [4; 2; 2; 4]%nat.

(** An array of ten floats, the rest zero-initialised. *)
Definition wire_array (xs : list f32) : list f32 := take 10 (xs ++ replicate 10 f0).

Definition encode_joint_info (z : ZmqJointInfo) : list Z :=
  encode_words joint_info_layout
    (map bits_of_f32 (z_joint_pos z ++ z_joint_vel z ++ z_joint_tor z ++
                      z_temperature z ++ z_idc_current z ++ z_joint_age_ms z)
     ++ [z_msg_id z; z_joint_num z; z_msg_type z; bits_of_f32 (z_measured_idc_current z)]).

Definition decode_joint_info (bs : list Z) : ZmqJointInfo :=
  let ws := decode_words joint_info_layout bs in
  let array i := map f32_of_bits (take 10 (drop (10 * i) ws)) in
  mkZmqJointInfo (array 0%nat) (array 1%nat) (array 2%nat) (array 3%nat) (array 4%nat) (array 5%nat)
    (i32 (nth 60 ws 0)) (i16 (nth 61 ws 0)) (i16 (nth 62 ws 0)) (f32_of_bits (nth 63 ws 0)).

(** *** Commands and device information (88 bytes) *)

Record ZmqParams := mkZmqParams {
  z_key : Z;                            (* command, info_key *)
  z_num_param_float : Z; z_num_param_int : Z;
  z_param_float : list f32; z_param_int : list Z;
}.
Definition params_layout : list nat := [2; 2; 2; 2]%nat ++ replicate 20 4%nat.

Definition encode_params (z : ZmqParams) : list Z :=
  encode_words params_layout
    ([z_key z; z_num_param_float z; z_num_param_int z; 0] ++ map bits_of_f32 (z_param_float z) ++ z_param_int z).

Definition decode_params (bs : list Z) : ZmqParams :=
  let ws := decode_words params_layout bs in
  mkZmqParams (i16 (nth 0 ws 0)) (i16 (nth 1 ws 0)) (i16 (nth 2 ws 0))
    (map f32_of_bits (take 10 (drop 4 ws))) (map i32 (take 10 (drop 14 ws))).

(** *** Operator inputs (44 bytes) *)

Record ZmqJoystickInfo := mkZmqJoystickInfo {
  z_mode : Z; z_side : Z; z_channel : list f32; z_channel_num : Z; z_button : list Z; z_button_num : Z;
  z_raw_channel : list Z;
}.
Definition joystick_layout : list nat :=
  ([1; 1; 2] ++ replicate 5 4 ++ [1] ++ replicate 5 1 ++ [1; 1] ++ replicate 5 2 ++ [2])%nat.

Definition encode_joystick (z : ZmqJoystickInfo) : list Z :=
  encode_words joystick_layout
    ([z_mode z; z_side z; 0] ++ map bits_of_f32 (z_channel z) ++ [z_channel_num z] ++ z_button z ++
     [z_button_num z; 0] ++ z_raw_channel z ++ [0]).

Definition decode_joystick (bs : list Z) : ZmqJoystickInfo :=
  let ws := decode_words joystick_layout bs in
  mkZmqJoystickInfo (swrap 8 (nth 0 ws 0)) (swrap 8 (nth 1 ws 0)) (map f32_of_bits (take 5 (drop 3 ws)))
    (swrap 8 (nth 8 ws 0)) (map (swrap 8) (take 5 (drop 9 ws))) (swrap 8 (nth 14 ws 0))
    (map i16 (take 5 (drop 16 ws))).

(** The sizes that are asserted or documented. *)
Lemma joint_info_size : sum_list joint_info_layout = 252%nat.
Proof. done. Qed.
Lemma params_size : sum_list params_layout = 88%nat.
Proof. done. Qed.
Lemma joystick_size : sum_list joystick_layout = 44%nat.
Proof. done. Qed.

(** What the structure can hold. *)
Definition wire_floats (n : nat) (xs : list f32) : Prop :=
  length xs = n ∧ Forall (λ x, valid_binary prec32 emax32 x = true) xs.

Record joint_info_ok (z : ZmqJointInfo) : Prop := {
  ok_pos : wire_floats 10 (z_joint_pos z); ok_vel : wire_floats 10 (z_joint_vel z);
  ok_tor : wire_floats 10 (z_joint_tor z); ok_temperature : wire_floats 10 (z_temperature z);
  ok_idc : wire_floats 10 (z_idc_current z); ok_age : wire_floats 10 (z_joint_age_ms z);
  ok_id : - 2 ^ 31 ≤ z_msg_id z < 2 ^ 31; ok_num : - 2 ^ 15 ≤ z_joint_num z < 2 ^ 15;
  ok_type : - 2 ^ 15 ≤ z_msg_type z < 2 ^ 15;
  ok_measured : valid_binary prec32 emax32 (z_measured_idc_current z) = true;
}.

(** A block of floats among the words. *)
Lemma decode_floats xs n : wire_floats n xs →
  map f32_of_bits (zip_with (λ w z, z `mod` 2 ^ (8 * Z.of_nat w)) (replicate n 4%nat) (map bits_of_f32 xs)) = xs.
Proof.
  intros [<- Hv]. induction Hv as [|x xs Hx Hv IH]; [done|]. cbn [length replicate map zip_with].
  rewrite Z.mod_small by (apply bits_of_f32_range, Hx). by rewrite f32_bits_roundtrip, IH.
Qed.

Lemma length_words ws zs : length ws = length zs →
  length (zip_with (λ w z, z `mod` 2 ^ (8 * Z.of_nat w)) ws zs) = length ws.
Proof. intros. rewrite length_zip_with. lia. Qed.

Lemma swrap_mod w z : 0 < w → - 2 ^ (w - 1) ≤ z < 2 ^ (w - 1) → swrap w (z `mod` 2 ^ w) = z.
Proof.
  intros Hw Hz. unfold swrap. rewrite Zplus_mod_idemp_l. by apply swrap_small.
Qed.

(** The [i]-th of the blocks of [n] words at the head. *)
Lemma take_block {T} n (bss : list (list T)) rest : Forall (λ b, length b = n) bss →
  ∀ i b, bss !! i = Some b → take n (drop (n * i) (concat bss ++ rest)) = b.
Proof.
  induction 1 as [|b bss Hb _ IH]; intros [|i] b'; cbn [lookup list_lookup concat]; try done.
  - intros [= ->]. rewrite Nat.mul_0_r, drop_0, <- app_assoc. by rewrite take_app_length' by done.
  - intros Hi. rewrite <- app_assoc. replace (n * S i)%nat with (n + n * i)%nat by lia.
    rewrite <- drop_drop, drop_app_length' by done. by apply IH.
Qed.

Lemma length_blocks {T} n (bss : list (list T)) : Forall (λ b, length b = n) bss →
  length (concat bss) = (n * length bss)%nat.
Proof. induction 1 as [|b bss Hb _ IH]; cbn; [lia|]. rewrite length_app, IH. lia. Qed.

Definition float_words (xs : list f32) : list Z :=
  zip_with (λ w z, z `mod` 2 ^ (8 * Z.of_nat w)) (replicate (length xs) 4%nat) (map bits_of_f32 xs).

Lemma length_float_words xs : length (float_words xs) = length xs.
Proof. unfold float_words. rewrite length_zip_with, length_replicate, length_map. lia. Qed.

Lemma zip_float_words xss : ∀ ws zs,
  zip_with (λ w z, z `mod` 2 ^ (8 * Z.of_nat w)) (replicate (length (concat xss)) 4%nat ++ ws)
    (map bits_of_f32 (concat xss) ++ zs) =
  concat (map float_words xss) ++ zip_with (λ w z, z `mod` 2 ^ (8 * Z.of_nat w)) ws zs.
Proof.
  induction xss as [|xs xss IH]; intros ws zs; [done|]. cbn [concat map].
  rewrite length_app, replicate_add, map_app, <- !app_assoc, zip_with_app, IH; [done|].
  by rewrite length_replicate, length_map.
Qed.

Lemma joint_info_roundtrip z : joint_info_ok z → decode_joint_info (encode_joint_info z) = z.
Proof.
  intros Hz. destruct z as [p v t te c a id nu ty me].
  set (xss := [p; v; t; te; c; a]).
  assert (Forall (wire_floats 10) xss) as Hxss by (destruct Hz; do 6 (constructor; [assumption|]); constructor).
  destruct Hz as [_ _ _ _ _ _ Hid Hnu Hty Hme]. cbn [z_msg_id z_joint_num z_msg_type z_measured_idc_current] in *.
  unfold decode_joint_info, encode_joint_info. cbv zeta.
  cbn [z_joint_pos z_joint_vel z_joint_tor z_temperature z_idc_current z_joint_age_ms z_msg_id z_joint_num
       z_msg_type z_measured_idc_current].
  assert (p ++ v ++ t ++ te ++ c ++ a = concat xss) as -> by (cbn; by rewrite app_nil_r).
  assert (length (concat xss) = 60%nat) as Hlen.
  { rewrite (length_blocks 10); [done|]. eapply Forall_impl; [exact Hxss|]. by intros ? []. }
  rewrite decode_encode_words by (rewrite length_app, length_map, Hlen; done).
  assert (joint_info_layout = replicate (length (concat xss)) 4 ++ [4; 2; 2; 4])%nat as -> by (by rewrite Hlen).
  rewrite zip_float_words.
  set (bss := map float_words xss). set (rest := zip_with _ _ _).
  assert (Forall (λ b, length b = 10%nat) bss) as Hb.
  { apply Forall_map. eapply Forall_impl; [exact Hxss|]. intros xs [E _]. by rewrite length_float_words. }
  assert (∀ i xs, xss !! i = Some xs → map f32_of_bits (take 10 (drop (10 * i) (concat bss ++ rest))) = xs) as Hget.
  { intros i xs Hi. rewrite (take_block 10 bss rest Hb i (float_words xs))
      by (unfold bss; by rewrite list_lookup_fmap, Hi).
    pose proof (Forall_lookup_1 _ _ _ _ Hxss Hi) as Hw. unfold float_words.
    replace (length xs) with 10%nat by (symmetry; apply Hw). by apply decode_floats. }
  assert (∀ j k, j = (60 + k)%nat → nth j (concat bss ++ rest) 0 = nth k rest 0) as Hnth.
  { intros j k ->. rewrite app_nth2; rewrite (length_blocks 10 bss Hb); [f_equal; cbn; lia|cbn; lia]. }
  rewrite (Hget 0%nat p), (Hget 1%nat v), (Hget 2%nat t), (Hget 3%nat te), (Hget 4%nat c), (Hget 5%nat a) by done.
  rewrite (Hnth 60%nat 0%nat), (Hnth 61%nat 1%nat), (Hnth 62%nat 2%nat), (Hnth 63%nat 3%nat) by done. subst rest. cbn [zip_with nth].
  f_equal.
  - by apply swrap_mod.
  - by apply swrap_mod.
  - by apply swrap_mod.
  - rewrite Z.mod_small by (apply bits_of_f32_range, Hme). by apply f32_bits_roundtrip.
Qed.
