(* ===== verification/Topic.v ===== *)
(** * Topics (src/pi_topic.cpp, pi_topic_zmq.cpp and their headers)

    What a device does with the messages it receives and publishes.  A ZeroMQ socket
    is a queue of frames; [None] is a closed one.  A subscriber's queue holds the frames
    not received yet, a publisher's those that wait to be sent to its subscriber; it takes
    them off by itself ([TopicFacts.Link] models that).  A queue has its high-water mark: a
    publisher drops what it is given beyond it ([send]), and takes no notice.  Binding and
    connecting are in [TopicInit].

    The topic is part of the device's state [S]; [TopicDevice] is what it calls there. *)

From S2P Require Import Prelude.
From S2P Require Import FloatSpec.
From S2P Require Import Control.
From S2P Require Import Joint.
From S2P Require Import Device.
From S2P Require Import Wire.

(** ** Constants and messages *)

Definition DEVICE_COMMAND_STOP : Z := 1.
Definition DEVICE_COMMAND_SET_EFFECTOR_MIN_MAX_POS : Z := 10.
Definition DEVICE_COMMAND_SET_DISTANCE_TO_TORQUE : Z := 11.
Definition DEVICE_COMMAND_SET_EFFECTOR_KD : Z := 12.
Definition DEVICE_COMMAND_MOVE_TO_READY_POS : Z := 13.
Definition DEVICE_COMMAND_PAUSE_LEADER_COMMAND_LISTENING : Z := 14.
Definition DEVICE_COMMAND_RESUME_LEADER_COMMAND_LISTENING : Z := 15.
Definition DEVICE_COMMAND_MOVE_TO_READY_POS_AND_PAUSE_LEADER_COMMAND_LISTENING : Z := 16.
Definition DEVICE_COMMAND_MOVE_TO_READY_AND_STOP : Z := 17.
Definition DEVICE_COMMAND_ENTER_GRAVITY_COMPENSATION : Z := 30.
Definition DEVICE_COMMAND_ENABLE_FORCE_FEEDBACK : Z := 31.
Definition DEVICE_COMMAND_SET_FORCE_FEEDBACK_GAIN : Z := 32.
Definition DEVICE_COMMAND_HOLD : Z := 33.
Definition DEVICE_COMMAND_HEARTBEAT : Z := 34.
Definition DEVICE_COMMAND_SET_TORQ_RESCALE : Z := 35.
Definition DEVICE_INFO_COMMAND_ACK : Z := 31.
Definition MsgType_JOINT_INFO : Z := 1.

Record MsgCommand := mkMsgCommand {
  command_ : Z; num_param_float_ : Z; num_param_int_ : Z; param_float_ : list f32; param_int_ : list Z;
}.

Inductive Side := LEFT | RIGHT.
Definition Side_value (s : Side) : Z := match s with LEFT => 0 | RIGHT => 1 end.

Record MsgJoystick := mkMsgJoystick {
  side_ : Side; channel_ : list f32; button_ : list Z; raw_channel_ : list Z; mode_code_ : Z;
}.

(** ** Topic names and ports *)

Definition bytes_of_string (s : string) : list Z := map (λ c, Z.of_N (Ascii.N_of_ascii c)) (String.list_ascii_of_string s).
Definition TOPIC_JOYSTICK_INFO_LEFT : list Z := bytes_of_string "joystick_info_left".
Definition TOPIC_JOYSTICK_INFO_RIGHT : list Z := bytes_of_string "joystick_info_right".
Definition TOPIC_EFFECTOR_INFO : list Z := bytes_of_string "effector_info".

Definition underscore : Z := 95.
(** ['.'] and ['-'] become ['_']. *)
Definition generate_unique_topic_name (base_topic_name device_model device_id : list Z) : list Z :=
  map (λ c, if (c =? 46) || (c =? 45) then underscore else c)
    (base_topic_name ++ [underscore] ++ device_model ++ [underscore] ++ device_id).

Definition BASE_PORT_JOINT_DYNAMIC : Z := 8500.
Definition PORT_RANGE_JOINT_DYNAMIC : Z := 1000.
Definition kZmqPortProbeCandidatesPub : Z := 16.
Definition kZmqPortProbeCandidatesSub : Z := kZmqPortProbeCandidatesPub.

Definition fnv1a_32 (s : list Z) : Z := foldl (λ h c, u32 (Z.lxor h c * 16777619)) 2166136261 s.

(** The loop away from the multiples of five ends after one round. *)
Fixpoint skip_fives (fuel : nat) (step : Z) : Z :=
  match fuel with
  | O => step
  | S fuel => if step `mod` 5 =? 0 then skip_fives fuel (step + 2) else step
  end.

Definition probe_step (h range : Z) : Z :=
  if range <=? 1 then 1
  else
    let step := u32 h `mod` range in
    let step := if step =? 0 then 1 else step in
    let step := if step `mod` 2 =? 0 then step + 1 else step in
    let step := skip_fives 5 step `mod` range in
    if step =? 0 then 1 else step.

Definition candidate_port (h1 step i : Z) : Z :=
  BASE_PORT_JOINT_DYNAMIC + u32 (h1 + u32 (i * step)) `mod` PORT_RANGE_JOINT_DYNAMIC.

Definition probe_suffix : list Z := 31 :: bytes_of_string "probe".

Definition generate_port_candidates_from_topic (topic_name : list Z) (max_candidates : Z) : list Z :=
  if max_candidates <=? 0 then []
  else
    let k := Z.min max_candidates PORT_RANGE_JOINT_DYNAMIC in
    let h1 := fnv1a_32 topic_name in
    let h2 := fnv1a_32 (topic_name ++ probe_suffix) in
    map (λ i, candidate_port h1 (probe_step h2 PORT_RANGE_JOINT_DYNAMIC) (Z.of_nat i)) (seq 0 (Z.to_nat k)).

Definition generate_port_from_topic (topic_name : list Z) : Z :=
  match generate_port_candidates_from_topic topic_name 1 with p :: _ => p | [] => BASE_PORT_JOINT_DYNAMIC end.

(** ** Sockets *)

Record Frame := mkFrame { frame_data : list Z; frame_more : bool }.
Abbreviation Socket := (option (list Frame)).

(** The high-water marks that [init_port] sets, in messages. *)
Definition kZmqSndHwm : Z := 2.
Definition kZmqRcvHwm : Z := 2.

(** The messages in a queue: the frames that no other part follows. *)
Definition queued (q : list Frame) : Z := Z.of_nat (length (filter (λ f, frame_more f = false) q)).

(** A two-part message; a publisher at its mark drops it. *)
Definition message (topic payload : list Z) : list Frame := [mkFrame topic true; mkFrame payload false].
Definition send (topic payload : list Z) (s : Socket) : Socket :=
  q ← s; Some (if kZmqSndHwm <=? queued q then q else q ++ message topic payload).

(** [drain_sub_to_latest]: the newest payload of the right size, the first error.  The
    second frame of a message follows its first in the queue, when it has come. *)
Fixpoint drain_sub_to_latest (expected_topic : list Z) (expected_size : nat) (q : list Frame)
    (latest : option (list Z)) (first_error : ReturnCode) : option (list Z) * ReturnCode :=
  let drain := drain_sub_to_latest expected_topic expected_size in
  match q with
  | [] => (latest, first_error)
  | topic :: q =>
      let invalid := keep_first first_error INVALID_PARAM in
      if bool_decide (frame_data topic = []) || negb (bool_decide (frame_data topic = expected_topic)) then
        if frame_more topic
        then match q with [] => (latest, invalid) | _ :: q => drain q latest invalid end
        else drain q latest invalid
      else if negb (frame_more topic) then drain q latest invalid
      else
        match q with
        | [] => (latest, keep_first first_error FAIL)
        | data :: q =>
            if bool_decide (frame_data data = []) || negb (bool_decide (length (frame_data data) = expected_size))
            then drain q latest invalid
            else drain q (Some (frame_data data)) first_error
        end
  end.

(** The lifecycle socket: one message per step.  [inl]: an error; [inr]: a command. *)
Definition receive_command (lifecycle : list Z) (q : list Frame) : option (ReturnCode + list Z) * list Frame :=
  match q with
  | [] => (None, [])
  | topic :: q =>
      let invalid := Some (inl INVALID_PARAM) in
      if bool_decide (frame_data topic = []) || negb (bool_decide (frame_data topic = lifecycle)) then
        (invalid, if frame_more topic then tail q else q)
      else if negb (frame_more topic) then (invalid, q)
      else
        match q with
        | [] => (Some (inl FAIL), [])
        | data :: q =>
            if bool_decide (frame_data data = []) || negb (bool_decide (length (frame_data data) = 88%nat))
            then (invalid, q) else (Some (inr (frame_data data)), q)
        end
  end.

(** ** State *)

Record Topic := mkTopic {
  is_running_ : bool;
  pause_leader_command_listening_ : bool;
  has_device : bool;                                    (* p_device_ is not null *)
  msg_id_generation_ : Z;
  control_period_ : Z;
  prev_time_ : prof_time_t;
  topic_joint_ : list Z; topic_follower_joint_ : list Z; topic_state_ : list Z;
  topic_direct_command_ : list Z; topic_lifecycle_ : list Z; topic_status_ : list Z; topic_joystick_ : list Z;
  pub_joint_ : Socket; pub_follower_joint_ : Socket; pub_device_info_ : Socket;
  pub_effector_info_ : Socket; pub_joystick_ : Socket;
  sub_command_ : Socket; sub_joint_ : Socket; sub_direct_joint_ : Socket; sub_follower_joint_ : Socket;
  sub_joystick_left_ : Socket; sub_joystick_right_ : Socket;
}.
#[export] Instance eta_Topic : Eta Topic := λ r, mkTopic
  (is_running_ r) (pause_leader_command_listening_ r) (has_device r) (msg_id_generation_ r)
  (control_period_ r) (prev_time_ r) (topic_joint_ r) (topic_follower_joint_ r) (topic_state_ r)
  (topic_direct_command_ r) (topic_lifecycle_ r) (topic_status_ r) (topic_joystick_ r) (pub_joint_ r)
  (pub_follower_joint_ r) (pub_device_info_ r) (pub_effector_info_ r) (pub_joystick_ r) (sub_command_ r)
  (sub_joint_ r) (sub_direct_joint_ r) (sub_follower_joint_ r) (sub_joystick_left_ r) (sub_joystick_right_ r).

(** ** Publishing *)

Definition wire_ints (xs : list Z) : list Z := take 10 (xs ++ replicate 10 0).

Definition zmq_of_joints (dof_total msg_id : Z) (msg : MsgJoints) : ZmqJointInfo := mkZmqJointInfo
  (wire_array (map msg_pos msg)) (wire_array (map msg_vel msg)) (wire_array (map msg_tor msg))
  (wire_array (map msg_temperature msg)) (wire_array (map msg_idc_current msg))
  (wire_array (map msg_frame_age_ms msg)) (i32 msg_id) (i16 dof_total) MsgType_JOINT_INFO f0.

(** [publish(const MsgJoints&)] of a device with these numbers of joints and role. *)
Definition publish_joints (dof_total : Z) (role : Role) (msg : MsgJoints) : St Topic ReturnCode :=
  t ← get_state;
  if (dof_total <? 0) || (Z.of_nat kMaxWireJoints <? dof_total) then mret INVALID_PARAM
  else if negb (Z.of_nat (length msg) =? dof_total) then mret INVALID_PARAM
  else if negb (has_device t) then mret NOT_INITIALIZED
  else if bool_decide (pub_follower_joint_ t = None) then mret NOT_INITIALIZED
  else
    let payload := encode_joint_info (zmq_of_joints dof_total (msg_id_generation_ t) msg) in
    modify (λ t, t <| pub_follower_joint_ := send (topic_state_ t) payload (pub_follower_joint_ t) |>);;
    let published := modify (λ t, t <| msg_id_generation_ := u32 (msg_id_generation_ t + 1) |>);; mret SUCCESS in
    match role with
    | LEADER =>
        if bool_decide (pub_joint_ t = None) then mret NOT_INITIALIZED
        else
          modify (λ t, t <| pub_joint_ := send (topic_joint_ t) payload (pub_joint_ t) |>);;
          published
    | FOLLOWER => published
    | ROLE_UNKNOWN => mret NOT_INITIALIZED
    end.

Definition zmq_of_info (msg : MsgDeviceInfo) : ZmqParams := mkZmqParams (i16 (info_key_ msg))
  (i16 (Z.of_nat (length (float_data_ msg)))) (i16 (Z.of_nat (length (int_data_ msg))))
  (wire_array (float_data_ msg)) (wire_ints (int_data_ msg)).

Definition publish_info (msg : MsgDeviceInfo) : St Topic ReturnCode :=
  let z := zmq_of_info msg in
  t ← get_state;
  if (10 <? z_num_param_float z) || (10 <? z_num_param_int z) then mret INVALID_PARAM
  else if bool_decide (pub_device_info_ t = None) then mret NOT_INITIALIZED
  else
    modify (λ t, t <| pub_device_info_ := send (topic_status_ t) (encode_params z) (pub_device_info_ t) |>);;
    mret SUCCESS.

(** The topic frame is the constant, terminated, not the name the socket was bound for. *)
Definition publish_effector_info (param_float : list f32) : St Topic ReturnCode :=
  t ← get_state;
  if (30 <? length param_float)%nat then mret INVALID_PARAM
  else if bool_decide (pub_effector_info_ t = None) then mret NOT_INITIALIZED
  else
    let payload := encode_words ([2; 2] ++ replicate 30 4)%nat
      ([i16 (Z.of_nat (length param_float)); 0] ++ map bits_of_f32 (take 30 (param_float ++ replicate 30 f0))) in
    modify (λ t, t <| pub_effector_info_ := send (TOPIC_EFFECTOR_INFO ++ [0]) payload (pub_effector_info_ t) |>);;
    mret SUCCESS.

Definition pad5 {T} (z : T) (xs : list T) : list T := take 5 (xs ++ replicate 5 z).

Definition publish_joystick (msg : MsgJoystick) : St Topic ReturnCode :=
  t ← get_state;
  if bool_decide (pub_joystick_ t = None) then mret NOT_INITIALIZED
  else
    let channel_num := Nat.min (length (channel_ msg)) 5 in
    let button_num := Nat.min (length (button_ msg)) 5 in
    let payload := encode_joystick (mkZmqJoystickInfo (mode_code_ msg) (Side_value (side_ msg))
      (pad5 f0 (channel_ msg)) (Z.of_nat channel_num) (pad5 0 (button_ msg)) (Z.of_nat button_num)
      (pad5 0 (take channel_num (raw_channel_ msg)))) in
    modify (λ t, t <| pub_joystick_ := send (topic_joystick_ t) payload (pub_joystick_ t) |>);;
    mret SUCCESS.

Definition Topic_stop : St Topic ReturnCode := modify (λ t, t <| is_running_ := false |>);; mret SUCCESS.
Definition set_pause_leader_command_listening (pause : bool) : St Topic unit :=
  modify (λ t, t <| pause_leader_command_listening_ := pause |>).

(** ** Receiving *)

Class TopicDevice (S : Type) `{DeviceObject S} := {
  td_topic : S → Topic;
  td_update_topic : (Topic → Topic) → S → S;
  td_dof_total : S → Z;
  td_sleep_for : Z → St S unit;                          (* milliseconds *)
  td_request_move_to_ready_position : Z → St S unit;
  td_request_move_to_ready_and_stop : Z → St S unit;
  td_set_runtime_gravity_float : bool → f32 → St S ReturnCode;
  td_set_runtime_force_feedback_gain : f32 → St S ReturnCode;
  td_set_runtime_torq_rescale : list f32 → St S ReturnCode;
  td_apply_action : MsgJoints → St S ReturnCode;
  td_apply_joystick : MsgJoystick → St S ReturnCode;
  td_process_follower_msg : MsgJoints → St S ReturnCode;
  (* dynamic_cast<DeviceEffector*>(p_device_) *)
  td_is_effector : S → bool;
  td_set_effector_min_max_pos : f32 → f32 → St S ReturnCode;
  td_set_distance_to_torque : f32 → St S ReturnCode;
  td_set_effector_kd : f32 → St S ReturnCode;
}.

Section receiving.
Context {S : Type} `{TopicDevice S}.

Definition get_topic : St S Topic := gets td_topic.
Definition on_topic (f : Topic → Topic) : St S unit := modify (td_update_topic f).

Definition with_device (m : St S ReturnCode) : St S ReturnCode :=
  t ← get_topic; if has_device t then m else mret NOT_INITIALIZED.

Definition is_role (r : Role) : St S bool :=
  t ← get_topic; d ← get_base; mret (has_device t && bool_decide (role_ (view d) = r)).
Definition pause_if_follower (pause : bool) : St S unit :=
  follower ← is_role FOLLOWER;
  when_ follower (on_topic (λ t, t <| pause_leader_command_listening_ := pause |>)).

Definition request_id_of (msg : MsgCommand) : Z := if 0 <? num_param_int_ msg then nth 0 (param_int_ msg) 0 else 0.
Definition counts_match (msg : MsgCommand) : bool :=
  (0 <=? num_param_float_ msg) && (num_param_float_ msg =? Z.of_nat (length (param_float_ msg))) &&
  (0 <=? num_param_int_ msg) && (num_param_int_ msg =? Z.of_nat (length (param_int_ msg))).
Definition float_param (msg : MsgCommand) (i : nat) : f32 := nth i (param_float_ msg) f0.

(** A command for effectors, with its number of parameters. *)
Definition effector_command (msg : MsgCommand) (n : Z) (m : St S ReturnCode) : St S ReturnCode :=
  if negb (num_param_float_ msg =? n) then mret INVALID_PARAM
  else
    with_device (s ← get_state; if td_is_effector s then m else mret NOT_SUPPORTED).

Definition dispatch_command (msg : MsgCommand) : St S ReturnCode :=
  let c := command_ msg in
  if c =? DEVICE_COMMAND_STOP then on_topic (λ t, t <| is_running_ := false |>);; mret SUCCESS
  else if c =? DEVICE_COMMAND_PAUSE_LEADER_COMMAND_LISTENING then pause_if_follower true;; mret SUCCESS
  else if c =? DEVICE_COMMAND_RESUME_LEADER_COMMAND_LISTENING then pause_if_follower false;; mret SUCCESS
  else if c =? DEVICE_COMMAND_MOVE_TO_READY_POS_AND_PAUSE_LEADER_COMMAND_LISTENING then
    with_device (pause_if_follower true;; td_request_move_to_ready_position (request_id_of msg);; mret SUCCESS)
  else if c =? DEVICE_COMMAND_MOVE_TO_READY_AND_STOP then
    with_device (pause_if_follower true;; td_request_move_to_ready_and_stop (request_id_of msg);; mret SUCCESS)
  else if c =? DEVICE_COMMAND_MOVE_TO_READY_POS then
    with_device (td_request_move_to_ready_position (request_id_of msg);; mret SUCCESS)
  else if c =? DEVICE_COMMAND_ENTER_GRAVITY_COMPENSATION then
    with_device
      (d ← get_base;
       if bool_decide (role_ (view d) = FOLLOWER) then
         td_set_runtime_gravity_float true
           (if 0 <? num_param_float_ msg then float_param msg 0 else kGravityFloatAbortRadDefault)
       else set_runtime_force_feedback false (- f1)%f32)
  else if c =? DEVICE_COMMAND_ENABLE_FORCE_FEEDBACK then
    with_device
      (d ← get_base;
       set_runtime_force_feedback true
         (if 0 <? num_param_float_ msg then float_param msg 0 else cla_force_feedback (view d)))
  else if c =? DEVICE_COMMAND_SET_FORCE_FEEDBACK_GAIN then
    with_device
      (if negb (num_param_float_ msg =? 1) then mret INVALID_PARAM
       else td_set_runtime_force_feedback_gain (float_param msg 0))
  else if c =? DEVICE_COMMAND_HOLD then with_device runtime_hold
  else if c =? DEVICE_COMMAND_SET_TORQ_RESCALE then
    with_device
      (if (num_param_float_ msg <? 1) || (Z.of_nat (length (param_float_ msg)) <? num_param_float_ msg)
       then mret INVALID_PARAM
       else td_set_runtime_torq_rescale (take (Z.to_nat (num_param_float_ msg)) (param_float_ msg)))
  else if c =? DEVICE_COMMAND_SET_EFFECTOR_MIN_MAX_POS then
    effector_command msg 2 (td_set_effector_min_max_pos (float_param msg 0) (float_param msg 1))
  else if c =? DEVICE_COMMAND_SET_DISTANCE_TO_TORQUE then
    effector_command msg 1 (td_set_distance_to_torque (float_param msg 0))
  else if c =? DEVICE_COMMAND_SET_EFFECTOR_KD then
    effector_command msg 1 (td_set_effector_kd (float_param msg 0))
  else mret SUCCESS.

(** The commands that are served in an emergency recovery. *)
Definition recovery_escape (c : Z) : bool :=
  (c =? DEVICE_COMMAND_STOP) || (c =? DEVICE_COMMAND_MOVE_TO_READY_AND_STOP).

Definition process_command (msg : MsgCommand) : St S ReturnCode :=
  t ← get_topic;
  d ← get_base;
  if command_ msg =? DEVICE_COMMAND_HEARTBEAT then
    when_ (has_device t) note_client_heartbeat;; mret SUCCESS
  else if has_device t && is_in_emergency_recovery d && negb (recovery_escape (command_ msg)) then mret BUSY
  else if negb (command_ msg =? DEVICE_COMMAND_STOP) && negb (counts_match msg) then mret INVALID_PARAM
  else dispatch_command msg.

Definition process_leader_joints (msg : MsgJoints) : St S ReturnCode :=
  with_device
    (t ← get_topic;
     d ← get_base;
     if is_in_emergency_recovery d then mret SUCCESS
     else if bool_decide (role_ (view d) = FOLLOWER) && pause_leader_command_listening_ t then mret SUCCESS
     else td_apply_action msg).

Definition process_direct_msg (msg : MsgJoints) : St S ReturnCode :=
  with_device
    (d ← get_base;
     if negb (bool_decide (role_ (view d) = FOLLOWER)) then mret NOT_SUPPORTED
     else if rejects_direct_commands d then mret BUSY
     else td_apply_action msg).

Definition process_leader_joystick (msg : MsgJoystick) : St S ReturnCode :=
  with_device
    (d ← get_base; if is_in_emergency_recovery d then mret SUCCESS else td_apply_joystick msg).

Definition process_follower_joints (msg : MsgJoints) : St S ReturnCode :=
  with_device (td_process_follower_msg msg).

(** *** From the wire *)

Definition joint_info_count_is_valid (z : ZmqJointInfo) (device_dof : Z) : bool :=
  (0 <=? device_dof) && (device_dof <=? Z.of_nat kMaxWireJoints) && (z_joint_num z =? device_dof).

Definition joints_of_zmq (dof_total : Z) (age : nat → f32) (z : ZmqJointInfo) : MsgJoints :=
  map (λ i, mkDataJoint (nth i (z_joint_pos z) f0) (nth i (z_joint_vel z) f0) (nth i (z_joint_tor z) f0)
              (nth i (z_temperature z) f0) (nth i (z_idc_current z) f0) (age i)) (seq 0 (Z.to_nat dof_total)).

(** The age of a command is recorded as unknown. *)
Definition process_leader_msg_joint (direct : bool) (payload : list Z) : St S ReturnCode :=
  let z := decode_joint_info payload in
  s ← get_state;
  if negb (z_msg_type z =? MsgType_JOINT_INFO) then mret INVALID_PARAM
  else if negb (joint_info_count_is_valid z (td_dof_total s)) then mret INVALID_PARAM
  else
    let msg := joints_of_zmq (td_dof_total s) (λ _, (- f1)%f32) z in
    if direct then process_direct_msg msg else process_leader_joints msg.

Definition process_follower_msg_joint (payload : list Z) : St S ReturnCode :=
  let z := decode_joint_info payload in
  s ← get_state;
  if negb (z_msg_type z =? MsgType_JOINT_INFO) then mret INVALID_PARAM
  else if negb (joint_info_count_is_valid z (td_dof_total s)) then mret INVALID_PARAM
  else process_follower_joints (joints_of_zmq (td_dof_total s) (λ i, nth i (z_joint_age_ms z) f0) z).

Definition process_leader_msg_joystick (topic_side : Side) (payload : list Z) : St S ReturnCode :=
  let z := decode_joystick payload in
  let channel_num := u8 (z_channel_num z) in
  let button_num := u8 (z_button_num z) in
  if (5 <? channel_num) || (5 <? button_num) then mret INVALID_PARAM
  else
    let side := if z_side z =? Side_value LEFT then LEFT else if z_side z =? Side_value RIGHT then RIGHT
                else topic_side in
    process_leader_joystick (mkMsgJoystick side (take (Z.to_nat channel_num) (z_channel z))
      (take (Z.to_nat button_num) (z_button z)) (take (Z.to_nat channel_num) (z_raw_channel z)) (z_mode z)).

(** *** [TopicZmq::step] *)

Definition handle_command (payload : list Z) : St S ReturnCode :=
  let z := decode_params payload in
  let nf := z_num_param_float z in
  let ni := z_num_param_int z in
  if (nf <? 0) || (10 <? nf) || (ni <? 0) || (10 <? ni) then mret INVALID_PARAM
  else
    let msg := mkMsgCommand (z_key z) nf ni (take (Z.to_nat nf) (z_param_float z))
                 (take (Z.to_nat ni) (z_param_int z)) in
    command_result ← process_command msg;
    publish_device_info (mkMsgDeviceInfo DEVICE_INFO_COMMAND_ACK []
      [request_id_of msg; ReturnCode_value command_result; command_ msg]);;
    mret command_result.

Definition step_command : St S ReturnCode :=
  t ← get_topic;
  match sub_command_ t with
  | None => mret SUCCESS
  | Some q =>
      let '(received, q) := receive_command (topic_lifecycle_ t) q in
      on_topic (λ t, t <| sub_command_ := Some q |>);;
      match received with
      | None => mret SUCCESS
      | Some (inl error) => mret error
      | Some (inr payload) => handle_command payload
      end
  end.

(** One stream: drained, its newest payload processed. *)
Definition step_stream (get_socket : Topic → Socket) (set_socket : Socket → Topic → Topic)
    (name : Topic → list Z) (size : nat) (process : list Z → St S ReturnCode) (first_error : ReturnCode)
    : St S ReturnCode :=
  t ← get_topic;
  match get_socket t with
  | None => mret first_error
  | Some q =>
      let '(latest, error) := drain_sub_to_latest (name t) size q None SUCCESS in
      on_topic (set_socket (Some []));;
      let first_error := keep_first first_error error in
      match latest with
      | None => mret first_error
      | Some payload => rc ← process payload; mret (keep_first first_error rc)
      end
  end.

Definition step_streams (first_error : ReturnCode) : St S ReturnCode :=
  e ← step_stream sub_joint_ (λ q t, t <| sub_joint_ := q |>) topic_joint_ 252
        (process_leader_msg_joint false) first_error;
  e ← step_stream sub_direct_joint_ (λ q t, t <| sub_direct_joint_ := q |>) topic_direct_command_ 252
        (process_leader_msg_joint true) e;
  e ← step_stream sub_follower_joint_ (λ q t, t <| sub_follower_joint_ := q |>) topic_follower_joint_ 252
        process_follower_msg_joint e;
  e ← step_stream sub_joystick_left_ (λ q t, t <| sub_joystick_left_ := q |>) (λ _, TOPIC_JOYSTICK_INFO_LEFT) 44
        (process_leader_msg_joystick LEFT) e;
  step_stream sub_joystick_right_ (λ q t, t <| sub_joystick_right_ := q |>) (λ _, TOPIC_JOYSTICK_INFO_RIGHT) 44
        (process_leader_msg_joystick RIGHT) e.

Definition TopicZmq_step : St S ReturnCode :=
  first_error ← step_command;
  t ← get_topic;
  if negb (is_running_ t) then mret first_error else step_streams first_error.

Definition TopicZmq_sleep : St S ReturnCode :=
  curr_time ← clock_now;
  t ← get_topic;
  let time_to_sleep := control_period_ t - get_time_diff (prev_time_ t) curr_time in
  when_ (0 <? time_to_sleep) (td_sleep_for time_to_sleep);;
  now ← clock_now;
  on_topic (λ t, t <| prev_time_ := now |>);;
  mret SUCCESS.
End receiving.
