(* ===== verification/DeviceArm.v ===== *)
(** * Robot arms (src/pi_device_arm.cpp, pi_device_arm_can.cpp,
    pi_device_arm_serial.cpp, the spring control of pi_algo.cpp)

    An arm owns joints and an effector.  Its state is [Arm X]: its own fields, the
    joints, and the rest of the program [X]: the servos behind their driver, the
    effector, the algorithm, the topic and the clock, the interface [ArmWorld].

    [kind_] tells the subclasses apart; they override [set_control_mode] (and
    [DeviceArmSerial] wraps [move_to_ready_position] to log its error).
    [undefined_servo] and [undefined_long] are what undefined behaviour gives
    ([Joint], [Device]).  [init] is in [ArmInit]; the destructor parks once more
    ([arm_park_safely]) and has no definition of its own. *)

From S2P Require Import Prelude.
From S2P Require Import FloatSpec.
From S2P Require Import Control.
From S2P Require Import Filters.
From S2P Require Import CanBus.
From S2P Require Import Servo.
From S2P Require Import ServoConfig.
From S2P Require Import ServoDm.
From S2P Require Import Joint.
From S2P Require Import Device.
From S2P Require Import JointOwner.

(** ** State *)

Inductive ArmKind := ARM_CONTROLLER | ARM_CAN | ARM_SERIAL.
#[export] Instance ArmKind_eq_dec : EqDecision ArmKind.
Proof. solve_decision. Defined.

Class ArmWorld (X : Type) := {
  arm_world_device :: DeviceWorld X;
  (* p_driver_ *)
  aw_dead_servo_ids : X → list Z;                       (* a std::set: ascending *)
  (* p_algo_: the second list is the output vector *)
  aw_gravity_compensation : list f32 → list f32 → St X (ReturnCode * list f32);
  (* p_effector_ *)
  aw_has_effector : X → bool;
  aw_effector_role : X → Role;
  aw_effector_is_ready : X → bool;
  aw_effector_servo_ids : X → ReturnCode * list Z;
  aw_effector_last_failed_joint_id : X → Z;
  aw_effector_probe_failed_servo_id : St X Z;
  aw_effector_force_to_be_ready : St X unit;
  aw_effector_request_move_to_ready_position : Z → St X unit;
  aw_effector_set_control_mode : Role → ControlModeIntent → St X ReturnCode;
  aw_effector_set_runtime_force_feedback : bool → f32 → St X ReturnCode;
  aw_effector_set_runtime_force_feedback_gain : f32 → St X ReturnCode;
  aw_effector_park_safely : St X ReturnCode;
  aw_effector_verify_servos_operational : St X ReturnCode;
  aw_effector_start : Z → St X ReturnCode;
  aw_effector_stop : St X ReturnCode;
  aw_effector_sleep : St X ReturnCode;
  aw_effector_step : St X ReturnCode;
  aw_effector_process_follower_msg : MsgJoints → St X ReturnCode;
  aw_effector_apply_action : MsgJoints → St X ReturnCode;
  aw_effector_get_observation : MsgJoints → St X (ReturnCode * MsgJoints);
}.
#[export] Hint Mode ArmWorld ! : typeclass_instances.

Record Arm (X : Type) := mkArm {
  arm_base : DeviceBase;
  kind_ : ArmKind;
  world : X;
  joints_ : list Joint;
  joint_init_sequence_ : list Z;
  moving_joint_index_ : Z;
  joint_id_to_pointer_ : gmap Z nat;         (* the index of the joint in joints_ *)
  arm_tele_pos_ : list f32;
  arm_tele_vel_ : list f32;
  arm_tele_tor_ : list f32;
  arm_follower_pos_ : list f32;
  arm_follower_vel_ : list f32;
  arm_follower_tor_ : list f32;
  arm_follower_temperature_ : list f32;
  arm_follower_idc_current_ : list f32;
  follower_filters_ : list (Filter * Filter * Filter);   (* position, velocity, torque *)
  arm_target_tor_ : list f32;
  current_motor_positions_ : list f32;
  slew_goal_positions_ : list f32;
  follower_slew_last_time_ : prof_time_t;
  enabled_gravity_compensation_ : bool;
  is_ready_arm_ : bool;
  dof_ : Z;
  dof_total_ : Z;
  servo_param_publish_index_ : Z;
  ready_move_initial_disp_to_home_ : gmap Z f32;
}.
Arguments mkArm {X}.
Arguments arm_base {X}.
Arguments kind_ {X}.
Arguments world {X}.
Arguments joints_ {X}.
Arguments joint_init_sequence_ {X}.
Arguments moving_joint_index_ {X}.
Arguments joint_id_to_pointer_ {X}.
Arguments arm_tele_pos_ {X}.
Arguments arm_tele_vel_ {X}.
Arguments arm_tele_tor_ {X}.
Arguments arm_follower_pos_ {X}.
Arguments arm_follower_vel_ {X}.
Arguments arm_follower_tor_ {X}.
Arguments arm_follower_temperature_ {X}.
Arguments arm_follower_idc_current_ {X}.
Arguments follower_filters_ {X}.
Arguments arm_target_tor_ {X}.
Arguments current_motor_positions_ {X}.
Arguments slew_goal_positions_ {X}.
Arguments follower_slew_last_time_ {X}.
Arguments enabled_gravity_compensation_ {X}.
Arguments is_ready_arm_ {X}.
Arguments dof_ {X}.
Arguments dof_total_ {X}.
Arguments servo_param_publish_index_ {X}.
Arguments ready_move_initial_disp_to_home_ {X}.
#[export] Instance eta_Arm X : Eta (Arm X) := λ r, mkArm
  (arm_base r) (kind_ r) (world r) (joints_ r) (joint_init_sequence_ r) (moving_joint_index_ r)
  (joint_id_to_pointer_ r) (arm_tele_pos_ r) (arm_tele_vel_ r) (arm_tele_tor_ r) (arm_follower_pos_ r)
  (arm_follower_vel_ r) (arm_follower_tor_ r) (arm_follower_temperature_ r) (arm_follower_idc_current_ r)
  (follower_filters_ r) (arm_target_tor_ r) (current_motor_positions_ r) (slew_goal_positions_ r)
  (follower_slew_last_time_ r) (enabled_gravity_compensation_ r) (is_ready_arm_ r) (dof_ r) (dof_total_ r)
  (servo_param_publish_index_ r) (ready_move_initial_disp_to_home_ r).

#[export] Instance arm_device X : HasDevice (Arm X) := {|
  base := arm_base;
  update_base := λ f a, a <| arm_base := f (arm_base a) |>;
|}.

#[export] Instance arm_owner X `{ArmWorld X} : JointOwner (Arm X) X := {|
  jo_joints := joints_;
  jo_set_joints := λ js a, a <| joints_ := js |>;
  jo_world := world;
  jo_set_world := λ x a, a <| world := x |>;
|}.

Section arm.
Context {X : Type} `{JointServos X} `{ArmWorld X} (undefined_servo : Servo) (undefined_long : Z).
Local Abbreviation A := (Arm X).

Local Abbreviation pos_of := (JointOwner.pos_of undefined_servo).
Local Abbreviation home_of := (JointOwner.home_of undefined_servo).

(** ** Access to the parts *)

Definition on_arm (f : A → A) : St A unit := modify f.

Definition on_effector (m : St X ReturnCode) : St A ReturnCode :=
  a ← get_state; if aw_has_effector (world a) then on_world m else mret SUCCESS.

Definition arm_publish_device_info : MsgDeviceInfo → St A ReturnCode :=
  Device_publish_device_info (λ msg, on_world (dw_topic_publish_info msg)).
Definition arm_mark_emergency_recovery_completed : St A unit :=
  Device_mark_emergency_recovery_completed (λ msg, on_world (dw_topic_publish_info msg))
    (on_world dw_topic_stop).

(** ** Parking, requests, modes *)

Definition arm_park_safely : St A ReturnCode :=
  first_error ← on_effector aw_effector_park_safely;
  park_joints first_error.

Definition arm_request_move_to_ready_position (request_id : Z) : St A unit :=
  Device_request_move_to_ready_position request_id;;
  a ← get_state;
  when_ (aw_has_effector (world a)) (on_world (aw_effector_request_move_to_ready_position request_id)).

(** [Device::request_move_to_ready_and_stop] makes the (virtual) request, which has
    reached the effector already; the arm sends it another one. *)
Definition arm_request_move_to_ready_and_stop (request_id : Z) : St A unit :=
  Device_request_move_to_ready_and_stop arm_request_move_to_ready_position request_id;;
  a ← get_state;
  when_ (aw_has_effector (world a)) (on_world (aw_effector_request_move_to_ready_position request_id)).

Definition reset_slew_targets_to_current : St A unit :=
  for_joints_ (λ i, a ← get_state;
    let current := pos_of i a in
    update_joint i (λ j, j <| target_pos_ := current |> <| adjusted_target_pos_ := current |>
                           <| Joint.prev_target_pos_ := current |>));;
  t ← on_world dw_now;
  on_arm (λ a, a <| follower_slew_last_time_ := t |>).

Definition arm_clear_command_buffers_for_move_to_ready : St A unit :=
  for_joints_ (λ i, a ← get_state;
    let current := pos_of i a in
    on_arm (λ a, a <| arm_tele_pos_ := <[i := current]> (arm_tele_pos_ a) |>
                   <| arm_tele_vel_ := <[i := f0]> (arm_tele_vel_ a) |>
                   <| arm_tele_tor_ := <[i := f0]> (arm_tele_tor_ a) |>);;
    with_joint i (set_tele_pos_rad current);;
    update_joint i (λ j, j <| tele_vel_ := f0 |> <| tele_tor_ := f0 |>));;
  reset_slew_targets_to_current.

Definition arm_reset_ready_state_for_move_to_ready : St A unit :=
  Device_reset_ready_state_for_move_to_ready;;
  on_arm (λ a, a <| is_ready_arm_ := false |> <| moving_joint_index_ := 0 |>
                 <| ready_move_initial_disp_to_home_ := ∅ |>).

Definition DeviceArm_set_control_mode (target_role : Role) (intent : ControlModeIntent) : St A ReturnCode :=
  let follower_like := use_follower_like target_role intent in
  require (if follower_like then joints_for_follower else (joints_for_leader undefined_servo (on_world dw_now)))
  (a ← get_state;
   require
     (if aw_has_effector (world a) && negb (is_in_emergency_recovery (arm_base a)) then
        on_world (aw_effector_set_control_mode
          (if bool_decide (intent = READY_MOVE_OVERRIDE) then FOLLOWER
           else aw_effector_role (current_world a)) intent)
      else mret SUCCESS)
   (when_ follower_like
      (reset_slew_targets_to_current;; on_base (λ d, d <| gravity_float_active_ := false |>));;
    mret SUCCESS)).

Definition DeviceArmCan_set_control_mode (target_role : Role) (intent : ControlModeIntent) : St A ReturnCode :=
  when_ (use_follower_like target_role intent) reset_slew_targets_to_current;;
  mret SUCCESS.

Definition DeviceArmSerial_set_control_mode (target_role : Role) (intent : ControlModeIntent) : St A ReturnCode :=
  if use_follower_like target_role intent then joints_for_follower
  else
    require (joints_for_leader undefined_servo (on_world dw_now))
    (a ← get_state;
     if aw_has_effector (world a) && negb (is_in_emergency_recovery (arm_base a)) then
       on_world (aw_effector_set_control_mode (aw_effector_role (current_world a)) intent)
     else mret SUCCESS).

Definition arm_set_control_mode (target_role : Role) (intent : ControlModeIntent) : St A ReturnCode :=
  a ← get_state;
  match kind_ a with
  | ARM_CONTROLLER => DeviceArm_set_control_mode target_role intent
  | ARM_CAN => DeviceArmCan_set_control_mode target_role intent
  | ARM_SERIAL => DeviceArmSerial_set_control_mode target_role intent
  end.

(** ** Runtime commands *)

Definition set_runtime_gravity_float (enabled : bool) (abort_drift_rad : f32) : St A ReturnCode :=
  a ← get_state;
  let d := arm_base a in
  if negb (bool_decide (role_ (view d) = FOLLOWER)) then mret NOT_SUPPORTED
  else if Bool.eqb enabled (gravity_float_active_ d) then mret SUCCESS
  else if enabled then
    if negb (dw_has_algo (world a)) then mret NOT_SUPPORTED
    else if negb (isfinite abort_drift_rad) || (abort_drift_rad <=?. f0) then mret INVALID_PARAM
    else
      on_base (λ d, d <| gravity_float_baseline_ := map (λ i, pos_of i a) (joint_indices a) |>
                     <| gravity_float_abort_rad_ := abort_drift_rad |>);;
      require (joints_for_leader undefined_servo (on_world dw_now))
        (on_base (λ d, d <| gravity_float_active_ := true |>);; mret SUCCESS)
  else
    require joints_for_follower
      (reset_slew_targets_to_current;;
       on_base (λ d, d <| gravity_float_active_ := false |>);; mret SUCCESS).

(** [values[i]] for every joint; [dof_] is the number of joints. *)
Definition set_runtime_torq_rescale (values : list f32) : St A ReturnCode :=
  a ← get_state;
  if negb (Z.of_nat (length values) =? dof_ a) then mret INVALID_PARAM
  else if existsb (λ v, negb (isfinite v) || (v <?. f0)) values then mret INVALID_PARAM
  else
    for_joints_ (λ i, update_joint i (λ j, j <| torq_rescale_ := nth i values f0 |>));;
    mret SUCCESS.

Definition arm_runtime_hold : St A ReturnCode :=
  d ← get_base;
  require (if gravity_float_active_ d then set_runtime_gravity_float false f0 else mret SUCCESS)
    (Device_runtime_hold arm_clear_command_buffers_for_move_to_ready).

Definition arm_set_runtime_force_feedback (enabled : bool) (gain : f32) : St A ReturnCode :=
  require (Device_set_runtime_force_feedback arm_set_control_mode enabled gain)
    (on_effector (aw_effector_set_runtime_force_feedback enabled gain)).

Definition arm_set_runtime_force_feedback_gain (gain : f32) : St A ReturnCode :=
  require (Device_set_runtime_force_feedback_gain gain)
    (on_effector (aw_effector_set_runtime_force_feedback_gain gain)).

(** ** Feed-forward torques *)

Definition clear_target_tor : St A unit :=
  on_arm (λ a, a <| arm_target_tor_ := replicate (length (arm_target_tor_ a)) f0 |>).

(** [p_algo_->gravity_compensation], with the positions of the joints as the motors
    count them.  The vectors are as long as all joints with those of the effector. *)
Definition gravity_compensation : St A ReturnCode :=
  on_arm (λ a, a <| current_motor_positions_ :=
    map (λ i, pos_of i a * f32_of_Z (get_dir_invert undefined_servo (joint_world i a)))%f32 (joint_indices a)
    ++ drop (length (joints_ a)) (current_motor_positions_ a) |>);;
  a ← get_state;
  '(return_code, torques) ← on_world (aw_gravity_compensation (current_motor_positions_ a) (arm_target_tor_ a));
  on_arm (λ a, a <| arm_target_tor_ := torques |>);;
  mret return_code.

Definition target_tor_of (i : nat) (a : A) : f32 := nth i (arm_target_tor_ a) f0.
Definition set_target_tor_of (i : nat) (torque : f32) : St A unit :=
  on_arm (λ a, a <| arm_target_tor_ := <[i := torque]> (arm_target_tor_ a) |>).

Definition scale_gravity (i : nat) : St A unit :=
  a ← get_state;
  set_target_tor_of i (target_tor_of i a * gravity_comp_factor_ (the_joint i a))%f32.

Definition update_follower_feedforward_torques : St A ReturnCode :=
  clear_target_tor;;
  a ← get_state;
  if negb (follower_gravity_compensation_ (arm_base a)) then mret SUCCESS
  else if negb (dw_has_algo (world a)) then mret NOT_INITIALIZED
  else
    require gravity_compensation
      (for_joints_ (λ i,
         scale_gravity i;;
         a ← get_state;
         set_target_tor_of i (target_tor_of i a - follow_viscous_damping_ (the_joint i a) *
           get_vel_rad_sec undefined_servo (joint_world i a))%f32);;
       mret SUCCESS).

(** ** Reading the hardware *)

(** The dead servos, without those of an effector that was not started yet. *)
Definition driver_dead (a : A) : list Z :=
  let x := current_world a in
  if aw_has_effector x && negb (aw_effector_is_ready x) then
    let '(rc, ids) := aw_effector_servo_ids x in
    if ok rc then filter (λ sid, sid ∉ ids) (aw_dead_servo_ids x) else aw_dead_servo_ids x
  else aw_dead_servo_ids x.

Definition note_dead (tolerate in_recovery : bool) (first : Z) (dead : list Z) (d : DeviceBase) : DeviceBase :=
  let d := d <| last_failed_joint_id_ := first |> in
  let d := if tolerate then foldr (λ sid, mark_joint_failed_during_recovery (i16 sid)) d dead else d in
  if negb in_recovery && negb (ready d) then d <| is_normal_status_ := false |> else d.

Definition group_read (tolerate in_recovery : bool) : St A ReturnCode :=
  group_return_code ← on_world dw_group_read_hardware_values;
  if ok group_return_code then mret SUCCESS
  else
    a ← get_state;
    match driver_dead a with
    | [] => mret SUCCESS
    | first :: _ as dead => on_base (note_dead tolerate in_recovery first dead);; mret group_return_code
    end.

(** Name the effector's servo when the arm's own joints answered. *)
Definition probe_effector (group_return_code : ReturnCode) (any : bool) : St A unit :=
  a ← get_state;
  when_ (negb (ok group_return_code) && any && (last_failed_joint_id_ (arm_base a) <? 0) &&
         aw_has_effector (world a))
    (probed ← on_world aw_effector_probe_failed_servo_id;
     when_ (0 <=? probed) (on_base (λ d, d <| last_failed_joint_id_ := probed |>))).

Definition arm_read_hardware_values : St A ReturnCode :=
  d ← get_base;
  let in_recovery := is_in_emergency_recovery d in
  let tolerate := in_recovery || negb (ready d) in
  if is_driver_created_by_this_ d && negb (has_driver d) then mret FAIL
  else
    group_return_code ← (if is_driver_created_by_this_ d then group_read tolerate in_recovery else mret SUCCESS);
    a ← get_state;
    outcome ← read_joints undefined_servo tolerate (failed_joint_ids_ (arm_base a)) (joint_indices a) false SUCCESS SUCCESS;
    match outcome with
    | inl rc => mret rc
    | inr (any, soft, last) =>
        if tolerate then mret (if (any : bool) then SUCCESS else last)
        else
          probe_effector group_return_code any;;
          d ← get_base;
          mret (if negb (ok group_return_code) && ready d then group_return_code
                else if negb (ok soft) then soft else last)
    end.

Definition arm_write_hardware_values : St A ReturnCode :=
  d ← get_base;
  if is_read_only_ (view d) then mret SUCCESS
  else if negb (is_driver_created_by_this_ d) then mret SUCCESS
  else if negb (has_driver d) then mret FAIL
  else
    return_code ← on_world dw_group_write_hardware_values;
    d ← get_base;
    mret (if negb (ok return_code) && is_in_emergency_recovery d then SUCCESS else return_code).

(** ** Progress of a ready move

    [ready_move_initial_disp_to_home_] is mutable and filled on the first call. *)

Definition disp_to_home (i : nat) (a : A) : f32 := SFabs (home_of i a - pos_of i a)%f32.

Definition moving_joints (failed : gset Z) (a : A) : list nat :=
  filter (λ i, 0 ≤ sid_of i a ∧ sid_of i a ∉ failed) (joint_indices a).

Definition joint_ratio (initial remaining : f32) : f32 :=
  if initial <=?. lit32 1 1000000 then f1 else clamp01 (f1 - remaining / initial)%f32.

Definition ratio_step (a : A) (acc : gmap Z f32 * f32 * Z) (i : nat) : gmap Z f32 * f32 * Z :=
  let '(seen, sum, count) := acc in
  let seen := if bool_decide (seen !! sid_of i a = None) then <[sid_of i a := disp_to_home i a]> seen else seen in
  (seen, (sum + joint_ratio (default f0 (seen !! sid_of i a)) (disp_to_home i a))%f32, count + 1).

Definition arm_get_ready_move_completion_ratio : St A f32 :=
  a ← get_state;
  if is_ready_arm_ a then mret f1
  else if bool_decide (joints_ a = []) then mret f0
  else
    let in_recovery := is_in_emergency_recovery (arm_base a) in
    let failed := if in_recovery then failed_joint_ids_ (arm_base a) else ∅ in
    if in_recovery && (length (joints_ a) <=? size failed)%nat then mret f1
    else
      let moving := moving_joints failed a in
      let seen :=
        if bool_decide (ready_move_initial_disp_to_home_ a = ∅)
        then foldl (λ seen i, <[sid_of i a := disp_to_home i a]> seen) ∅ moving
        else ready_move_initial_disp_to_home_ a in
      let '(seen, sum, count) := foldl (ratio_step a) (seen, f0, 0) moving in
      on_arm (λ a, a <| ready_move_initial_disp_to_home_ := seen |>);;
      mret (if count =? 0 then f1 else (sum / f32_of_Z count)%f32).

(** ** Moving to the ready position *)

Definition become_ready : St A unit :=
  on_base (set_ready true);; on_arm (λ a, a <| is_ready_arm_ := true |>).

(** The arm commands its joints with the gravity feed-forward. *)
Definition arm_send (i : nat) (new_pos : f32) : St A ReturnCode :=
  a ← get_state; device_move i new_pos (target_tor_of i a).

(** [is_ready_arm_ = true; init_count_ = 0]. *)
Definition arm_arrived : St A unit :=
  on_arm (λ a, a <| is_ready_arm_ := true |>);; on_base (λ d, d <| init_count_ := 0 |>).

Definition conclude_parallel (c : Scan) (budget_exhausted : bool) : St A unit :=
  conclude arm_arrived (on_arm (λ a, a <| is_ready_arm_ := false |>)) c budget_exhausted.

Definition ready_move_parallel (failed : gset Z) (in_recovery : bool) (step : f32) : St A ReturnCode :=
  a ← get_state;
  c ← ready_move_joints undefined_servo arm_send failed step (joint_indices a) new_Scan;
  budget_exhausted ← spend_ready_move_budget;
  conclude_parallel c budget_exhausted;;
  a ← get_state;
  when_ (is_ready_arm_ a)
    (when_ (0 <? scan_stuck c) (on_base (note_abnormal (scan_first_stuck c)));;
     when_ in_recovery arm_mark_emergency_recovery_completed);;
  mret (scan_rc c).

(** The next joint of the sequence.  The tail of [move_to_ready_position] increments
    [init_count_] again unless the function is left here. *)
Definition advance_sequence : St A unit :=
  on_base (λ d, d <| reached_cnt_ := 0 |> <| init_count_ := 0 |>);;
  on_arm (λ a,
    let next := i16 (moving_joint_index_ a + 1) in
    if Z.of_nat (length (joint_init_sequence_ a)) <=? next
    then a <| moving_joint_index_ := 0 |> <| is_ready_arm_ := true |>
    else a <| moving_joint_index_ := next |>).

(** [inl] leaves [move_to_ready_position] with that code. *)
Definition move_in_sequence (i : nat) (sid : Z) : St A (ReturnCode + ReturnCode) :=
  is_stuck ← with_joint i (update_and_check_stuck undefined_servo);
  budget_exhausted ← spend_ready_move_budget;
  if (budget_exhausted : bool) then
    on_base (note_abnormal sid);; advance_sequence;; mret (inl SUCCESS)
  else
    a ← get_state;
    return_code ← device_move i (target_pos_ (the_joint i a)) (target_tor_of i a);
    if negb (ok return_code) then
      on_base (λ d, (mark_failed_and_last sid d) <| is_normal_status_ := false |>);;
      advance_sequence;; mret (inl SUCCESS)
    else
      a ← get_state;
      let j := the_joint i a in
      let displacement := SFabs (target_pos_ j - pos_of i a)%f32 in
      when_ ((displacement <=?. (pos_error_margin_ j + READY_MOVE_TOLERANCE_HYSTERESIS_RAD)%f32) || is_stuck)
        (on_base (λ d, d <| reached_cnt_ := reached_cnt_ d + 1 |>);;
         d ← get_base;
         when_ (DEVICE_ARRIVED_CONFIRM_CNT <? reached_cnt_ d)
           (when_ (is_stuck && (displacement >=?. pos_error_margin_ j)) (on_base (note_abnormal sid));;
            advance_sequence));;
      mret (inr SUCCESS).

Definition ready_move_sequential (failed : gset Z) : St A (ReturnCode + ReturnCode) :=
  a ← get_state;
  if Z.of_nat (length (joints_ a)) <=? moving_joint_index_ a then mret (inl INVALID_PARAM)
  else if negb (length (joint_init_sequence_ a) =? length (joints_ a))%nat then mret (inl NOT_INITIALIZED)
  else
    match joint_id_to_pointer_ a !! nth (Z.to_nat (moving_joint_index_ a)) (joint_init_sequence_ a) 0 with
    | None => mret (inl INVALID_PARAM)
    | Some i =>
        let sid := sid_of i a in
        if is_failed failed sid then advance_sequence;; mret (inr SUCCESS)
        else move_in_sequence i sid
    end.

Definition hold_position : St A ReturnCode :=
  for_joints (λ i, a ← get_state; device_move i (pos_of i a) (target_tor_of i a)).

Definition finish_ready_move (in_recovery : bool) (return_code : ReturnCode) : St A ReturnCode :=
  a ← get_state;
  when_ (is_ready_arm_ a)
    (if negb (aw_has_effector (world a)) then on_base (set_ready true)
     else if in_recovery then on_world aw_effector_force_to_be_ready;; on_base (set_ready true)
     else when_ (aw_effector_is_ready (current_world a)) (on_base (set_ready true)));;
  on_base (λ d, d <| init_count_ := init_count_ d + 1 |>);;
  mret return_code.

Definition hold_current_pose : St A unit :=
  target_current_pose undefined_servo;;
  arm_clear_command_buffers_for_move_to_ready.

(** The branch of [moving_mode_], while the arm is not ready. *)
Definition ready_move (in_recovery : bool) (failed : gset Z) (step : f32) : St A (ReturnCode + ReturnCode) :=
  d ← get_base;
  when_ (init_count_ d <? 1) (start_ready_move undefined_servo undefined_long home_of step);;
  match moving_mode_ d with
  | PARALLEL => rc ← ready_move_parallel failed in_recovery step; mret (inr rc)
  | SEQUENTIAL => ready_move_sequential failed
  | MOVING_INVALID => mret (inl INVALID_PARAM)
  end.

Definition arm_move_to_ready_position : St A ReturnCode :=
  d ← get_base;
  if is_read_only_ (view d) then become_ready;; mret SUCCESS
  else if cla_dont_go_to_home_pos (cla_ d) && is_startup_ready_phase d then
    hold_current_pose;; become_ready;; mret SUCCESS
  else
    let in_recovery := is_in_emergency_recovery d in
    require update_follower_feedforward_torques
      (a ← get_state;
       outcome ← (if negb (is_ready_arm_ a)
                  then ready_move in_recovery (failed_joint_ids_ d) (ready_move_step_rad d)
                  else rc ← hold_position; mret (if ok rc then inr rc else inl rc));
       match outcome with
       | inl rc => mret rc
       | inr rc => finish_ready_move in_recovery rc
       end).

(** ** Operating as a leader *)

Definition follow_with_feedback (i : nat) : St A ReturnCode :=
  a ← get_state;
  let j := the_joint i a in
  if negb (follower_pos_valid_ j) then with_joint i (Joint.apply_torque (target_tor_of i a))
  else
    update_joint i (λ j, j <| adjusted_target_pos_ := follower_pos_ j |>);;
    with_joint i (Joint.move_with (follower_pos_ j) f0 (target_tor_of i a * torq_rescale_ j)%f32).

Definition leader_gravity : St A ReturnCode :=
  a ← get_state;
  if negb (enabled_gravity_compensation_ a) then mret SUCCESS
  else if negb (dw_has_algo (world a)) then mret NOT_INITIALIZED
  else require gravity_compensation (for_joints_ scale_gravity;; mret SUCCESS).

Definition arm_operate_as_leader : St A ReturnCode :=
  d ← get_base;
  if negb (bool_decide (mode_ (view d) = MODE_NORMAL)) then mret SUCCESS
  else
    step_start_time ← on_world dw_now;
    clear_target_tor;;
    require leader_gravity
      (d ← get_base;
       if is_force_feedback_enabled (view d) then for_joints follow_with_feedback
       else if enabled_spring_effect_ d then
         require (check_stability_control undefined_servo step_start_time)
           (for_joints (λ i, a ← get_state;
              with_joint i (Joint.apply_spring_force undefined_servo (target_tor_of i a)
                              (enabled_spring_effect_ (arm_base a)))))
       else for_joints (λ i, a ← get_state; with_joint i (Joint.apply_torque (target_tor_of i a)))).

(** ** Operating as a follower *)

Definition float_runaway (a : A) : bool :=
  existsb (λ i, SFabs (pos_of i a - nth i (gravity_float_baseline_ (arm_base a)) f0)%f32
                >?. gravity_float_abort_rad_ (arm_base a)) (joint_indices a).

Definition gravity_float : St A ReturnCode :=
  a ← get_state;
  if float_runaway a then
    require (set_runtime_gravity_float false f0)
      (arm_clear_command_buffers_for_move_to_ready;; mret SUCCESS)
  else
    clear_target_tor;;
    require gravity_compensation
      (for_joints (λ i,
         scale_gravity i;;
         a ← get_state;
         with_joint i (Joint.apply_torque (target_tor_of i a)))).

(** [duration<float>] divides the count of nanoseconds in single precision. *)
Definition slew_dt (control_frequency : Z) (last now : prof_time_t) : f32 :=
  if is_zero last then (f1 / f32_of_Z control_frequency)%f32
  else
    let elapsed := (f32_of_Z (now - last) / f32_of_Z 1000000000)%f32 in
    if lit32 1 1000000000 <?. elapsed then elapsed else lit32 1 1000000000.

Definition slew_scale_with (scale follow_vel_max dt delta : f32) : f32 :=
  if delta >?. f0 then
    let bound := (follow_vel_max * dt / delta)%f32 in
    if bound <?. scale then bound else scale
  else scale.

Fixpoint slew_goals (dt : f32) (is_ : list nat) (slew_scale : f32) : St A f32 :=
  match is_ with
  | [] => mret slew_scale
  | i :: is_ =>
      a ← get_state;
      let j := the_joint i a in
      let goal := Joint.get_safe_tele_pos_rad undefined_servo (joint_world i a) in
      on_arm (λ a, a <| slew_goal_positions_ := <[i := goal]> (slew_goal_positions_ a) |>);;
      slew_goals dt is_
        (slew_scale_with slew_scale (follow_vel_max_ j) dt (SFabs (goal - Joint.prev_target_pos_ j)%f32))
  end.

Definition slew_command (slew_scale previous goal : f32) : f32 :=
  (previous + slew_scale * (goal - previous))%f32.

Definition synchronized_slew : St A ReturnCode :=
  a ← get_state;
  if negb (length (slew_goal_positions_ a) =? length (joints_ a))%nat || (control_frequency_ (arm_base a) <=? 0)
  then mret NOT_INITIALIZED
  else
    slew_now ← on_world dw_now;
    let dt := slew_dt (control_frequency_ (arm_base a)) (follower_slew_last_time_ a) slew_now in
    on_arm (λ a, a <| follower_slew_last_time_ := slew_now |>);;
    slew_scale ← slew_goals dt (joint_indices a) f1;
    for_joints (λ i, a ← get_state;
      device_move i (slew_command slew_scale (Joint.prev_target_pos_ (the_joint i a))
                    (nth i (slew_goal_positions_ a) f0)) (target_tor_of i a)).

Definition arm_operate_as_follower : St A ReturnCode :=
  d ← get_base;
  if is_read_only_ (view d) then mret NOT_SUPPORTED
  else if gravity_float_active_ d then gravity_float
  else require update_follower_feedforward_torques synchronized_slew.

(** ** Messages *)

Definition filter_follower (d : DataJoint) (fs : Filter * Filter * Filter) : Filter * Filter * Filter :=
  let '(fp, fv, ft) := fs in
  (snd (Filter_update (msg_pos d) fp), snd (Filter_update (msg_vel d) fv), snd (Filter_update (msg_tor d) ft)).

Definition note_follower_joint (msg : MsgJoints) (i : nat) : St A unit :=
  let d := joint_of_msg msg i in
  on_arm (λ a, a
    <| arm_follower_pos_ := <[i := msg_pos d]> (arm_follower_pos_ a) |>
    <| arm_follower_vel_ := <[i := msg_vel d]> (arm_follower_vel_ a) |>
    <| arm_follower_tor_ := <[i := msg_tor d]> (arm_follower_tor_ a) |>
    <| arm_follower_temperature_ := <[i := msg_temperature d]> (arm_follower_temperature_ a) |>
    <| arm_follower_idc_current_ := <[i := msg_idc_current d]> (arm_follower_idc_current_ a) |>
    <| follower_filters_ := alter (filter_follower d) i (follower_filters_ a) |>);;
  update_joint i (λ j, j <| Joint.follower_pos_ := msg_pos d |> <| follower_pos_valid_ := true |>
    <| Joint.follower_vel_ := msg_vel d |> <| Joint.follower_tor_ := msg_tor d |>
    <| Joint.follower_temperature_ := msg_temperature d |> <| Joint.follower_idc_current_ := msg_idc_current d |>).

(** [msg.joints_.size() != static_cast<size_t>(dof_total_)]. *)
Definition wrong_size (msg : MsgJoints) (a : A) : bool := negb (Z.of_nat (length msg) =? dof_total_ a).

Definition arm_process_follower_msg (msg : MsgJoints) : St A ReturnCode :=
  a ← get_state;
  if wrong_size msg a then mret INVALID_PARAM
  else for_joints_ (note_follower_joint msg);; on_effector (aw_effector_process_follower_msg msg).

Definition apply_action_joint (msg : MsgJoints) (i : nat) : St A unit :=
  let d := joint_of_msg msg i in
  on_arm (λ a, a <| arm_tele_pos_ := <[i := msg_pos d]> (arm_tele_pos_ a) |>
                 <| arm_tele_vel_ := <[i := msg_vel d]> (arm_tele_vel_ a) |>
                 <| arm_tele_tor_ := <[i := msg_tor d]> (arm_tele_tor_ a) |>);;
  with_joint i (set_tele_pos_rad (msg_pos d));;
  update_joint i (λ j, j <| tele_vel_ := msg_vel d |> <| tele_tor_ := msg_tor d |>).

Definition arm_apply_action (msg : MsgJoints) : St A ReturnCode :=
  a ← get_state;
  if wrong_size msg a then mret INVALID_PARAM
  else for_joints_ (apply_action_joint msg);; on_effector (aw_effector_apply_action msg).

Definition arm_get_observation : St A (ReturnCode * MsgJoints) :=
  a ← get_state;
  msg ← observe_joints undefined_servo (λ i, gets (pos_of i)) (joint_indices a) [];
  if aw_has_effector (world a) then on_world (aw_effector_get_observation msg) else mret (SUCCESS, msg).

Definition arm_get_servo_ids (a : A) : ReturnCode * list Z :=
  let ids := joint_servo_ids a in
  if aw_has_effector (world a) then
    let '(rc, effector_ids) := aw_effector_servo_ids (current_world a) in (rc, ids ++ effector_ids)
  else (SUCCESS, ids).

(** ** The arm as a device

    [arm_topic_step] is [p_topic_->step()], which may call back into the arm. *)

Context (arm_topic_step : St A ReturnCode).

#[export] Instance arm_object : DeviceObject A := {|
  clock_now := on_world dw_now;
  park_safely := arm_park_safely;
  read_hardware_values := arm_read_hardware_values;
  write_hardware_values := arm_write_hardware_values;
  move_to_ready_position := arm_move_to_ready_position;
  operate_as_leader := arm_operate_as_leader;
  operate_as_follower := arm_operate_as_follower;
  get_observation := arm_get_observation;
  set_control_mode := arm_set_control_mode;
  get_ready_move_completion_ratio := arm_get_ready_move_completion_ratio;
  reset_ready_state_for_move_to_ready := arm_reset_ready_state_for_move_to_ready;
  clear_command_buffers_for_move_to_ready := arm_clear_command_buffers_for_move_to_ready;
  runtime_hold := arm_runtime_hold;
  set_runtime_force_feedback := arm_set_runtime_force_feedback;
  driver_open := λ baud_rate, on_world (dw_driver_open baud_rate);
  driver_close := on_world dw_driver_close;
  driver_arm_comm_loss_protection := on_world dw_driver_arm_comm_loss_protection;
  topic_is_running := λ a, dw_topic_is_running (world a);
  topic_publish_joints := λ msg, on_world (dw_topic_publish_joints msg);
  topic_publish_info := λ msg, on_world (dw_topic_publish_info msg);
  topic_step := arm_topic_step;
  topic_sleep := on_world dw_topic_sleep;
  topic_stop := on_world dw_topic_stop;
  topic_set_pause_leader_command_listening := λ pause, on_world (dw_topic_set_pause_leader_command_listening pause);
|}.

(** ** Servo parameters, one joint per call

    [lround] of a gain that is not finite, or its cast, is [undefined_long]. *)

Definition milli (gain : f32) : Z := i32 (default undefined_long (SF_lround (gain * f32_of_Z 1000)%f32)).

Definition servo_param_msg (index : Z) (follower_gravity : bool) (r : MitCodecReport) (torq_rescale : f32)
    : MsgDeviceInfo :=
  mkMsgDeviceInfo DEVICE_INFO_SERVO_PARAM
    [codec_vel_min r; codec_vel_max r; codec_tor_min r; codec_tor_max r; report_spd_min r; report_spd_max r;
     report_tor_min r; report_tor_max r; torq_rescale]
    [index; Z.b2z (report_spd_valid r); Z.b2z (report_tor_valid r); Z.b2z follower_gravity;
     milli (report_pos_kp r); milli (report_pos_kd r)].

Definition arm_publish_next_servo_param : St A ReturnCode :=
  a ← get_state;
  if bool_decide (joints_ a = []) then mret SUCCESS
  else
    let n := Z.of_nat (length (joints_ a)) in
    let index := servo_param_publish_index_ a `rem` n in
    on_arm (λ a, a <| servo_param_publish_index_ := (index + 1) `rem` n |>);;
    match Joint.get_mit_codec_report (joint_world (Z.to_nat index) a) with
    | None => mret SUCCESS
    | Some (r, torq_rescale) =>
        arm_publish_device_info
          (servo_param_msg index (follower_gravity_compensation_ (arm_base a)) r torq_rescale)
    end.

(** ** Lifecycle *)

Definition arm_stop : St A ReturnCode :=
  return_code ← Device_stop;
  return_code ← park_joints return_code;
  a ← get_state;
  if aw_has_effector (world a) then
    effector_return_code ← on_world aw_effector_stop;
    mret (if ok return_code then effector_return_code else return_code)
  else mret return_code.

Definition arm_sleep : St A ReturnCode := require Device_sleep (on_effector aw_effector_sleep).

Definition arm_verify_servos_operational : St A ReturnCode :=
  d ← get_base;
  if is_read_only_ (view d) then mret SUCCESS
  else
    require
      (verify_joints (on_world dw_group_write_hardware_values) (on_world (dw_usleep VERIFY_SERVOS_PROBE_WAIT_US))
         (failed_joint_ids_ d))
      (on_effector aw_effector_verify_servos_operational).

Definition arm_start (baud_rate : Z) : St A ReturnCode :=
  require (Device_start baud_rate)
    (or_stop arm_stop
      (require (for_joints (λ i, with_joint i Joint.start_hardware))
       (require arm_read_hardware_values
        (require (start_holding undefined_servo arm_write_hardware_values)
         (require arm_move_to_ready_position
          (require (on_effector (aw_effector_start baud_rate))
            arm_write_hardware_values)))))).

(** [step]: the effector after the arm, never in a recovery. *)
Definition note_effector_failure : St A unit :=
  a ← get_state;
  when_ (last_failed_joint_id_ (arm_base a) <? 0)
    (let eff_failed := aw_effector_last_failed_joint_id (current_world a) in
     if 0 <=? eff_failed then on_base (λ d, d <| last_failed_joint_id_ := eff_failed |>)
     else
       probed ← on_world aw_effector_probe_failed_servo_id;
       when_ (0 <=? probed) (on_base (λ d, d <| last_failed_joint_id_ := probed |>))).

Definition arm_step : St A ReturnCode :=
  d ← get_base;
  let in_recovery := is_in_emergency_recovery d in
  require Device_step
    (a ← get_state;
     if aw_has_effector (world a) && negb in_recovery then
       return_code ← on_world aw_effector_step;
       when_ (negb (ok return_code)) note_effector_failure;;
       mret return_code
     else mret SUCCESS).
End arm.
