(* ===== verification/DeviceEffector.v ===== *)
(** * Effectors (src/pi_device_effector.cpp, pi_device_effector_can.cpp,
    pi_device_effector_controller.cpp, pi_device_effector_serial.cpp)

    A gripper owns joints like an arm ([JointOwner]).  On the wire its position is
    normalized: 1 is open, 0 is closed.  A position command is limited to the torque
    that grips; in torque mode a spring from a ramped target to the measured position
    makes the torque.

    [kind_] tells the subclasses apart, which override [set_control_mode] and
    [move_joint_with_torque]; [DeviceEffectorSerial] also engages the torque before a
    ready move.  [control_mode_ == TORQUE], fixed by [init], is [effector_torque_mode_]
    of the view.  [init], the only reader of [p_arm_], is in [EffectorInit]; the
    destructor parks once more. *)

From S2P Require Import Prelude.
From S2P Require Import FloatSpec.
From S2P Require Import Control.
From S2P Require Import Filters.
From S2P Require Import CanBus.
From S2P Require Import Servo.
From S2P Require Import Joint.
From S2P Require Import Device.
From S2P Require Import JointOwner.

Definition MOVE_TO_READY_VEL_RAD_S_NORMAL_EFFECTOR : f32 := f32_of_Z 3.
Definition MOVE_TO_READY_VEL_RAD_S_ERROR_EFFECTOR : f32 := lit32 20 100.
Definition ENABLE_TORQUE_WAIT_US : Z := 100.

(** ** State *)

Inductive EffectorKind := EFFECTOR_CAN | EFFECTOR_CONTROLLER | EFFECTOR_SERIAL.
#[export] Instance EffectorKind_eq_dec : EqDecision EffectorKind.
Proof. solve_decision. Defined.

Class EffectorWorld (X : Type) := {
  effector_world_device :: DeviceWorld X;
  ew_enable_torque : ptr → bool → St X ReturnCode;          (* Servo::enable_torque *)
  ew_topic_publish_effector_info : list f32 → St X ReturnCode;
}.
#[export] Hint Mode EffectorWorld ! : typeclass_instances.

Record Effector (X : Type) := mkEffector {
  eff_base : DeviceBase;
  eff_kind_ : EffectorKind;
  eff_world : X;
  eff_joints_ : list Joint;
  eff_tele_pos_ : list f32;
  eff_tele_vel_ : list f32;
  eff_tele_tor_ : list f32;
  force_feedbacks_ : list ForceFeedback;
  start_index_joint_ : Z;
  ready_move_force_position_mode_ : bool;
  distance_to_torque_ : f32;
  grip_spring_offset_ : f32;
  open_at_min_ : bool;
  (* DeviceEffectorCan *)
  ramped_target_pos_ : f32;
  ramped_target_initialized_ : bool;
  (* DeviceEffectorSerial *)
  ready_move_torque_engaged_ : bool;
}.
Arguments mkEffector {X}.
Arguments eff_base {X}.
Arguments eff_kind_ {X}.
Arguments eff_world {X}.
Arguments eff_joints_ {X}.
Arguments eff_tele_pos_ {X}.
Arguments eff_tele_vel_ {X}.
Arguments eff_tele_tor_ {X}.
Arguments force_feedbacks_ {X}.
Arguments start_index_joint_ {X}.
Arguments ready_move_force_position_mode_ {X}.
Arguments distance_to_torque_ {X}.
Arguments grip_spring_offset_ {X}.
Arguments open_at_min_ {X}.
Arguments ramped_target_pos_ {X}.
Arguments ramped_target_initialized_ {X}.
Arguments ready_move_torque_engaged_ {X}.
#[export] Instance eta_Effector X : Eta (Effector X) := λ r, mkEffector
  (eff_base r) (eff_kind_ r) (eff_world r) (eff_joints_ r) (eff_tele_pos_ r) (eff_tele_vel_ r)
  (eff_tele_tor_ r) (force_feedbacks_ r) (start_index_joint_ r) (ready_move_force_position_mode_ r)
  (distance_to_torque_ r) (grip_spring_offset_ r) (open_at_min_ r) (ramped_target_pos_ r)
  (ramped_target_initialized_ r) (ready_move_torque_engaged_ r).

#[export] Instance effector_device X : HasDevice (Effector X) := {|
  base := eff_base;
  update_base := λ f e, e <| eff_base := f (eff_base e) |>;
|}.

#[export] Instance effector_owner X `{EffectorWorld X} : JointOwner (Effector X) X := {|
  jo_joints := eff_joints_;
  jo_set_joints := λ js e, e <| eff_joints_ := js |>;
  jo_world := eff_world;
  jo_set_world := λ x e, e <| eff_world := x |>;
|}.

(** ** Positions of a gripper

    Pure parts: the joint's numbers are arguments. *)

(** The literal [1.0] of the flip is a double. *)
Definition normalized_position (open_at_min : bool) (pos_curr pos_min pos_max : f32) : f32 :=
  let max_range := (pos_max - pos_min)%f32 in
  if max_range <=?. f0 then f0
  else
    let curr_grip_pos := (clipping pos_curr pos_min pos_max - pos_min)%f32 in
    let normalized_pos := (curr_grip_pos / max_range)%f32 in
    if open_at_min then to_f32 (f64_of_Z 1 - to_f64 normalized_pos)%f64 else normalized_pos.

Definition clamp_normalized (normalized_pos : f32) : f32 :=
  if (normalized_pos <?. f0) || (normalized_pos >?. f1) then clipping normalized_pos f0 f1
  else normalized_pos.

(** [configured]: the joint has a normalized range of its own, without a margin. *)
Definition safety_margin_of (configured : bool) (margin : f32) : f32 :=
  let safety_margin := if configured then f0 else margin in
  if safety_margin <?. f0 then f0 else safety_margin.

(** A margin that leaves no range is ignored. *)
Definition effective_pos_max (safety_margin raw_pos_max pos_min pos_max : f32) : f32 :=
  let effective := (pos_max - safety_margin)%f32 in
  if effective <=?. pos_min then raw_pos_max else effective.

Definition converted_rad_relative (open_at_min : bool) (pos_min pos_max normalized_pos : f32) : f32 :=
  let effective_range := (pos_max - pos_min)%f32 in
  if effective_range <=?. f0 then f0
  else
    let invert_applied_normalized := if open_at_min then (f1 - normalized_pos)%f32 else normalized_pos in
    (invert_applied_normalized * effective_range + pos_min)%f32.

(** ** The torque of a gripper (pi_device_effector_can.cpp) *)

(** At most one radian per call. *)
Definition ramp_target (ramped clipped_target_pos : f32) : f32 :=
  (ramped + clipping (clipped_target_pos - ramped) (- f1) f1)%f32.

Definition grip_bound (j : Joint) : f32 :=
  if grip_torque_limit_nm_ j >?. f0 then grip_torque_limit_nm_ j else torq_max_ j.

Definition grip_torque (constant offset bound ramped measured : f32) : f32 :=
  clipping (constant * (ramped - measured - offset))%f32 (- bound)%f32 bound.

Section effector.
Context {X : Type} `{JointServos X} `{EffectorWorld X} (undefined_servo : Servo) (undefined_long : Z).
Local Abbreviation E := (Effector X).

Local Abbreviation pos_of := (JointOwner.pos_of undefined_servo).

Definition on_eff (f : E → E) : St E unit := modify f.

(** [control_mode_ == EffectorControlMode::TORQUE]. *)
Definition in_torque_mode (e : E) : bool := effector_torque_mode_ (view (eff_base e)).

(** ** Modes, requests, parking *)

Definition set_ready_move_force_position_mode (enable : bool) : St E unit :=
  on_eff (λ e, e <| ready_move_force_position_mode_ := enable |>).

Definition DeviceEffector_set_control_mode (target_role : Role) (intent : ControlModeIntent) : St E ReturnCode :=
  set_ready_move_force_position_mode (bool_decide (intent = READY_MOVE_OVERRIDE));;
  if use_follower_like target_role intent then joints_for_follower
  else joints_for_leader undefined_servo (on_world dw_now).

Definition DeviceEffectorCan_set_control_mode : St E ReturnCode :=
  on_eff (λ e, e <| ramped_target_initialized_ := false |>);; mret SUCCESS.

Definition DeviceEffectorController_set_control_mode : Role → ControlModeIntent → St E ReturnCode :=
  DeviceEffector_set_control_mode.

(** The serial class repeats the code of the base class. *)
Definition DeviceEffectorSerial_set_control_mode : Role → ControlModeIntent → St E ReturnCode :=
  DeviceEffector_set_control_mode.

Definition effector_set_control_mode (target_role : Role) (intent : ControlModeIntent) : St E ReturnCode :=
  e ← get_state;
  match eff_kind_ e with
  | EFFECTOR_CAN => DeviceEffectorCan_set_control_mode
  | EFFECTOR_CONTROLLER => DeviceEffectorController_set_control_mode target_role intent
  | EFFECTOR_SERIAL => DeviceEffectorSerial_set_control_mode target_role intent
  end.

(** The vectors are bounds-checked here: [<[i := _]>] does nothing outside. *)
Definition effector_clear_command_buffers_for_move_to_ready : St E unit :=
  for_joints_ (λ i, e ← get_state;
    let current := pos_of i e in
    on_eff (λ e, e <| eff_tele_pos_ := <[i := current]> (eff_tele_pos_ e) |>
                   <| eff_tele_vel_ := <[i := f0]> (eff_tele_vel_ e) |>
                   <| eff_tele_tor_ := <[i := f0]> (eff_tele_tor_ e) |>);;
    with_joint i (set_tele_pos_rad current);;
    update_joint i (λ j, j <| tele_vel_ := f0 |> <| tele_tor_ := f0 |>)).

Definition effector_reset_ready_state_for_move_to_ready : St E unit :=
  Device_reset_ready_state_for_move_to_ready;;
  e ← get_state;
  when_ (bool_decide (eff_kind_ e = EFFECTOR_SERIAL))
    (on_eff (λ e, e <| ready_move_torque_engaged_ := false |>)).

Definition effector_park_safely : St E ReturnCode := park_joints SUCCESS.

(** Both limits of every joint; the first error. *)
Definition set_effector_min_max_pos (min_pos max_pos : f32) : St E ReturnCode :=
  e ← get_state;
  each_all (λ i, with_joint i (
      rc ← set_pos_min_relative min_pos;
      rc' ← set_pos_max_relative max_pos;
      mret (if negb (ok rc) then rc else rc'))) (joint_indices e) SUCCESS.

Definition set_effector_kd (effector_kd : f32) : St E ReturnCode :=
  e ← get_state;
  each_all (λ i, with_joint i (set_pos_kd effector_kd)) (joint_indices e) SUCCESS.

Definition set_distance_to_torque (distance_to_torque : f32) : St E ReturnCode :=
  on_eff (λ e, e <| distance_to_torque_ := distance_to_torque |>);; mret SUCCESS.

(** ** Reading and writing *)

Definition read_joint (i : nat) : St E ReturnCode :=
  e ← get_state; with_joint i (Joint.read_hardware_values undefined_servo (has_driver (eff_base e))).

Fixpoint probe_joints (is_ : list nat) : St E Z :=
  match is_ with
  | [] => mret (-1)
  | i :: is_ =>
      rc ← read_joint i;
      if negb (ok rc) then gets (sid_of i) else probe_joints is_
  end.

Definition probe_failed_servo_id : St E Z := e ← get_state; probe_joints (joint_indices e).

(** The driver of an arm is read by the arm. *)
Definition effector_read_hardware_values : St E ReturnCode :=
  d ← get_base;
  let tolerate := is_in_emergency_recovery d || negb (ready d) in
  if is_driver_created_by_this_ d && negb (has_driver d) then mret FAIL
  else
    group_return_code ←
      (if is_driver_created_by_this_ d then on_world dw_group_read_hardware_values else mret SUCCESS);
    e ← get_state;
    outcome ← read_joints undefined_servo tolerate (failed_joint_ids_ (eff_base e)) (joint_indices e)
                false SUCCESS SUCCESS;
    mret match outcome with
         | inl rc => rc
         | inr (any, soft, last) =>
             if tolerate then if (any : bool) then SUCCESS else last
             else if negb (ok group_return_code) then group_return_code
             else if negb (ok soft) then soft else last
         end.

Definition effector_write_hardware_values : St E ReturnCode :=
  d ← get_base;
  if is_read_only_ (view d) then mret SUCCESS
  else if negb (is_driver_created_by_this_ d) then mret SUCCESS
  else if negb (has_driver d) then mret FAIL
  else on_world dw_group_write_hardware_values.

(** ** Normalized positions *)

(** Of a joint, which is read once more; 0 when that fails. *)
Definition get_normalized_gripper_position (i : nat) : St E f32 :=
  e ← get_state;
  if bool_decide (reference_ptr (the_joint i e) = None) then mret f0
  else
    return_code ← read_joint i;
    if negb (ok return_code) then mret f0
    else
      e ← get_state;
      let w := joint_world i e in
      mret (normalized_position (open_at_min_ e) (Joint.get_pos_rad_relative undefined_servo w)
              (get_normalized_pos_min_relative undefined_servo w)
              (get_normalized_pos_max_relative undefined_servo w)).

(** Of the first joint: what is not finite holds its position. *)
Definition get_gripper_pos_rad_relative_from_normalized (normalized_pos : f32) (e : E) : f32 :=
  if bool_decide (eff_joints_ e = []) then f0
  else if bool_decide (reference_ptr (the_joint 0 e) = None) then f0
  else if negb (isfinite normalized_pos) then pos_of 0 e
  else
    let w := joint_world 0 e in
    let pos_min := get_normalized_pos_min_relative undefined_servo w in
    let margin := safety_margin_of (has_normalized_position_range (joint w)) (pos_max_safety_margin_ (joint w)) in
    let pos_max := effective_pos_max margin (Joint.get_pos_max_relative undefined_servo w) pos_min
                     (get_normalized_pos_max_relative undefined_servo w) in
    converted_rad_relative (open_at_min_ e) pos_min pos_max (clamp_normalized normalized_pos).

(** ** Messages *)

(** C++ leaves open which argument of [add_joint_info] comes first; here it is the
    position. *)
Definition effector_get_observation (msg : MsgJoints) : St E (ReturnCode * MsgJoints) :=
  e ← get_state;
  if bool_decide (eff_joints_ e = []) then mret (NOT_INITIALIZED, msg)
  else
    msg ← observe_joints undefined_servo get_normalized_gripper_position (joint_indices e) msg;
    mret (SUCCESS, msg).

(** The joints of the effector come after those of its arm. *)
Definition effector_msg (msg : MsgJoints) (i : nat) (e : E) : DataJoint :=
  joint_of_msg msg (Z.to_nat (start_index_joint_ e + Z.of_nat i)).

Definition effector_wrong_size (msg : MsgJoints) (e : E) : bool :=
  let expected_joint_count := start_index_joint_ e + Z.of_nat (length (eff_joints_ e)) in
  (expected_joint_count <? 0) || negb (Z.of_nat (length msg) =? expected_joint_count).

Definition no_feedback_state (e : E) : bool :=
  negb (length (force_feedbacks_ e) =? length (eff_joints_ e))%nat.

Definition feedback_torque (e : E) : f32 :=
  match force_feedbacks_ e with b :: _ => get_force_feedback_torque b | [] => f0 end.

(** [update_follower_info] always succeeds. *)
Definition note_effector_joint (msg : MsgJoints) (i : nat) : St E unit :=
  e ← get_state;
  let d := effector_msg msg i e in
  leader_pos ← get_normalized_gripper_position i;
  update_joint i (λ j, j <| Joint.follower_pos_ := msg_pos d |>
    <| Joint.follower_vel_ := msg_vel d |> <| Joint.follower_tor_ := msg_tor d |>
    <| Joint.follower_temperature_ := msg_temperature d |> <| Joint.follower_idc_current_ := msg_idc_current d |>);;
  on_eff (λ e, e <| force_feedbacks_ := alter (λ b,
    snd (update_follower_info leader_pos (msg_pos d) (msg_vel d) (msg_tor d) (msg_temperature d)
           (msg_idc_current d) b)) i (force_feedbacks_ e) |>).

Definition effector_data (e : E) : list f32 :=
  match force_feedbacks_ e with
  | b :: _ => [get_latest_value (follower_pos_filter_ b); get_latest_value (follower_vel_filter_ b);
               get_latest_value (follower_tor_filter_ b); get_latest_value (stall_tor_filter_ b);
               get_force_feedback_torque b]
  | [] => []
  end.

Definition effector_process_follower_msg (msg : MsgJoints) : St E ReturnCode :=
  e ← get_state;
  let d := eff_base e in
  if negb (enabled_force_feedback_ (view d)) then mret SUCCESS
  else if bool_decide (eff_joints_ e = []) || no_feedback_state e then mret NOT_INITIALIZED
  else if effector_wrong_size msg e then mret INVALID_PARAM
  else if negb (has_topic d) then mret NOT_INITIALIZED
  else
    for_joints_ (note_effector_joint msg);;
    e ← get_state;
    on_world (ew_topic_publish_effector_info (effector_data e)).

(** [tele_pos_[i]] and the like exist for every joint. *)
Definition effector_apply_joint (msg : MsgJoints) (i : nat) : St E unit :=
  e ← get_state;
  let d := effector_msg msg i e in
  let target := get_gripper_pos_rad_relative_from_normalized (msg_pos d) e in
  on_eff (λ e, e <| eff_tele_pos_ := <[i := target]> (eff_tele_pos_ e) |>);;
  with_joint i (set_tele_pos_rad target);;
  on_eff (λ e, e <| eff_tele_vel_ := <[i := msg_vel d]> (eff_tele_vel_ e) |>
                 <| eff_tele_tor_ := <[i := msg_tor d]> (eff_tele_tor_ e) |>);;
  update_joint i (λ j, j <| tele_vel_ := msg_vel d |> <| tele_tor_ := msg_tor d |>).

Definition effector_apply_action (msg : MsgJoints) : St E ReturnCode :=
  e ← get_state;
  if effector_wrong_size msg e then mret INVALID_PARAM
  else for_joints_ (effector_apply_joint msg);; mret SUCCESS.

(** ** Operating *)

Definition effector_operate_as_leader : St E ReturnCode :=
  e ← get_state;
  let d := eff_base e in
  let feedback := enabled_force_feedback_ (view d) in
  if negb (bool_decide (mode_ (view d) = MODE_NORMAL)) then mret SUCCESS
  else if bool_decide (eff_joints_ e = []) then mret FAIL
  else if feedback && no_feedback_state e then mret NOT_INITIALIZED
  else if negb (dw_has_algo (eff_world e)) then mret NOT_INITIALIZED
  else
    step_start_time ← on_world dw_now;
    let base_torque := if feedback then (f0 + feedback_torque e)%f32 else f0 in
    require (if enabled_spring_effect_ d then check_stability_control undefined_servo step_start_time
             else mret SUCCESS)
      (for_joints (λ i, with_joint i
         (if enabled_spring_effect_ d then Joint.apply_spring_force undefined_servo base_torque true
          else Joint.apply_torque base_torque))).

(** [DeviceEffectorCan::move_joint_with_torque]. *)
Definition can_move_joint_with_torque (i : nat) (target_pos : f32) : St E ReturnCode :=
  e ← get_state;
  let w := joint_world i e in
  let clipped_target_pos := clipping target_pos (Joint.get_pos_min_relative undefined_servo w)
                              (Joint.get_pos_max_relative undefined_servo w) in
  let measured_pos := pos_of i e in
  let ramped := ramp_target (if ramped_target_initialized_ e then ramped_target_pos_ e else measured_pos)
                  clipped_target_pos in
  on_eff (λ e, e <| ramped_target_initialized_ := true |> <| ramped_target_pos_ := ramped |>);;
  let torque := grip_torque (distance_to_torque_ e) (grip_spring_offset_ e) (grip_bound (joint w))
                  ramped measured_pos in
  with_joint i (Joint.apply_torque_with_damping (torque * f32_of_Z (get_dir_invert undefined_servo w))%f32).

(** [DeviceEffectorSerial::move_joint_with_torque]: the torque of joint [i], on all. *)
Definition serial_move_joint_with_torque (i : nat) (target_pos : f32) : St E ReturnCode :=
  e ← get_state;
  if is_read_only_ (view (eff_base e)) then mret SUCCESS
  else
    let w := joint_world i e in
    let clip x := clipping x (Joint.get_pos_min_relative undefined_servo w)
                    (Joint.get_pos_max_relative undefined_servo w) in
    let torq_to_apply := (distance_to_torque_ e * (clip target_pos - clip (pos_of i e)))%f32 in
    for_joints (λ k, with_joint k (Joint.move_with (clip target_pos) f0 torq_to_apply)).

Definition move_joint_with_torque (i : nat) (target_pos : f32) : St E ReturnCode :=
  e ← get_state;
  match eff_kind_ e with
  | EFFECTOR_CAN | EFFECTOR_CONTROLLER => can_move_joint_with_torque i target_pos
  | EFFECTOR_SERIAL => serial_move_joint_with_torque i target_pos
  end.

Definition effector_operate_as_follower : St E ReturnCode :=
  e ← get_state;
  if is_read_only_ (view (eff_base e)) then mret SUCCESS
  else if bool_decide (eff_joints_ e = []) then mret FAIL
  else
    for_joints (λ i,
      e ← get_state;
      let tele_pos := nth i (eff_tele_pos_ e) f0 in
      if in_torque_mode e then move_joint_with_torque i tele_pos
      else
        clamped ← with_joint i (clamp_target_to_grip_torque_limit undefined_servo tele_pos);
        device_move i clamped f0).

(** ** Moving to the ready position, which is fully open *)

Definition ready_velocity (e : E) : f32 :=
  foldl (λ v j, fmin_ v (vel_max_ j))
    (if slow_move_active_ (eff_base e) then MOVE_TO_READY_VEL_RAD_S_ERROR_EFFECTOR
     else MOVE_TO_READY_VEL_RAD_S_NORMAL_EFFECTOR) (eff_joints_ e).

(** The command is limited to the torque that grips. *)
Definition effector_send (i : nat) (new_pos : f32) : St E ReturnCode :=
  clamped ← with_joint i (clamp_target_to_grip_torque_limit undefined_servo new_pos);
  with_joint i (Joint.move clamped).

Definition effector_arrived : St E unit := on_base (λ d, (set_ready true d) <| init_count_ := 0 |>).

Definition effector_conclude (c : Scan) (budget_exhausted : bool) : St E unit :=
  conclude effector_arrived (on_base (set_ready false)) c budget_exhausted.

Definition effector_hold_current_pose : St E unit :=
  target_current_pose undefined_servo;;
  effector_clear_command_buffers_for_move_to_ready.

Definition effector_ready_move (failed : gset Z) (step ready_position : f32) : St E ReturnCode :=
  d ← get_base;
  when_ (init_count_ d <? 1) (start_ready_move undefined_servo undefined_long (λ _ _, ready_position) step);;
  e ← get_state;
  c ← ready_move_joints undefined_servo effector_send failed step (joint_indices e) new_Scan;
  budget_exhausted ← spend_ready_move_budget;
  effector_conclude c budget_exhausted;;
  d ← get_base;
  when_ (ready d && (0 <? scan_stuck c)) (on_base (note_abnormal (scan_first_stuck c)));;
  on_base (λ d, d <| init_count_ := init_count_ d + 1 |>);;
  mret (scan_rc c).

Definition DeviceEffector_move_to_ready_position : St E ReturnCode :=
  e ← get_state;
  let d := eff_base e in
  if is_read_only_ (view d) then on_base (set_ready true);; mret SUCCESS
  else if cla_dont_go_to_home_pos (cla_ d) && is_startup_ready_phase d then
    effector_hold_current_pose;; on_base (set_ready true);; mret SUCCESS
  else
    effector_ready_move (failed_joint_ids_ d) (ready_move_step_rad_of d (ready_velocity e))
      (get_gripper_pos_rad_relative_from_normalized f1 e).

(** The torque of the servos of joint [i] is engaged one by one. *)
Definition engage_torque (i : nat) : St E unit :=
  e ← get_state;
  on_world (each_ (λ p, ew_enable_torque p true;; dw_usleep ENABLE_TORQUE_WAIT_US) (servos_ (the_joint i e))).

Definition DeviceEffectorSerial_move_to_ready_position : St E ReturnCode :=
  d ← get_base;
  if is_read_only_ (view d) then on_base (set_ready true);; mret SUCCESS
  else
    for_joints_ (λ i,
      e ← get_state;
      on_eff (λ e', e' <| eff_tele_pos_ := <[i := pos_of i e]> (eff_tele_pos_ e') |>);;
      when_ (negb (ready_move_torque_engaged_ e)) (engage_torque i));;
    on_eff (λ e, e <| ready_move_torque_engaged_ := true |>);;
    DeviceEffector_move_to_ready_position.

Definition effector_move_to_ready_position : St E ReturnCode :=
  e ← get_state;
  match eff_kind_ e with
  | EFFECTOR_SERIAL => DeviceEffectorSerial_move_to_ready_position
  | _ => DeviceEffector_move_to_ready_position
  end.

(** ** The effector as a device

    [effector_topic_step] is [p_topic_->step()] of an effector that runs alone. *)

Context (effector_topic_step : St E ReturnCode).

#[export] Instance effector_object : DeviceObject E := {|
  clock_now := on_world dw_now;
  Device.park_safely := effector_park_safely;
  Device.read_hardware_values := effector_read_hardware_values;
  write_hardware_values := effector_write_hardware_values;
  move_to_ready_position := effector_move_to_ready_position;
  operate_as_leader := effector_operate_as_leader;
  operate_as_follower := effector_operate_as_follower;
  get_observation := effector_get_observation [];
  set_control_mode := effector_set_control_mode;
  get_ready_move_completion_ratio := mret f0;               (* Device's own *)
  reset_ready_state_for_move_to_ready := effector_reset_ready_state_for_move_to_ready;
  clear_command_buffers_for_move_to_ready := effector_clear_command_buffers_for_move_to_ready;
  runtime_hold := Device_runtime_hold effector_clear_command_buffers_for_move_to_ready;
  set_runtime_force_feedback := Device_set_runtime_force_feedback effector_set_control_mode;
  driver_open := λ baud_rate, on_world (dw_driver_open baud_rate);
  driver_close := on_world dw_driver_close;
  driver_arm_comm_loss_protection := on_world dw_driver_arm_comm_loss_protection;
  topic_is_running := λ e, dw_topic_is_running (eff_world e);
  topic_publish_joints := λ msg, on_world (dw_topic_publish_joints msg);
  topic_publish_info := λ msg, on_world (dw_topic_publish_info msg);
  topic_step := effector_topic_step;
  topic_sleep := on_world dw_topic_sleep;
  topic_stop := on_world dw_topic_stop;
  topic_set_pause_leader_command_listening := λ pause, on_world (dw_topic_set_pause_leader_command_listening pause);
|}.

Definition effector_get_servo_ids (e : E) : ReturnCode * list Z := (SUCCESS, joint_servo_ids e).

Definition effector_verify_servos_operational : St E ReturnCode :=
  d ← get_base;
  if is_read_only_ (view d) then mret SUCCESS
  else verify_joints (on_world dw_group_write_hardware_values)
         (on_world (dw_usleep VERIFY_SERVOS_PROBE_WAIT_US)) (failed_joint_ids_ d).

Definition effector_start (baud_rate : Z) : St E ReturnCode :=
  require (Device_start baud_rate)
    (or_stop Device_stop
      (require (for_joints (λ i, with_joint i Joint.start_hardware))
       (require effector_read_hardware_values
        (require (start_holding undefined_servo effector_write_hardware_values)
         (require effector_move_to_ready_position
           effector_write_hardware_values))))).
End effector.
