(* ===== verification/ControlNode.v ===== *)
(** * The control node (the loop of src/pi_control_node.cpp) and an arm with its topic

    [arm_with_topic] closes the circle between an arm and its topic: the topic's [step]
    calls the arm back, but never its own [step], so it is built on an arm whose topic
    does nothing.  [control_iteration] is the body of the main loop, [control_loop] the
    loop for at most [fuel] rounds.  What comes before and
    after, with the parent monitor and the exception handlers, is in [ControlMain]; a
    termination signal is a function of the round. *)

From S2P Require Import Prelude.
From S2P Require Import FloatSpec.
From S2P Require Import Control.
From S2P Require Import Servo.
From S2P Require Import Joint.
From S2P Require Import Device.
From S2P Require Import Wire.
From S2P Require Import Topic.
From S2P Require Import JointOwner.
From S2P Require Import DeviceArm.

(** ** An arm behind its topic *)

Class HasTopic (X : Type) := {
  x_topic : X → Topic;
  x_update_topic : (Topic → Topic) → X → X;
  x_sleep_for : Z → St X unit;
}.

Section arm_topic.
Context {X : Type} `{JointServos X} `{ArmWorld X} `{HasTopic X} (undefined_servo : Servo) (undefined_long : Z).
Local Abbreviation A := (Arm X).

Definition arm_without_topic : DeviceObject A := arm_object undefined_servo undefined_long (mret SUCCESS).

Definition arm_topic_device : TopicDevice A (H := arm_without_topic) := {|
  td_topic := λ a, x_topic (world a);
  td_update_topic := λ f a, a <| world := x_update_topic f (world a) |>;
  td_dof_total := dof_total_;
  td_sleep_for := λ ms, on_world (x_sleep_for ms);
  td_request_move_to_ready_position := arm_request_move_to_ready_position;
  td_request_move_to_ready_and_stop := arm_request_move_to_ready_and_stop;
  td_set_runtime_gravity_float := set_runtime_gravity_float undefined_servo;
  td_set_runtime_force_feedback_gain := arm_set_runtime_force_feedback_gain;
  td_set_runtime_torq_rescale := set_runtime_torq_rescale;
  td_apply_action := arm_apply_action;
  td_apply_joystick := λ _, mret SUCCESS;                  (* Device::apply_action only logs *)
  td_process_follower_msg := arm_process_follower_msg;
  td_is_effector := λ _, false;
  td_set_effector_min_max_pos := λ _ _, mret NOT_SUPPORTED;
  td_set_distance_to_torque := λ _, mret NOT_SUPPORTED;
  td_set_effector_kd := λ _, mret NOT_SUPPORTED;
|}.

Definition arm_topic_step : St A ReturnCode :=
  @TopicZmq_step A arm_without_topic arm_topic_device.

Definition arm_with_topic : DeviceObject A := arm_object undefined_servo undefined_long arm_topic_step.
End arm_topic.

(** ** The main loop *)

Definition PI_CONTROL_PROTOCOL_VERSION_MAJOR : Z := 1.
Definition PI_CONTROL_PROTOCOL_VERSION_MINOR : Z := 1.
Definition PI_CONTROL_CAP_DIRECT_COMMAND : Z := Z.shiftl 1 0.
Definition PI_CONTROL_CAP_LIVE_INPUT : Z := Z.shiftl 1 1.
Definition PI_CONTROL_CAP_GRAVITY_COMP : Z := Z.shiftl 1 2.
Definition PI_CONTROL_CAP_FORCE_FEEDBACK : Z := Z.shiftl 1 3.
Definition PI_CONTROL_CAP_MOVE_TO_READY : Z := Z.shiftl 1 4.
Definition DEVICE_INFO_PROTOCOL_HANDSHAKE : Z := 30.

Definition capability_flags (role : Role) (is_read_only : bool) : Z :=
  Z.lor PI_CONTROL_CAP_MOVE_TO_READY
    (if bool_decide (role = FOLLOWER) then Z.lor PI_CONTROL_CAP_DIRECT_COMMAND PI_CONTROL_CAP_LIVE_INPUT
     else if is_read_only then 0
     else Z.lor PI_CONTROL_CAP_GRAVITY_COMP PI_CONTROL_CAP_FORCE_FEEDBACK).

(** The virtual methods that the node calls on top of those of [Device]. *)
Class NodeDevice (S : Type) `{DeviceObject S} := {
  nd_start : Z → St S ReturnCode;
  nd_verify_servos_operational : St S ReturnCode;
  nd_step : St S ReturnCode;
  nd_publish_next_servo_param : St S ReturnCode;
  nd_sleep : St S ReturnCode;
  nd_stop : St S ReturnCode;
}.

Record Node (S : Type) := mkNode {
  p_device : S;
  informed_ready_now : bool;
  ready_announce_loops_remaining : Z;
  handshake_announce_counter : Z;
  servo_param_announce_counter : Z;
}.
Arguments mkNode {S}.
Arguments p_device {S}.
Arguments informed_ready_now {S}.
Arguments ready_announce_loops_remaining {S}.
Arguments handshake_announce_counter {S}.
Arguments servo_param_announce_counter {S}.
#[export] Instance eta_Node S : Eta (Node S) := λ r, mkNode (p_device r) (informed_ready_now r)
  (ready_announce_loops_remaining r) (handshake_announce_counter r) (servo_param_announce_counter r).

Section node.
Context {S : Type} `{NodeDevice S} (control_frequency : Z).
Local Abbreviation N := (Node S).

Definition on_device {T} (m : St S T) : St N T := lift_into p_device (λ d n, n <| p_device := d |>) m.
Definition on_node (f : N → N) : St N unit := modify f.

Definition ready_announce_total_loops : Z := Z.max 1 control_frequency.
Definition ready_announce_interval_loops : Z := Z.max 1 (control_frequency `quot` 10).

(** A failed step opens the recovery, unless one is open. *)
Definition handle_step_result (return_code : ReturnCode) : St S unit :=
  d ← get_base;
  when_ (negb (ok return_code) && negb (is_in_emergency_recovery d))
    (enter_emergency_recovery return_code (last_failed_joint_id_ d);; mret tt).

Definition announce_handshake : St N unit :=
  n ← get_state;
  on_node (λ n, n <| handshake_announce_counter := handshake_announce_counter n + 1 |>);;
  when_ (handshake_announce_counter n `rem` Z.max 1 (control_frequency `quot` 2) =? 0)
    (on_device
      (d ← get_base;
       publish_device_info (mkMsgDeviceInfo DEVICE_INFO_PROTOCOL_HANDSHAKE []
         [PI_CONTROL_PROTOCOL_VERSION_MAJOR; PI_CONTROL_PROTOCOL_VERSION_MINOR;
          capability_flags (role_ (view d)) (is_read_only_ (view d))]));; mret tt).

Definition announce_servo_param : St N unit :=
  n ← get_state;
  on_node (λ n, n <| servo_param_announce_counter := servo_param_announce_counter n + 1 |>);;
  when_ (servo_param_announce_counter n `rem` Z.max 1 (control_frequency `quot` 10) =? 0)
    (on_device nd_publish_next_servo_param;; mret tt).

(** Whether the announcement of readiness failed, which leaves the loop. *)
Definition announce_ready : St N bool :=
  n ← get_state;
  let d := base (p_device n) in
  if negb (ready d) then on_node (λ n, n <| informed_ready_now := false |>);; mret false
  else
    on_node (λ n, if informed_ready_now n then n
      else n <| ready_announce_loops_remaining := ready_announce_total_loops |> <| informed_ready_now := true |>);;
    n ← get_state;
    let remaining := ready_announce_loops_remaining n in
    if remaining <=? 0 then mret false
    else
      return_code ←
        (if (remaining =? ready_announce_total_loops) || (remaining `rem` ready_announce_interval_loops =? 0)
         then on_device (publish_device_info (mkMsgDeviceInfo DEVICE_INFO_READY_NOW []
                (if 0 <? completed_move_to_ready_request_id_ d
                 then [completed_move_to_ready_request_id_ d] else [])))
         else mret SUCCESS);
      if negb (ok return_code) then mret true
      else on_node (λ n, n <| ready_announce_loops_remaining := remaining - 1 |>);; mret false.

Definition control_iteration : St N bool :=
  return_code ← on_device nd_step;
  on_device (handle_step_result return_code);;
  announce_handshake;;
  announce_servo_param;;
  left_loop ← announce_ready;
  if (left_loop : bool) then mret true else on_device nd_sleep;; mret false.

(** [round] counts the rounds done; the value says whether the loop was left. *)
Fixpoint control_loop (terminate : nat → bool) (fuel round : nat) : St N bool :=
  match fuel with
  | O => mret false
  | Datatypes.S fuel =>
      n ← get_state;
      if terminate round || negb (Device_is_running (p_device n)) then mret true
      else
        left_loop ← control_iteration;
        if (left_loop : bool) then mret true else control_loop terminate fuel (Datatypes.S round)
  end.

(** From [start] to [stop]; the exit code, or [None] when the fuel ran out. *)
Definition control_node (baud_rate : Z) (terminate : nat → bool) (fuel : nat) : St N (option Z) :=
  rc ← on_device (nd_start baud_rate);
  if negb (ok rc) then mret (Some (-1))
  else
    rc ← on_device nd_verify_servos_operational;
    if negb (ok rc) then mret (Some (-1))
    else
      on_device arm_comm_loss_protection;;
      finished ← control_loop terminate fuel 0;
      if (finished : bool) then on_device nd_stop;; mret (Some 0) else mret None.
End node.

(** ** The node of an arm *)

Section arm_node.
Context {X : Type} `{JointServos X} `{ArmWorld X} `{HasTopic X} (undefined_servo : Servo) (undefined_long : Z).
Local Abbreviation A := (Arm X).
Local Abbreviation the_step := (arm_topic_step undefined_servo undefined_long).

Definition arm_node : NodeDevice A (H := arm_with_topic undefined_servo undefined_long) := {|
  nd_start := arm_start undefined_servo undefined_long the_step;
  nd_verify_servos_operational := arm_verify_servos_operational;
  nd_step := arm_step undefined_servo undefined_long the_step;
  nd_publish_next_servo_param := arm_publish_next_servo_param undefined_long;
  nd_sleep := arm_sleep undefined_servo undefined_long the_step;
  nd_stop := arm_stop undefined_servo undefined_long the_step;
|}.
End arm_node.
