(* ===== verification/Simulation.v ===== *)
(** * A small program to run the model in

    [Sim]: servos that obey at once and read as told, no effector, no algorithm unless
    one is given (by what its calls return, at the time), a
    clock that advances ten milliseconds per look, and a topic.  [sim_arm] is an arm
    of one joint in it.  Witnesses evaluate the theorems there. *)

From S2P Require Import Prelude.
From S2P Require Import FloatSpec.
From S2P Require Import Control.
From S2P Require Import CanBus.
From S2P Require Import Servo.
From S2P Require Import Joint.
From S2P Require Import Device.
From S2P Require Import Wire.
From S2P Require Import Topic.
From S2P Require Import JointOwner.
From S2P Require Import DeviceArm.
From S2P Require Import DeviceEffector.
From S2P Require Import ControlNode.

Record Sim := mkSim {
  sim_servos : gmap ptr Servo;
  sim_read : prof_time_t → ReturnCode;    (* what reads return, by the time *)
  sim_clock : prof_time_t;
  sim_topic : Topic;
  sim_algo : option (prof_time_t → ReturnCode);    (* the algorithm, by what its calls return *)
}.
#[export] Instance eta_Sim : Eta Sim := λ r, mkSim (sim_servos r) (sim_read r) (sim_clock r) (sim_topic r) (sim_algo r).

Definition sim_servo (d : Device) : Servo := new_Servo d None.
Definition sim_servo_of (p : ptr) (s : Sim) : Servo := default (sim_servo follower_arm) (sim_servos s !! p).
Definition sim_ok : St Sim ReturnCode := mret SUCCESS.

#[export] Instance sim_joint_servos : JointServos Sim := {|
  js_servo := sim_servo_of;
  js_update := λ p f s, s <| sim_servos := alter f p (sim_servos s) |>;
  js_effective_pos_kp := λ _ _, f1;
  js_read_hardware_values := λ _, gets (λ s, sim_read s (sim_clock s));
  js_park_safely := λ _, sim_ok;
  js_start_hardware := λ _, sim_ok;
  js_verify_position_fresh := λ _, sim_ok;
  js_verify_operational := λ _, sim_ok;
  js_change_control_mode_for_leader := λ _, sim_ok;
  js_change_control_mode_for_follower := λ _, sim_ok;
  js_move := λ _ _, sim_ok;
  js_move_with := λ _ _ _ _, sim_ok;
  js_apply_torque := λ _ _, sim_ok;
  js_apply_torque_with_damping := λ _ _, sim_ok;
  js_frame_age_ms := λ _, mret 0;
  js_mit_codec_report := λ _ _, None;
|}.

Definition on_sim_topic {A} (m : St Topic A) : St Sim A := lift_into sim_topic (λ t s, s <| sim_topic := t |>) m.

#[export] Instance sim_device_world : DeviceWorld Sim := {|
  dw_set_device := λ _ s, s;
  dw_now := λ s, (sim_clock s, s <| sim_clock := sim_clock s + 10000000 |>);
  dw_usleep := λ _, mret tt;
  dw_group_read_hardware_values := sim_ok;
  dw_group_write_hardware_values := sim_ok;
  dw_driver_open := λ _, sim_ok;
  dw_driver_close := sim_ok;
  dw_driver_arm_comm_loss_protection := sim_ok;
  dw_has_algo := λ s, bool_decide (is_Some (sim_algo s));
  dw_topic_is_running := λ s, is_running_ (sim_topic s);
  dw_topic_publish_joints := λ m, on_sim_topic (publish_joints 1 FOLLOWER m);
  dw_topic_publish_info := λ m, on_sim_topic (publish_info m);
  dw_topic_sleep := sim_ok;
  dw_topic_stop := on_sim_topic Topic_stop;
  dw_topic_set_pause_leader_command_listening := λ b, on_sim_topic (set_pause_leader_command_listening b);
|}.

#[export] Instance sim_world : ArmWorld Sim := {|
  aw_dead_servo_ids := λ _, [];
  aw_gravity_compensation := λ _ t, gets (λ s, (from_option (λ f, f (sim_clock s)) SUCCESS (sim_algo s), t));
  aw_has_effector := λ _, false;
  aw_effector_role := λ _, FOLLOWER;
  aw_effector_is_ready := λ _, false;
  aw_effector_servo_ids := λ _, (SUCCESS, []);
  aw_effector_last_failed_joint_id := λ _, -1;
  aw_effector_probe_failed_servo_id := mret (-1);
  aw_effector_force_to_be_ready := mret tt;
  aw_effector_request_move_to_ready_position := λ _, mret tt;
  aw_effector_set_control_mode := λ _ _, sim_ok;
  aw_effector_set_runtime_force_feedback := λ _ _, sim_ok;
  aw_effector_set_runtime_force_feedback_gain := λ _, sim_ok;
  aw_effector_park_safely := sim_ok;
  aw_effector_verify_servos_operational := sim_ok;
  aw_effector_start := λ _, sim_ok;
  aw_effector_stop := sim_ok;
  aw_effector_sleep := sim_ok;
  aw_effector_step := sim_ok;
  aw_effector_process_follower_msg := λ _, sim_ok;
  aw_effector_apply_action := λ _, sim_ok;
  aw_effector_get_observation := λ m, mret (SUCCESS, m);
|}.

#[export] Instance sim_effector_world : EffectorWorld Sim := {|
  ew_enable_torque := λ _ _, sim_ok;
  ew_topic_publish_effector_info := λ xs, on_sim_topic (publish_effector_info xs);
|}.

#[export] Instance sim_has_topic : HasTopic Sim := {|
  x_topic := sim_topic;
  x_update_topic := λ f s, s <| sim_topic := f (sim_topic s) |>;
  x_sleep_for := λ ms s, (tt, s <| sim_clock := sim_clock s + ms * 1000000 |>);
|}.

(** ** Objects *)

Definition sim_topic_of (name : list Z) : Topic := mkTopic true false true 0 10 0
  name name (name ++ [1]) name name name name
  (Some []) (Some []) (Some []) None None
  (Some []) (Some []) (Some []) (Some []) None None.

Definition sim_cla : CommandLine := mkCommandLine 100 f1 f1 2000 false.

Definition sim_arm_of (X : Type) (d : DeviceBase) (x : X) : Arm X := mkArm
  d ARM_CONTROLLER x [new_Joint [1%positive]] [0] 0 {[ 0 := O ]} [f0] [f0] [f0] [f0] [f0] [f0] [f0] [f0]
  [] [f0] [f0] [f0] 0 false false 1 1 0 ∅.

Definition sim_start : Sim := mkSim {[ 1%positive := (sim_servo follower_arm) <| Servo.id_ := 7 |> ]} (λ _, SUCCESS) 10000000
  (sim_topic_of (bytes_of_string "joint_info")) None.
Definition sim_device : DeviceBase :=
  new_DeviceBase (follower_arm <| is_ready_ := false |>) sim_cla PARALLEL.
Definition sim_arm : Arm Sim := sim_arm_of Sim sim_device sim_start.

(** The same arm, which starts where it is and later loses its joint. *)
Definition sim_failing : Sim := sim_start <| sim_read := λ t, if t <? 200000000 then SUCCESS else HARDWARE_FAULT |>.
Definition sim_node (X : Type) (x : X) : Node (Arm X) := mkNode
  (sim_arm_of X (new_DeviceBase (follower_arm <| is_ready_ := false |>)
    (mkCommandLine 100 f1 f1 2000 true) PARALLEL) x) false 0 0 0.

(** A gripper that moves from 0 to 5 rad, limited to 2 Nm. *)
Definition sim_gripper_servo : Servo :=
  (sim_servo follower_arm) <| Servo.id_ := 8 |> <| pos_max_rel_ := f32_of_Z 5 |>.
Definition sim_gripper : Effector Sim := mkEffector
  (new_DeviceBase (follower_arm <| is_ready_ := false |>) sim_cla PARALLEL) EFFECTOR_CAN
  (sim_start <| sim_servos := {[ 1%positive := sim_gripper_servo ]} |>)
  [(new_Joint [1%positive]) <| grip_torque_limit_nm_ := f32_of_Z 2 |>]
  [f0] [f0] [f0] [] 0 false f1 f0 false f0 false false.
