(* ===== verification/DeviceRecovery.v ===== *)
(** * Emergency recovery of any device ([Device])

    [ObservedDevice] is what the base class needs of a concrete device: the record of
    what it sent through the topic, and which of its methods may touch the recovery.
    [core_run] relates the device before and after any part of a run; every operation
    of the base class keeps it ([device_run]).  [DeviceArmFacts] discharges the class
    for arms. *)

From S2P Require Import Prelude.
From S2P Require Import FloatSpec.
From S2P Require Import Control.
From S2P Require Import Joint.
From S2P Require Import Device.

(** ** What a device sends *)

Inductive Event :=
  | EInfo (msg : MsgDeviceInfo)
  | EJoints (msg : MsgJoints)
  | EStop.

Definition is_info (key : Z) (e : Event) : bool :=
  match e with EInfo msg => info_key_ msg =? key | _ => false end.
Definition is_joints (e : Event) : bool := match e with EJoints _ => true | _ => false end.
Definition is_stop (e : Event) : bool := match e with EStop => true | _ => false end.

Definition count (p : Event → bool) (es : list Event) : nat := length (filter (λ e, p e = true) es).

Lemma count_app p es es' : count p (es ++ es') = (count p es + count p es')%nat.
Proof. unfold count. by rewrite filter_app, length_app. Qed.

Lemma count_one p e : count p [e] = Nat.b2n (p e).
Proof. unfold count. rewrite filter_cons. by destruct (p e). Qed.

(** Neither opens nor closes a recovery. *)
Definition is_progress (msg : MsgDeviceInfo) : Prop :=
  info_key_ msg ≠ DEVICE_INFO_ERROR_DETECTED ∧ info_key_ msg ≠ DEVICE_INFO_SHUTDOWN_AFTER_ERROR.

(** ** The recovery as a state machine *)

Definition rank_of (s : EmergencyRecoveryState) : nat :=
  match s with
  | EMERGENCY_NONE => 0 | EMERGENCY_REQUESTED => 1 | EMERGENCY_MOVING_SLOW => 2
  | EMERGENCY_TIMED_OUT => 3 | EMERGENCY_COMPLETED => 4
  end.
Abbreviation rank d := (rank_of (emergency_recovery_state d)).

(** The end of the recovery was announced. *)
Definition announced (d : DeviceBase) : bool :=
  is_in_emergency_recovery d && emergency_completed_published_ d.

Record core_run (d d' : DeviceBase) (new : list Event) : Prop := mkRun {
  run_rank : (rank d ≤ rank d')%nat;
  run_role : role_ (view d') = role_ (view d);
  run_topic : has_topic d' = has_topic d;
  run_frozen : is_in_emergency_recovery d = true →
    emergency_cause_ d' = emergency_cause_ d ∧ emergency_failed_joint_id_ d' = emergency_failed_joint_id_ d ∧
    slow_move_active_ d' = slow_move_active_ d ∧ failed_joint_ids_ d ⊆ failed_joint_ids_ d';
  run_slow : is_in_emergency_recovery d = false → is_in_emergency_recovery d' = true →
    slow_move_active_ d' = true;
  run_announced : announced d = true → announced d' = true;
  run_error : has_topic d = true →
    (count (is_info DEVICE_INFO_ERROR_DETECTED) new + Nat.b2n (is_in_emergency_recovery d))%nat
    = Nat.b2n (is_in_emergency_recovery d');
  run_shutdown : has_topic d = true →
    (count (is_info DEVICE_INFO_SHUTDOWN_AFTER_ERROR) new + Nat.b2n (announced d))%nat
    = Nat.b2n (announced d');
  run_stop : has_topic d = true → announced d = false → announced d' = true → existsb is_stop new = true;
  run_completed : (announced d = true → emergency_recovery_state d = EMERGENCY_COMPLETED) →
    announced d' = true → emergency_recovery_state d' = EMERGENCY_COMPLETED;
  run_silent : role_ (view d) = LEADER → is_in_emergency_recovery d = true → existsb is_joints new = false;
}.

Lemma in_recovery_rank d : is_in_emergency_recovery d = (0 <? rank d)%nat.
Proof. unfold is_in_emergency_recovery. by destruct (emergency_recovery_state d). Qed.

Lemma in_recovery_mono d d' : (rank d ≤ rank d')%nat →
  is_in_emergency_recovery d = true → is_in_emergency_recovery d' = true.
Proof. rewrite !in_recovery_rank, !Nat.ltb_lt. lia. Qed.

Lemma core_run_refl d : core_run d d [].
Proof. split; try done; intros; by rewrite ?H0 in *. Qed.

Lemma core_run_trans d1 d2 d3 es es' : core_run d1 d2 es → core_run d2 d3 es' → core_run d1 d3 (es ++ es').
Proof.
  intros A B. split.
  - etrans; [apply A|apply B].
  - rewrite (run_role _ _ _ B). apply A.
  - rewrite (run_topic _ _ _ B). apply A.
  - intros H. destruct (run_frozen _ _ _ A H) as (<- & <- & <- & HA).
    destruct (run_frozen _ _ _ B) as (-> & -> & -> & HB).
    { revert H. apply in_recovery_mono, A. }
    split_and!; try done. by etrans.
  - intros H1 H3. destruct (is_in_emergency_recovery d2) eqn:H2.
    + destruct (run_frozen _ _ _ B H2) as (_ & _ & -> & _). by apply A.
    + by apply B.
  - intros H. by apply B, A.
  - intros Ht. pose proof (run_error _ _ _ A Ht). rewrite <- (run_topic _ _ _ A) in Ht.
    pose proof (run_error _ _ _ B Ht). rewrite count_app. lia.
  - intros Ht. pose proof (run_shutdown _ _ _ A Ht). rewrite <- (run_topic _ _ _ A) in Ht.
    pose proof (run_shutdown _ _ _ B Ht). rewrite count_app. lia.
  - intros Ht H1 H3. rewrite existsb_app. destruct (announced d2) eqn:H2.
    + by rewrite (run_stop _ _ _ A).
    + rewrite <- (run_topic _ _ _ A) in Ht. rewrite (run_stop _ _ _ B) by done. apply orb_true_r.
  - intros H. apply B. intros H2. by apply A.
  - intros Hr H. rewrite existsb_app, (run_silent _ _ _ A), (run_silent _ _ _ B); try done.
    + by rewrite (run_role _ _ _ A).
    + revert H. apply in_recovery_mono, A.
Qed.

(** A part that keeps what the state machine depends on. *)
Record same_core (d d' : DeviceBase) : Prop := mkSame {
  same_state : emergency_recovery_state d' = emergency_recovery_state d;
  same_cause : emergency_cause_ d' = emergency_cause_ d;
  same_failed_joint : emergency_failed_joint_id_ d' = emergency_failed_joint_id_ d;
  same_slow : slow_move_active_ d' = slow_move_active_ d;
  same_published : emergency_completed_published_ d' = emergency_completed_published_ d;
  same_role : role_ (view d') = role_ (view d);
  same_topic : has_topic d' = has_topic d;
  same_failed : failed_joint_ids_ d ⊆ failed_joint_ids_ d';
}.

#[export] Instance same_core_preorder : PreOrder same_core.
Proof.
  split; [by split|]. intros d1 d2 d3 [] []. split; congruence || by etrans.
Qed.

Lemma same_core_recovery d d' : same_core d d' → is_in_emergency_recovery d' = is_in_emergency_recovery d.
Proof. intros [E ?]. unfold is_in_emergency_recovery. by rewrite E. Qed.

Lemma same_core_announced d d' : same_core d d' → announced d' = announced d.
Proof. intros H. unfold announced. by rewrite (same_core_recovery d), (same_published d) by done. Qed.

(** Events that do not concern the recovery, of a device that may send them. *)
Lemma core_run_same d d' es : same_core d d' →
  count (is_info DEVICE_INFO_ERROR_DETECTED) es = 0%nat →
  count (is_info DEVICE_INFO_SHUTDOWN_AFTER_ERROR) es = 0%nat →
  (role_ (view d) = LEADER → is_in_emergency_recovery d = true → existsb is_joints es = false) →
  core_run d d' es.
Proof.
  intros H He Hs Hj. pose proof (same_core_recovery _ _ H) as Hr. pose proof (same_core_announced _ _ H) as Ha.
  destruct H. split; rewrite ?Hr, ?Ha, ?He, ?Hs; try done; try (intros; congruence).
  - by rewrite same_state0.
  - intros HA HB. rewrite same_state0. auto.
Qed.

(** The three kinds of transition: opening, moving on, closing. *)
Lemma core_run_open d d' es : emergency_recovery_state d = EMERGENCY_NONE →
  emergency_recovery_state d' = EMERGENCY_REQUESTED → slow_move_active_ d' = true →
  emergency_completed_published_ d' = false → role_ (view d') = role_ (view d) → has_topic d' = has_topic d →
  (has_topic d = true → count (is_info DEVICE_INFO_ERROR_DETECTED) es = 1%nat ∧
                        count (is_info DEVICE_INFO_SHUTDOWN_AFTER_ERROR) es = 0%nat) →
  core_run d d' es.
Proof.
  intros Hd Hd' Hs Hp Hr Ht He.
  assert (is_in_emergency_recovery d = false) as Hi by (unfold is_in_emergency_recovery; by rewrite Hd).
  assert (is_in_emergency_recovery d' = true) as Hi' by (unfold is_in_emergency_recovery; by rewrite Hd').
  assert (announced d = false) as Ha by (unfold announced; by rewrite Hi).
  assert (announced d' = false) as Ha' by (unfold announced; by rewrite Hp, andb_false_r).
  split; rewrite ?Hd, ?Hd', ?Hi, ?Hi', ?Ha, ?Ha', ?Ht; try done; cbn; try lia; intros Htop; destruct He; try done; lia.
Qed.

Lemma core_run_move_on d d' : is_in_emergency_recovery d = true → (rank d ≤ rank d')%nat →
  emergency_cause_ d' = emergency_cause_ d → emergency_failed_joint_id_ d' = emergency_failed_joint_id_ d →
  slow_move_active_ d' = slow_move_active_ d → emergency_completed_published_ d' = emergency_completed_published_ d →
  role_ (view d') = role_ (view d) → has_topic d' = has_topic d →
  failed_joint_ids_ d ⊆ failed_joint_ids_ d' → core_run d d' [].
Proof.
  intros Hi Hrank H1 H2 H3 H4 H5 H6 H7. pose proof (in_recovery_mono _ _ Hrank Hi) as Hi'.
  assert (announced d' = announced d) as Ha by (unfold announced; by rewrite Hi, Hi', H4).
  split; rewrite ?Ha, ?Hi, ?Hi'; try done; try (intros; congruence).
  intros Hc Hann. specialize (Hc Hann). rewrite Hc in Hrank. by destruct (emergency_recovery_state d'); cbn in Hrank; try lia.
Qed.

Lemma core_run_close d d' es : is_in_emergency_recovery d = true → emergency_completed_published_ d = false →
  emergency_recovery_state d' = EMERGENCY_COMPLETED → emergency_completed_published_ d' = true →
  emergency_cause_ d' = emergency_cause_ d → emergency_failed_joint_id_ d' = emergency_failed_joint_id_ d →
  slow_move_active_ d' = slow_move_active_ d → role_ (view d') = role_ (view d) → has_topic d' = has_topic d →
  failed_joint_ids_ d ⊆ failed_joint_ids_ d' →
  (has_topic d = true → count (is_info DEVICE_INFO_ERROR_DETECTED) es = 0%nat ∧
     count (is_info DEVICE_INFO_SHUTDOWN_AFTER_ERROR) es = 1%nat ∧ existsb is_stop es = true) →
  existsb is_joints es = false → core_run d d' es.
Proof.
  intros Hi Hp Hd' Hp' H1 H2 H3 H4 H5 H6 He Hj.
  assert (is_in_emergency_recovery d' = true) as Hi' by (unfold is_in_emergency_recovery; by rewrite Hd').
  assert (announced d = false) as Ha by (unfold announced; by rewrite Hp, andb_false_r).
  assert (announced d' = true) as Ha' by (unfold announced; by rewrite Hi', Hp').
  split; rewrite ?Hd', ?Hi, ?Hi', ?Ha, ?Ha', ?H5; try done;
    try (intros Htop; destruct (He Htop) as (E1 & E2 & E3); rewrite ?E1, ?E2; done).
  destruct (emergency_recovery_state d); cbn; lia.
Qed.

(** ** The interface *)

Class ObservedDevice (S : Type) `{DeviceObject S} := {
  events : S → list Event;
  base_update : ∀ f s, base (update_base f s) = f (base s);
  events_update : ∀ f s, events (update_base f s) = events s;
}.

Section relations.
Context {S : Type} `{ObservedDevice S}.

Definition recovery_run : relation S := λ s s',
  ∃ new, events s' = events s ++ new ∧ core_run (base s) (base s') new.
Definition quiet : relation S := λ s s', events s' = events s ∧ same_core (base s) (base s').
Definition sends (e : Event) : relation S := λ s s',
  events s' = events s ++ [e] ∧ same_core (base s) (base s').

#[export] Instance recovery_run_preorder : PreOrder recovery_run.
Proof.
  split.
  - intros s. exists []. by rewrite app_nil_r; split; [|apply core_run_refl].
  - intros s1 s2 s3 (es & E1 & R1) (es' & E2 & R2). exists (es ++ es').
    rewrite E2, E1, app_assoc. split; [done|by eapply core_run_trans].
Qed.

#[export] Instance quiet_preorder : PreOrder quiet.
Proof. split; [by split|]. intros s1 s2 s3 [E1 ?] [E2 ?]. split; [congruence|by etrans]. Qed.

Lemma quiet_run s s' : quiet s s' → recovery_run s s'.
Proof. intros [E Hc]. exists []. rewrite app_nil_r. split; [done|by apply core_run_same]. Qed.

Lemma steps_quiet {A} (m : St S A) : steps quiet m → steps recovery_run m.
Proof. intros Hm s. apply quiet_run, Hm. Qed.

Lemma wp_of_steps {A} (R : relation S) (m : St S A) Q s :
  steps R m → (∀ a s', R s s' → Q a s') → wp m Q s.
Proof. intros Hm HQ. apply HQ, Hm. Qed.

Definition wp_quiet {A} (m : St S A) := wp_of_steps quiet m.

Lemma quiet_update f : (∀ d, same_core d (f d)) → ∀ s, quiet s (update_base f s).
Proof. intros Hf s. split; [apply events_update|rewrite base_update; apply Hf]. Qed.

Lemma quiet_on_base f : (∀ d, same_core d (f d)) → steps quiet (on_base f).
Proof. intros Hf. apply steps_modify. by apply quiet_update. Qed.
End relations.

(** What the topic does, and what a concrete device promises. *)
Class PublishLaws (S : Type) `{ObservedDevice S} : Prop := {
  law_publish_info : ∀ msg, steps (sends (EInfo msg)) (topic_publish_info msg);
  law_publish_joints : ∀ msg, steps (sends (EJoints msg)) (topic_publish_joints msg);
  law_stop : steps (sends EStop) topic_stop;
}.

Class RecoveryLaws (S : Type) `{ObservedDevice S} : Prop := {
  law_publish :: PublishLaws S;
  law_clock : steps quiet clock_now;
  law_park : steps quiet park_safely;
  law_read : steps quiet read_hardware_values;
  law_write : steps quiet write_hardware_values;
  law_leader : steps quiet operate_as_leader;
  law_follower : steps quiet operate_as_follower;
  law_observation : steps quiet get_observation;
  law_mode : ∀ r i, steps quiet (set_control_mode r i);
  law_ratio : steps quiet get_ready_move_completion_ratio;
  law_reset : steps quiet reset_ready_state_for_move_to_ready;
  law_clear : steps quiet clear_command_buffers_for_move_to_ready;
  law_hold : steps quiet runtime_hold;
  law_feedback : ∀ b g, steps quiet (set_runtime_force_feedback b g);
  law_driver_open : ∀ b, steps quiet (driver_open b);
  law_driver_close : steps quiet driver_close;
  law_driver_protect : steps quiet driver_arm_comm_loss_protection;
  law_topic_sleep : steps quiet topic_sleep;
  law_pause : ∀ b, steps quiet (topic_set_pause_leader_command_listening b);
  law_move : steps recovery_run move_to_ready_position;
  law_step : steps recovery_run topic_step;
}.
#[export] Hint Resolve law_clock law_park law_read law_write law_leader law_follower law_observation
  law_mode law_ratio law_reset law_clear law_hold law_feedback law_driver_open law_driver_close
  law_driver_protect law_topic_sleep law_pause law_move law_step : steps.
#[export] Hint Resolve steps_quiet | 5 : steps.
#[export] Hint Extern 0 (PublishLaws _) => exact _ : steps.

(** ** Closing a recovery *)

Section closing.
Context {S : Type} `{PublishLaws S}.
Local Abbreviation run := (steps (recovery_run (S := S))).

Lemma run_sends s s' e : sends e s s' → is_info DEVICE_INFO_ERROR_DETECTED e = false →
  is_info DEVICE_INFO_SHUTDOWN_AFTER_ERROR e = false →
  (role_ (view (base s)) = LEADER → is_in_emergency_recovery (base s) = true → is_joints e = false) →
  recovery_run s s'.
Proof.
  intros [E Hc] He Hs Hj. exists [e]. split; [done|].
  apply core_run_same; rewrite ?count_one, ?He, ?Hs; try done. cbn. rewrite orb_false_r. done.
Qed.

(** What [publish_device_info] does, as a relation. *)
Definition publishes (msg : MsgDeviceInfo) : relation S := λ s s',
  if has_topic (base s) then sends (EInfo msg) s s' else s' = s.

Lemma publish_publishes msg : steps (publishes msg) (publish_device_info msg).
Proof.
  intros s. apply (wp_run _ (λ _ s', publishes msg s s')).
  unfold publish_device_info, Device_publish_device_info, get_base, publishes. wp_steps.
  - by destruct (has_topic _).
  - destruct (has_topic _); [|done]. apply (steps_wp (sends (EInfo msg))), law_publish_info.
Qed.

Definition closed (d d' : DeviceBase) : Prop :=
  emergency_recovery_state d' = EMERGENCY_COMPLETED ∧ emergency_completed_published_ d' = true ∧
  emergency_cause_ d' = emergency_cause_ d ∧ emergency_failed_joint_id_ d' = emergency_failed_joint_id_ d ∧
  slow_move_active_ d' = slow_move_active_ d ∧ role_ (view d') = role_ (view d) ∧
  has_topic d' = has_topic d ∧ failed_joint_ids_ d ⊆ failed_joint_ids_ d'.

Lemma closed_same d d1 d2 : closed d d1 → same_core d1 d2 → closed d d2.
Proof. intros (? & ? & ? & ? & ? & ? & ? & ?) []. split_and!; try congruence. by etrans. Qed.

Lemma core_run_closed d d' es : is_in_emergency_recovery d = true → emergency_completed_published_ d = false →
  closed d d' →
  (has_topic d = true → count (is_info DEVICE_INFO_ERROR_DETECTED) es = 0%nat ∧
     count (is_info DEVICE_INFO_SHUTDOWN_AFTER_ERROR) es = 1%nat ∧ existsb is_stop es = true) →
  existsb is_joints es = false → core_run d d' es.
Proof. intros Hi Hp (? & ? & ? & ? & ? & ? & ? & ?) He Hj. by apply core_run_close. Qed.

Lemma run_closed msg s s1 s2 s3 : is_in_emergency_recovery (base s) = true →
  emergency_completed_published_ (base s) = false → info_key_ msg = DEVICE_INFO_SHUTDOWN_AFTER_ERROR →
  closed (base s) (base s1) → events s1 = events s → publishes msg s1 s2 →
  (if has_topic (base s) then sends EStop s2 s3 else s3 = s2) → recovery_run s s3.
Proof.
  intros Hi Hp Hm Hc E1. unfold publishes.
  replace (has_topic (base s1)) with (has_topic (base s)) by (symmetry; apply Hc).
  destruct (has_topic (base s)) eqn:Ht.
  - intros [E2 C2] [E3 C3]. exists [EInfo msg; EStop]. split; [rewrite E3, E2, E1; by rewrite <- app_assoc|].
    apply core_run_closed; try done.
    + by do 2 (eapply closed_same; [|done]).
    + intros _. change [EInfo msg; EStop] with ([EInfo msg] ++ [EStop]). rewrite !count_app, !count_one.
      cbn [is_info]. by rewrite Hm.
  - intros -> ->. exists []. rewrite app_nil_r. split; [done|]. apply core_run_closed; try done. congruence.
Qed.

Lemma run_mark_completed : run mark_emergency_recovery_completed.
Proof.
  intros s. apply (wp_run _ (λ _ s', recovery_run s s')).
  unfold mark_emergency_recovery_completed, Device_mark_emergency_recovery_completed, get_base at 1.
  wp_step; wp_step. wp_step; [wp_step; reflexivity|].
  assert (is_in_emergency_recovery (base s) = true) as Hi by (unfold is_in_emergency_recovery; by rewrite H2).
  wp_step; unfold on_base at 1.
  - wp_step. exists []. rewrite events_update, app_nil_r, base_update. split; [done|].
    apply core_run_move_on; try done. cbn. destruct (emergency_recovery_state _); cbn; lia.
  - wp_step; wp_step. match goal with |- wp _ _ (update_base ?f s) => set (s1 := update_base f s) end.
    assert (closed (base s) (base s1)) as Hc by (subst s1; rewrite base_update; done).
    assert (events s1 = events s) as He by apply events_update. clearbody s1.
    wp_step. eapply wp_of_steps; [apply publish_publishes|]. intros _ s2 Hp.
    assert (∀ s3, (if has_topic (base s) then sends EStop s2 s3 else s3 = s2) → recovery_run s s3) as Hgo.
    { intros s3. eapply run_closed; [done..| |done|done|done]. done. }
    wp_step; [|apply Hgo; by rewrite H4].
    wp_step. eapply wp_of_steps; [apply law_stop|]. intros _ s3 Hs. wp_step. apply Hgo. by rewrite H4.
Qed.

End closing.

(** ** The operations of the base class *)

Section device_run.
Context {S : Type} `{RecoveryLaws S}.
Local Abbreviation run := (steps (recovery_run (S := S))).

Lemma run_get_base : run get_base.
Proof. apply steps_gets. exact _. Qed.
Lemma quiet_get_base : steps quiet (get_base (S := S)).
Proof. apply steps_gets. exact _. Qed.
Local Hint Resolve run_get_base quiet_get_base : steps.

(** Assignments to fields the recovery does not depend on. *)
Lemma run_on_base f : (∀ d, same_core d (f d)) → run (on_base f).
Proof. intros Hf. by apply steps_quiet, quiet_on_base. Qed.
Local Hint Resolve run_on_base : steps.
Local Hint Extern 3 (∀ d, same_core _ _) => solve [intros ?; split; reflexivity] : steps.

Lemma run_publish msg : is_progress msg → run (publish_device_info msg).
Proof.
  intros [Hm1 Hm2]. unfold publish_device_info, Device_publish_device_info. steps_go.
  intros s. destruct (law_publish_info msg s) as [E Hs]. exists [EInfo msg]. split; [done|].
  apply core_run_same; try done; rewrite count_one; cbn [is_info].
  - by apply Z.eqb_neq in Hm1 as ->.
  - by apply Z.eqb_neq in Hm2 as ->.
Qed.
Local Hint Resolve run_publish : steps.

Local Hint Extern 3 (is_progress _) => solve [split; discriminate] : steps.

Lemma run_recovery_progress progress : run (publish_recovery_progress progress).
Proof. unfold publish_recovery_progress. steps_go. Qed.
Lemma run_ready_move_progress source b progress : run (publish_ready_move_progress source b progress).
Proof. unfold publish_ready_move_progress. steps_go. Qed.
Local Hint Resolve run_recovery_progress run_ready_move_progress : steps.

Lemma run_publish_observation s :
  (role_ (view (base s)) = LEADER → is_in_emergency_recovery (base s) = false) →
  wp publish_observation (λ _ s', recovery_run s s') s.
Proof.
  intros Hs. unfold publish_observation. wp_step. apply wp_quiet; [apply law_observation|].
  intros [rc msg] s' Hq. wp_steps; [by apply quiet_run|].
  eapply wp_mono; [apply steps_wp, law_publish_joints|]. intros ? s'' Hsend.
  etrans; [by apply quiet_run|]. apply (run_sends _ _ _ Hsend); try done.
  destruct Hq as [_ Hc]. rewrite (same_role _ _ Hc), (same_core_recovery _ _ Hc).
  intros Hr Hi. rewrite Hs in Hi by done. done.
Qed.

(** A leader in a recovery publishes no observation. *)
Lemma run_step_publish : run step_publish.
Proof.
  intros s. apply (wp_run _ (λ _ s', recovery_run s s')). unfold step_publish, get_base. wp_steps.
  destruct (role_ (view (base s))) eqn:Hr; wp_steps; try reflexivity.
  - destruct (msg_type_ _); [by wp_steps|]. apply run_publish_observation. done.
  - apply run_publish_observation. rewrite Hr. done.
Qed.
Local Hint Resolve run_step_publish : steps.

(** *** The operations of the base class *)

Lemma quiet_watchdog : steps quiet check_client_heartbeat_watchdog.
Proof. unfold check_client_heartbeat_watchdog. steps_go. all: apply quiet_on_base; intros ?; split; reflexivity. Qed.

Lemma run_note_client_heartbeat : run note_client_heartbeat.
Proof. unfold note_client_heartbeat. steps_go. Qed.

Lemma run_switch : run switch_to_ready_move.
Proof. unfold switch_to_ready_move. steps_go. Qed.
Local Hint Resolve run_switch quiet_watchdog : steps.

(** *** Opening, timing out and closing a recovery *)

Definition opened (d d' : DeviceBase) : Prop :=
  emergency_recovery_state d' = EMERGENCY_REQUESTED ∧ slow_move_active_ d' = true ∧
  emergency_completed_published_ d' = false ∧ role_ (view d') = role_ (view d) ∧ has_topic d' = has_topic d.

Lemma run_opened msg s s1 s2 s3 : emergency_recovery_state (base s) = EMERGENCY_NONE →
  info_key_ msg = DEVICE_INFO_ERROR_DETECTED →
  opened (base s) (base s1) → events s1 = events s → quiet s1 s2 → publishes msg s2 s3 → recovery_run s s3.
Proof.
  intros Hn Hm (O1 & O2 & O3 & O4 & O5) E1 [E2 C2]. unfold publishes.
  assert (∀ d, same_core (base s1) d → emergency_recovery_state d = EMERGENCY_REQUESTED ∧
    slow_move_active_ d = true ∧ emergency_completed_published_ d = false ∧
    role_ (view d) = role_ (view (base s)) ∧ has_topic d = has_topic (base s)) as Hc.
  { intros d []. split_and!; congruence. }
  destruct (has_topic (base s2)) eqn:Ht; [intros [E3 C3]|intros ->].
  - destruct (Hc (base s3)) as (? & ? & ? & ? & ?); [by etrans|].
    exists [EInfo msg]. split; [congruence|]. apply core_run_open; try done. intros _.
    rewrite !count_one. cbn [is_info]. by rewrite Hm.
  - destruct (Hc (base s2)) as (? & ? & ? & ? & ?); [done|].
    exists []. rewrite app_nil_r. split; [congruence|]. apply core_run_open; try done. congruence.
Qed.

Lemma run_enter cause id : run (enter_emergency_recovery cause id).
Proof.
  intros s. apply (wp_run _ (λ _ s', recovery_run s s')).
  unfold enter_emergency_recovery. wp_step. unfold get_base at 1. wp_step. 
  wp_step.
  - wp_step. unfold on_base at 1. wp_step.
    match goal with |- wp _ _ (update_base ?f s) => set (s1 := update_base f s) end.
    assert (opened (base s) (base s1)) as Ho by (subst s1; rewrite base_update; by destruct (_ && _)).
    assert (events s1 = events s) as He by apply events_update. clearbody s1.
    wp_step. apply wp_quiet; [steps_go|]. intros _ s2 Hq.
    wp_step. eapply wp_of_steps; [apply publish_publishes|]. intros _ s3 Hp. wp_step.
    eapply run_opened; [by eapply bool_decide_eq_true| |exact Ho|done..]. done.
  - unfold on_base. wp_steps. apply quiet_run, quiet_update. intros d. destruct (_ && _); [|done].
    split; try done. cbn. set_solver.
Qed.

(** What an opened recovery knows of its cause. *)
Definition blames (cause : ReturnCode) (id : Z) (d : DeviceBase) : Prop :=
  is_in_emergency_recovery d = true ∧ emergency_cause_ d = ReturnCode_value cause ∧
  emergency_failed_joint_id_ d = id ∧ slow_move_active_ d = true ∧
  (cause = SAFE_MODE_SIG → 0 ≤ id → i16 id ∈ failed_joint_ids_ d).

Lemma blames_same cause id d d' : blames cause id d → same_core d d' → blames cause id d'.
Proof.
  intros (Hi & Hc & Hj & Hs & Hf) C. split_and!; rewrite ?(same_cause _ _ C), ?(same_failed_joint _ _ C), ?(same_slow _ _ C);
    try done; [by rewrite (same_core_recovery _ _ C)|]. intros. by apply (same_failed _ _ C), Hf.
Qed.

Lemma enter_blames cause id s : emergency_recovery_state (base s) = EMERGENCY_NONE →
  wp (enter_emergency_recovery cause id) (λ _ s', blames cause id (base s')) s.
Proof.
  intros Hn. unfold enter_emergency_recovery, get_base. do 2 wp_step. rewrite Hn, bool_decide_true by done.
  wp_step. unfold on_base at 1. wp_step. match goal with |- wp _ _ (update_base ?f s) => set (s1 := update_base f s) end.
  assert (blames cause id (base s1)) as Hb.
  { subst s1. rewrite base_update. unfold blames. destruct (decide (cause = SAFE_MODE_SIG)) as [->|Hc].
    - rewrite bool_decide_true by done. destruct (Z.leb_spec 0 id); cbn [andb]; split_and!; try done.
      + intros. cbn. set_solver.
      + intros. lia.
    - rewrite bool_decide_false by done. by split_and!. }
  clearbody s1. wp_step. apply wp_quiet; [steps_go|]. intros _ s2 [_ C2].
  wp_step. eapply wp_of_steps; [apply publish_publishes|]. intros _ s3 Hp. wp_step. unfold publishes in Hp.
  assert (blames cause id (base s2)) as Hb2 by (by eapply blames_same).
  destruct (has_topic (base s2)); [|by subst]. destruct Hp as [_ C3]. by eapply blames_same.
Qed.

(** Steps from one state of a recovery to a later one. *)
Lemma run_move_on f x s s1 : quiet s s1 → (∀ d, same_core (set_emergency x d) (f d)) →
  is_in_emergency_recovery (base s) = true → (rank (base s) ≤ rank_of x)%nat →
  recovery_run s (update_base f s1).
Proof.
  intros Hq Hf Hi Hr. etrans; [by apply quiet_run|]. destruct Hq as [_ Hc].
  exists []. rewrite events_update, app_nil_r, base_update. split; [done|].
  specialize (Hf (base s1)). destruct Hf. cbn in *.
  apply core_run_move_on; try done; [by rewrite (same_core_recovery _ _ Hc)|].
  rewrite same_state0, (same_state _ _ Hc). done.
Qed.

Lemma run_timeout : run check_emergency_timeout_locked.
Proof.
  intros s. apply (wp_run _ (λ _ s', recovery_run s s')). unfold check_emergency_timeout_locked, get_base, on_base.
  wp_step; wp_step. wp_step; [by wp_step|]. wp_step; [by wp_step|].
  assert (emergency_recovery_state (base s) = EMERGENCY_MOVING_SLOW) as Hm
    by (by apply negb_false_iff, bool_decide_eq_true in H2).
  wp_step. apply wp_quiet; [apply law_clock|]. intros t s1 Hq. wp_steps; [|by apply quiet_run].
  eapply run_move_on; [done|intros d; reflexivity| |by rewrite Hm; cbn; lia].
  unfold is_in_emergency_recovery. by rewrite Hm.
Qed.
Local Hint Resolve run_timeout run_mark_completed run_enter : steps.

Lemma run_recovery_watchdog : run recovery_watchdog.
Proof. unfold recovery_watchdog. steps_go. Qed.

Lemma run_start_recovery : run start_recovery.
Proof.
  intros s. apply (wp_run _ (λ _ s', recovery_run s s')). unfold start_recovery, get_base.
  wp_step; wp_step. wp_step; [|reflexivity].
  assert (emergency_recovery_state (base s) = EMERGENCY_REQUESTED) as Hm by (by eapply bool_decide_eq_true).
  wp_step. apply wp_quiet; [unfold switch_to_ready_move; steps_go|]. intros _ s1 Hq1.
  wp_step. apply wp_quiet; [apply law_clock|]. intros t s2 Hq2. unfold on_base. wp_step.
  eapply run_move_on; [by etrans|intros d; by split| |by rewrite Hm; cbn; lia].
  unfold is_in_emergency_recovery. by rewrite Hm.
Qed.
Local Hint Resolve run_recovery_watchdog run_start_recovery : steps.

(** *** [step] and the rest *)

Lemma run_start_commanded_move : run start_commanded_move.
Proof. unfold start_commanded_move. steps_go. Qed.
Lemma run_recovery_heartbeat e r : run (publish_recovery_heartbeat e r).
Proof. unfold publish_recovery_heartbeat. steps_go. Qed.
Lemma run_ready_move_heartbeat e r : run (publish_ready_move_heartbeat e r).
Proof. unfold publish_ready_move_heartbeat. steps_go. Qed.
Lemma run_step_not_ready : run step_not_ready.
Proof. unfold step_not_ready, on_became_ready. steps_go. Qed.
Lemma run_restore : run restore_after_commanded_move.
Proof.
  unfold restore_after_commanded_move. steps_go.
  intros s. by apply (run_sends _ _ EStop); [apply law_stop|..].
Qed.
Local Hint Resolve run_start_commanded_move run_recovery_heartbeat run_ready_move_heartbeat
  run_step_not_ready run_restore : steps.

Lemma run_step_ready : run step_ready.
Proof. unfold step_ready. steps_go. Qed.
Lemma run_step_topic : run step_topic.
Proof. unfold step_topic. steps_go. Qed.
Local Hint Resolve run_step_ready run_step_topic : steps.

Lemma run_step_body : run step_body.
Proof. unfold step_body. steps_go. Qed.
Local Hint Resolve run_step_body : steps.

Lemma run_device_step : run Device_step.
Proof. unfold Device_step. steps_go. Qed.
End device_run.
#[export] Hint Resolve run_publish run_note_client_heartbeat run_enter run_mark_completed run_device_step : steps.
#[export] Hint Extern 3 (is_progress _) => solve [split; discriminate] : steps.
#[export] Hint Extern 0 (RecoveryLaws _) => exact _ : steps.
