(* ===== verification/TopicFacts.v ===== *)
(** * Theorems on topics ([Topic], [Wire])

    A topic's step keeps what the methods it calls keep ([run_topic_step]); in an
    emergency recovery it calls few of them ([recovery_gate]); a leader handles the
    newest of its follower's states that arrived, in their order
    ([newest_state_received]); the ports that are
    probed for a name ([port_candidates_distinct]). *)

From S2P Require Import Prelude.
From S2P Require Import FloatSpec.
From S2P Require Import Control.
From S2P Require Import Joint.
From S2P Require Import Device.
From S2P Require Import Wire.
From S2P Require Import Topic.
From S2P Require Import DeviceRecovery.

(** ** The recovery of a device that is stepped by its topic *)

Class TopicLaws (S : Type) `{TopicDevice S, !ObservedDevice S} : Prop := {
  tl_topic : ∀ f s, quiet s (td_update_topic f s);
  tl_request : ∀ i, steps quiet (td_request_move_to_ready_position i);
  tl_request_and_stop : ∀ i, steps quiet (td_request_move_to_ready_and_stop i);
  tl_gravity_float : ∀ b r, steps quiet (td_set_runtime_gravity_float b r);
  tl_gain : ∀ g, steps quiet (td_set_runtime_force_feedback_gain g);
  tl_rescale : ∀ v, steps quiet (td_set_runtime_torq_rescale v);
  tl_action : ∀ m, steps quiet (td_apply_action m);
  tl_joystick : ∀ m, steps quiet (td_apply_joystick m);
  tl_follower : ∀ m, steps quiet (td_process_follower_msg m);
  tl_min_max : ∀ x y, steps quiet (td_set_effector_min_max_pos x y);
  tl_distance : ∀ x, steps quiet (td_set_distance_to_torque x);
  tl_kd : ∀ x, steps quiet (td_set_effector_kd x);
}.
#[export] Hint Resolve tl_request tl_request_and_stop tl_gravity_float tl_gain tl_rescale tl_action
  tl_joystick tl_follower tl_min_max tl_distance tl_kd : steps.

Section topic_run.
Context {S : Type} `{TopicDevice S, !ObservedDevice S, !RecoveryLaws S, !TopicLaws S}.
Local Abbreviation run := (steps (recovery_run (S := S))).

Lemma run_on_topic f : run (on_topic f).
Proof. apply steps_quiet, steps_modify, tl_topic. Qed.
Lemma run_get_topic : run get_topic.
Proof. apply steps_gets. exact _. Qed.
Local Hint Resolve run_on_topic run_get_topic : steps.

Lemma run_with_device m : run m → run (with_device m).
Proof. intros Hm. unfold with_device. steps_go. Qed.
Local Hint Extern 2 (steps recovery_run (with_device _)) => apply run_with_device; solve [steps_go] : steps.
Lemma run_pause_if_follower b : run (pause_if_follower b).
Proof. unfold pause_if_follower, is_role. steps_go. Qed.
Local Hint Resolve run_pause_if_follower : steps.
Lemma run_effector_command msg n m : run m → run (effector_command msg n m).
Proof. intros Hm. unfold effector_command. steps_go. Qed.
Local Hint Extern 2 (steps recovery_run (effector_command _ _ _)) => apply run_effector_command; solve [steps_go] : steps.
Lemma run_dispatch msg : run (dispatch_command msg).
Proof. unfold dispatch_command. steps_go. Qed.
Local Hint Resolve run_dispatch : steps.
Lemma run_process_command msg : run (process_command msg).
Proof. unfold process_command. steps_go. Qed.
Local Hint Resolve run_process_command : steps.
Lemma run_handle_command p : run (handle_command p).
Proof. unfold handle_command. steps_go. Qed.
Local Hint Resolve run_handle_command : steps.
Lemma run_step_command : run step_command.
Proof. unfold step_command. steps_go. Qed.
Lemma run_step_stream gs ss name size process e : (∀ p, run (process p)) →
  run (step_stream gs ss name size process e).
Proof. intros Hp. unfold step_stream. steps_go. Qed.
Lemma run_leader_joint b p : run (process_leader_msg_joint b p).
Proof. unfold process_leader_msg_joint, process_direct_msg, process_leader_joints. steps_go. Qed.
Lemma run_follower_joint p : run (process_follower_msg_joint p).
Proof. unfold process_follower_msg_joint, process_follower_joints. steps_go. Qed.
Lemma run_leader_joystick side p : run (process_leader_msg_joystick side p).
Proof. unfold process_leader_msg_joystick, process_leader_joystick. steps_go. Qed.
Local Hint Resolve run_step_command run_leader_joint run_follower_joint run_leader_joystick run_step_stream : steps.

Lemma run_topic_step : run TopicZmq_step.
Proof. unfold TopicZmq_step, step_streams. steps_go. Qed.
End topic_run.

(** ** The gate of a recovery

    [gated R m]: run in an emergency recovery, [m] stays in it and keeps [R]. *)

Section gate.
Context {S : Type} `{TopicDevice S} (R : relation S) `{!PreOrder R}.
Abbreviation recovering s := (is_in_emergency_recovery (base s) = true).

Definition gated : relation S := λ s s', recovering s → R s s' ∧ recovering s'.

#[local] Instance gated_preorder : PreOrder gated.
Proof.
  split; [by intros s Hs|]. intros s1 s2 s3 H12 H23 H1. destruct (H12 H1) as [R12 H2].
  destruct (H23 H2) as [R23 H3]. split; [by etrans|done].
Qed.

(** The methods that a recovery lets through. *)
Record gate_open : Prop := {
  go_recovering : ∀ s s', R s s' → recovering s → recovering s';
  go_topic : ∀ f, steps R (on_topic f);
  go_heartbeat : steps R note_client_heartbeat;
  go_publish : ∀ msg, steps R (publish_device_info msg);
  go_stop : ∀ i, steps R (td_request_move_to_ready_and_stop i);
  go_follower : ∀ msg, steps R (td_process_follower_msg msg);
}.
Context (G : gate_open).

Lemma gated_of {A} (m : St S A) : steps R m → steps gated m.
Proof. intros Hm s Hs. split; [apply Hm|]. by eapply go_recovering; [|apply Hm|]. Qed.
Lemma gated_on_topic f : steps gated (on_topic f).
Proof. by apply gated_of, go_topic. Qed.
Lemma gated_heartbeat : steps gated note_client_heartbeat.
Proof. by apply gated_of, go_heartbeat. Qed.
Lemma gated_publish msg : steps gated (publish_device_info msg).
Proof. by apply gated_of, go_publish. Qed.
Lemma gated_stop i : steps gated (td_request_move_to_ready_and_stop i).
Proof. by apply gated_of, go_stop. Qed.
Lemma gated_follower msg : steps gated (td_process_follower_msg msg).
Proof. by apply gated_of, go_follower. Qed.
Lemma gated_get_topic : steps gated get_topic.
Proof. apply steps_gets. exact _. Qed.
Lemma gated_get_base : steps gated get_base.
Proof. apply steps_gets. exact _. Qed.
Local Hint Resolve gated_on_topic gated_heartbeat gated_publish gated_stop gated_follower
  gated_get_topic gated_get_base : steps.
Lemma gated_pause b : steps gated (pause_if_follower b).
Proof. unfold pause_if_follower, is_role. steps_go. Qed.
Local Hint Resolve gated_pause : steps.

(** Where the gate is: nothing happens. *)
Lemma gated_leader_joints msg : steps gated (process_leader_joints msg).
Proof.
  intros s Hs. unfold process_leader_joints, with_device.
  apply (wp_run _ (λ _ s', R s s' ∧ recovering s')). unfold get_topic, get_base.
  wp_steps; try done. by rewrite Hs in *.
Qed.
Lemma gated_direct msg : steps gated (process_direct_msg msg).
Proof.
  intros s Hs. unfold process_direct_msg, with_device.
  apply (wp_run _ (λ _ s', R s s' ∧ recovering s')). unfold get_topic, get_base.
  wp_steps; try done. unfold rejects_direct_commands in *. by rewrite Hs in *.
Qed.
Lemma gated_joystick msg : steps gated (process_leader_joystick msg).
Proof.
  intros s Hs. unfold process_leader_joystick, with_device.
  apply (wp_run _ (λ _ s', R s s' ∧ recovering s')). unfold get_topic, get_base.
  wp_steps; try done. by rewrite Hs in *.
Qed.
Local Hint Resolve gated_leader_joints gated_direct gated_joystick : steps.

(** Without a device nothing is called. *)
Lemma no_device m s : has_device (td_topic s) = false → with_device m s = (NOT_INITIALIZED, s).
Proof. intros Hd. unfold with_device, mbind, St_bind, get_topic, gets. by rewrite Hd. Qed.

Lemma gated_no_device m s : has_device (td_topic s) = false → gated s (snd (with_device m s)).
Proof. intros Hd. rewrite no_device by done. cbn. reflexivity. Qed.

Lemma gated_at {A} (m : St S A) s : steps gated m → gated s (snd (m s)).
Proof. auto. Qed.

Lemma gated_with_stop i : steps gated (with_device (pause_if_follower true;; td_request_move_to_ready_and_stop i;; mret SUCCESS)).
Proof. unfold with_device. steps_go. Qed.

(** With a device, only the two escapes get here. *)
Lemma gated_dispatch msg s :
  has_device (td_topic s) && negb (recovery_escape (command_ msg)) = false →
  gated s (snd (dispatch_command msg s)).
Proof.
  intros Hd. unfold dispatch_command, effector_command. cbv zeta.
  destruct (command_ msg =? DEVICE_COMMAND_STOP) eqn:E1; [apply gated_at; steps_go|].
  destruct (command_ msg =? DEVICE_COMMAND_MOVE_TO_READY_AND_STOP) eqn:E2.
  { apply Z.eqb_eq in E2. rewrite E2. unfold DEVICE_COMMAND_MOVE_TO_READY_AND_STOP. apply gated_at.
    repeat (lazymatch goal with |- steps _ (if ?c then _ else _) => change c with false || change c with true end;
            cbv iota).
    apply gated_with_stop. }
  destruct (has_device (td_topic s)) eqn:Ht; [unfold recovery_escape in Hd; by rewrite E1, E2 in Hd|].
  repeat case_match; try (by apply gated_no_device); apply gated_at; steps_go.
Qed.

Lemma gated_process_command msg : steps gated (process_command msg).
Proof.
  intros s Hs. unfold process_command, get_topic, get_base.
  apply (wp_run _ (λ _ s', R s s' ∧ recovering s')). do 4 wp_step; cbv beta.
  assert (gated s s) as Hss by reflexivity.
  wp_step.
  - wp_step. eapply wp_mono; [apply (steps_wp gated), steps_when; [exact _|intros _; apply gated_heartbeat]|].
    intros u s1 Hg. wp_step. by apply Hg.
  - wp_step; [wp_step; by apply Hss|]. wp_step; [wp_step; by apply Hss|].
    rewrite Hs, andb_true_r in *. by apply gated_dispatch.
Qed.
Local Hint Resolve gated_process_command : steps.

Lemma gated_handle_command p : steps gated (handle_command p).
Proof. unfold handle_command. steps_go. Qed.
Local Hint Resolve gated_handle_command : steps.
Lemma gated_stream gs ss name size process e : (∀ p, steps gated (process p)) →
  steps gated (step_stream gs ss name size process e).
Proof. intros Hp. unfold step_stream. steps_go. Qed.
Lemma gated_leader_joint b p : steps gated (process_leader_msg_joint b p).
Proof. unfold process_leader_msg_joint. steps_go. Qed.
Lemma gated_follower_joint p : steps gated (process_follower_msg_joint p).
Proof. unfold process_follower_msg_joint, process_follower_joints, with_device. steps_go. Qed.
Lemma gated_leader_joystick side p : steps gated (process_leader_msg_joystick side p).
Proof. unfold process_leader_msg_joystick. steps_go. Qed.
Local Hint Resolve gated_leader_joint gated_follower_joint gated_leader_joystick gated_stream : steps.

(** A topic's step in a recovery keeps whatever its five open methods keep. *)
Lemma recovery_gate : steps gated TopicZmq_step.
Proof. unfold TopicZmq_step, step_streams, step_command. steps_go. Qed.
End gate.

(** ** A leader receives its follower's newest state *)

Definition joint_valid (d : DataJoint) : Prop :=
  Forall (λ x, valid_binary prec32 emax32 x = true)
    [msg_pos d; msg_vel d; msg_tor d; msg_temperature d; msg_idc_current d; msg_frame_age_ms d].

Definition sendable (dof_total : Z) (msg : MsgJoints) : Prop :=
  Z.of_nat (length msg) = dof_total ∧ Forall joint_valid msg.

Lemma drain_messages topic size ps : topic ≠ [] → Forall (λ p, length p = S size) ps → ∀ latest e,
  drain_sub_to_latest topic (S size) (concat (map (message topic) ps)) latest e =
    (match last ps with Some p => Some p | None => latest end, e).
Proof.
  intros Ht. induction 1 as [|p ps Hp _ IH]; intros latest e; [done|].
  cbn [map concat message app drain_sub_to_latest frame_data frame_more].
  rewrite (bool_decide_false (topic = [])), (bool_decide_true (topic = topic)) by done. cbn [orb negb].
  rewrite (bool_decide_false (p = [])) by (by intros ->).
  rewrite (bool_decide_true (length p = S size)) by done. cbn [orb negb].
  rewrite IH, last_cons. by destruct (last ps).
Qed.

Lemma wire_array_floats xs : Forall (λ x, valid_binary prec32 emax32 x = true) xs → wire_floats 10 (wire_array xs).
Proof.
  intros Hx. unfold wire_array. split.
  - rewrite length_take, length_app, length_replicate. lia.
  - apply Forall_take, Forall_app_2; [done|]. by apply Forall_replicate.
Qed.

Lemma nth_wire_array i xs : (i < length xs)%nat → (length xs ≤ 10)%nat → nth i (wire_array xs) f0 = nth i xs f0.
Proof.
  intros Hi Hl. rewrite !nth_lookup. unfold wire_array.
  rewrite lookup_take_lt by lia. by rewrite lookup_app_l.
Qed.

Lemma joint_valid_fields f msg : Forall joint_valid msg →
  (∀ d, joint_valid d → valid_binary prec32 emax32 (f d) = true) →
  Forall (λ x, valid_binary prec32 emax32 x = true) (map f msg).
Proof. intros H Hf. apply Forall_map. eapply Forall_impl; [exact H|]. intros d Hd. by apply Hf. Qed.

Lemma zmq_of_joints_ok d id msg : 0 ≤ d ≤ 10 → sendable d msg → joint_info_ok (zmq_of_joints d id msg).
Proof.
  intros Hd [Hl Hv].
  assert (∀ f, (∀ d, joint_valid d → valid_binary prec32 emax32 (f d) = true) →
    wire_floats 10 (wire_array (map f msg))) as Hf by (intros f Hf; by apply wire_array_floats, joint_valid_fields).
  split; try (apply Hf; intros j Hj; unfold joint_valid in Hj; rewrite !Forall_cons in Hj; tauto); cbn; try done.
  - pose proof (swrap_range 32 id ltac:(lia)). lia.
  - pose proof (swrap_range 16 d ltac:(lia)). lia.
Qed.

Lemma joints_of_zmq_of_joints d id msg : 0 ≤ d ≤ 10 → Z.of_nat (length msg) = d →
  let z := zmq_of_joints d id msg in
  joints_of_zmq d (λ i, nth i (z_joint_age_ms z) f0) z = msg.
Proof.
  intros Hd Hl z. unfold joints_of_zmq.
  apply list_eq. intros i. rewrite list_lookup_fmap.
  destruct (decide (i < length msg)%nat) as [Hi|Hi].
  - rewrite lookup_seq_lt by lia. cbn [fmap option_fmap option_map Nat.add].
    destruct (lookup_lt_is_Some_2 msg i Hi) as [j Ej]. rewrite Ej. f_equal.
    assert (∀ f, nth i (wire_array (map f msg)) f0 = f j) as Hn.
    { intros f. rewrite nth_wire_array by (rewrite length_map; lia). by rewrite nth_lookup, list_lookup_fmap, Ej. }
    cbn. rewrite !Hn. by destruct j.
  - rewrite lookup_seq_ge by lia. by rewrite lookup_ge_None_2 by lia.
Qed.

(** What one [publish] does to the socket. *)
Lemma publish_sends d msg t q : 0 ≤ d ≤ 10 → Z.of_nat (length msg) = d → has_device t = true →
  pub_follower_joint_ t = Some q →
  publish_joints d FOLLOWER msg t =
    (SUCCESS, t <| pub_follower_joint_ := send (topic_state_ t)
                     (encode_joint_info (zmq_of_joints d (msg_id_generation_ t) msg)) (Some q) |>
                <| msg_id_generation_ := u32 (msg_id_generation_ t + 1) |>).
Proof.
  intros Hd Hl Ht Hq. unfold publish_joints, mbind, St_bind, get_state. rewrite Hl, Ht, Hq, Z.eqb_refl.
  change (Z.of_nat kMaxWireJoints) with 10.
  rewrite (proj2 (Z.ltb_ge d 0)), (proj2 (Z.ltb_ge 10 d)) by lia. cbn [orb negb].
  rewrite (bool_decide_false (Some q = None)) by done. cbn. by rewrite Hq.
Qed.

Lemma length_encode_joint_info d id msg : length (encode_joint_info (zmq_of_joints d id msg)) = 252%nat.
Proof.
  unfold encode_joint_info. rewrite length_encode_words; [done|].
  assert (∀ f, length (wire_array (map f msg)) = 10%nat) as Hf
    by (intros f; unfold wire_array; rewrite length_take, length_app, length_replicate; lia).
  rewrite length_app, length_map, !length_app. cbn [zmq_of_joints z_joint_pos z_joint_vel z_joint_tor z_temperature
    z_idc_current z_joint_age_ms]. by rewrite !Hf.
Qed.

(** *** The way from the follower to its leader

    The follower's queue for that leader, the connection, and the leader's queue, with
    what its drains returned so far. *)
Record Link := mkLink { publisher : Topic; under_way : list Frame; arrived : list Frame; handled : list (list Z) }.

(** The connection takes the follower's oldest message, brings its oldest one to the
    leader's queue if that has room, or breaks with all that waits and is under way.  The
    leader drains its queue. *)
Inductive LinkEvent := Publish (msg : MsgJoints) | Carry | Deliver | Disconnect | Drain.

Fixpoint next_message (q : list Frame) : list Frame * list Frame :=
  match q with
  | [] => ([], [])
  | f :: q => if frame_more f then let '(m, rest) := next_message q in (f :: m, rest) else ([f], q)
  end.

Definition link_step (d : Z) (name : list Z) (l : Link) (e : LinkEvent) : Link :=
  let t := publisher l in
  let waiting := default [] (pub_follower_joint_ t) in
  match e with
  | Publish msg => mkLink (snd (publish_joints d FOLLOWER msg t)) (under_way l) (arrived l) (handled l)
  | Carry =>
      let '(m, rest) := next_message waiting in
      mkLink (t <| pub_follower_joint_ := Some rest |>) (under_way l ++ m) (arrived l) (handled l)
  | Deliver =>
      if kZmqRcvHwm <=? queued (arrived l) then l
      else let '(m, rest) := next_message (under_way l) in mkLink t rest (arrived l ++ m) (handled l)
  | Disconnect => mkLink (t <| pub_follower_joint_ := Some [] |>) [] (arrived l) (handled l)
  | Drain =>
      let '(latest, _) := drain_sub_to_latest name 252 (arrived l) None SUCCESS in
      mkLink t (under_way l) [] (handled l ++ option_list latest)
  end.

Definition link_run (d : Z) (name : list Z) (es : list LinkEvent) (l : Link) : Link := fold_left (link_step d name) es l.

Definition published (es : list LinkEvent) : list MsgJoints := omap (λ e, match e with Publish msg => Some msg | _ => None end) es.

(** A payload carries a state, whatever its number. *)
Definition carries (d : Z) (msg : MsgJoints) (p : list Z) : Prop := ∃ id, p = encode_joint_info (zmq_of_joints d id msg).
Definition holds (d : Z) (name : list Z) (msgs : list MsgJoints) (q : list Frame) : Prop :=
  ∃ ps, q = concat (map (message name) ps) ∧ Forall2 (carries d) msgs ps.

Lemma queued_message name p q : queued (message name p ++ q) = queued q + 1.
Proof.
  unfold queued, message. cbn [app]. rewrite filter_cons_False, filter_cons_True by done. cbn [length]. lia.
Qed.
Lemma queued_app q1 q2 : queued (q1 ++ q2) = queued q1 + queued q2.
Proof. unfold queued. rewrite filter_app, length_app. lia. Qed.

Lemma holds_queued d name msgs q : holds d name msgs q → queued q = Z.of_nat (length msgs).
Proof.
  intros (ps & -> & H). induction H as [|msg p msgs ps _ _ IH]; [done|].
  cbn [map concat]. rewrite queued_message, IH. cbn. lia.
Qed.
Lemma holds_nil d name : holds d name [] [].
Proof. by exists []. Qed.
Lemma holds_snoc d name msgs q msg id : holds d name msgs q →
  holds d name (msgs ++ [msg]) (q ++ message name (encode_joint_info (zmq_of_joints d id msg))).
Proof.
  intros (ps & -> & H). exists (ps ++ [encode_joint_info (zmq_of_joints d id msg)]). split.
  - rewrite map_app, concat_app. cbn. done.
  - apply Forall2_app; [done|]. constructor; [by exists id|constructor].
Qed.
Lemma holds_next d name msgs q : holds d name msgs q →
  holds d name (take 1 msgs) (next_message q).1 ∧ holds d name (drop 1 msgs) (next_message q).2.
Proof.
  intros (ps & -> & H). destruct H as [|msg p msgs ps H1 H]; [by split; exists []|]. cbn. split.
  - exists [p]. split; [done|]. constructor; [done|constructor].
  - by exists ps.
Qed.
Lemma holds_app d name m1 m2 q1 q2 : holds d name m1 q1 → holds d name m2 q2 → holds d name (m1 ++ m2) (q1 ++ q2).
Proof.
  intros (p1 & -> & H1) (p2 & -> & H2). exists (p1 ++ p2). split; [by rewrite map_app, concat_app|by apply Forall2_app].
Qed.
Lemma holds_drain d name msgs q : name ≠ [] → holds d name msgs q → ∃ latest,
  drain_sub_to_latest name 252 q None SUCCESS = (latest, SUCCESS) ∧ option_Forall2 (carries d) (last msgs) latest.
Proof.
  intros Hn (ps & -> & H). exists (last ps). split.
  - rewrite drain_messages; [by destruct (last ps)|done|]. induction H as [|msg p msgs ps [id ->] _ IH]; constructor; [|exact IH].
    apply length_encode_joint_info.
  - by apply Forall2_last.
Qed.
(** The state that a payload carries. *)
Definition state_of (d : Z) (p : list Z) : MsgJoints :=
  let z := decode_joint_info p in joints_of_zmq d (λ i, nth i (z_joint_age_ms z) f0) z.

Lemma carries_state d msg p : 0 ≤ d ≤ 10 → sendable d msg → carries d msg p → msg = state_of d p.
Proof.
  intros Hd Hs [id ->]. unfold state_of. rewrite joint_info_roundtrip by (by apply zmq_of_joints_ok).
  symmetry. by apply joints_of_zmq_of_joints, Hs.
Qed.

Lemma messages_inj name ps ps' : concat (map (message name) ps) = concat (map (message name) ps') → ps = ps'.
Proof.
  revert ps'. induction ps as [|p ps IH]; intros [|p' ps'] E; try done. cbn in E. injection E as -> E. f_equal. by apply IH.
Qed.

Lemma holds_states d name msgs ps : 0 ≤ d ≤ 10 → Forall (sendable d) msgs →
  holds d name msgs (concat (map (message name) ps)) → msgs = map (state_of d) ps.
Proof.
  intros Hd Hs (ps' & E & H). apply messages_inj in E as <-. induction H as [|msg p msgs ps Hp _ IH]; [done|].
  apply Forall_cons in Hs as [Hm Hs]. cbn. f_equal; [by apply carries_state|auto].
Qed.

(** What is where: handled, arrived, under way and waiting. *)
Record link_ok (d : Z) (name : list Z) (sent : list MsgJoints) (l : Link) (hs a u w : list MsgJoints) : Prop := mkLinkOk {
  lk_handled : Forall2 (carries d) hs (handled l);
  lk_order : sublist (hs ++ a ++ u ++ w) sent;
  lk_arrived : holds d name a (arrived l);
  lk_under_way : holds d name u (under_way l);
  lk_waiting : ∃ q, pub_follower_joint_ (publisher l) = Some q ∧ holds d name w q;
  lk_marks : (length a ≤ 2)%nat ∧ (length w ≤ 2)%nat;
  lk_publisher : has_device (publisher l) = true ∧ topic_state_ (publisher l) = name;
}.

Lemma link_publish d name sent l hs a u w msg : 0 ≤ d ≤ 10 → sendable d msg → link_ok d name sent l hs a u w →
  link_ok d name (sent ++ [msg]) (link_step d name l (Publish msg)) hs a u
    (if (length w <? 2)%nat then w ++ [msg] else w).
Proof.
  intros Hd [Hl Hv] [Hh Ho Ha Hu (q & Eq & Hw) [La Lw] [Ht Hn]]. cbn [link_step].
  rewrite (publish_sends d msg _ q) by done. cbn [snd send mbind option_bind].
  rewrite (holds_queued _ _ _ _ Hw). change kZmqSndHwm with 2.
  destruct (Nat.ltb_spec (length w) 2) as [Hlt|Hge].
  - rewrite (proj2 (Z.leb_gt 2 _)) by lia. split; try done.
    + rewrite !(assoc_L (++)). apply sublist_app; [by rewrite <- !(assoc_L (++))|done].
    + eexists. split; [reflexivity|]. rewrite <- Hn. by rewrite <- Hn in Hw; apply holds_snoc.
    + rewrite length_app. cbn. lia.
  - rewrite (proj2 (Z.leb_le 2 _)) by lia. split; try done; [by apply sublist_inserts_r|by eexists].
Qed.

Lemma link_carry d name sent l hs a u w : link_ok d name sent l hs a u w →
  link_ok d name sent (link_step d name l Carry) hs a (u ++ take 1 w) (drop 1 w).
Proof.
  intros [Hh Ho Ha Hu (q & Eq & Hw) [La Lw] [Ht Hn]]. cbn [link_step]. rewrite Eq. change (default [] (Some q)) with q.
  destruct (holds_next _ _ _ _ Hw) as [H1 H2]. destruct (next_message q) as [m rest]. cbn [fst snd] in *.
  split; try done.
  - by rewrite <- (assoc_L (++) u), take_drop.
  - by apply holds_app.
  - by eexists.
  - rewrite length_drop. lia.
Qed.

Lemma link_deliver d name sent l hs a u w : link_ok d name sent l hs a u w →
  link_ok d name sent (link_step d name l Deliver) hs
    (if (length a <? 2)%nat then a ++ take 1 u else a) (if (length a <? 2)%nat then drop 1 u else u) w.
Proof.
  intros [Hh Ho Ha Hu Hw [La Lw] Hp]. cbn [link_step]. rewrite (holds_queued _ _ _ _ Ha). change kZmqRcvHwm with 2.
  destruct (Nat.ltb_spec (length a) 2) as [Hlt|Hge]; [|by rewrite (proj2 (Z.leb_le 2 _)) by lia].
  rewrite (proj2 (Z.leb_gt 2 _)) by lia.
  destruct (holds_next _ _ _ _ Hu) as [H1 H2]. destruct (next_message (under_way l)) as [m rest]. cbn [fst snd] in *.
  split; try done.
  - rewrite <- (assoc_L (++) a), (assoc_L (++) (take 1 u)), take_drop. done.
  - by apply holds_app.
  - rewrite length_app, length_take. lia.
Qed.

Lemma link_disconnect d name sent l hs a u w : link_ok d name sent l hs a u w →
  link_ok d name sent (link_step d name l Disconnect) hs a [] [].
Proof.
  intros [Hh Ho Ha Hu Hw [La Lw] Hp]. cbn [link_step]. split; try done.
  - etrans; [|exact Ho]. rewrite app_nil_r. apply sublist_app; [done|]. by apply sublist_inserts_r.
  - apply holds_nil.
  - eexists. split; [done|apply holds_nil].
  - cbn. lia.
Qed.

Lemma link_drain d name sent l hs a u w : name ≠ [] → link_ok d name sent l hs a u w →
  link_ok d name sent (link_step d name l Drain) (hs ++ option_list (last a)) [] u w.
Proof.
  intros Hn [Hh Ho Ha Hu Hw [La Lw] Hp]. cbn [link_step].
  destruct (holds_drain _ _ _ _ Hn Ha) as (latest & -> & Hl). split; try done.
  - apply Forall2_app; [done|]. by destruct Hl; repeat constructor.
  - etrans; [|exact Ho]. rewrite <- (assoc_L (++)). apply sublist_app; [done|]. apply sublist_app; [|done].
    destruct (last a) as [m|] eqn:E; [|apply sublist_nil_l]. apply last_Some in E as [a' ->]. by apply sublist_inserts_l.
  - apply holds_nil.
  - cbn. lia.
Qed.

Lemma link_steps d name es : 0 ≤ d ≤ 10 → name ≠ [] → Forall (sendable d) (published es) → ∀ sent l hs a u w,
  link_ok d name sent l hs a u w →
  ∃ hs a u w, link_ok d name (sent ++ published es) (link_run d name es l) hs a u w.
Proof.
  intros Hd Hn. induction es as [|e es IH]; intros Hs sent l hs a u w Hl.
  { exists hs, a, u, w. by rewrite app_nil_r. }
  destruct e as [msg| | | |]; cbn [published omap list_omap] in Hs |- *; cbn [link_run fold_left].
  - apply Forall_cons in Hs as [Hm Hs]. rewrite cons_middle, (assoc_L (++)).
    eapply (IH Hs). by apply link_publish.
  - eapply (IH Hs). by apply link_carry.
  - eapply (IH Hs). by apply link_deliver.
  - eapply (IH Hs). by eapply link_disconnect.
  - eapply (IH Hs). by apply link_drain.
Qed.

(** A state that finds the way free gets to the leader. *)
Lemma link_free d name sent l hs a m : 0 ≤ d ≤ 10 → sendable d m → (length a ≤ 1)%nat →
  link_ok d name sent l hs a [] [] →
  link_ok d name (sent ++ [m]) (link_run d name [Publish m; Carry; Deliver] l) hs (a ++ [m]) [] [].
Proof.
  intros Hd Hm La Hl. apply (link_publish _ _ _ _ _ _ _ _ m Hd Hm), link_carry, link_deliver in Hl.
  cbn [length] in Hl. change (0 <? 2)%nat with true in Hl. cbn [app take drop] in Hl.
  rewrite (proj2 (Nat.ltb_lt (length a) 2)) in Hl by lia. exact Hl.
Qed.

Section leader.
Context `{TopicDevice D}.

(** The leader's step for its follower's states. *)
Definition follower_stream : ReturnCode → St D ReturnCode :=
  step_stream sub_follower_joint_ (λ q t, t <| sub_follower_joint_ := q |>) topic_follower_joint_ 252 process_follower_msg_joint.

Lemma process_carried (s : D) msg p : 0 ≤ td_dof_total s ≤ 10 → sendable (td_dof_total s) msg →
  carries (td_dof_total s) msg p → process_follower_msg_joint p s = process_follower_joints msg s.
Proof.
  intros Hd Hs [id ->]. set (z := zmq_of_joints (td_dof_total s) id msg).
  unfold process_follower_msg_joint, mbind, St_bind, get_state.
  rewrite joint_info_roundtrip by (by apply zmq_of_joints_ok).
  assert (joint_info_count_is_valid z (td_dof_total s) = true) as ->.
  { unfold joint_info_count_is_valid. cbn [z_joint_num z zmq_of_joints]. rewrite swrap_small by lia.
    rewrite Z.eqb_refl. change (Z.of_nat kMaxWireJoints) with 10.
    by rewrite (proj2 (Z.leb_le 0 _)), (proj2 (Z.leb_le _ 10)) by lia. }
  pose proof (joints_of_zmq_of_joints _ id msg Hd (proj1 Hs)) as Ez. cbv zeta in Ez. fold z in Ez. by rewrite Ez.
Qed.

Lemma follower_stream_newest (s : D) d name a q e : (∀ f, td_dof_total (td_update_topic f s) = d) → 0 ≤ d ≤ 10 →
  name ≠ [] → topic_follower_joint_ (td_topic s) = name → sub_follower_joint_ (td_topic s) = Some q →
  holds d name a q → Forall (sendable d) a →
  let s1 := td_update_topic (λ t, t <| sub_follower_joint_ := Some [] |>) s in
  follower_stream e s =
    match last a with
    | None => (e, s1)
    | Some msg => let '(rc, s2) := process_follower_joints msg s1 in (keep_first e rc, s2)
    end.
Proof.
  intros Hdof Hd Hn Ht Hq Ha Hv s1. assert (td_dof_total s1 = d) as E1 by apply Hdof. destruct (holds_drain _ _ _ _ Hn Ha) as (latest & El & Hl).
  unfold follower_stream, step_stream, get_topic. rewrite bind_run. cbn [gets fst snd]. rewrite Hq, Ht, El, bind_run.
  cbn [on_topic modify fst snd]. fold s1. assert (∀ e, keep_first e SUCCESS = e) as Hk by (by intros []).
  assert (∀ msg, last a = Some msg → sendable d msg) as Hm.
  { intros msg Hl'%last_Some_elem_of. rewrite Forall_forall in Hv. by apply Hv. }
  rewrite Hk. destruct (last a) as [msg|], latest as [p|]; [|by inversion Hl|by inversion Hl|done].
  assert (carries d msg p) as Hp by (by inversion Hl). specialize (Hm msg eq_refl). rewrite bind_run.
  rewrite (process_carried s1 msg p) by (by rewrite E1). by destruct (process_follower_joints msg s1).
Qed.

(** [C36] What a leader gets of its follower's states, over queues that hold two messages
    each and drop or hold back what is more, and a connection that breaks at any time.
    After any run of publishing, carrying, delivering, breaking and draining: the states
    handled so far, those in the leader's queue (at most two) and those still on their way
    are, in this order, some of the published ones in the order they were published, so
    that none is made up, repeated, or handled after a newer one.  The leader's next step
    handles, unchanged and without an error of its own, exactly the newest state in its
    queue, and nothing if none arrived.  And a state that is published when nothing is on
    its way and at most one is in the queue, and is carried and delivered, is the newest
    there. *)
Theorem newest_state_received (s : D) (t : Topic) es :
  let d := td_dof_total s in
  let name := topic_state_ t in
  let after es := link_run d name es (mkLink t [] [] []) in
  let way := after es in
  0 ≤ d ≤ 10 → name ≠ [] → has_device t = true → pub_follower_joint_ t = Some [] →
  Forall (sendable d) (published es) → (∀ f, td_dof_total (td_update_topic f s) = d) →
  topic_follower_joint_ (td_topic s) = name → sub_follower_joint_ (td_topic s) = Some (arrived way) →
  ∃ handled_states in_queue on_the_way,
    Forall2 (carries d) handled_states (handled way) ∧
    sublist (handled_states ++ in_queue ++ on_the_way) (published es) ∧
    (length in_queue ≤ 2)%nat ∧ holds d name in_queue (arrived way) ∧
    (∀ e, follower_stream e s =
       let s1 := td_update_topic (λ t, t <| sub_follower_joint_ := Some [] |>) s in
       match last in_queue with
       | None => (e, s1)
       | Some msg => let '(rc, s2) := process_follower_joints msg s1 in (keep_first e rc, s2)
       end) ∧
    (∀ msg, sendable d msg → under_way way = [] → pub_follower_joint_ (publisher way) = Some [] →
       queued (arrived way) ≤ 1 →
       holds d name (in_queue ++ [msg]) (arrived (after (es ++ [Publish msg; Carry; Deliver])))).
Proof.
  intros d name after way Hd Hn Ht Hq Hs Hdof Hname Hsub.
  destruct (link_steps d name es Hd Hn Hs [] (mkLink t [] [] []) [] [] [] []) as (hs & a & u & w & Hl).
  { split; try done; [apply holds_nil..|eexists; split; [done|apply holds_nil]|cbn; lia]. }
  change (link_ok d name (published es) way hs a u w) in Hl. pose proof Hl as [Hh Ho Ha Hu (q & Eq & Hw) [La Lw] _].
  exists hs, a, (u ++ w). split_and!; [done..| |].
  - intros e. eapply follower_stream_newest; try done.
    rewrite Forall_forall in Hs |- *. intros m Hin. apply Hs. eapply elem_of_sublist; [exact Hin|].
    etrans; [|exact Ho]. by apply sublist_inserts_l, sublist_inserts_r.
  - intros msg Hm Eu Ew La'. apply holds_queued in Ha as Ca.
    assert (u = []) as -> by (apply holds_queued in Hu; rewrite Eu in Hu; by destruct u).
    assert (w = []) as -> by (rewrite Eq in Ew; injection Ew as ->; apply holds_queued in Hw; by destruct w).
    assert (length a ≤ 1)%nat as L1 by lia.
    subst after way. cbv beta in *. unfold link_run. rewrite fold_left_app.
    apply (link_free _ _ _ _ _ _ msg Hd Hm L1) in Hl. apply Hl.
Qed.
End leader.

(** ** The ports probed for a name *)

Lemma skip_fives_once n : n `mod` 5 ≠ 0 → ∀ fuel, skip_fives fuel n = n.
Proof. intros Hn [|fuel]; cbn; [done|]. by rewrite (proj2 (Z.eqb_neq _ _)). Qed.

(** A step is odd and no multiple of five, hence prime to 1000. *)
Lemma probe_step_prime h : let step := probe_step h PORT_RANGE_JOINT_DYNAMIC in
  1 ≤ step < 1000 ∧ step `mod` 2 = 1 ∧ step `mod` 5 ≠ 0.
Proof.
  unfold probe_step. change (PORT_RANGE_JOINT_DYNAMIC) with 1000. cbn [Z.leb Z.compare Pos.compare Pos.compare_cont].
  set (r := u32 h `mod` 1000). assert (0 ≤ r < 1000) as Hr by (apply Z.mod_pos_bound; lia).
  clearbody r. cbv zeta.
  set (s0 := if r =? 0 then 1 else r). assert (1 ≤ s0 < 1000) as H0 by (unfold s0; split_ifs; lia). clearbody s0.
  set (s1 := if s0 `mod` 2 =? 0 then s0 + 1 else s0).
  assert (1 ≤ s1 < 1000 ∧ s1 `mod` 2 = 1) as [H1 H1'].
  { unfold s1. split_ifs; Z.to_euclidean_division_equations; lia. }
  clearbody s1. clear s0 H0 r Hr.
  assert (skip_fives 5 s1 = if s1 `mod` 5 =? 0 then s1 + 2 else s1) as ->.
  { cbn [skip_fives]. destruct (Z.eqb_spec (s1 `mod` 5) 0) as [E|]; [|done].
    rewrite (proj2 (Z.eqb_neq _ _)); [done|]. Z.to_euclidean_division_equations; lia. }
  assert (∀ s2, 1 ≤ s2 < 1000 → (if s2 `mod` 1000 =? 0 then 1 else s2 `mod` 1000) = s2) as Hs
    by (intros s2 Hs2; rewrite Z.mod_small by lia; by rewrite (proj2 (Z.eqb_neq _ _)) by lia).
  destruct (Z.eqb_spec (s1 `mod` 5) 0); rewrite Hs; Z.to_euclidean_division_equations; lia.
Qed.

(** No wrap-around in the arithmetic of the candidates. *)
Definition no_port_wrap (h1 : Z) : Prop := 0 ≤ h1 < 2 ^ 32 - 15 * 1000.

Lemma candidate_port_eq h1 step i : no_port_wrap h1 → 0 ≤ i < 16 → 1 ≤ step < 1000 →
  candidate_port h1 step i = 8500 + (h1 + i * step) `mod` 1000.
Proof.
  intros Hh Hi Hs. unfold candidate_port, no_port_wrap in *.
  assert (0 ≤ i * step ≤ 15 * 999) as His by nia.
  rewrite (wrap_small 32 (i * step)) by (unfold is_unsigned; lia). by rewrite wrap_small by (unfold is_unsigned; lia).
Qed.

(** A multiple of 1000 that is a small multiple of a number prime to it is zero. *)
Lemma prime_to_1000 k s : s `mod` 2 = 1 → s `mod` 5 ≠ 0 → -1000 < k < 1000 → (k * s) `mod` 1000 = 0 → k = 0.
Proof.
  intros H2 H5 Hk Hm.
  assert (∀ p, 0 < p → Z.gcd (s `mod` p) p = 1 → Z.gcd s p = 1) as Hrel.
  { intros p Hp Hg. by rewrite Z.gcd_comm, <- Z.gcd_mod by lia. }
  assert (Z.gcd s 2 = 1) as R2 by (apply Hrel; rewrite ?H2; done).
  assert (Z.gcd s 5 = 1) as R5.
  { apply Hrel; [done|]. assert (0 ≤ s `mod` 5 < 5) as Hb by (apply Z.mod_pos_bound; lia).
    assert (s `mod` 5 = 1 ∨ s `mod` 5 = 2 ∨ s `mod` 5 = 3 ∨ s `mod` 5 = 4) as [->|[->|[->| ->]]] by lia; done. }
  assert (Z.gcd s (2 * (2 * (2 * (5 * (5 * 5))))) = 1) as R by (repeat apply Z.coprime_mul_r; done).
  assert (Z.divide 1000 k) as [j Hj].
  { apply (Z.gauss 1000 s k); [|by rewrite Z.gcd_comm].
    rewrite Z.mul_comm. apply Z.mod_divide; lia. }
  lia.
Qed.

(** The sixteen ports that publishers and subscribers probe for a name are
    different and in the dynamic range, unless the name hashes into the last 15000
    values of [uint32_t]; they are those of the Python side's formula. *)
Theorem port_candidates_distinct topic_name : no_port_wrap (fnv1a_32 topic_name) →
  let ports := generate_port_candidates_from_topic topic_name kZmqPortProbeCandidatesSub in
  let step := probe_step (fnv1a_32 (topic_name ++ probe_suffix)) PORT_RANGE_JOINT_DYNAMIC in
  length ports = 16%nat ∧ NoDup ports ∧ Forall (λ p, 8500 ≤ p < 9500) ports ∧
  (∀ i, (i < 16)%nat → nth i ports 0 = 8500 + (fnv1a_32 topic_name + Z.of_nat i * step) `mod` 1000).
Proof.
  intros Hw ports step.
  destruct (probe_step_prime (fnv1a_32 (topic_name ++ probe_suffix))) as (Hs & H2 & H5). fold step in Hs, H2, H5.
  assert (ports = map (λ i, 8500 + (fnv1a_32 topic_name + Z.of_nat i * step) `mod` 1000) (seq 0 16)) as E.
  { unfold ports, generate_port_candidates_from_topic. change (kZmqPortProbeCandidatesSub <=? 0) with false.
    change (Z.to_nat (Z.min kZmqPortProbeCandidatesSub PORT_RANGE_JOINT_DYNAMIC)) with 16%nat. cbv zeta iota.
    apply map_ext_in. intros i Hi%in_seq. apply candidate_port_eq; [done|lia|done]. }
  rewrite E. split_and!.
  - done.
  - apply NoDup_fmap_2_strong; [|apply NoDup_seq]. intros i j Hi%elem_of_seq Hj%elem_of_seq Eij. cbv beta in Eij.
    assert (((Z.of_nat i - Z.of_nat j) * step) `mod` 1000 = 0) as Hm.
    { replace ((Z.of_nat i - Z.of_nat j) * step) with
        ((fnv1a_32 topic_name + Z.of_nat i * step) - (fnv1a_32 topic_name + Z.of_nat j * step)) by lia.
      apply Z.add_cancel_l in Eij. by rewrite Zminus_mod, Eij, Z.sub_diag. }
    apply prime_to_1000 in Hm; [lia|done..|lia].
  - apply Forall_fmap, Forall_forall. intros i _. unfold compose.
    generalize (fnv1a_32 topic_name + Z.of_nat i * step). intros n.
    pose proof (Z.mod_pos_bound n 1000 ltac:(lia)). lia.
  - intros i Hi. rewrite nth_lookup, list_lookup_fmap, lookup_seq_lt by done. done.
Qed.

(** Past the end of [uint32_t] two candidates may be the same port: with these hashes
    the first and the ninth are. *)
Lemma port_candidates_wrap : candidate_port (2 ^ 32 - 200) 37 0 = candidate_port (2 ^ 32 - 200) 37 8.
Proof. done. Qed.

Lemma port_candidates_distinct_witness :
  no_port_wrap (fnv1a_32 (bytes_of_string "joint_info_arm_left")) ∧
  NoDup (generate_port_candidates_from_topic (bytes_of_string "joint_info_arm_left") kZmqPortProbeCandidatesSub).
Proof.
  assert (no_port_wrap (fnv1a_32 (bytes_of_string "joint_info_arm_left"))) as Hw by (split; vm_compute; congruence).
  split; [exact Hw|]. by destruct (port_candidates_distinct _ Hw) as (_ & Hd & _).
Defined.
