(* ===== verification/JointOwnerFacts.v ===== *)
(** * What devices that own joints keep ([JointOwner])

    [ServosKeep]: what every call of a joint keeps when its servos do.  [OwnerKeeps]:
    the same for the code that arms and effectors share, when notes on failed joints
    and counters of the move do not matter ([same_core]).  [Observed] adds to any world
    the list of what was sent through the topic. *)

From S2P Require Import Prelude.
From S2P Require Import FloatSpec.
From S2P Require Import Control.
From S2P Require Import CanBus.
From S2P Require Import Servo.
From S2P Require Import Joint.
From S2P Require Import Device.
From S2P Require Import JointOwner.
From S2P Require Import DeviceRecovery.

(** ** Joints keep what their servos keep *)

Class ServosKeep {W : Type} `{JointServos W} (R : relation W) : Prop := {
  keep_preorder :: PreOrder R;
  keep_update : ∀ p f w, R w (js_update p f w);
  keep_read : ∀ p, steps R (js_read_hardware_values p);
  keep_park : ∀ p, steps R (js_park_safely p);
  keep_start : ∀ p, steps R (js_start_hardware p);
  keep_fresh : ∀ p, steps R (js_verify_position_fresh p);
  keep_operational : ∀ p, steps R (js_verify_operational p);
  keep_leader : ∀ p, steps R (js_change_control_mode_for_leader p);
  keep_follower : ∀ p, steps R (js_change_control_mode_for_follower p);
  keep_move : ∀ p x, steps R (js_move p x);
  keep_move_with : ∀ p x y z, steps R (js_move_with p x y z);
  keep_torque : ∀ p x, steps R (js_apply_torque p x);
  keep_torque_with_damping : ∀ p x, steps R (js_apply_torque_with_damping p x);
  keep_frame_age : ∀ p, steps R (js_frame_age_ms p);
}.
#[export] Hint Resolve keep_read keep_park keep_start keep_fresh keep_operational keep_leader keep_follower
  keep_move keep_move_with keep_torque keep_torque_with_damping keep_frame_age : steps.

Section joint_keeps.
Context {W : Type} `{JointServos W} (R : relation W) `{!ServosKeep R} (undefined_servo : Servo).

Definition hw_keeps : relation (JointWorld W) := λ w w', R (hw w) (hw w').
#[export] Instance hw_keeps_preorder : PreOrder hw_keeps.
Proof. split; [by intros w; unfold hw_keeps|]. intros w1 w2 w3. unfold hw_keeps. apply transitivity. Qed.

Lemma keeps_on_joint f : steps hw_keeps (on_joint f).
Proof. intros w. unfold hw_keeps. cbn. reflexivity. Qed.
Lemma keeps_on_hw {T} (m : St W T) : steps R m → steps hw_keeps (on_hw m).
Proof. intros Hm. eapply steps_lift_into; [exact Hm|]. by intros w x. Qed.
Lemma keeps_publish_view : steps hw_keeps publish_view.
Proof.
  intros w. unfold publish_view, hw_keeps. cbn. generalize (servos_ (joint w)). intros ps.
  induction ps as [|p ps IH]; cbn; [reflexivity|]. etrans; [exact IH|apply keep_update].
Qed.
Lemma keeps_fan_out m : (∀ p, steps R (m p)) → steps hw_keeps (fan_out m).
Proof.
  intros Hm. unfold fan_out. steps_go. apply keeps_on_hw, steps_each; [exact _|done].
Qed.
Local Hint Resolve keeps_on_joint keeps_publish_view keeps_fan_out keeps_on_hw : steps.

Lemma keeps_read_each ps : ∀ b rc, steps R (read_each ps b rc).
Proof. induction ps as [|p ps IH]; intros b rc; cbn [read_each]; steps_go. Qed.
Local Hint Resolve keeps_read_each : steps.

Lemma keeps_park : steps hw_keeps Joint.park_safely.
Proof. unfold Joint.park_safely. steps_go. apply keeps_on_hw, steps_each_all; [exact _|]. auto with steps. Qed.
Lemma keeps_start_hardware : steps hw_keeps start_hardware.
Proof. apply keeps_fan_out. auto with steps. Qed.
Lemma keeps_verify_operational : steps hw_keeps verify_operational.
Proof. apply keeps_fan_out. auto with steps. Qed.
Lemma keeps_follower_mode : steps hw_keeps change_control_mode_for_follower.
Proof. apply keeps_fan_out. auto with steps. Qed.
Lemma keeps_move x : steps hw_keeps (Joint.move x).
Proof. apply keeps_fan_out. auto with steps. Qed.
Lemma keeps_move_with x y z : steps hw_keeps (move_with x y z).
Proof. apply keeps_fan_out. auto with steps. Qed.
Lemma keeps_apply_torque x : steps hw_keeps (apply_torque x).
Proof. apply keeps_fan_out. auto with steps. Qed.
Local Hint Resolve keeps_move keeps_move_with keeps_apply_torque : steps.
Lemma keeps_verify_position_fresh : steps hw_keeps verify_position_fresh.
Proof. unfold verify_position_fresh. steps_go. Qed.
Lemma keeps_get_frame_age : steps hw_keeps get_frame_age_ms.
Proof. unfold get_frame_age_ms. steps_go. Qed.
Lemma keeps_joint_read b : steps hw_keeps (Joint.read_hardware_values undefined_servo b).
Proof. unfold Joint.read_hardware_values. steps_go. Qed.
Lemma keeps_set_tele_pos x : steps hw_keeps (set_tele_pos_rad x).
Proof. unfold set_tele_pos_rad. steps_go. Qed.
Lemma keeps_update_stability t : steps hw_keeps (update_stability undefined_servo t).
Proof. unfold update_stability. steps_go. Qed.
Lemma keeps_apply_spring_force x b : steps hw_keeps (apply_spring_force undefined_servo x b).
Proof. unfold apply_spring_force. steps_go. Qed.
Lemma keeps_spring_mode : steps hw_keeps change_control_mode_for_spring.
Proof. unfold change_control_mode_for_spring. steps_go. Qed.
Local Hint Resolve keeps_spring_mode : steps.
Lemma keeps_leader_mode t : steps hw_keeps (change_control_mode_for_leader undefined_servo t).
Proof. unfold change_control_mode_for_leader. steps_go. Qed.
Lemma keeps_hold : steps hw_keeps (hold_at_current_position undefined_servo).
Proof. unfold hold_at_current_position. steps_go. Qed.
Lemma keeps_reset_stuck : steps hw_keeps (reset_stuck_counter undefined_servo).
Proof. unfold reset_stuck_counter. steps_go. Qed.
Lemma keeps_check_stuck : steps hw_keeps (update_and_check_stuck undefined_servo).
Proof. unfold update_and_check_stuck. steps_go. Qed.
Lemma keeps_device_move b x y : steps hw_keeps (Device_move b x y).
Proof. unfold Device_move. steps_go. Qed.
End joint_keeps.
#[export] Hint Resolve keeps_on_joint keeps_publish_view keeps_park keeps_start_hardware
  keeps_verify_operational keeps_follower_mode keeps_move keeps_move_with keeps_apply_torque
  keeps_verify_position_fresh keeps_get_frame_age keeps_joint_read keeps_set_tele_pos
  keeps_update_stability keeps_apply_spring_force keeps_spring_mode keeps_leader_mode keeps_hold
  keeps_reset_stuck keeps_check_stuck keeps_device_move : steps.

#[export] Hint Extern 0 (ServosKeep _) => exact _ : steps.

(** ** Notes that a recovery does not see *)

Lemma same_core_mark sid d : same_core d (mark_joint_failed_during_recovery sid d).
Proof. split; try done. cbn. set_solver. Qed.
Lemma same_core_note_failure sid d : same_core d (note_failure sid d).
Proof. unfold note_failure. destruct (0 <=? sid); by split. Qed.
Lemma same_core_mark_failed sid d : same_core d (mark_failed sid d).
Proof. unfold mark_failed. destruct (0 <=? sid); [apply same_core_mark|done]. Qed.
Lemma same_core_note_abnormal sid d : same_core d (note_abnormal sid d).
Proof. unfold note_abnormal. destruct (0 <=? sid); by split. Qed.
Lemma same_core_failed_move sid d :
  same_core d ((mark_failed_and_last sid d) <| is_normal_status_ := false |>).
Proof. unfold mark_failed_and_last. destruct (0 <=? sid); split; try done. cbn. set_solver. Qed.
#[export] Hint Resolve same_core_mark same_core_note_failure same_core_mark_failed same_core_note_abnormal
  same_core_failed_move : steps.
#[export] Hint Extern 3 (∀ d, same_core _ _) => solve [intros ?; split; reflexivity] : steps.

(** ** The shared code *)

Class OwnerKeeps {S X : Type} `{JointOwner S X, JointServos X} (K : relation X) (R : relation S) : Prop := {
  owner_preorder :: PreOrder R;
  owner_servos :: ServosKeep K;
  owner_with_joint : ∀ {T} i (m : St (JointWorld X) T), steps (hw_keeps K) m → steps R (with_joint i m);
  owner_on_world : ∀ {T} (m : St X T), steps K m → steps R (on_world m);
  owner_update_joint : ∀ i f, steps R (update_joint i f);
  owner_on_base : ∀ f, (∀ d, same_core d (f d)) → steps R (on_base f);
}.

Section owner_keeps.
Context {S X : Type} `{JointOwner S X, !JointServos X} {K : relation X} {R : relation S} `{!OwnerKeeps K R}.
Context (undefined_servo : Servo) (undefined_long : Z).
Local Abbreviation quietly := (steps R).

Lemma keeps_with_joint {T} i (m : St (JointWorld X) T) : steps (hw_keeps K) m → quietly (with_joint i m).
Proof. apply (owner_with_joint (K := K)). Qed.
Lemma keeps_on_world {T} (m : St X T) : steps K m → quietly (on_world m).
Proof. apply (owner_on_world (K := K)). Qed.
Lemma keeps_update_joint i f : quietly (update_joint i f).
Proof. apply (owner_update_joint (K := K)). Qed.
Lemma keeps_on_base f : (∀ d, same_core d (f d)) → quietly (on_base f).
Proof. apply (owner_on_base (K := K)). Qed.
Local Hint Resolve keeps_with_joint keeps_on_world keeps_update_joint keeps_on_base : steps.

Lemma keeps_owner_base : quietly get_base.
Proof. apply steps_gets. exact _. Qed.
Local Hint Resolve keeps_owner_base : steps.
Lemma keeps_for_joints m : (∀ i, quietly (m i)) → quietly (for_joints m).
Proof. intros Hm. unfold for_joints. steps_go. by apply steps_each; [exact _|]. Qed.
Lemma keeps_for_joints_ m : (∀ i, quietly (m i)) → quietly (for_joints_ m).
Proof. intros Hm. unfold for_joints_. steps_go. by apply steps_each_; [exact _|]. Qed.
Local Hint Extern 2 (steps R (for_joints _)) => apply keeps_for_joints; intros ?; solve [steps_go] : steps.
Local Hint Extern 2 (steps R (for_joints_ _)) => apply keeps_for_joints_; intros ?; solve [steps_go] : steps.

Lemma keeps_joints_for_follower : quietly joints_for_follower.
Proof. unfold joints_for_follower. steps_go. Qed.
Lemma keeps_joints_for_leader now : quietly now → quietly (joints_for_leader undefined_servo now).
Proof. intros Hn. unfold joints_for_leader. steps_go. Qed.
Lemma keeps_owner_move i x y : quietly (device_move i x y).
Proof. unfold device_move. steps_go. Qed.

Lemma keeps_read_joints tol failed js : ∀ any soft last,
  quietly (read_joints undefined_servo tol failed js any soft last).
Proof. induction js as [|i js IH]; intros any soft last; cbn [read_joints]; steps_go. Qed.

Lemma keeps_check_stability t : quietly (check_stability_control undefined_servo t).
Proof.
  unfold check_stability_control, Algo_set_control_mode.
  assert (∀ js b, quietly (all_stable undefined_servo t js b)) as Hs.
  { intros js. induction js as [|i js IH]; intros b; cbn [all_stable]; steps_go. }
  steps_go.
Qed.

Lemma keeps_start_ready_move target step : quietly (start_ready_move undefined_servo undefined_long target step).
Proof.
  unfold start_ready_move.
  assert (∀ js m, quietly (start_joints undefined_servo target js m)) as Hj.
  { intros js. induction js as [|i js IH]; intros m; cbn [start_joints]; unfold start_joint; steps_go. }
  steps_go.
Qed.
Lemma keeps_spend : quietly spend_ready_move_budget.
Proof. unfold spend_ready_move_budget. steps_go. Qed.
Lemma keeps_ready_move_joints send failed step js : (∀ i x, quietly (send i x)) → ∀ c,
  quietly (ready_move_joints undefined_servo send failed step js c).
Proof.
  intros Hs. induction js as [|i js IH]; intros c; cbn [ready_move_joints]; unfold ready_move_joint; steps_go.
Qed.
Lemma keeps_conclude arrived not_arrived c b : quietly arrived → quietly not_arrived →
  quietly (conclude arrived not_arrived c b).
Proof. intros Ha Hn. unfold conclude. steps_go. Qed.
Lemma keeps_target_current : quietly (target_current_pose undefined_servo).
Proof. unfold target_current_pose. steps_go. Qed.

Lemma keeps_observe_joints position js : (∀ i, quietly (position i)) → ∀ msg,
  quietly (observe_joints undefined_servo position js msg).
Proof.
  intros Hp. induction js as [|i js IH]; intros msg; cbn [observe_joints]; unfold observe_joint; steps_go.
Qed.

Lemma keeps_for_joints_outside failed m : (∀ i, quietly (m i)) → quietly (for_joints_outside failed m).
Proof. intros Hm. unfold for_joints_outside. steps_go. Qed.
Local Hint Extern 2 (steps R (for_joints_outside _ _)) =>
  apply keeps_for_joints_outside; intros ?; solve [steps_go] : steps.
Lemma keeps_verify_joints flush wait failed : quietly flush → quietly wait →
  quietly (verify_joints flush wait failed).
Proof. intros Hf Hw. unfold verify_joints. steps_go. Qed.
Lemma keeps_startup_holds failed js : ∀ b, quietly (startup_holds undefined_servo failed js b).
Proof. induction js as [|i js IH]; intros b; cbn [startup_holds]; unfold startup_hold; steps_go. Qed.
Local Hint Resolve keeps_startup_holds : steps.
Lemma keeps_start_holding write : quietly write → quietly (start_holding undefined_servo write).
Proof. intros Hw. unfold start_holding. steps_go. Qed.
Lemma keeps_park_joints rc : quietly (park_joints rc).
Proof. unfold park_joints. steps_go. apply steps_each_all; [exact _|]. intros i. steps_go. Qed.
End owner_keeps.
#[export] Hint Extern 0 (OwnerKeeps _ _) => typeclasses eauto : steps.
#[export] Hint Resolve keeps_joints_for_follower keeps_joints_for_leader keeps_owner_move keeps_read_joints
  keeps_check_stability keeps_start_ready_move keeps_spend keeps_ready_move_joints keeps_conclude
  keeps_target_current keeps_observe_joints keeps_verify_joints keeps_start_holding keeps_park_joints : steps.

(** ** A world that remembers what was sent *)

Record Observed (X : Type) := mkObserved { inner : X; sent : list Event }.
Arguments mkObserved {X}.
Arguments inner {X}.
Arguments sent {X}.
#[export] Instance eta_Observed X : Eta (Observed X) := λ r, mkObserved (inner r) (sent r).

Section observed.
Context {X : Type} `{JointServos X} `{DeviceWorld X}.

Definition on_inner {T} (m : St X T) : St (Observed X) T := lift_into inner (λ x o, o <| inner := x |>) m.
Definition sending {T} (e : Event) (m : St X T) : St (Observed X) T :=
  rc ← on_inner m; modify (λ o, o <| sent := sent o ++ [e] |>);; mret rc.

#[export] Instance observed_servos : JointServos (Observed X) := {|
  js_servo := λ p o, js_servo p (inner o);
  js_update := λ p f o, o <| inner := js_update p f (inner o) |>;
  js_effective_pos_kp := λ p o, js_effective_pos_kp p (inner o);
  js_read_hardware_values := λ p, on_inner (js_read_hardware_values p);
  js_park_safely := λ p, on_inner (js_park_safely p);
  js_start_hardware := λ p, on_inner (js_start_hardware p);
  js_verify_position_fresh := λ p, on_inner (js_verify_position_fresh p);
  js_verify_operational := λ p, on_inner (js_verify_operational p);
  js_change_control_mode_for_leader := λ p, on_inner (js_change_control_mode_for_leader p);
  js_change_control_mode_for_follower := λ p, on_inner (js_change_control_mode_for_follower p);
  js_move := λ p x, on_inner (js_move p x);
  js_move_with := λ p x y z, on_inner (js_move_with p x y z);
  js_apply_torque := λ p x, on_inner (js_apply_torque p x);
  js_apply_torque_with_damping := λ p x, on_inner (js_apply_torque_with_damping p x);
  js_frame_age_ms := λ p, on_inner (js_frame_age_ms p);
  js_mit_codec_report := λ p o, js_mit_codec_report p (inner o);
|}.

#[export] Instance observed_device_world : DeviceWorld (Observed X) := {|
  dw_set_device := λ d o, o <| inner := dw_set_device d (inner o) |>;
  dw_now := on_inner dw_now;
  dw_usleep := λ t, on_inner (dw_usleep t);
  dw_group_read_hardware_values := on_inner dw_group_read_hardware_values;
  dw_group_write_hardware_values := on_inner dw_group_write_hardware_values;
  dw_driver_open := λ b, on_inner (dw_driver_open b);
  dw_driver_close := on_inner dw_driver_close;
  dw_driver_arm_comm_loss_protection := on_inner dw_driver_arm_comm_loss_protection;
  dw_has_algo := λ o, dw_has_algo (inner o);
  dw_topic_is_running := λ o, dw_topic_is_running (inner o);
  dw_topic_publish_joints := λ m, sending (EJoints m) (dw_topic_publish_joints m);
  dw_topic_publish_info := λ m, sending (EInfo m) (dw_topic_publish_info m);
  dw_topic_sleep := on_inner dw_topic_sleep;
  dw_topic_stop := sending EStop dw_topic_stop;
  dw_topic_set_pause_leader_command_listening := λ b, on_inner (dw_topic_set_pause_leader_command_listening b);
|}.

Definition same_sent : relation (Observed X) := λ o o', sent o' = sent o.
#[export] Instance same_sent_preorder : PreOrder same_sent.
Proof. split; [by intros ?|]. intros o1 o2 o3 E1 E2. unfold same_sent in *. congruence. Qed.

Lemma keeps_on_inner {T} (m : St X T) : steps same_sent (on_inner m).
Proof. intros o. unfold on_inner, lift_into. by destruct (m (inner o)). Qed.

Lemma sends_sending {T} e (m : St X T) o : sent (snd (sending e m o)) = sent o ++ [e].
Proof. unfold sending, on_inner, lift_into, mbind, St_bind. by destruct (m (inner o)). Qed.

#[export] Instance observed_servos_keep : ServosKeep same_sent.
Proof. split; intros; try apply keeps_on_inner; try done. exact _. Qed.
End observed.
#[export] Hint Extern 2 (steps same_sent _) => apply keeps_on_inner : steps.
