(* ===== verification/DeviceArmFacts.v ===== *)
(** * Theorems on arms ([DeviceArm])

    [WorldKeeps]: what every call of an arm keeps when the servos and the rest of the
    program do.  Arms in an [Observed] world satisfy the laws of [DeviceRecovery],
    which gives the recovery of an arm over any history of calls. *)

From S2P Require Import Prelude.
From S2P Require Import FloatSpec.
From S2P Require Import Control.
From S2P Require Import Filters.
From S2P Require Import CanBus.
From S2P Require Import Servo.
From S2P Require Import ServoConfig.
From S2P Require Import Joint.
From S2P Require Import Device.
From S2P Require Import JointOwner.
From S2P Require Import DeviceArm.
From S2P Require Import DeviceRecovery.
From S2P Require Import JointOwnerFacts.

Section observed_arm.
Context {X : Type} `{ArmWorld X}.

#[export] Instance observed_world : ArmWorld (Observed X) := {|
  aw_dead_servo_ids := λ o, aw_dead_servo_ids (inner o);
  aw_gravity_compensation := λ q t, on_inner (aw_gravity_compensation q t);
  aw_has_effector := λ o, aw_has_effector (inner o);
  aw_effector_role := λ o, aw_effector_role (inner o);
  aw_effector_is_ready := λ o, aw_effector_is_ready (inner o);
  aw_effector_servo_ids := λ o, aw_effector_servo_ids (inner o);
  aw_effector_last_failed_joint_id := λ o, aw_effector_last_failed_joint_id (inner o);
  aw_effector_probe_failed_servo_id := on_inner aw_effector_probe_failed_servo_id;
  aw_effector_force_to_be_ready := on_inner aw_effector_force_to_be_ready;
  aw_effector_request_move_to_ready_position := λ i, on_inner (aw_effector_request_move_to_ready_position i);
  aw_effector_set_control_mode := λ r i, on_inner (aw_effector_set_control_mode r i);
  aw_effector_set_runtime_force_feedback := λ b g, on_inner (aw_effector_set_runtime_force_feedback b g);
  aw_effector_set_runtime_force_feedback_gain := λ g, on_inner (aw_effector_set_runtime_force_feedback_gain g);
  aw_effector_park_safely := on_inner aw_effector_park_safely;
  aw_effector_verify_servos_operational := on_inner aw_effector_verify_servos_operational;
  aw_effector_start := λ b, on_inner (aw_effector_start b);
  aw_effector_stop := on_inner aw_effector_stop;
  aw_effector_sleep := on_inner aw_effector_sleep;
  aw_effector_step := on_inner aw_effector_step;
  aw_effector_process_follower_msg := λ m, on_inner (aw_effector_process_follower_msg m);
  aw_effector_apply_action := λ m, on_inner (aw_effector_apply_action m);
  aw_effector_get_observation := λ m, on_inner (aw_effector_get_observation m);
|}.
End observed_arm.

(** ** Arms in an observed world *)

Section arm_quiet.
Context {X : Type} `{JointServos X} `{ArmWorld X} (undefined_servo : Servo) (undefined_long : Z).
Local Abbreviation A := (Arm (Observed X)).

Definition arm_quiet : relation A := λ a a',
  sent (world a') = sent (world a) ∧ same_core (arm_base a) (arm_base a').
#[export] Instance arm_quiet_preorder : PreOrder arm_quiet.
Proof.
  split; [by split|]. intros a1 a2 a3 [E1 C1] [E2 C2]. split; [congruence|by etrans].
Qed.

Lemma quiet_on_arm f : (∀ a, world (f a) = world a ∧ arm_base (f a) = arm_base a) →
  steps arm_quiet (on_arm f).
Proof. intros Hf a. destruct (Hf a) as [E1 E2]. cbn. unfold arm_quiet. by rewrite E1, E2. Qed.
Lemma quiet_arm_base f : (∀ d, same_core d (f d)) → steps arm_quiet (on_base f).
Proof. intros Hf a. split; [done|]. apply Hf. Qed.
Lemma quiet_arm_get_base : steps arm_quiet get_base.
Proof. apply steps_gets. exact _. Qed.
Lemma quiet_on_world {T} (m : St (Observed X) T) : steps same_sent m → steps arm_quiet (on_world m).
Proof. intros Hm. eapply steps_lift_into; [exact Hm|]. intros a o E. split; [exact E|done]. Qed.
Lemma quiet_with_joint {T} i (m : St (JointWorld (Observed X)) T) :
  steps (hw_keeps same_sent) m → steps arm_quiet (with_joint i m).
Proof.
  intros Hm. unfold with_joint. eapply (steps_lift_into (hw_keeps same_sent)).
  - steps_go.
  - intros a w E. split; [exact E|done].
Qed.
Lemma quiet_update_joint i f : steps arm_quiet (update_joint i f).
Proof. by apply steps_modify. Qed.
Lemma quiet_for_joints m : (∀ i, steps arm_quiet (m i)) → steps arm_quiet (for_joints m).
Proof. intros Hm. unfold for_joints. steps_go. by apply steps_each; [exact _|]. Qed.
Lemma quiet_for_joints_ m : (∀ i, steps arm_quiet (m i)) → steps arm_quiet (for_joints_ m).
Proof. intros Hm. unfold for_joints_. steps_go. by apply steps_each_; [exact _|]. Qed.
Lemma quiet_on_effector m : steps same_sent m → steps arm_quiet (on_effector m).
Proof. intros Hm. unfold on_effector. steps_go. by apply quiet_on_world. Qed.

#[export] Instance arm_keeps : OwnerKeeps same_sent arm_quiet.
Proof.
  split; try exact _; intros.
  - by apply quiet_with_joint.
  - by apply quiet_on_world.
  - apply quiet_update_joint.
  - by apply quiet_arm_base.
Qed.
End arm_quiet.
#[export] Hint Resolve quiet_arm_get_base quiet_on_world quiet_with_joint quiet_update_joint
  quiet_on_effector : steps.
#[export] Hint Extern 2 (steps arm_quiet (on_arm _)) => apply quiet_on_arm; intros ?; split; reflexivity : steps.
#[export] Hint Extern 2 (steps arm_quiet (on_base _)) => apply quiet_arm_base : steps.
#[export] Hint Extern 2 (steps arm_quiet (for_joints _)) => apply quiet_for_joints; intros ?; solve [steps_go] : steps.
#[export] Hint Extern 2 (steps arm_quiet (for_joints_ _)) => apply quiet_for_joints_; intros ?; solve [steps_go] : steps.

(** *** Every method of an arm but the move to ready *)

Section arm_laws.
Context {X : Type} `{JointServos X} `{ArmWorld X} (undefined_servo : Servo) (undefined_long : Z).
Local Abbreviation A := (Arm (Observed X)).
Local Abbreviation quietly := (steps (arm_quiet (X := X))).

Lemma same_core_note_dead tol rec first dead d : same_core d (note_dead tol rec first dead d).
Proof.
  assert (∀ d1, same_core d d1 → same_core d
    (if tol then foldr (λ sid, mark_joint_failed_during_recovery (i16 sid)) d1 dead else d1)) as Hm.
  { intros d1 H1. destruct tol; [|done]. induction dead; [done|]. cbn. etrans; [done|]. apply same_core_mark. }
  unfold note_dead. specialize (Hm (d <| last_failed_joint_id_ := first |>) ltac:(by split)).
  destruct (_ && _); [|done]. etrans; [exact Hm|]. by split.
Qed.
Local Hint Resolve same_core_note_dead : steps.

Lemma quiet_park : quietly arm_park_safely.
Proof.
  unfold arm_park_safely. steps_go.
Qed.
Lemma quiet_reset_slew : quietly (reset_slew_targets_to_current undefined_servo).
Proof. unfold reset_slew_targets_to_current. steps_go. Qed.
Local Hint Resolve quiet_reset_slew : steps.
Lemma quiet_clear : quietly (arm_clear_command_buffers_for_move_to_ready undefined_servo).
Proof. unfold arm_clear_command_buffers_for_move_to_ready. steps_go. Qed.
Lemma quiet_reset : quietly arm_reset_ready_state_for_move_to_ready.
Proof. unfold arm_reset_ready_state_for_move_to_ready, Device_reset_ready_state_for_move_to_ready. steps_go. Qed.
Local Hint Resolve quiet_clear : steps.
Lemma quiet_mode r i : quietly (arm_set_control_mode undefined_servo r i).
Proof.
  unfold arm_set_control_mode, DeviceArm_set_control_mode, DeviceArmCan_set_control_mode,
    DeviceArmSerial_set_control_mode. steps_go.
Qed.
Local Hint Resolve quiet_mode : steps.
Lemma quiet_gravity_float_mode b r : quietly (set_runtime_gravity_float undefined_servo b r).
Proof. unfold set_runtime_gravity_float. steps_go. Qed.
Local Hint Resolve quiet_gravity_float_mode : steps.
Lemma quiet_torq_rescale vs : quietly (set_runtime_torq_rescale vs).
Proof. unfold set_runtime_torq_rescale. steps_go. Qed.
Lemma quiet_hold : quietly (arm_runtime_hold undefined_servo).
Proof. unfold arm_runtime_hold, Device_runtime_hold. steps_go. Qed.
Lemma quiet_feedback b g : quietly (arm_set_runtime_force_feedback undefined_servo b g).
Proof. unfold arm_set_runtime_force_feedback, Device_set_runtime_force_feedback. steps_go. Qed.
Lemma quiet_feedback_gain g : quietly (arm_set_runtime_force_feedback_gain g).
Proof. unfold arm_set_runtime_force_feedback_gain, Device_set_runtime_force_feedback_gain. steps_go. Qed.
Lemma quiet_request id : quietly (arm_request_move_to_ready_position id).
Proof. unfold arm_request_move_to_ready_position, Device_request_move_to_ready_position. steps_go. Qed.
Local Hint Resolve quiet_request : steps.
Lemma quiet_request_and_stop id : quietly (arm_request_move_to_ready_and_stop id).
Proof. unfold arm_request_move_to_ready_and_stop, Device_request_move_to_ready_and_stop. steps_go. Qed.

(** *** Reading and writing *)

Lemma quiet_gravity : quietly (gravity_compensation undefined_servo).
Proof. unfold gravity_compensation. steps_go. Qed.
Lemma quiet_scale i : quietly (scale_gravity i).
Proof. unfold scale_gravity, set_target_tor_of. steps_go. Qed.
Lemma quiet_clear_tor : quietly clear_target_tor.
Proof. unfold clear_target_tor. steps_go. Qed.
Local Hint Resolve quiet_gravity quiet_scale quiet_clear_tor : steps.
Lemma quiet_feedforward : quietly (update_follower_feedforward_torques undefined_servo).
Proof. unfold update_follower_feedforward_torques, set_target_tor_of. steps_go. Qed.
Local Hint Resolve quiet_feedforward : steps.

Lemma quiet_group_read tol rec : quietly (group_read tol rec).
Proof. unfold group_read. steps_go. Qed.
Lemma quiet_probe rc any : quietly (probe_effector rc any).
Proof. unfold probe_effector. steps_go. Qed.
Local Hint Resolve quiet_group_read quiet_probe : steps.
Lemma quiet_read : quietly (arm_read_hardware_values undefined_servo).
Proof. unfold arm_read_hardware_values. steps_go. Qed.
Lemma quiet_write : quietly arm_write_hardware_values.
Proof. unfold arm_write_hardware_values. steps_go. Qed.
Lemma quiet_ratio : quietly (arm_get_ready_move_completion_ratio undefined_servo).
Proof. unfold arm_get_ready_move_completion_ratio. steps_go. Qed.

(** *** Moving *)

Lemma quiet_leader : quietly (arm_operate_as_leader undefined_servo).
Proof. unfold arm_operate_as_leader, leader_gravity, follow_with_feedback. steps_go. Qed.
Lemma quiet_slew_goals dt js : ∀ scale, quietly (slew_goals undefined_servo dt js scale).
Proof. induction js as [|i js IH]; intros scale; cbn [slew_goals]; steps_go. Qed.
Local Hint Resolve quiet_slew_goals : steps.
Lemma quiet_slew : quietly (synchronized_slew undefined_servo).
Proof. unfold synchronized_slew. steps_go. Qed.
Lemma quiet_gravity_float : quietly (gravity_float undefined_servo).
Proof. unfold gravity_float. steps_go. Qed.
Local Hint Resolve quiet_slew quiet_gravity_float : steps.
Lemma quiet_follower : quietly (arm_operate_as_follower undefined_servo).
Proof. unfold arm_operate_as_follower. steps_go. Qed.
Lemma quiet_observation : quietly (arm_get_observation undefined_servo).
Proof. unfold arm_get_observation. steps_go. Qed.
Lemma quiet_apply_action msg : quietly (arm_apply_action msg).
Proof. unfold arm_apply_action, apply_action_joint. steps_go. Qed.
Lemma quiet_follower_msg msg : quietly (arm_process_follower_msg msg).
Proof. unfold arm_process_follower_msg, note_follower_joint. steps_go. Qed.

(** *** The ready move *)

Lemma quiet_send i x : quietly (arm_send i x).
Proof. unfold arm_send. steps_go. Qed.
Local Hint Resolve quiet_send : steps.
Lemma quiet_pass failed step js c : quietly (ready_move_joints undefined_servo arm_send failed step js c).
Proof. steps_go. Qed.
Lemma quiet_conclude c b : quietly (conclude_parallel c b).
Proof. unfold conclude_parallel, arm_arrived. apply keeps_conclude; steps_go. Qed.
Lemma quiet_advance : quietly advance_sequence.
Proof. unfold advance_sequence. steps_go. apply quiet_on_arm. intros b. cbv zeta. by destruct (_ <=? _). Qed.
Local Hint Resolve quiet_conclude quiet_advance : steps.
Lemma quiet_sequential failed : quietly (ready_move_sequential undefined_servo failed).
Proof. unfold ready_move_sequential, move_in_sequence. steps_go. Qed.
Lemma quiet_hold_position : quietly (hold_position undefined_servo).
Proof. unfold hold_position. steps_go. Qed.
Lemma quiet_finish b rc : quietly (finish_ready_move b rc).
Proof. unfold finish_ready_move. steps_go. Qed.
Lemma quiet_hold_pose : quietly (hold_current_pose undefined_servo).
Proof. unfold hold_current_pose. steps_go. Qed.
Lemma quiet_become_ready : quietly become_ready.
Proof. unfold become_ready. steps_go. Qed.
End arm_laws.
#[export] Hint Resolve same_core_note_dead : steps.
#[export] Hint Resolve quiet_park quiet_clear quiet_reset quiet_mode quiet_torq_rescale
  quiet_gravity_float_mode quiet_hold quiet_feedback quiet_feedback_gain quiet_request quiet_request_and_stop
  quiet_feedforward quiet_read quiet_write quiet_ratio quiet_leader quiet_follower quiet_observation
  quiet_apply_action quiet_follower_msg   quiet_pass quiet_conclude quiet_sequential quiet_hold_position quiet_finish quiet_hold_pose quiet_become_ready : steps.

(** ** Arms obey the laws of the recovery *)

Section arm_recovery.
Context {X : Type} `{JointServos X} `{ArmWorld X} (undefined_servo : Servo) (undefined_long : Z).
Local Abbreviation A := (Arm (Observed X)).
Context (arm_topic_step : St A ReturnCode).
Local Instance arm_here : DeviceObject A := arm_object undefined_servo undefined_long arm_topic_step.

#[export] Instance arm_observed : ObservedDevice A := {|
  events := λ a, sent (world a);
  base_update := λ f a, eq_refl;
  events_update := λ f a, eq_refl;
|}.

Lemma sends_on_world {T} e (m : St X T) : steps (sends e) (on_world (sending e m)).
Proof.
  intros a. unfold on_world, lift_into. pose proof (sends_sending e m (current_world a)) as E.
  destruct (sending e m (current_world a)). split; [exact E|done].
Qed.

#[export] Instance arm_publish_laws : PublishLaws A.
Proof. split; intros; apply sends_on_world. Qed.

Local Abbreviation run := (steps (recovery_run (S := A))).

Lemma run_arm_quiet {T} (m : St A T) : steps arm_quiet m → run m.
Proof. intros Hm. apply steps_quiet, Hm. Qed.
Local Hint Resolve run_arm_quiet | 5 : steps.

Lemma run_arm_mark : run arm_mark_emergency_recovery_completed.
Proof. exact (run_mark_completed (S := A)). Qed.
Local Hint Resolve run_arm_mark : steps.

Lemma run_parallel failed b step : run (ready_move_parallel undefined_servo failed b step).
Proof. unfold ready_move_parallel. steps_go. Qed.
Local Hint Resolve run_parallel : steps.
Lemma run_ready_move b failed step : run (ready_move undefined_servo undefined_long b failed step).
Proof. unfold ready_move. steps_go. Qed.
Local Hint Resolve run_ready_move : steps.
Lemma run_move_to_ready : run (arm_move_to_ready_position undefined_servo undefined_long).
Proof. unfold arm_move_to_ready_position. steps_go. Qed.
Local Hint Resolve run_move_to_ready : steps.

Context (Htopic : steps recovery_run arm_topic_step).

#[export] Instance arm_recovery_laws : RecoveryLaws A.
Proof.
  split; try exact _; intros; try apply run_move_to_ready; try apply Htopic.
  all: lazymatch goal with |- steps quiet ?m => change (steps arm_quiet m) end.
  - apply quiet_on_world, keeps_on_inner.
  - apply quiet_park.
  - apply quiet_read.
  - apply quiet_write.
  - apply quiet_leader.
  - apply quiet_follower.
  - apply quiet_observation.
  - apply quiet_mode.
  - apply quiet_ratio.
  - apply quiet_reset.
  - apply quiet_clear.
  - apply quiet_hold.
  - apply quiet_feedback.
  - apply quiet_on_world, keeps_on_inner.
  - apply quiet_on_world, keeps_on_inner.
  - apply quiet_on_world, keeps_on_inner.
  - apply quiet_on_world, keeps_on_inner.
  - apply quiet_on_world, keeps_on_inner.
Qed.

Lemma run_arm_step : run (arm_step undefined_servo undefined_long arm_topic_step).
Proof.
  unfold arm_step, note_effector_failure. pose proof (run_device_step (S := A)). steps_go.
Qed.
End arm_recovery.

