(* ===== verification/NodeRecovery.v ===== *)
(** * Emergency recovery under the main loop ([ControlNode])

    The recovery of any device that the control node runs ([NodeLaws]), and of arms
    behind their topic, whose step may call the arm back. *)

From S2P Require Import Prelude.
From S2P Require Import FloatSpec.
From S2P Require Import Control.
From S2P Require Import Servo.
From S2P Require Import Joint.
From S2P Require Import Device.
From S2P Require Import Wire.
From S2P Require Import Topic.
From S2P Require Import JointOwner.
From S2P Require Import DeviceArm.
From S2P Require Import ControlNode.
From S2P Require Import Simulation.
From S2P Require Import DeviceRecovery.
From S2P Require Import TopicFacts.
From S2P Require Import JointOwnerFacts.
From S2P Require Import DeviceArmFacts.

(** ** The node *)

Class NodeLaws (S : Type) `{NodeDevice S, !ObservedDevice S} : Prop := {
  nl_recovery :: RecoveryLaws S;
  nl_start : ∀ b, steps recovery_run (nd_start b);
  nl_verify : steps recovery_run nd_verify_servos_operational;
  nl_step : steps recovery_run nd_step;
  nl_servo_param : steps recovery_run nd_publish_next_servo_param;
  nl_sleep : steps recovery_run nd_sleep;
  nl_stop : steps recovery_run nd_stop;
}.
#[export] Hint Resolve nl_start nl_verify nl_step nl_servo_param nl_sleep nl_stop : steps.

Section node_run.
Context {S : Type} `{NodeLaws S} (control_frequency : Z).

Definition node_run : relation (Node S) := λ n n', recovery_run (p_device n) (p_device n').
#[export] Instance node_run_preorder : PreOrder node_run.
Proof. split; [by intros n; unfold node_run|]. intros n1 n2 n3. unfold node_run. apply transitivity. Qed.

Lemma run_on_device {T} (m : St S T) : steps recovery_run m → steps node_run (on_device m).
Proof. intros Hm. eapply steps_lift_into; [exact Hm|]. by intros n d. Qed.
Lemma run_on_node f : (∀ n, p_device (f n) = p_device n) → steps node_run (on_node f).
Proof. intros Hf n. unfold node_run. cbn. by rewrite Hf. Qed.
Local Hint Resolve run_on_device run_get_base : steps.
Local Hint Extern 2 (steps node_run (on_node _)) => apply run_on_node; done : steps.

Lemma run_handle_step_result rc : steps recovery_run (handle_step_result rc).
Proof. unfold handle_step_result. steps_go. Qed.
Local Hint Resolve run_handle_step_result : steps.
Lemma run_announce_handshake : steps node_run (announce_handshake control_frequency).
Proof. unfold announce_handshake. steps_go. apply run_on_device. steps_go. Qed.
Lemma run_announce_servo_param : steps node_run (announce_servo_param control_frequency).
Proof. unfold announce_servo_param. steps_go. Qed.
Lemma run_announce_ready : steps node_run (announce_ready control_frequency).
Proof.
  unfold announce_ready. steps_go. apply run_on_node. intros n. by destruct (informed_ready_now n).
Qed.
Local Hint Resolve run_announce_handshake run_announce_servo_param run_announce_ready : steps.

Lemma run_control_iteration : steps node_run (control_iteration control_frequency).
Proof. unfold control_iteration. steps_go. Qed.
Local Hint Resolve run_control_iteration : steps.

Lemma run_control_loop terminate fuel : ∀ round, steps node_run (control_loop control_frequency terminate fuel round).
Proof. induction fuel as [|fuel IH]; intros round; cbn [control_loop]; steps_go. Qed.
Local Hint Resolve run_control_loop : steps.

Lemma run_control_node baud_rate terminate fuel :
  steps node_run (control_node control_frequency baud_rate terminate fuel).
Proof. unfold control_node, arm_comm_loss_protection. steps_go. all: apply run_on_device; steps_go. Qed.
End node_run.

(** ** Arms behind their topic *)

Abbreviation core n := (arm_base (p_device n)).
Abbreviation log n := (sent (world (p_device n))).

Section arm_node.
Context {X : Type} `{JointServos X} `{ArmWorld X} `{HasTopic X} (undefined_servo : Servo) (undefined_long : Z).
Local Abbreviation A := (Arm (Observed X)).
Local Abbreviation the_step := (arm_topic_step (X := Observed X) undefined_servo undefined_long).

#[export] Instance observed_topic : HasTopic (Observed X) := {|
  x_topic := λ o, x_topic (inner o);
  x_update_topic := λ f o, o <| inner := x_update_topic f (inner o) |>;
  x_sleep_for := λ ms, on_inner (x_sleep_for ms);
|}.

#[export] Instance arm_topic_laws :
  @TopicLaws A (arm_without_topic undefined_servo undefined_long)
    (arm_topic_device undefined_servo undefined_long) (arm_observed undefined_servo undefined_long (mret SUCCESS)).
Proof.
  split; intros; try lazymatch goal with |- steps quiet ?m => change (steps (arm_quiet (X := X)) m) end.
  - by split.
  - apply quiet_request.
  - apply quiet_request_and_stop.
  - apply quiet_gravity_float_mode.
  - apply quiet_feedback_gain.
  - apply quiet_torq_rescale.
  - apply quiet_apply_action.
  - apply steps_ret. exact _.
  - apply quiet_follower_msg.
  - apply steps_ret. exact _.
  - apply steps_ret. exact _.
  - apply steps_ret. exact _.
Qed.

(** The arm as the node sees it. *)
#[local] Instance the_arm : DeviceObject A := arm_with_topic undefined_servo undefined_long.
#[local] Instance the_node : NodeDevice A := arm_node undefined_servo undefined_long.
#[export] Instance arm_behind_topic_observed : ObservedDevice A := arm_observed undefined_servo undefined_long the_step.

Local Abbreviation run := (steps (recovery_run (S := A))).

(** The topic's step, called by an arm, keeps the laws of the recovery. *)
Lemma run_arm_topic_step : run the_step.
Proof.
  pose (arm_without_topic (X := Observed X) undefined_servo undefined_long) as device.
  assert (@RecoveryLaws A device (arm_observed undefined_servo undefined_long (mret SUCCESS))) as laws
    by (apply arm_recovery_laws, steps_ret; exact _).
  exact (@run_topic_step A device (arm_topic_device undefined_servo undefined_long)
           (arm_observed undefined_servo undefined_long (mret SUCCESS)) laws arm_topic_laws).
Qed.

#[export] Instance arm_behind_topic_laws : RecoveryLaws A.
Proof. apply arm_recovery_laws, run_arm_topic_step. Qed.

Lemma run_arm_quietly {T} (m : St A T) : steps arm_quiet m → run m.
Proof. intros Hm. apply steps_quiet, Hm. Qed.
Local Hint Resolve run_arm_quietly | 5 : steps.

Lemma run_arm_topic_stop : run (on_world dw_topic_stop).
Proof.
  intros a. destruct (law_stop (S := A) a) as [E Hc]. by apply (run_sends _ _ EStop).
Qed.
Local Hint Resolve run_arm_topic_stop : steps.
Lemma run_arm_stop : run (arm_stop undefined_servo undefined_long the_step).
Proof. unfold arm_stop, Device_stop. steps_go. Qed.
Local Hint Resolve run_arm_stop : steps.

Lemma quiet_verify_operational : steps (arm_quiet (X := X)) arm_verify_servos_operational.
Proof. unfold arm_verify_servos_operational. steps_go; apply keeps_verify_joints; steps_go. Qed.
Lemma quiet_start_holding : steps (arm_quiet (X := X)) (start_holding undefined_servo arm_write_hardware_values).
Proof. apply keeps_start_holding, quiet_write. Qed.
Local Hint Resolve quiet_verify_operational quiet_start_holding : steps.

Lemma run_arm_start b : run (arm_start undefined_servo undefined_long the_step b).
Proof.
  unfold arm_start, Device_start, or_stop.
  pose proof (law_move (S := A)) as Hmove. change (run (arm_move_to_ready_position undefined_servo undefined_long)) in Hmove.
  steps_go.
Qed.
Lemma run_arm_sleep : run (arm_sleep undefined_servo undefined_long the_step).
Proof. unfold arm_sleep, Device_sleep. steps_go. Qed.

Lemma run_publish_servo_param : run (arm_publish_next_servo_param undefined_long).
Proof.
  unfold arm_publish_next_servo_param. steps_go.
Qed.

#[export] Instance arm_node_laws : NodeLaws A.
Proof.
  split; try exact _; intros.
  - apply run_arm_start.
  - apply run_arm_quietly, quiet_verify_operational.
  - apply run_arm_step, run_arm_topic_step.
  - apply run_publish_servo_param.
  - apply run_arm_sleep.
  - apply run_arm_stop.
Qed.

(** ** The recovery of an arm that the node runs *)

Variable control_frequency : Z.
Local Abbreviation N := (Node A).

(** [C1] The history of a recovery: from start to stop, for any number of rounds and
    whatever servos, effector and messages do, the arm announces ERROR_DETECTED exactly
    once when it enters a recovery and never otherwise; it announces
    SHUTDOWN_AFTER_ERROR at most once, only when the recovery is completed, and then it
    has stopped its topic; a recovery always moves at the slow speed. *)
Theorem arm_recovery_history baud_rate terminate fuel (n : N) :
  emergency_recovery_state (core n) = EMERGENCY_NONE → has_topic (core n) = true → log n = [] →
  let n' := snd (control_node control_frequency baud_rate terminate fuel n) in
  count (is_info DEVICE_INFO_ERROR_DETECTED) (log n') = Nat.b2n (is_in_emergency_recovery (core n')) ∧
  count (is_info DEVICE_INFO_SHUTDOWN_AFTER_ERROR) (log n') = Nat.b2n (announced (core n')) ∧
  (announced (core n') = true → emergency_recovery_state (core n') = EMERGENCY_COMPLETED ∧
                                existsb is_stop (log n') = true) ∧
  (is_in_emergency_recovery (core n') = true → slow_move_active_ (core n') = true).
Proof.
  intros Hn Ht Hlog n'.
  destruct (run_control_node (S := A) control_frequency baud_rate terminate fuel n) as (new & E & R).
  change (log n' = log n ++ new) in E. rewrite Hlog in E. cbn [app] in E. change (core_run (core n) (core n') new) in R.
  assert (is_in_emergency_recovery (core n) = false) as Hi by (unfold is_in_emergency_recovery; by rewrite Hn).
  assert (announced (core n) = false) as Ha by (unfold announced; by rewrite Hi).
  rewrite E. split_and!.
  - rewrite <- (run_error _ _ _ R Ht), Hi. cbn. lia.
  - rewrite <- (run_shutdown _ _ _ R Ht), Ha. cbn. lia.
  - intros H2. split; [|by apply (run_stop _ _ _ R)]. apply (run_completed _ _ _ R); [congruence|done].
  - intros H2. by apply (run_slow _ _ _ R).
Qed.

(** [C2] A recovery only goes forward: over any rounds of the main loop the recovery of
    an arm never goes back to an earlier state; its cause, the joint blamed for it and
    the slow speed stay as they were when it opened, joints found dead stay dead, and a
    leader publishes no joint positions, so that its follower does not replay the move. *)
Theorem arm_recovery_forward terminate fuel round (n : N) :
  is_in_emergency_recovery (core n) = true →
  let n' := snd (control_loop control_frequency terminate fuel round n) in
  (rank (core n) ≤ rank (core n'))%nat ∧
  emergency_cause_ (core n') = emergency_cause_ (core n) ∧
  emergency_failed_joint_id_ (core n') = emergency_failed_joint_id_ (core n) ∧
  slow_move_active_ (core n') = slow_move_active_ (core n) ∧
  failed_joint_ids_ (core n) ⊆ failed_joint_ids_ (core n') ∧
  ∃ new, log n' = log n ++ new ∧ (role_ (view (core n)) = LEADER → existsb is_joints new = false).
Proof.
  intros Hi n'. destruct (run_control_loop (S := A) control_frequency terminate fuel round n) as (new & E & R).
  change (log n' = log n ++ new) in E. change (core_run (core n) (core n') new) in R.
  destruct (run_frozen _ _ _ R Hi) as (H2 & H3 & H4 & H5). split_and!; try done; [apply R|].
  exists new. split; [done|]. intros Hl. by apply (run_silent _ _ _ R).
Qed.

(** A round after its step. *)
Lemma round_after_step (n : N) rc a : nd_step (p_device n) = (rc, a) →
  ∃ n2 : N, p_device n2 = snd (handle_step_result rc a) ∧ node_run n2 (snd (control_iteration control_frequency n)).
Proof.
  intros E. exists (n <| p_device := snd (handle_step_result rc a) |>). split; [done|].
  assert (on_device nd_step n = (rc, n <| p_device := a |>)) as E1 by (unfold on_device, lift_into; by rewrite E).
  assert (on_device (handle_step_result rc) (n <| p_device := a |>) =
    (tt, n <| p_device := snd (handle_step_result rc a) |>)) as E2.
  { unfold on_device, lift_into. cbn [p_device upd]. by destruct (handle_step_result rc a) as [[] a']. }
  unfold control_iteration. rewrite bind_run, E1. cbn [fst snd]. rewrite bind_run, E2. cbn [fst snd].
  assert (steps node_run (announce_handshake control_frequency;; announce_servo_param control_frequency;;
    left_loop ← announce_ready control_frequency;
    if (left_loop : bool) then mret true else on_device nd_sleep;; mret false)) as Hrest; [|exact (Hrest _)].
  pose proof (run_announce_handshake (S := A) control_frequency).
  pose proof (run_announce_servo_param (S := A) control_frequency).
  pose proof (run_announce_ready (S := A) control_frequency). pose proof (run_on_device (S := A) nd_sleep nl_sleep).
  steps_go.
Qed.

(** [C9] When the step of a round fails, the arm is in a recovery at the end of that
    round.  If none was running after the step, this failure opened it: its cause is the
    code of the step, the joint blamed is the last one that failed, the slow speed is on,
    and if the code is SAFE_MODE_SIG and a joint is blamed (its id is not negative), that
    joint takes no part in the move.  If one was running already, it keeps its cause, the
    joint it blames and its speed. *)
Theorem failed_step_recovers (n : N) rc a : nd_step (p_device n) = (rc, a) → rc ≠ SUCCESS →
  let n' := snd (control_iteration control_frequency n) in
  is_in_emergency_recovery (core n') = true ∧
  (is_in_emergency_recovery (arm_base a) = false →
   emergency_cause_ (core n') = ReturnCode_value rc ∧
   emergency_failed_joint_id_ (core n') = last_failed_joint_id_ (arm_base a) ∧
   slow_move_active_ (core n') = true ∧
   (rc = SAFE_MODE_SIG → 0 ≤ last_failed_joint_id_ (arm_base a) →
    i16 (last_failed_joint_id_ (arm_base a)) ∈ failed_joint_ids_ (core n'))) ∧
  (is_in_emergency_recovery (arm_base a) = true →
   emergency_cause_ (core n') = emergency_cause_ (arm_base a) ∧
   emergency_failed_joint_id_ (core n') = emergency_failed_joint_id_ (arm_base a) ∧
   slow_move_active_ (core n') = slow_move_active_ (arm_base a)).
Proof.
  intros E Hrc n'. destruct (round_after_step n rc a E) as (n2 & E2 & new & _ & R). fold n' in R.
  change (core_run (core n2) (core n') new) in R. unfold handle_step_result, get_base in E2.
  rewrite bind_run in E2. cbn [gets fst snd base the_arm arm_with_topic arm_object device_state] in E2.
  change (base a) with (arm_base a) in E2. rewrite (proj2 (ok_false rc)) in E2 by done.
  destruct (is_in_emergency_recovery (arm_base a)) eqn:Hi; cbn [negb andb when_] in E2.
  - assert (arm_base (p_device n2) = arm_base a) as E3 by (by rewrite E2).
    destruct (run_frozen _ _ _ R) as (F1 & F2 & F3 & _); [exact (eq_trans (f_equal _ E3) Hi)|].
    split_and!; [|done|intros _; rewrite F1, F2, F3; by rewrite <- E3].
    eapply in_recovery_mono; [exact (run_rank _ _ _ R)|]. by rewrite E2.
  - assert (blames rc (last_failed_joint_id_ (arm_base a)) (core n2)) as (B1 & B2 & B3 & B4 & B5).
    { rewrite E2, bind_run. unfold is_in_emergency_recovery in Hi. apply negb_false_iff, bool_decide_eq_true in Hi.
      exact (enter_blames (S := A) rc (last_failed_joint_id_ (arm_base a)) a Hi). }
    destruct (run_frozen _ _ _ R B1) as (F1 & F2 & F3 & F4). rewrite F1, F2, F3. split_and!; try done.
    + by eapply in_recovery_mono; [exact (run_rank _ _ _ R)|].
    + intros _. split_and!; try done. intros. by apply F4, B5.
Qed.
End arm_node.

(** ** A run of the node *)

Definition sim_observed : Node (Arm (Observed Sim)) := sim_node (Observed Sim) (mkObserved sim_failing []).
Local Abbreviation an_unknown_servo := (sim_servo follower_arm).
Definition sim_control_node (fuel : nat) : St (Node (Arm (Observed Sim))) (option Z) :=
  control_node (H := arm_with_topic an_unknown_servo 0) (H0 := arm_node an_unknown_servo 0)
    100 1000000 (λ _, false) fuel.

(** The node loses its joint, recovers and stops by itself. *)
Lemma arm_recovery_history_witness :
  let n' := snd (sim_control_node 60 sim_observed) in
  fst (sim_control_node 60 sim_observed) = Some 0 ∧
  count (is_info DEVICE_INFO_ERROR_DETECTED) (log n') = 1%nat ∧
  count (is_info DEVICE_INFO_SHUTDOWN_AFTER_ERROR) (log n') = 1%nat.
Proof.
  intros n'. split; [by vm_compute|].
  destruct (arm_recovery_history an_unknown_servo 0 100 1000000 (λ _, false) 60 sim_observed) as (E1 & E2 & _);
    [done..|].
  split; [refine (eq_trans E1 _)|refine (eq_trans E2 _)]; by vm_compute.
Defined.

(** A round in the middle of a recovery. *)
Definition sim_recovering : Node (Arm (Observed Sim)) := mkNode
  (sim_arm_of (Observed Sim) (set_emergency EMERGENCY_MOVING_SLOW (sim_device <| slow_move_active_ := true |>))
     (mkObserved sim_start [])) false 0 0 0.
Local Abbreviation sim_loop := (control_loop (H := arm_with_topic an_unknown_servo 0) (H0 := arm_node an_unknown_servo 0)
  100 (λ _, false) 3 0).

Lemma arm_recovery_forward_witness :
  slow_move_active_ (core (snd (sim_loop sim_recovering))) = true ∧
  (rank (core sim_recovering) ≤ rank (core (snd (sim_loop sim_recovering))))%nat.
Proof.
  destruct (arm_recovery_forward an_unknown_servo 0 100 (λ _, false) 3 0 sim_recovering) as (H1 & _ & _ & H2 & _);
    [done|].
  split; [exact (eq_trans H2 eq_refl)|exact H1].
Defined.

(** The first failure of a ready arm. *)
Definition sim_broken : Node (Arm (Observed Sim)) := mkNode
  (sim_arm_of (Observed Sim) (set_ready true sim_device)
     (mkObserved (sim_start <| sim_read := λ _, HARDWARE_FAULT |>) [])) false 0 0 0.
Local Abbreviation sim_step := (nd_step (H := arm_with_topic an_unknown_servo 0) (NodeDevice := arm_node an_unknown_servo 0)).

Lemma failed_step_recovers_witness :
  let n' := snd (control_iteration (H := arm_with_topic an_unknown_servo 0) (H0 := arm_node an_unknown_servo 0)
                   100 sim_broken) in
  is_in_emergency_recovery (core n') = true ∧ emergency_cause_ (core n') = -8 ∧
  emergency_failed_joint_id_ (core n') = 7.
Proof.
  destruct (sim_step (p_device sim_broken)) as [rc a] eqn:E.
  assert ((fst (sim_step (p_device sim_broken)), is_in_emergency_recovery (arm_base (snd (sim_step (p_device sim_broken)))),
    last_failed_joint_id_ (arm_base (snd (sim_step (p_device sim_broken))))) = (HARDWARE_FAULT, false, 7)) as E1
    by (by vm_compute).
  rewrite E in E1. injection E1 as -> Hi Hf.
  destruct (failed_step_recovers an_unknown_servo 0 100 sim_broken HARDWARE_FAULT a E) as (Hr & Hb & _); [done|].
  destruct (Hb Hi) as (Hc & Hj & _). split_and!; [exact Hr|exact Hc|by rewrite <- Hf].
Defined.
