(* ===== verification/ReadyMoveFacts.v ===== *)
(** * The parallel ready move ends ([DeviceArm])

    However the servos behave, a parallel move to the ready position is over after as
    many calls as its budget allows and 31 more: then the arm is ready, and in an
    emergency recovery the shutdown was announced.  A call that fails over its gravity
    torques returns before the move and spends nothing, so it does not count. *)

From S2P Require Import Prelude.
From S2P Require Import FloatSpec.
From S2P Require Import Control.
From S2P Require Import Servo.
From S2P Require Import Joint.
From S2P Require Import Device.
From S2P Require Import JointOwner.
From S2P Require Import DeviceArm.
From S2P Require Import ControlNode.
From S2P Require Import Simulation.
From S2P Require Import DeviceRecovery.

(** ** One pass over the joints, for arms and effectors *)

Definition settings (d : DeviceBase) :=
  (moving_mode_ d, is_read_only_ (view d),
   cla_dont_go_to_home_pos (cla_ d) && is_startup_ready_phase d, is_in_emergency_recovery d).
Definition counters (d : DeviceBase) :=
  (init_count_ d, ready_move_budget_total_ d, ready_move_budget_used_ d).

(** Joints, servos and the [Device] part are apart; [flag] is in neither. *)
Class OwnerFrame {S X : Type} `{JointOwner S X} (flag : S → bool) : Prop := {
  frame_joints : ∀ js a, base (jo_set_joints js a) = base a ∧ flag (jo_set_joints js a) = flag a;
  frame_world : ∀ x a, base (jo_set_world x a) = base a ∧ flag (jo_set_world x a) = flag a;
  frame_base : ∀ f a, base (update_base f a) = f (base a) ∧ flag (update_base f a) = flag a;
}.

Section pass.
Context {S X : Type} `{JointOwner S X, !JointServos X} (flag : S → bool) `{!OwnerFrame flag}.
Context (undefined_servo : Servo).

(** Joints and the rest of the program change, the device does not. *)
Definition same_device (a a' : S) : Prop := base a' = base a ∧ flag a' = flag a.
(** The device may do as it likes, but for the move. *)
Definition same_move (a a' : S) : Prop :=
  settings (base a') = settings (base a) ∧ counters (base a') = counters (base a) ∧ flag a' = flag a.
(** The device notes failures. *)
Definition noted (a a' : S) : Prop := same_move a a' ∧ view (base a') = view (base a).

#[export] Instance same_device_preorder : PreOrder same_device.
Proof. split; [by split|]. intros a1 a2 a3 [] []. split; congruence. Qed.
#[export] Instance noted_preorder : PreOrder noted.
Proof.
  split; [by repeat split|]. intros a1 a2 a3 [(? & ? & ?) ?] [(? & ? & ?) ?]. split; [|congruence].
  split_and!; congruence.
Qed.
Lemma same_device_noted a a' : same_device a a' → noted a a'.
Proof. intros [E1 E2]. unfold noted, same_move. by rewrite E1. Qed.

Lemma device_with_joint {T} i (m : St (JointWorld X) T) : steps same_device (with_joint i m).
Proof.
  intros a. unfold with_joint, lift_into. destruct ((publish_view;; m) _) as [v w]. cbn.
  destruct (frame_world (hw w) (jo_set_joints (<[i:=joint w]> (jo_joints a)) a)) as [E1 E2].
  destruct (frame_joints (<[i:=joint w]> (jo_joints a)) a) as [E3 E4]. split; congruence.
Qed.
Lemma device_on_world {T} (m : St X T) : steps same_device (on_world m).
Proof. intros a. unfold on_world, lift_into. destruct (m _) as [v x]. apply frame_world. Qed.
Lemma device_update_joint i f : steps same_device (update_joint i f).
Proof. intros a. apply frame_joints. Qed.
Lemma device_get_base : steps same_device get_base.
Proof. apply steps_gets. exact _. Qed.
Local Hint Resolve device_with_joint device_on_world device_update_joint device_get_base : steps.
Lemma device_device_move i x y : steps same_device (device_move i x y).
Proof. unfold device_move. steps_go. Qed.

Lemma wp_device {T} (m : St S T) Q a : steps same_device m →
  (∀ v a', same_device a a' → Q v a') → wp m Q a.
Proof. apply wp_of_steps. Qed.
Lemma wp_on_base f (Q : unit → S → Prop) a :
  (∀ a', base a' = f (base a) → flag a' = flag a → Q tt a') → wp (on_base f) Q a.
Proof. intros HQ. unfold on_base, modify, wp. cbn. apply HQ; apply frame_base. Qed.

Definition scanned (a : S) (c c' : Scan) (a' : S) : Prop :=
  (noted a a' ∧ (0 ≤ reached_cnt_ (base a) → 0 ≤ reached_cnt_ (base a'))) ∧
  (scan_arrived c' = true → scan_arrived c = true ∧ reached_cnt_ (base a') = reached_cnt_ (base a)).

Context (send : nat → f32 → St S ReturnCode) (Hsend : ∀ i x, steps same_device (send i x)).

Lemma pass_joint failed step i c a :
  wp (ready_move_joint undefined_servo send failed step i c) (scanned a c) a.
Proof.
  unfold ready_move_joint. do 3 wp_step; [wp_step; by split|].
  wp_step. apply wp_device; [auto with steps|]. intros stuck a1 D1. do 2 wp_step. cbv zeta.
  set (outside := outside_tolerance _ _). wp_step.
  eapply wp_mono with (Q := λ _ a2, (noted a1 a2 ∧ (0 ≤ reached_cnt_ (base a1) → 0 ≤ reached_cnt_ (base a2))) ∧
    (outside && negb stuck = false → reached_cnt_ (base a2) = reached_cnt_ (base a1))).
  { wp_step; [|by split]. apply wp_on_base. intros a2 E F. unfold noted, same_move. rewrite E, F.
    split; [done|congruence]. }
  intros _ a2 [[D2 P2] Hr]. wp_step. apply wp_device; [auto with steps|]. intros _ a3 D3.
  wp_step. apply wp_device; [apply Hsend|]. intros rc a4 D4. wp_step.
  eapply wp_mono with (Q := λ _ a5, noted a4 a5 ∧ reached_cnt_ (base a5) = reached_cnt_ (base a4)).
  { wp_step; [|done]. apply wp_on_base. intros a5 E F. unfold noted, same_move. rewrite E, F.
    unfold mark_failed_and_last. by destruct (0 <=? sid_of i a). }
  intros _ a5 [D5 Hr5]. wp_step. split; [split|].
  - etrans; [by apply same_device_noted|]. etrans; [exact D2|].
    etrans; [apply same_device_noted; by etrans|exact D5].
  - rewrite Hr5, (proj1 D4), (proj1 D3), <- (proj1 D1). done.
  - cbn. intros [Hc Ho%negb_true_iff]%andb_prop. split; [done|].
    rewrite Hr5, (proj1 D4), (proj1 D3), Hr by done. by rewrite (proj1 D1).
Qed.

Lemma pass_joints failed step js : ∀ c a,
  wp (ready_move_joints undefined_servo send failed step js c) (scanned a c) a.
Proof.
  induction js as [|i js IH]; intros c a; cbn [ready_move_joints]; [by wp_step; split|].
  wp_step. eapply wp_mono; [apply pass_joint|]. intros c1 a1 [[D1 P1] Hs1]. eapply wp_mono; [apply IH|].
  intros c2 a2 [[D2 P2] Hs2]. split; [split; [by etrans|auto]|]. intros Hc. destruct (Hs2 Hc) as [Hc1 ->]. by apply Hs1.
Qed.
End pass.
#[export] Hint Resolve device_with_joint device_on_world device_update_joint device_get_base
  device_device_move : steps.
#[export] Hint Extern 0 (OwnerFrame _) => typeclasses eauto : steps.

Section ready_move.
Context {X : Type} `{JointServos X} `{ArmWorld X} (undefined_servo : Servo) (undefined_long : Z).
Local Abbreviation A := (Arm X).
Local Abbreviation move_to_ready := (arm_move_to_ready_position undefined_servo undefined_long).
Local Abbreviation same_device := (same_device (is_ready_arm_ (X := X))).
Local Abbreviation same_move := (same_move (is_ready_arm_ (X := X))).

#[export] Instance arm_frame : OwnerFrame (is_ready_arm_ (X := X)).
Proof. by split. Qed.

Lemma device_send i x : steps same_device (arm_send i x).
Proof. unfold arm_send. steps_go. Qed.

Lemma wp_arm_device {T} (m : St A T) Q a : steps same_device m →
  (∀ v a', arm_base a' = arm_base a ∧ is_ready_arm_ a' = is_ready_arm_ a → Q v a') → wp m Q a.
Proof. intros Hm HQ. apply (wp_device (is_ready_arm_ (X := X))); [exact Hm|exact HQ]. Qed.

(** ** One call *)

Definition arrived (a : A) : Prop :=
  is_ready_arm_ a = true ∧
  (is_in_emergency_recovery (arm_base a) = true → ready (arm_base a) = true ∧ announced (arm_base a) = true).

(** Still under way: the budget is spent, or the arrival is being confirmed. *)
Definition under_way (a a' : A) : Prop :=
  is_ready_arm_ a' = false ∧ settings (arm_base a') = settings (arm_base a) ∧
  init_count_ (arm_base a') = init_count_ (arm_base a) + 1 ∧
  ready_move_budget_total_ (arm_base a') = ready_move_budget_total_ (arm_base a) ∧
  ready_move_budget_used_ (arm_base a') = ready_move_budget_used_ (arm_base a) + 1 ∧
  (0 ≤ reached_cnt_ (arm_base a) → 0 ≤ reached_cnt_ (arm_base a')) ∧
  (ready_move_budget_total_ (arm_base a) < ready_move_budget_used_ (arm_base a') →
   reached_cnt_ (arm_base a') = reached_cnt_ (arm_base a) + 1 ∧ reached_cnt_ (arm_base a') ≤ 30).

(** The end of a recovery, in what concerns the move. *)
Definition completed (a a' : A) : Prop :=
  is_ready_arm_ a' = is_ready_arm_ a ∧ settings (arm_base a') = settings (arm_base a) ∧
  (is_in_emergency_recovery (arm_base a) = true → announced (arm_base a') = true).

Lemma completed_device a a1 a2 : completed a a1 →
  arm_base a2 = arm_base a1 ∧ is_ready_arm_ a2 = is_ready_arm_ a1 → completed a a2.
Proof. intros (E1 & E2 & E3) [D1 D2]. unfold completed. rewrite D1, D2. done. Qed.

Lemma complete_recovery a : wp (arm_mark_emergency_recovery_completed (X := X)) (λ _ a', completed a a') a.
Proof.
  unfold arm_mark_emergency_recovery_completed, Device_mark_emergency_recovery_completed, get_base, on_base.
  do 3 wp_step.
  { wp_step. split_and!; try done. unfold is_in_emergency_recovery. cbn in H1. by rewrite H1. }
  cbn in H1. wp_step.
  - wp_step. cbn in H2. unfold completed, settings, is_startup_ready_phase, announced, is_in_emergency_recovery.
    cbn. rewrite H1, H2. done.
  - wp_step. wp_step. match goal with |- wp _ _ ?a => set (a1 := a) end.
    assert (completed a a1) as Hc.
    { subst a1. unfold completed, settings, is_startup_ready_phase, announced, is_in_emergency_recovery.
      cbn. by rewrite H1. }
    clearbody a1. wp_step. unfold Device_publish_device_info.
    apply wp_arm_device; [steps_go|]. intros _ a2 D2. apply completed_device with (a2 := a2) in Hc; [|done].
    apply wp_arm_device; [steps_go|]. intros _ a3 D3. by eapply completed_device.
Qed.

Lemma conclude_pass c exhausted (a : A) : is_ready_arm_ a = false →
  wp (conclude_parallel c exhausted) (λ _ a', settings (arm_base a') = settings (arm_base a) ∧
    (is_ready_arm_ a' = true ∨
     is_ready_arm_ a' = false ∧ counters (arm_base a') = counters (arm_base a) ∧
     (0 ≤ reached_cnt_ (arm_base a) → 0 ≤ reached_cnt_ (arm_base a')) ∧
     (exhausted = true → scan_arrived c = true ∧ reached_cnt_ (arm_base a') = reached_cnt_ (arm_base a) + 1 ∧
                         reached_cnt_ (arm_base a') ≤ 30))) a.
Proof.
  intros Hn. unfold conclude_parallel, conclude, arm_arrived, get_base, on_base, on_arm. wp_steps.
  - split; [done|by left].
  - split; [done|by left].
  - split; [done|]. right. cbn in *. apply Z.ltb_ge in H3. split_and!; [done..|lia|done].
  - split; [|by left]. unfold note_abnormal. by destruct (0 <=? _).
  - split; [done|]. right. split_and!; [done|done|done|congruence].
Qed.

(** Marking a failure keeps the rest of the move. *)
Lemma settings_abnormal sid d : settings (note_abnormal sid d) = settings d.
Proof. unfold note_abnormal. by destruct (0 <=? sid). Qed.

Lemma settings_recovery d d' : settings d' = settings d →
  is_in_emergency_recovery d' = is_in_emergency_recovery d.
Proof. by injection 1. Qed.

Lemma after_arrival in_recovery stuck sid (a : A) :
  in_recovery = is_in_emergency_recovery (arm_base a) → is_ready_arm_ a = true →
  wp (when_ stuck (on_base (note_abnormal sid));; when_ in_recovery arm_mark_emergency_recovery_completed)
     (λ _ a', is_ready_arm_ a' = true ∧ settings (arm_base a') = settings (arm_base a) ∧
              (in_recovery = true → announced (arm_base a') = true)) a.
Proof.
  intros Hr Ha. wp_step.
  eapply wp_mono with (Q := λ _ a1, is_ready_arm_ a1 = true ∧ settings (arm_base a1) = settings (arm_base a)).
  { unfold on_base. wp_steps; [|done]. split; [done|]. apply settings_abnormal. }
  intros _ a1 [R1 S1]. wp_step; [|by split_and!; [..|congruence]].
  eapply wp_mono; [apply complete_recovery|]. intros _ a2 (R2 & S2 & A2). split_and!; [congruence..|].
  intros _. apply A2. unfold settings in S1. congruence.
Qed.

Lemma call_parallel failed in_recovery step (a : A) :
  in_recovery = is_in_emergency_recovery (arm_base a) → is_ready_arm_ a = false → 0 < ready_move_budget_total_ (arm_base a) →
  wp (ready_move_parallel undefined_servo failed in_recovery step) (λ _ a',
    (is_ready_arm_ a' = true ∧ settings (arm_base a') = settings (arm_base a) ∧
     (in_recovery = true → announced (arm_base a') = true)) ∨
    under_way a (a' <| arm_base := (arm_base a') <| init_count_ := init_count_ (arm_base a') + 1 |> |>)) a.
Proof.
  intros Hr Hn Ht. unfold ready_move_parallel. do 2 wp_step. wp_step.
  eapply wp_mono; [apply (pass_joints is_ready_arm_ undefined_servo arm_send device_send)|]. intros c a1 [[[(S1 & C1 & R1) _] P1] Ha].
  cbn [base arm_device] in *. unfold spend_ready_move_budget, get_base, on_base.
  do 6 wp_step. match goal with |- wp _ _ ?a => set (a2 := a) end.
  set (exhausted := fst _).
  assert (settings (arm_base a2) = settings (arm_base a)) as S2 by exact S1.
  assert (is_ready_arm_ a2 = false) as R2 by (by rewrite <- Hn, <- R1).
  assert (ready_move_budget_used_ (arm_base a2) = ready_move_budget_used_ (arm_base a) + 1 ∧
    ready_move_budget_total_ (arm_base a2) = ready_move_budget_total_ (arm_base a) ∧
    init_count_ (arm_base a2) = init_count_ (arm_base a) ∧ reached_cnt_ (arm_base a2) = reached_cnt_ (arm_base a1) ∧
    exhausted = ((0 <? ready_move_budget_total_ (arm_base a)) &&
                 (ready_move_budget_total_ (arm_base a) <? ready_move_budget_used_ (arm_base a) + 1)))
    as (U2 & T2 & I2 & C2 & E2).
  { injection C1 as EI ET EU. subst a2 exhausted. cbn. by rewrite EU, ET, EI. }
  clearbody a2 exhausted. wp_step.
  eapply wp_mono; [by apply conclude_pass|]. intros _ a3 [S3 H3]. do 2 wp_step.
  wp_step. wp_step.
  - eapply wp_mono; [by apply after_arrival; [rewrite Hr; symmetry; apply settings_recovery; congruence|]|].
    intros _ a4 (R4 & S4 & A4). wp_step. left. split_and!; [done|congruence|done].
  - destruct H3 as [?|(R3 & C3 & P3 & Hx)]; [congruence|]. cbv beta. wp_step. right. injection C3 as EI ET EU.
    unfold under_way. cbn. rewrite R3, EI, ET, EU. split_and!; try done; try lia. { by rewrite <- S2, <- S3. }
    intros Hlt. destruct Hx as (Hc & -> & ?).
    { rewrite E2, (proj2 (Z.ltb_lt _ _)) by done. apply Z.ltb_lt. lia. }
    destruct (Ha Hc) as [_ Er]. lia.
Qed.

(** ** From call to call *)

Definition in_parallel_move (a : A) : Prop :=
  moving_mode_ (arm_base a) = PARALLEL ∧ is_read_only_ (view (arm_base a)) = false ∧
  cla_dont_go_to_home_pos (cla_ (arm_base a)) && is_startup_ready_phase (arm_base a) = false.

Lemma in_parallel_settings a a' : settings (arm_base a') = settings (arm_base a) →
  in_parallel_move a → in_parallel_move a'.
Proof. intros S1 (? & ? & ?). injection S1 as ? ? ? ?. unfold in_parallel_move. split_and!; congruence. Qed.

(** The baseline that the first call takes. *)
Definition baseline (a a1 : A) : Prop :=
  settings (arm_base a1) = settings (arm_base a) ∧ is_ready_arm_ a1 = is_ready_arm_ a ∧
  init_count_ (arm_base a1) = init_count_ (arm_base a) ∧
  (init_count_ (arm_base a) < 1 → ready_move_budget_used_ (arm_base a1) = 0 ∧ reached_cnt_ (arm_base a1) = 0 ∧
                                  0 < ready_move_budget_total_ (arm_base a1)) ∧
  (1 ≤ init_count_ (arm_base a) → arm_base a1 = arm_base a).

Lemma take_baseline step a :
  wp (when_ (init_count_ (arm_base a) <? 1) (start_ready_move undefined_servo undefined_long (home_of undefined_servo) step))
     (λ _ a1, baseline a a1) a.
Proof.
  wp_step; [|split_and!; try done; lia]. unfold start_ready_move, on_base. do 4 wp_step.
  match goal with |- wp _ _ ?a => set (a1 := a) end.
  assert (∀ js m, steps same_device (start_joints undefined_servo (home_of undefined_servo) js m)) as Hj.
  { intros js. induction js as [|i js IH]; intros m; cbn [start_joints]; unfold start_joint; steps_go. }
  wp_step. apply wp_arm_device; [auto|]. intros m a2 [D2 R2]. wp_step.
  unfold baseline, ready_move_budget_init, READY_MOVE_BUDGET_MIN_ITERS. cbn. rewrite D2, R2. cbn.
  split_and!; try done; lia.
Qed.

Lemma device_gravity_compensation : steps same_device (gravity_compensation undefined_servo).
Proof. unfold gravity_compensation, on_arm. steps_go; done. Qed.

(** The gravity torques may fail, but are no part of the move. *)
Lemma device_feedforward : steps same_device (update_follower_feedforward_torques undefined_servo).
Proof.
  assert (∀ m : nat → St A unit, (∀ i, steps same_device (m i)) → steps same_device (for_joints_ m)) as Hj.
  { intros m Hm. unfold for_joints_. steps_go. by apply steps_each_; [exact _|]. }
  unfold update_follower_feedforward_torques, clear_target_tor, on_arm. steps_go; [done|].
  apply steps_require; [exact _|apply device_gravity_compensation|]. steps_go. apply Hj. intros i.
  unfold scale_gravity, set_target_tor_of, on_arm. steps_go; done.
Qed.

(** The tail of a call. *)
Lemma finish in_recovery rc (a : A) : in_recovery = is_in_emergency_recovery (arm_base a) →
  wp (finish_ready_move in_recovery rc) (λ _ a',
    if is_ready_arm_ a
    then is_ready_arm_ a' = true ∧ is_in_emergency_recovery (arm_base a') = in_recovery ∧
         announced (arm_base a') = announced (arm_base a) ∧ (in_recovery = true → ready (arm_base a') = true)
    else a' = a <| arm_base := (arm_base a) <| init_count_ := init_count_ (arm_base a) + 1 |> |>) a.
Proof.
  intros Hr. unfold finish_ready_move, on_base. do 3 wp_step.
  wp_step; wp_steps; rewrite ?H1; try (split_and!; done || congruence); [|done].
  apply wp_arm_device; [auto with steps|]. intros _ a1 [D1 R1]. wp_steps. cbn.
  rewrite R1. unfold announced, is_in_emergency_recovery, emergency_recovery_state, ready in *. cbn. rewrite D1. done.
Qed.

(** The gravity torques of the call succeed. *)
Definition passes (a : A) : bool := ok (fst (update_follower_feedforward_torques undefined_servo a)).

Lemma passes_without_gravity a : follower_gravity_compensation_ (arm_base a) = false → passes a = true.
Proof.
  intros Hg. cut (wp (update_follower_feedforward_torques undefined_servo) (λ rc _, ok rc = true) a); [done|].
  unfold update_follower_feedforward_torques, clear_target_tor, on_arm. do 4 wp_step.
  cbn [follower_gravity_compensation_ arm_base upd]. rewrite Hg. by wp_step.
Qed.

(** One call, with what the next one needs. *)
Lemma call_move a : in_parallel_move a → is_ready_arm_ a = false →
  (1 ≤ init_count_ (arm_base a) → 0 < ready_move_budget_total_ (arm_base a)) →
  wp move_to_ready (λ _ a',
    if passes a then arrived a' ∨ ∃ a1, baseline a a1 ∧ under_way a1 a' else same_device a a') a.
Proof.
  intros (Hm & Hro & Hskip) Hn Ht. unfold arm_move_to_ready_position, get_base.
  do 2 wp_step. cbn [base arm_device]. rewrite Hro, Hskip. apply wp_require. unfold wp at 1. fold (passes a).
  destruct (device_feedforward a) as [D0 R0]. destruct (passes a); [|by split].
  destruct (update_follower_feedforward_torques undefined_servo a) as [rc a0]. cbn [snd base arm_device] in D0, R0 |- *.
  do 2 wp_step. rewrite R0, Hn. cbn [negb]. unfold ready_move, get_base. do 3 wp_step. wp_step. cbn [base arm_device].
  eapply wp_mono; [apply take_baseline|]. intros u a1 B. cbv beta in B. rewrite D0, Hm. wp_step.
  set (step := ready_move_step_rad _).
  assert (baseline a a1) as B' by (unfold baseline in *; by rewrite <- D0, <- R0).
  destruct B' as (S1 & R1 & I1 & B1 & B2).
  eapply wp_mono; [apply call_parallel|].
  { symmetry. by apply settings_recovery. }
  { congruence. }
  { destruct (Z.le_gt_cases 1 (init_count_ (arm_base a))) as [Hi|Hi]; [rewrite B2 by done; auto|]. by apply B1. }
  intros rc' a2 H2. cbv beta in H2. wp_step.
  assert (is_ready_arm_ a2 = true ∧ settings (arm_base a2) = settings (arm_base a1) ∧
     (is_in_emergency_recovery (arm_base a) = true → announced (arm_base a2) = true) ∨
     is_ready_arm_ a2 = false ∧ settings (arm_base a2) = settings (arm_base a1)) as H2'.
  { destruct H2 as [?|(? & ? & _)]; [by left|by right]. }
  eapply wp_mono; [apply finish|].
  { symmetry. apply settings_recovery. rewrite <- S1. by destruct H2' as [(_ & ? & _)|[_ ?]]. }
  intros v a3 H3. cbv beta in H3. destruct H2' as [(R2 & S2 & A2)|[R2 S2]]; rewrite R2 in H3.
  - left. destruct H3 as (R3 & I3 & E3 & Hready). split; [done|]. rewrite I3, E3. auto.
  - right. exists a1. split; [by split_and!|]. destruct H2 as [[? _]|Hu]; [congruence|]. by rewrite H3.
Qed.

(** ** Any number of calls *)

(** Between the calls the arm does as it likes, but for the move. *)
Definition leaves_move (f : A → A) : Prop := ∀ a,
  same_move a (f a) ∧ reached_cnt_ (arm_base (f a)) = reached_cnt_ (arm_base a) ∧ (arrived a → arrived (f a)).

Fixpoint calls (between : nat → A → A) (n : nat) (a : A) : A :=
  match n with
  | O => a
  | S n => between n (snd (move_to_ready (calls between n a)))
  end.

(** How many of [n] calls had their gravity torques. *)
Fixpoint moves (between : nat → A → A) (n : nat) (a : A) : nat :=
  match n with
  | O => O
  | S n => moves between n a + (if passes (calls between n a) then 1 else 0)
  end.

(** Both at once, to evaluate them. *)
Fixpoint run (between : nat → A → A) (n : nat) (a : A) : A * nat :=
  match n with
  | O => (a, O)
  | S n => let '(b, m) := run between n a in
           (between n (snd (move_to_ready b)), m + (if passes b then 1 else 0))%nat
  end.
Lemma run_calls between n a : run between n a = (calls between n a, moves between n a).
Proof. induction n as [|n IH]; [done|]. cbn [run]. by rewrite IH. Qed.

Lemma moves_mono between a m n : (m ≤ n)%nat → (moves between m a ≤ moves between n a)%nat.
Proof. induction 1; cbn [moves]; lia. Qed.

(** After [n] moves that did not bring the arm home; before the first one nothing is known
    of the budget. *)
Definition still_moving (n total : Z) (a : A) : Prop :=
  in_parallel_move a ∧ is_ready_arm_ a = false ∧ init_count_ (arm_base a) = n ∧
  (1 ≤ n → 0 < total ∧ ready_move_budget_total_ (arm_base a) = total ∧ ready_move_budget_used_ (arm_base a) = n ∧
           (total < n → n - total ≤ reached_cnt_ (arm_base a) ≤ 30) ∧ 0 ≤ reached_cnt_ (arm_base a)).

Lemma still_moving_left n total f a a1 : leaves_move f → still_moving n total a → same_device a a1 →
  still_moving n total (f a1).
Proof.
  intros Hf (Hp & R & I & Hn) [D1 R1]. destruct (Hf a1) as ((S3 & C3 & R3) & Hc3 & _).
  cbn [base arm_device] in *. rewrite D1 in S3, C3, Hc3. injection C3 as EI ET EU.
  unfold still_moving. rewrite R3, R1, EI, ET, EU, Hc3. split_and!; try done.
  by apply in_parallel_settings with a.
Qed.

Lemma next_call n total f a : leaves_move f → 0 ≤ n → still_moving n total a →
  let a' := f (snd (move_to_ready a)) in
  arrived a' ∨ if passes a then ∃ total', still_moving (n + 1) total' a' ∧ (1 ≤ n → total' = total)
               else still_moving n total a'.
Proof.
  intros Hf Hn Hs a'. pose proof Hs as (Hp & R & I & HT). pose proof (call_move a Hp R) as Hc.
  unfold wp in Hc. destruct (passes a).
  2: { right. apply still_moving_left with a; [done..|]. apply Hc. rewrite I. intros H1. by apply HT in H1 as (? & -> & _). }
  destruct Hc as [Ha|(a1 & (S1 & R1 & I1 & B0 & B) & (R2 & S2 & I2 & T2 & U2 & P2 & Hr2))].
  { rewrite I. intros H1. by apply HT in H1 as (? & -> & _). }
  { left. by apply Hf. }
  right. destruct (Hf (snd (move_to_ready a))) as ((S3 & C3 & R3) & Hc3 & _). fold a' in S3, C3, R3, Hc3.
  cbn [base arm_device] in S3, C3. injection C3 as EI ET EU.
  exists (ready_move_budget_total_ (arm_base a1)). unfold still_moving. rewrite R3, EI, ET, EU, Hc3, I2, T2, U2, I1, I.
  assert (in_parallel_move a') as Hp' by (apply in_parallel_settings with a; [congruence|done]).
  destruct (Z.le_gt_cases 1 n) as [H1|H1].
  - destruct (HT H1) as (Ht & T & U & Hr & Hpos). rewrite B in T2, U2, P2, Hr2 |- * by lia. split_and!; try done; lia.
  - destruct B0 as (U1 & Hc1 & T1); [lia|]. split_and!; try done; lia.
Qed.

(** However the calls go, the moves that were made did count. *)
Lemma progress between a : (∀ k, leaves_move (between k)) → in_parallel_move a → is_ready_arm_ a = false →
  init_count_ (arm_base a) = 0 → ∀ n,
  (∃ k, (1 ≤ k ≤ n)%nat ∧ arrived (calls between k a)) ∨
  ∃ total, still_moving (Z.of_nat (moves between n a)) total (calls between n a) ∧
    ∀ m, (m ≤ n)%nat → (1 ≤ moves between m a)%nat → ready_move_budget_total_ (arm_base (calls between m a)) = total.
Proof.
  intros Hb Hp R I. induction n as [|n [(k & Hk & Ha)|(total & Hs & Hm)]].
  - right. exists 0. split; [by split_and!|]. intros m Hm. replace m with O by lia. cbn. lia.
  - left. exists k. split; [lia|done].
  - destruct (next_call _ total (between n) _ (Hb n) (Nat2Z.is_nonneg _) Hs) as [Ha|Hs'].
    { left. exists (S n). split; [lia|exact Ha]. }
    right. assert (∃ total', still_moving (Z.of_nat (moves between (S n) a)) total' (calls between (S n) a) ∧
      ((1 ≤ moves between n a)%nat → total' = total)) as (total' & HS & Ht).
    { cbn [moves calls]. destruct (passes (calls between n a)); [|exists total; by rewrite Nat.add_0_r].
      destruct Hs' as (total' & Hs' & Ht). exists total'. rewrite Nat2Z.inj_add. split; [done|lia]. }
    exists total'. split; [done|]. intros m Hle H1. destruct (decide (m = S n)) as [->|].
    + destruct HS as (_ & _ & _ & HS). apply HS. lia.
    + pose proof (moves_mono between a m n ltac:(lia)). rewrite Ht by lia. apply Hm; lia.
Qed.

(** [C4] A parallel ready move (not of a read-only arm, nor at a startup that is not to go
    home) always ends, whatever the servos do, as long as nothing but
    [move_to_ready_position] touches the move between its calls: after the budget and 31
    more calls that had their gravity torques the arm is ready, and in an emergency
    recovery the device is ready too and has announced its shutdown.  A call whose gravity
    torques fail returns their error before the move, so it does not count; without the
    compensation, or with an algorithm that does not fail, every call does. *)
Theorem parallel_ready_move_ends between a : (∀ k, leaves_move (between k)) →
  in_parallel_move a → is_ready_arm_ a = false → init_count_ (arm_base a) = 0 →
  (∀ n, (Z.to_nat (ready_move_budget_total_ (arm_base (calls between n a))) + 31 ≤ moves between n a)%nat →
        ∃ k, (1 ≤ k ≤ n)%nat ∧ arrived (calls between k a)) ∧
  ((∀ k, passes (calls between k a) = true) →
   ∃ n, (1 ≤ n ≤ Z.to_nat (ready_move_budget_total_ (arm_base (calls between 1 a))) + 31)%nat ∧
        arrived (calls between n a)).
Proof.
  intros Hb Hp R I. pose proof (progress between a Hb Hp R I) as HP. split.
  - intros n Hn. destruct (HP n) as [?|(total & (_ & _ & _ & Hs) & Hm)]; [done|].
    rewrite (Hm n) in Hn by lia. lia.
  - intros Hpass. set (N := (_ + 31)%nat).
    assert (∀ n, moves between n a = n) as Hall.
    { induction n as [|n IH]; [done|]. cbn [moves]. rewrite IH, Hpass. lia. }
    destruct (HP N) as [?|(total & (_ & _ & _ & Hs) & Hm)]; [done|].
    rewrite Hall in Hs. specialize (Hm 1%nat). rewrite Hall in Hm. lia.
Qed.
End ready_move.

(** An arm of one joint, in a recovery, whose driver does as told; the gravity torques fail
    until 50 ms.  Ten milliseconds pass between the calls. *)
Definition recovering_sim : Arm Sim := sim_arm
  <| arm_base := set_emergency EMERGENCY_MOVING_SLOW sim_device
       <| slow_move_active_ := true |> <| follower_gravity_compensation_ := true |> |>
  <| world := sim_start <| sim_algo := Some (λ t, if t <? 50000000 then HARDWARE_FAULT else SUCCESS) |> |>.
Definition ten_ms_later (a : Arm Sim) : Arm Sim :=
  a <| world := (world a) <| sim_clock := sim_clock (world a) + 10000000 |> |>.

Lemma sim_moves_enough :
  let r := (calls (sim_servo follower_arm) 0 (λ _, ten_ms_later) 1540 recovering_sim,
            moves (sim_servo follower_arm) 0 (λ _, ten_ms_later) 1540 recovering_sim) in
  (Z.to_nat (ready_move_budget_total_ (arm_base (fst r))) + 31 ≤ snd r)%nat.
Proof. cbv zeta. rewrite <- run_calls. apply Nat.leb_le. vm_compute. reflexivity. Qed.

Lemma parallel_ready_move_ends_witness :
  let calls := calls (sim_servo follower_arm) 0 (λ _, ten_ms_later) in
  passes (sim_servo follower_arm) (calls 0%nat recovering_sim) = false ∧
  ∃ k, (1 ≤ k ≤ 1540)%nat ∧ arrived (calls k recovering_sim).
Proof.
  split; [vm_compute; reflexivity|].
  apply (parallel_ready_move_ends (sim_servo follower_arm) 0 (λ _, ten_ms_later) recovering_sim); [done| |done|done|].
  - split_and!; reflexivity.
  - exact sim_moves_enough.
Defined.
