(* ===== verification/ArmTopicFacts.v ===== *)
(** * An arm and its topic ([DeviceArm], [Topic])

    What the topic's step may change of an arm in an emergency recovery, and the runs of
    the theorems on topics with an arm in them. *)

From S2P Require Import Prelude.
From S2P Require Import FloatSpec.
From S2P Require Import Control.
From S2P Require Import Servo.
From S2P Require Import Joint.
From S2P Require Import Device.
From S2P Require Import Wire.
From S2P Require Import Topic.
From S2P Require Import JointOwner.
From S2P Require Import DeviceArm.
From S2P Require Import ControlNode.
From S2P Require Import Simulation.
From S2P Require Import DeviceRecovery.
From S2P Require Import TopicFacts.

(** ** The gate of an arm *)

(** What a client or a leader commands of a joint, and of the device. *)
Definition commanded (j : Joint) :=
  (tele_pos_ j, tele_vel_ j, tele_tor_ j, target_pos_ j, Joint.prev_target_pos_ j, adjusted_target_pos_ j, torq_rescale_ j).
Definition commanded_device (d : DeviceBase) :=
  (role_ (view d), mode_ (view d), enabled_force_feedback_ (view d), Control.cla_force_feedback (view d),
   gravity_float_active_ d, slow_move_active_ d, failed_joint_ids_ d, emergency_recovery_state d).

Section gate.
Context {X : Type} `{JointServos X} `{ArmWorld X} `{HasTopic X} (undefined_servo : Servo) (undefined_long : Z).
Local Abbreviation A := (Arm X).

Definition ignores (a a' : A) : Prop :=
  commanded <$> joints_ a' = commanded <$> joints_ a ∧
  arm_tele_pos_ a' = arm_tele_pos_ a ∧ arm_tele_vel_ a' = arm_tele_vel_ a ∧ arm_tele_tor_ a' = arm_tele_tor_ a ∧
  commanded_device (arm_base a') = commanded_device (arm_base a).

#[local] Instance ignores_preorder : PreOrder ignores.
Proof.
  split; [by intros a; unfold ignores|]. intros a1 a2 a3 (? & ? & ? & ? & ?) (? & ? & ? & ? & ?).
  unfold ignores. split_and!; congruence.
Qed.

Lemma ignores_on_base f : (∀ d, commanded_device (f d) = commanded_device d) → steps ignores (on_base f).
Proof. intros Hf a. split_and!; try done. apply Hf. Qed.
Lemma ignores_on_world {T} (m : St X T) : steps ignores (on_world m).
Proof. intros a. unfold on_world, lift_into. by destruct (m _). Qed.
Lemma ignores_on_effector m : steps ignores (on_effector m).
Proof. intros a. unfold on_effector. unfold mbind, St_bind, get_state. destruct (aw_has_effector _); [apply ignores_on_world|done]. Qed.
Local Hint Resolve ignores_on_world ignores_on_effector : steps.
Local Hint Extern 2 (steps ignores (on_base _)) => apply ignores_on_base; intros ?; reflexivity : steps.

Lemma commanded_alter f (i : nat) (js : list Joint) : (∀ j, commanded (f j) = commanded j) →
  commanded <$> alter f i js = commanded <$> js.
Proof.
  intros Hf. apply list_eq. intros k. rewrite !list_lookup_fmap.
  destruct (decide (i = k)) as [->|Hk]; [rewrite list_lookup_alter_eq|by rewrite list_lookup_alter_ne].
  destruct (js !! k) as [j|]; [|done]. cbn. by rewrite Hf.
Qed.

Lemma ignores_note msg i : steps ignores (note_follower_joint (X := X) msg i).
Proof.
  intros a. unfold note_follower_joint. split_and!; try done. cbn. by apply commanded_alter.
Qed.
Lemma ignores_follower_msg msg : steps ignores (arm_process_follower_msg (X := X) msg).
Proof.
  unfold arm_process_follower_msg, for_joints_. steps_go. apply steps_each_; [exact _|apply ignores_note].
Qed.
Lemma ignores_request id : steps ignores (arm_request_move_to_ready_and_stop (X := X) id).
Proof.
  unfold arm_request_move_to_ready_and_stop, Device_request_move_to_ready_and_stop, arm_request_move_to_ready_position,
    Device_request_move_to_ready_position. steps_go.
Qed.

(** [C5] In an emergency recovery an arm obeys nobody: whatever its topic has received,
    a step of the topic leaves the targets, the teleoperated positions and the torque
    scales of all joints, the role, the force feedback, the gravity float, the speed of
    the move and the recovery itself as they are. *)
Theorem recovering_arm_ignores_commands (a : A) : is_in_emergency_recovery (arm_base a) = true →
  ignores a (snd (arm_topic_step undefined_servo undefined_long a)).
Proof.
  intros Hr. pose (arm_without_topic (X := X) undefined_servo undefined_long) as device.
  apply (@recovery_gate A device (arm_topic_device undefined_servo undefined_long) ignores ignores_preorder);
    [|exact Hr]. split.
  - intros a1 a2 (_ & _ & _ & _ & E). unfold commanded_device in E. cbn. unfold is_in_emergency_recovery.
    injection E as _ _ _ _ _ _ _ E. by rewrite E.
  - done.
  - pose proof (ignores_on_world dw_now : steps ignores (clock_now (S := A))). unfold note_client_heartbeat. steps_go.
  - intros msg. pose proof (ignores_on_world (dw_topic_publish_info msg) : steps ignores (topic_publish_info (S := A) msg)).
    pose proof (steps_gets (S := A) ignores base : steps ignores get_base).
    unfold publish_device_info, Device_publish_device_info. steps_go.
  - apply ignores_request.
  - apply ignores_follower_msg.
Qed.
End gate.

(** ** Runs *)

Local Abbreviation an_unknown_servo := (sim_servo follower_arm).
Definition sim_name : list Z := bytes_of_string "joint_info".
Definition sim_msg (x : f32) : MsgJoints := [mkDataJoint x x x f0 f0 f0].

(** A leader's message waits for an arm. *)
Definition sim_commanded (d : DeviceBase) : Arm Sim := sim_arm_of Sim d (sim_start <| sim_topic :=
  (sim_topic_of sim_name) <| sub_joint_ :=
    Some (message sim_name (encode_joint_info (zmq_of_joints 1 0 (sim_msg f1)))) |> |>).
Local Abbreviation sim_topic_step a := (snd (arm_topic_step an_unknown_servo 0 a)).

(** The same message that an arm outside a recovery obeys. *)
Lemma recovering_arm_ignores_commands_witness :
  let a := sim_commanded (set_emergency EMERGENCY_MOVING_SLOW sim_device) in
  commanded <$> joints_ (sim_topic_step a) = commanded <$> joints_ a ∧
  arm_tele_pos_ (sim_topic_step (sim_commanded sim_device)) = [f1].
Proof.
  intros a. split; [|by vm_compute]. by apply (recovering_arm_ignores_commands an_unknown_servo 0 a).
Defined.

#[local] Instance sim_arm_device : DeviceObject (Arm Sim) := arm_without_topic an_unknown_servo 0.
#[local] Instance sim_arm_topic_device : TopicDevice (Arm Sim) := arm_topic_device an_unknown_servo 0.

(** Four states are published, of which the publisher drops the third; the second is carried
    late, but delivered before the leader looks. *)
Definition sim_states : list LinkEvent :=
  [Publish (sim_msg f0); Carry; Publish (sim_msg f1); Publish (sim_msg (f32_of_Z 2)); Publish (sim_msg (f32_of_Z 3));
   Deliver; Drain; Carry; Deliver].
Definition sim_state_name : list Z := topic_state_ (sim_topic_of sim_name).
Definition sim_way : Link :=
  link_run 1 sim_state_name sim_states (mkLink (sim_topic_of sim_name) [] [] []).
Definition sim_leader : Arm Sim := sim_arm_of Sim sim_device (sim_start <| sim_topic :=
  (sim_topic_of sim_name) <| topic_follower_joint_ := sim_state_name |>
    <| sub_follower_joint_ := Some (arrived sim_way) |> |>).

Lemma newest_state_received_witness :
  let s1 := td_update_topic (λ t, t <| sub_follower_joint_ := Some [] |>) sim_leader in
  follower_stream SUCCESS sim_leader =
    let '(rc, s2) := process_follower_joints (sim_msg f1) s1 in (keep_first SUCCESS rc, s2).
Proof.
  intros s1. assert (Forall (sendable 1) (published sim_states)) as Hs by (repeat constructor).
  destruct (newest_state_received sim_leader (sim_topic_of sim_name) sim_states ltac:(split; discriminate)
    ltac:(discriminate) eq_refl eq_refl Hs (λ _, eq_refl) eq_refl ltac:(vm_compute; reflexivity)) as (hs & a & o & _ & Ho & _ & Ha & Hstep & _).
  assert (Forall (sendable 1) a) as Hv.
  { rewrite Forall_forall in Hs |- *. intros m Hin. apply Hs. eapply elem_of_sublist; [exact Hin|].
    etransitivity; [|exact Ho]. by apply sublist_inserts_l, sublist_inserts_r. }
  apply (holds_states 1 sim_state_name a [encode_joint_info (zmq_of_joints 1 1 (sim_msg f1))] ltac:(lia) Hv) in Ha.
  assert (a = [sim_msg f1]) as -> by (rewrite Ha; vm_compute; reflexivity). exact (Hstep SUCCESS).
Defined.
