(* ===== verification/EffectorFacts.v ===== *)
(** * Theorems on effectors ([DeviceEffector])

    The normalized position of a gripper stays in the unit interval; the command for a
    normalized position is monotone in it and stays between closed and open, and what
    is not finite holds the gripper; in torque mode the torque is bounded and its target
    moves at most one radian per call. *)

From S2P Require Import Prelude.
From S2P Require Import FloatSpec.
From S2P Require Import Rounding.
From S2P Require Import SumBounds.
From S2P Require Import Monotone.
From S2P Require Import Control.
From S2P Require Import MathOps.
From S2P Require Import Filters.
From S2P Require Import CanBus.
From S2P Require Import Servo.
From S2P Require Import Joint.
From S2P Require Import Device.
From S2P Require Import JointOwner.
From S2P Require Import DeviceEffector.
From S2P Require Import Simulation.

(** ** Single precision *)

Definition number (x : f32) : Prop := isfinite x = true ∧ is_f32 x = true.

Lemma number_0 : number f0.
Proof. done. Qed.
Lemma number_1 : number f1.
Proof. done. Qed.
Lemma number_between lo x hi : number lo → number hi → is_f32 x = true → in_range lo hi x → number x.
Proof. intros [] [] Hx []. split; [|done]. by apply (between_finite lo x hi). Qed.
#[export] Hint Resolve number_0 number_1 : core.

Lemma add_mono x x' y : number x → number x' → number y → x <=?. x' = true → (x + y)%f32 <=?. (x' + y)%f32 = true.
Proof. by apply SFadd_mono. Qed.
Lemma add_comm x y : isfinite x = true → isfinite y = true → (x + y = y + x)%f32.
Proof. apply SFadd_comm. Qed.
Lemma sub_opp x y : isfinite x = true → isfinite y = true → (x - y = x + - y)%f32.
Proof. apply SFsub_opp. Qed.
Lemma add_is_f32 x y : is_f32 x = true → is_f32 y = true → is_f32 (x + y)%f32 = true.
Proof. by apply SFadd_valid. Qed.
Lemma sub_is_f32 x y : is_f32 x = true → is_f32 y = true → is_f32 (x - y)%f32 = true.
Proof. by apply SFsub_valid. Qed.
Lemma mul_is_f32 x y : is_f32 x = true → is_f32 y = true → is_f32 (x * y)%f32 = true.
Proof. by apply SFmul_valid. Qed.
#[export] Hint Resolve add_is_f32 sub_is_f32 mul_is_f32 : core.

(** A share of a positive number is at most the number. *)
Lemma share x r : number x → number r → in_range f0 f1 x → f0 <=?. r = true → in_range f0 r (x * r)%f32.
Proof.
  intros [Fx Vx] [Fr Vr] [H0 H1] Hr. split; [by apply SFmul_nonneg|].
  destruct x as [sx| | |[] mx ex]; try done.
  { destruct r as [[]| | |[] mr er]; try done; by destruct sx. }
  destruct r as [sr| | |[] mr er]; try done.
  apply (grid_le prec32 emax32) in H1; [|done..].
  pose proof (valid_exp prec32 emax32 false mx ex Vx) as [Hx _].
  assert (grid prec32 emax32 f1 = 2 ^ 149) as E1 by by vm_compute. rewrite E1 in H1.
  change (Z.pos mx * 2 ^ (ex - -149) ≤ 2 ^ 149) in H1. change (-149 ≤ ex) in Hx.
  assert (result_below prec32 emax32 false (Zpos mr) er (fmul (S754_finite false mx ex) (S754_finite false mr er))) as Hb.
  { cbn [fmul SFmul xorb]. apply binary_round_aux_below; [done|done|lia|by apply mul_exponent|done|].
    split; [|done]. rewrite (dy_le_scale (-149 + er)) by lia. rewrite Pos2Z.inj_mul.
    replace (ex + er - (-149 + er)) with (ex - -149) by lia. replace (er - (-149 + er)) with 149 by lia. nia. }
  unfold result_below in Hb.
  destruct (fmul _ _) as [s|s| |s m e] eqn:E; try done.
  destruct Hb as (-> & Vb & Hb). apply grid_leb with prec32 emax32; [done..|].
  pose proof (valid_exp prec32 emax32 false m e Vb) as [He _].
  pose proof (valid_exp prec32 emax32 false mr er Vr) as [Her _].
  cbn [grid cond_Zopp]. by apply (dy_le_scale (emin prec32 emax32)).
Qed.

Lemma quotient a b : number a → number b → in_range f0 b a → f0 <?. b = true →
  is_f32 (a / b)%f32 = true ∧ in_range f0 f1 (a / b)%f32.
Proof.
  intros [Fa Va] [Fb Vb] [H0 H1] Hb. destruct b as [[]| | |[] mb eb]; try done.
  assert (f0 <=?. (a / S754_finite false mb eb)%f32 = true) as Hnn by by apply SFdiv_nonneg.
  destruct a as [sa| | |[] ma ea]; try done.
  apply (grid_le prec32 emax32) in H1; [|done..].
  pose proof (valid_exp prec32 emax32 false ma ea Va) as [Ha _].
  pose proof (valid_exp prec32 emax32 false mb eb Vb) as [Heb _].
  change (emin prec32 emax32) with (-149) in *.
  assert (result_below prec32 emax32 false (Zpos 8388608) (-23)
    (fdiv (S754_finite false ma ea) (S754_finite false mb eb))) as Hq.
  { apply (SFdiv_below prec32 emax32 ltac:(done) ltac:(done) false ma ea false mb eb); [done|].
    rewrite (dy_le_scale (-149 - 23)) by lia. cbn [grid cond_Zopp] in H1.
    change (emin prec32 emax32) with (-149) in H1.
    replace (ea - (-149 - 23)) with (ea - -149 + 23) by lia. replace (-23 + eb - (-149 - 23)) with (eb - -149) by lia.
    rewrite Z.pow_add_r by lia. change (2 ^ 23) with 8388608. nia. }
  unfold result_below in Hq. destruct (fdiv _ _) as [s|s| |s m e] eqn:E; try done.
  destruct Hq as (-> & Vq & Hq). split; [done|]. split; [done|]. apply grid_leb with prec32 emax32; [done..|].
  pose proof (valid_exp prec32 emax32 false m e Vq) as [He _]. change (emin prec32 emax32) with (-149) in *.
  assert (grid prec32 emax32 f1 = 2 ^ 149) as -> by by vm_compute.
  change (Z.pos m * 2 ^ (e - -149) ≤ 2 ^ 149).
  rewrite (dy_le_scale (-149)) in Hq by lia. etrans; [exact Hq|]. by vm_compute.
Qed.

Lemma convert_mono prec emax prec' emax' x y : 0 < prec → prec < emax → 0 < prec' → prec' < emax' →
  isfinite x = true → isfinite y = true → valid_binary prec' emax' x = true → valid_binary prec' emax' y = true →
  f0 <=?. x = true → x <=?. y = true → convert prec emax x <=?. convert prec emax y = true.
Proof.
  intros Hp He Hp' He' Fx Fy Vx Vy H0 Hle.
  pose proof (grid_le prec' emax' Hp' He' x y Fx Fy Vx Vy Hle) as Hg.
  assert (f0 <=?. convert prec emax y = true) as Hy by (apply convert_nonneg; by eapply SFleb_trans).
  destruct x as [sx| | |[] mx ex]; try done.
  destruct y as [sy| | |[] my ey]; try done.
  cbn [convert]. apply round_mono; [done..|].
  pose proof (valid_exp prec' emax' false mx ex Vx) as [Hx _].
  pose proof (valid_exp prec' emax' false my ey Vy) as [Hey _]. by apply (dy_le_scale (emin prec' emax')).
Qed.

(** The flip of an open-at-min gripper keeps the unit interval. *)
Lemma flip_unit n : is_f32 n = true → in_range f0 f1 n →
  in_range f0 f1 (to_f32 (f64_of_Z 1 - to_f64 n)%f64).
Proof.
  intros Vn [H0 H1]. assert (isfinite n = true) as Fn by (by apply (between_finite f0 n f1)).
  destruct (to_f64_valid n Vn) as [Vd Fd]. rewrite Fn in Fd.
  assert (in_range f0 (to_f64 f1) (to_f64 n)) as [D0 D1].
  { split; [by apply convert_nonneg|]. by apply (convert_mono prec64 emax64 prec32 emax32). }
  assert (in_range (f64_of_Z 1 - f64_of_Z 1)%f64 (f64_of_Z 1 - f0)%f64 (f64_of_Z 1 - to_f64 n)%f64) as [E0 E1].
  { split; apply (SFsub_antitone prec64 emax64); done. }
  set (v := (f64_of_Z 1 - to_f64 n)%f64) in *.
  assert (valid_binary prec64 emax64 v = true) as Vv by (by apply SFsub_valid).
  assert (isfinite v = true) as Fv by (eapply between_finite; [| |exact E0|exact E1]; by vm_compute).
  split; [by apply convert_nonneg|].
  change f1 with (to_f32 (f64_of_Z 1 - f0)%f64). by apply (convert_mono prec32 emax32 prec64 emax64).
Qed.

(** ** Positions *)

(** Whatever the gripper reads, its published position is between 0 (closed) and 1
    (open), also where the reading is out of range or infinite; this needs a range that
    is not empty and not wider than a float. *)
Theorem normalized_position_in_unit open_at_min pos lo hi : number lo → number hi →
  f0 <?. (hi - lo)%f32 = true → isfinite (hi - lo)%f32 = true → lo <=?. hi = true →
  is_f32 pos = true → is_nan pos = false →
  in_range f0 f1 (normalized_position open_at_min pos lo hi).
Proof.
  intros Hlo Hhi Hr Fr Hle Vp Np. unfold normalized_position.
  assert ((hi - lo)%f32 <=?. f0 = false) as ->.
  { rewrite SFltb_nleb in Hr; [|done|by destruct (hi - lo)%f32]. by apply negb_true_iff. }
  pose proof (clipping_in_range pos lo hi Np Hle) as Hc.
  assert (number (clipping pos lo hi)) as Nc.
  { apply (number_between lo _ hi); [done|done| |done]. destruct Hlo, Hhi. unfold clipping.
    by split_ifs. }
  set (c := clipping pos lo hi) in *. clearbody c.
  assert (in_range (lo - lo)%f32 (hi - lo)%f32 (c - lo)%f32) as [D0 D1].
  { destruct Hc. split; apply SFsub_mono; done. }
  assert (f0 <=?. (lo - lo)%f32 = true) as Z0.
  { destruct Hlo as [Fl Vl]. destruct lo as [[]| | |[] m e]; try done; cbn; by rewrite Z.sub_diag. }
  assert (is_f32 ((c - lo) / (hi - lo))%f32 = true ∧ in_range f0 f1 ((c - lo) / (hi - lo))%f32) as [Vq Hq].
  { assert (is_f32 (c - lo)%f32 = true) as Vc by (apply sub_is_f32; [apply Nc|apply Hlo]).
    assert (number (hi - lo)%f32) as Nr by (split; [done|apply sub_is_f32; [apply Hhi|apply Hlo]]).
    assert (in_range f0 (hi - lo)%f32 (c - lo)%f32) as D by (split; [by eapply SFleb_trans|done]).
    apply quotient; [|done..]. by apply (number_between f0 _ (hi - lo)%f32). }
  destruct open_at_min; [|done]. by apply flip_unit.
Qed.

Lemma normalized_position_in_unit_witness :
  in_range f0 f1 (normalized_position true (f32_of_Z 7) f0 (f32_of_Z 5)).
Proof. by apply (normalized_position_in_unit true (f32_of_Z 7) f0 (f32_of_Z 5)). Defined.

(** A range that commands can be mapped on. *)
Record gripper_range (lo hi : f32) : Prop := {
  gr_lo : number lo;
  gr_hi : number hi;
  gr_positive : f0 <?. (hi - lo)%f32 = true;
  gr_range : isfinite (hi - lo)%f32 = true;
  gr_top : isfinite ((hi - lo) + lo)%f32 = true;
}.

Section command.
Context (open_at_min : bool) (lo hi : f32) (HR : gripper_range lo hi).

Local Abbreviation range := (hi - lo)%f32.
Local Abbreviation converted := (converted_rad_relative open_at_min lo hi).
Local Abbreviation flipped x := (if open_at_min then SFsub prec32 emax32 f1 x else x).

Lemma range_number : number range.
Proof. destruct HR. split; [done|]. apply sub_is_f32; [apply gr_hi0|apply gr_lo0]. Qed.
Lemma range_nonneg : f0 <=?. range = true.
Proof. by apply SFltb_SFleb, HR. Qed.
Local Hint Resolve range_number range_nonneg : core.

Lemma converted_eq x : converted x = (flipped x * range + lo)%f32.
Proof.
  unfold converted_rad_relative. assert (range <=?. f0 = false) as ->; [|done].
  destruct HR as [? ? P F _]. rewrite SFltb_nleb in P; [|done|by destruct range]. by apply negb_true_iff.
Qed.

Lemma unit_number x : in_range f0 f1 x → is_f32 x = true → number x.
Proof. intros. by apply (number_between f0 x f1). Qed.

Lemma flipped_unit x : is_f32 x = true → in_range f0 f1 x → number (flipped x) ∧ in_range f0 f1 (flipped x).
Proof.
  intros Vx Hx. pose proof (unit_number x Hx Vx) as Nx. destruct open_at_min; [|done].
  destruct Hx as [H0 H1]. assert (in_range (f1 - f1)%f32 (f1 - f0)%f32 (f1 - x)%f32) as [D0 D1].
  { split; apply (SFsub_antitone prec32 emax32); done. }
  assert (in_range f0 f1 (f1 - x)%f32) as D by done. split; [|done].
  apply unit_number; [done|]. by apply sub_is_f32.
Qed.

Lemma share_number x : number x → in_range f0 f1 x → number (x * range)%f32 ∧ in_range f0 range (x * range)%f32.
Proof.
  intros Nx Hx. assert (in_range f0 range (x * range)%f32) as D by (by apply share). split; [|done].
  apply (number_between f0 _ range); [done..| |done]. apply mul_is_f32; [apply Nx|apply range_number].
Qed.

Lemma converted_between x : is_f32 x = true → in_range f0 f1 x → in_range lo (range + lo)%f32 (converted x).
Proof.
  intros Vx Hx. rewrite converted_eq. destruct (flipped_unit x Vx Hx) as [Nf Hf].
  destruct (share_number _ Nf Hf) as [Ns [S0 S1]]. destruct HR as [Nlo _ _ _ _]. split.
  - rewrite add_comm by (apply Ns || apply Nlo).
    destruct Ns, Nlo. by apply SFadd_ge.
  - by apply add_mono.
Qed.

Lemma converted_mono x y : is_f32 x = true → is_f32 y = true → in_range f0 f1 x → in_range f0 f1 y →
  x <=?. y = true →
  if open_at_min then converted y <=?. converted x = true else converted x <=?. converted y = true.
Proof.
  intros Vx Vy Hx Hy Hle. rewrite !converted_eq.
  destruct (flipped_unit x Vx Hx) as [Nfx Hfx], (flipped_unit y Vy Hy) as [Nfy Hfy].
  destruct (share_number _ Nfx Hfx) as [Nsx _], (share_number _ Nfy Hfy) as [Nsy _].
  pose proof (unit_number x Hx Vx). pose proof (unit_number y Hy Vy). pose proof range_number as [].
  destruct open_at_min; apply add_mono; try done; try apply HR; apply SFmul_mono; try done; try apply range_nonneg.
  - apply Hfy.
  - by apply (SFsub_antitone prec32 emax32).
  - apply Hx.
Qed.
End command.

Lemma clipping_mono lo hi x y : lo <=?. hi = true → x <=?. y = true → clipping x lo hi <=?. clipping y lo hi = true.
Proof.
  intros Hb Hle. destruct (SFleb_not_nan _ _ Hle), (SFleb_not_nan _ _ Hb).
  destruct (clipping_in_range x lo hi) as [X0 X1]; [done..|].
  destruct (clipping_in_range y lo hi) as [Y0 Y1]; [done..|]. revert X0 X1 Y0 Y1. unfold clipping.
  destruct (hi <?. x) eqn:A, (hi <?. y) eqn:B; try done.
  - intros _ _ _ _. apply SFltb_SFleb in A. assert (hi <=?. y = true) as Hy by (eapply SFleb_trans; [exact A|done]).
    destruct (y <?. lo) eqn:D; [|done]. apply SFltb_SFleb in D. by eapply SFleb_trans; [exact Hy|].
  - destruct (x <?. lo) eqn:C, (y <?. lo) eqn:D; try done. intros _ _ _ _.
    apply SFltb_SFleb in D. by eapply SFleb_trans; [exact Hle|].
Qed.

Lemma clamp_normalized_clipping n : number n → clamp_normalized n = clipping n f0 f1.
Proof.
  intros [Fn _]. assert (is_nan n = false) by by destruct n. unfold clamp_normalized.
  destruct (_ || _) eqn:E; [done|]. apply orb_false_elim in E as [E0 E1].
  symmetry. apply clipping_id. split; by apply SFltb_false_leb.
Qed.

Lemma clamp_normalized_unit n : number n → is_f32 (clamp_normalized n) = true ∧ in_range f0 f1 (clamp_normalized n).
Proof.
  intros Hn. rewrite clamp_normalized_clipping by done. destruct Hn as [Fn Vn]. split.
  - unfold clipping. by split_ifs.
  - apply clipping_in_range; [by destruct n|done].
Qed.

(** ** Commands *)

Section effector.
Context {X : Type} `{JointServos X} `{EffectorWorld X} (undefined_servo : Servo).
Local Abbreviation E := (Effector X).

Local Abbreviation command n e := (get_gripper_pos_rad_relative_from_normalized undefined_servo n e).

(** The range of commands: up to the safety margin. *)
Definition command_lo (e : E) : f32 := get_normalized_pos_min_relative undefined_servo (joint_world 0 e).
Definition command_hi (e : E) : f32 :=
  let w := joint_world 0 e in
  effective_pos_max (safety_margin_of (has_normalized_position_range (joint w)) (pos_max_safety_margin_ (joint w)))
    (Joint.get_pos_max_relative undefined_servo w) (command_lo e) (get_normalized_pos_max_relative undefined_servo w).

Record calibrated (e : E) : Prop := {
  cal_joint : eff_joints_ e ≠ [];
  cal_servo : is_Some (reference_ptr (the_joint 0 e));
  cal_range : gripper_range (command_lo e) (command_hi e);
}.

Lemma command_eq e n : calibrated e →
  command n e = if isfinite n
    then converted_rad_relative (open_at_min_ e) (command_lo e) (command_hi e) (clamp_normalized n)
    else pos_of undefined_servo 0 e.
Proof.
  intros [Hj [p Hp] _]. unfold get_gripper_pos_rad_relative_from_normalized.
  rewrite bool_decide_false by done. rewrite bool_decide_false by (rewrite Hp; done). by destruct (isfinite n).
Qed.

Lemma command_in_range e n : calibrated e → is_f32 n = true → isfinite n = true →
  in_range (command_lo e) ((command_hi e - command_lo e) + command_lo e)%f32 (command n e).
Proof.
  intros Hc Vn Fn. rewrite command_eq, Fn by done. destruct Hc as [_ _ HR].
  destruct (clamp_normalized_unit n ltac:(done)). by apply converted_between.
Qed.

(** The command for a normalized position never leaves the gripper's range, is
    monotone in the position (antitone for a gripper that is open at its minimum), and
    an infinity or a NaN from the wire holds the gripper where it is. *)
Theorem gripper_command_follows e n m : calibrated e → is_f32 n = true → is_f32 m = true →
  (isfinite n = false → command n e = pos_of undefined_servo 0 e) ∧
  (isfinite n = true → in_range (command_lo e) ((command_hi e - command_lo e) + command_lo e)%f32 (command n e)) ∧
  (n <=?. m = true → isfinite n = true → isfinite m = true →
   if open_at_min_ e then command m e <=?. command n e = true else command n e <=?. command m e = true).
Proof.
  intros Hc Vn Vm. split_and!.
  - intros Fn. by rewrite command_eq, Fn.
  - by apply command_in_range.
  - intros Hle Fn Fm. rewrite !command_eq, Fn, Fm by done. destruct Hc as [_ _ HR].
    destruct (clamp_normalized_unit n ltac:(done)), (clamp_normalized_unit m ltac:(done)).
    apply converted_mono; try done. rewrite !clamp_normalized_clipping by done. by apply clipping_mono.
Qed.

(** ** Torque mode *)

Lemma ramp_one_radian ramped goal : number ramped → is_f32 goal = true → number (ramp_target ramped goal) →
  in_range (ramped - f1)%f32 (ramped + f1)%f32 (ramp_target ramped goal).
Proof.
  intros [Fr Vr] Vg [Ft Vt]. unfold ramp_target in *. set (d := clipping (goal - ramped)%f32 (- f1)%f32 f1) in *.
  assert (is_nan (goal - ramped)%f32 = false) as Hn.
  { destruct (goal - ramped)%f32; try done. exfalso. by destruct ramped. }
  pose proof (clipping_in_range _ (- f1)%f32 f1 Hn eq_refl) as Hd. fold d in Hd.
  assert (number d) as Nd.
  { apply (number_between (- f1)%f32 d f1); try done. unfold d, clipping. split_ifs; try done. by apply sub_is_f32. }
  destruct Hd as [D0 D1]. destruct Nd as [Fd Vd].
  rewrite (add_comm ramped d) by done. split.
  - rewrite sub_opp, add_comm by done. by apply add_mono.
  - rewrite (add_comm ramped f1) by done. by apply add_mono.
Qed.

Lemma opp_below bound : f0 <=?. bound = true → (- bound)%f32 <=?. bound = true.
Proof. by destruct bound as [[]|[]| |[]]. Qed.

(** In torque mode a CAN gripper is handed a torque within its limit, whatever the
    target, and the internal goal moves at most one radian per call, from the measured
    position at first. *)
Theorem can_torque_bounded i target (e : E) :
  let w := joint_world i e in
  let measured := pos_of undefined_servo i e in
  let bound := grip_bound (joint w) in
  let ramped := if ramped_target_initialized_ e then ramped_target_pos_ e else measured in
  let ramped' := ramp_target ramped (clipping target (Joint.get_pos_min_relative undefined_servo w)
                                       (Joint.get_pos_max_relative undefined_servo w)) in
  number ramped → number ramped' → f0 <=?. bound = true →
  is_f32 (clipping target (Joint.get_pos_min_relative undefined_servo w)
            (Joint.get_pos_max_relative undefined_servo w)) = true →
  is_nan (distance_to_torque_ e * (ramped' - measured - grip_spring_offset_ e))%f32 = false →
  in_range (ramped - f1)%f32 (ramped + f1)%f32 ramped' ∧
  ∃ torque, in_range (- bound)%f32 bound torque ∧
    can_move_joint_with_torque undefined_servo i target e =
      with_joint i (Joint.apply_torque_with_damping (torque * f32_of_Z (get_dir_invert undefined_servo w))%f32)
        (e <| ramped_target_initialized_ := true |> <| ramped_target_pos_ := ramped' |>).
Proof.
  intros w measured bound ramped ramped' Nr Nr' Hb Vg Hn. split; [by apply ramp_one_radian|].
  exists (grip_torque (distance_to_torque_ e) (grip_spring_offset_ e) bound ramped' measured). split; [|done].
  apply clipping_in_range; [done|]. by apply opp_below.
Qed.

(** ** What commands leave alone *)

Definition same_numbers (s s' : Servo) : Prop :=
  Servo.get_pos_rad_relative s' = Servo.get_pos_rad_relative s ∧
  pos_min_rel_ s' = pos_min_rel_ s ∧ pos_max_rel_ s' = pos_max_rel_ s.
#[local] Instance same_numbers_preorder : PreOrder same_numbers.
Proof. split; [by split|]. intros s1 s2 s3 (? & ? & ?) (? & ? & ?). split_and!; congruence. Qed.

Definition core (j : Joint) :=
  (reference_ptr j, pos_max_safety_margin_ j, has_normalized_position_range j, normalized_pos_min_ j, normalized_pos_max_ j).

Definition same_servos (x x' : X) : Prop := ∀ q, same_numbers (js_servo q x) (js_servo q x').
#[local] Instance same_servos_preorder : PreOrder same_servos.
Proof. split; [by intros x q|]. intros x1 x2 x3 H1 H2 q. etrans; [apply H1|apply H2]. Qed.

(** The rest of the program keeps the numbers of a servo whose other fields change. *)
Class NumbersKeep : Prop := {
  keep_numbers : ∀ p f x, (∀ s, same_numbers s (f s)) → same_servos x (js_update p f x);
  keep_numbers_device : ∀ d x, same_servos x (dw_set_device d x) ∧ same_servos (dw_set_device d x) x;
}.
Context `{!NumbersKeep}.

Definition same_joint (w w' : JointWorld X) : Prop := core (joint w') = core (joint w) ∧ same_servos (hw w) (hw w').
#[local] Instance same_joint_preorder : PreOrder same_joint.
Proof. split; [by split|]. intros w1 w2 w3 [] []. split; [congruence|etrans; eassumption]. Qed.

Lemma same_joint_on_joint f : (∀ j, core (f j) = core j) → steps same_joint (on_joint f).
Proof. intros Hf w. split; [apply Hf|done]. Qed.
Lemma same_joint_publish : steps same_joint publish_view.
Proof.
  intros w. split; [done|]. cbn. induction (servos_ (joint w)) as [|p ps IH]; [done|]. cbn [foldr].
  etrans; [exact IH|]. apply keep_numbers. by intros s.
Qed.
Lemma same_joint_tele_pos t : steps same_joint (set_tele_pos_rad t).
Proof.
  unfold set_tele_pos_rad. apply steps_bind; [exact _| |intros _; apply same_joint_publish].
  apply same_joint_on_joint. intros j. cbv zeta. by split_ifs.
Qed.

Definition same_gripper (e e' : E) : Prop :=
  eff_base e' = eff_base e ∧ open_at_min_ e' = open_at_min_ e ∧ start_index_joint_ e' = start_index_joint_ e ∧
  length (eff_joints_ e') = length (eff_joints_ e) ∧ (∀ i, core (the_joint i e') = core (the_joint i e)) ∧
  same_servos (eff_world e) (eff_world e').
#[local] Instance same_gripper_preorder : PreOrder same_gripper.
Proof.
  split; [intros e; by split_and!|]. intros e1 e2 e3 (? & ? & ? & ? & Hc & ?) (? & ? & ? & ? & Hc' & ?).
  split_and!; [congruence..| |etrans; eassumption]. intros i. by rewrite Hc', Hc.
Qed.

Lemma same_gripper_with_joint {T} i (m : St (JointWorld X) T) : steps same_joint m → steps same_gripper (with_joint i m).
Proof.
  intros Hm e. unfold with_joint, lift_into.
  pose proof (steps_bind same_joint publish_view (λ _, m) same_joint_publish (λ _, Hm) (joint_world i e)) as Hs.
  destruct ((publish_view;; m) (joint_world i e)) as [v w]. destruct Hs as [Hc Hw].
  split_and!; try done; cbn [snd].
  - cbn. apply length_insert.
  - intros k. cbn in Hc. revert Hc. unfold the_joint. cbn. intros Hc. destruct (decide (k = i)) as [->|]; [|by rewrite list_lookup_insert_ne].
    destruct (decide (i < length (eff_joints_ e))%nat).
    + by rewrite list_lookup_insert_eq.
    + by rewrite list_insert_ge by lia.
  - cbn. etrans; [apply (keep_numbers_device (view (eff_base e)))|exact Hw].
Qed.

(** What commands depend on. *)
Lemma same_gripper_numbers e e' : same_gripper e e' →
  command_lo e' = command_lo e ∧ command_hi e' = command_hi e ∧
  pos_of undefined_servo 0 e' = pos_of undefined_servo 0 e.
Proof.
  intros (_ & _ & _ & _ & Hc & Hw). specialize (Hc O). unfold core in Hc. injection Hc as C1 C2 C3 C4 C5.
  assert (∀ q, same_numbers (js_servo q (hw (joint_world 0 e))) (js_servo q (hw (joint_world 0 e')))) as Hn.
  { intros q. cbn. etrans; [apply (keep_numbers_device (view (eff_base e)))|].
    etrans; [apply Hw|]. apply keep_numbers_device. }
  unfold command_hi, command_lo, pos_of, get_normalized_pos_min_relative,
    get_normalized_pos_max_relative, Joint.get_pos_rad_relative, Joint.get_pos_min_relative,
    Joint.get_pos_max_relative, reference_servo.
  cbn [joint joint_world]. rewrite C1, C2, C3, C4, C5.
  destruct (reference_ptr (the_joint 0 e)) as [p|]; [|done]. by destruct (Hn p) as (-> & -> & ->).
Qed.

Lemma same_gripper_calibrated e e' : same_gripper e e' → calibrated e → calibrated e'.
Proof.
  intros Hs [Hj Hp HR]. destruct (same_gripper_numbers e e' Hs) as (E1 & E2 & _).
  destruct Hs as (_ & _ & _ & Hl & Hc & _). split.
  - intros E0. apply Hj. apply length_zero_iff_nil. by rewrite <- Hl, E0.
  - specialize (Hc O). unfold core in Hc. injection Hc as C1 _ _ _ _. by rewrite C1.
  - by rewrite E1, E2.
Qed.
Lemma same_gripper_command e e' n : same_gripper e e' → calibrated e → command n e' = command n e.
Proof.
  intros Hs Hc. rewrite !command_eq by eauto using same_gripper_calibrated.
  destruct (same_gripper_numbers e e' Hs) as (-> & -> & ->). by destruct Hs as (_ & -> & _).
Qed.

Definition target_of (msg : MsgJoints) (i : nat) (e : E) : f32 := command (msg_pos (effector_msg msg i e)) e.

Lemma apply_joint_target msg i (e : E) :
  wp (effector_apply_joint undefined_servo msg i)
     (λ _ e', same_gripper e e' ∧ eff_tele_pos_ e' = <[i := target_of msg i e]> (eff_tele_pos_ e)) e.
Proof.
  unfold effector_apply_joint, on_eff. do 4 wp_step. match goal with |- wp _ _ ?a => set (e1 := a) end.
  assert (same_gripper e e1) as S1 by by split_and!.
  assert (∀ m, steps same_joint m → wp (with_joint i m) (λ (_ : unit) e', same_gripper e1 e' ∧ eff_tele_pos_ e' = eff_tele_pos_ e1) e1) as Hw.
  { intros m Hm. split; [by apply same_gripper_with_joint|]. unfold with_joint, lift_into.
    by destruct ((publish_view;; m) _). }
  wp_step. eapply wp_mono; [apply Hw, same_joint_tele_pos|]. intros _ e2 [S2 T2]. do 2 wp_step.
  unfold update_joint. wp_step. split; [|exact T2].
  etrans; [exact S1|]. etrans; [exact S2|]. split_and!; try done; cbn.
  - by rewrite length_alter.
  - intros k. unfold the_joint. cbn. destruct (decide (k = i)) as [->|]; [|by rewrite list_lookup_alter_ne].
    rewrite list_lookup_alter_eq. by destruct (eff_joints_ e2 !! i).
Qed.

Lemma apply_joints_targets msg js : ∀ e : E, calibrated e → NoDup js →
  wp (each_ (effector_apply_joint undefined_servo msg) js) (λ _ e', same_gripper e e' ∧
    length (eff_tele_pos_ e') = length (eff_tele_pos_ e) ∧
    (∀ i, i ∈ js → (i < length (eff_tele_pos_ e))%nat → eff_tele_pos_ e' !! i = Some (target_of msg i e)) ∧
    (∀ i, i ∉ js → eff_tele_pos_ e' !! i = eff_tele_pos_ e !! i)) e.
Proof.
  induction js as [|k js IH]; intros e Hc Hnd; cbn [each_].
  { wp_step. split_and!; try done. intros i Hi. by apply elem_of_nil in Hi. }
  apply NoDup_cons in Hnd as [Hk Hnd]. wp_step. eapply wp_mono; [apply apply_joint_target|].
  intros _ e1 [S1 T1]. eapply wp_mono; [apply IH; [by eapply same_gripper_calibrated|done]|].
  intros _ e2 (S2 & L2 & In2 & Out2). rewrite T1, length_insert in L2, In2. split_and!; [by etrans|done| |].
  - intros i [->|Hi]%elem_of_cons Hlt.
    + rewrite Out2, T1 by done. by apply list_lookup_insert_eq.
    + rewrite In2 by done. f_equal. unfold target_of. rewrite (same_gripper_command e e1) by done.
      unfold effector_msg. by destruct S1 as (_ & _ & -> & _).
  - intros i [Hik Hi]%not_elem_of_cons. rewrite Out2, T1 by done. by rewrite list_lookup_insert_ne.
Qed.

(** [C37] Whatever floats a message carries, the targets that [apply_action] stores are
    safe: each lies in the gripper's range or is the place where the gripper is; a
    message with the wrong number of joints changes nothing. *)
Theorem apply_action_safe msg (e : E) : calibrated e → length (eff_tele_pos_ e) = length (eff_joints_ e) →
  (∀ i, is_f32 (msg_pos (effector_msg msg i e)) = true) →
  let '(rc, e') := effector_apply_action undefined_servo msg e in
  if effector_wrong_size msg e then rc = INVALID_PARAM ∧ e' = e
  else rc = SUCCESS ∧ ∀ i, (i < length (eff_joints_ e))%nat →
    ∃ target, eff_tele_pos_ e' !! i = Some target ∧
      (target = pos_of undefined_servo 0 e ∨
       in_range (command_lo e) ((command_hi e - command_lo e) + command_lo e)%f32 target).
Proof.
  intros Hc Hl Hv. unfold effector_apply_action. change (get_state e) with (e, e).
  destruct (effector_wrong_size msg e) eqn:Ew.
  { unfold mbind, St_bind. cbn. by rewrite Ew. }
  pose proof (apply_joints_targets msg (joint_indices e) e Hc) as Hw.
  specialize (Hw ltac:(apply NoDup_seq)). unfold wp in Hw.
  unfold mbind at 1, St_bind at 1. cbn [get_state]. rewrite Ew. rewrite bind_run. cbn [fst snd mret].
  unfold for_joints_. rewrite bind_run. cbn [get_state fst snd].
  destruct (each_ _ _ e) as [v e']. cbn [fst snd] in *. destruct Hw as (_ & _ & Hin & _). cbn.
  split; [done|]. intros i Hi. exists (target_of msg i e). split.
  - apply Hin; [|by rewrite Hl]. apply elem_of_seq. unfold joint_indices. cbn. lia.
  - unfold target_of. destruct (isfinite (msg_pos (effector_msg msg i e))) eqn:Ef.
    + right. by apply command_in_range.
    + left. by rewrite command_eq, Ef.
Qed.
End effector.

(** *** In the simulated gripper *)

#[export] Instance sim_numbers : NumbersKeep (X := Sim).
Proof.
  split; [|done]. intros p f x Hf q. cbn. unfold sim_servo_of. cbn.
  destruct (decide (p = q)) as [->|Hne].
  - rewrite lookup_alter_eq. destruct (sim_servos x !! q); [apply Hf|by split_and!].
  - rewrite lookup_alter_ne by done. by split_and!.
Qed.

Definition sim_undefined : Servo := sim_servo follower_arm.

Lemma sim_gripper_calibrated : calibrated sim_undefined sim_gripper.
Proof. split; [done|by eexists|]. by split; vm_compute. Qed.

Lemma gripper_command_follows_witness :
  let cmd n := get_gripper_pos_rad_relative_from_normalized sim_undefined n sim_gripper in
  (isfinite (lit32 1 4) = false → cmd (lit32 1 4) = pos_of sim_undefined 0 sim_gripper) ∧
  (isfinite (lit32 1 4) = true → in_range (command_lo sim_undefined sim_gripper)
    ((command_hi sim_undefined sim_gripper - command_lo sim_undefined sim_gripper) +
     command_lo sim_undefined sim_gripper)%f32 (cmd (lit32 1 4))) ∧
  (lit32 1 4 <=?. f32_of_Z 2 = true → isfinite (lit32 1 4) = true → isfinite (f32_of_Z 2) = true →
   cmd (lit32 1 4) <=?. cmd (f32_of_Z 2) = true).
Proof.
  exact (gripper_command_follows sim_undefined sim_gripper (lit32 1 4) (f32_of_Z 2)
    sim_gripper_calibrated eq_refl eq_refl).
Defined.

Lemma can_torque_bounded_witness :
  let e := sim_gripper in
  let w := joint_world 0 e in
  let measured := pos_of sim_undefined 0 e in
  let ramped' := ramp_target measured (clipping (f32_of_Z 5) (Joint.get_pos_min_relative sim_undefined w)
                                         (Joint.get_pos_max_relative sim_undefined w)) in
  (in_range (measured - f1)%f32 (measured + f1)%f32 ramped' ∧
   ∃ torque, in_range (- grip_bound (joint w))%f32 (grip_bound (joint w)) torque ∧
     can_move_joint_with_torque sim_undefined 0 (f32_of_Z 5) e =
       with_joint 0 (Joint.apply_torque_with_damping (torque * f32_of_Z (get_dir_invert sim_undefined w))%f32)
         (e <| ramped_target_initialized_ := true |> <| ramped_target_pos_ := ramped' |>)) ∧
  ramped' = f1.
Proof. split; [by apply (can_torque_bounded sim_undefined 0 (f32_of_Z 5) sim_gripper); vm_compute|by vm_compute]. Defined.

Lemma apply_action_safe_witness :
  let msg := [mkDataJoint S754_nan f0 f0 f0 f0 f0] in
  let '(rc, e') := effector_apply_action sim_undefined msg sim_gripper in
  rc = SUCCESS ∧ ∀ i, (i < 1)%nat → ∃ target, eff_tele_pos_ e' !! i = Some target ∧
    (target = pos_of sim_undefined 0 sim_gripper ∨
     in_range (command_lo sim_undefined sim_gripper)
       ((command_hi sim_undefined sim_gripper - command_lo sim_undefined sim_gripper) +
        command_lo sim_undefined sim_gripper)%f32 target).
Proof.
  apply (apply_action_safe sim_undefined [mkDataJoint S754_nan f0 f0 f0 f0 f0] sim_gripper); [|done|].
  - apply sim_gripper_calibrated.
  - intros i. unfold effector_msg. by destruct (Z.to_nat _) as [|[|n]].
Defined.
