(* ===== verification/ArxEncoder.v ===== *)
(** * The read-only ARX encoder driver (src/pi_driver_arx_encoder.cpp)

    It derives from [DriverCanMit] and overrides the commands, the enable call and
    the frame handler.  While the warm-up loop of [enable] sleeps, the reception
    thread handles the frames [arrivals n] of the [n]-th sleep. *)

From S2P Require Import Prelude.
From S2P Require Import FloatSpec.
From S2P Require Import Control.
From S2P Require Import MathOps.
From S2P Require Import DmStatus.
From S2P Require Import CanBus.
From S2P Require Import Servo.
From S2P Require Import DmCodec.
From S2P Require Import DriverCanMit.
From S2P Require Import DriverCanMitFacts.
From S2P Require Import DriverCanMitProtocol.
From S2P Require Import ServoConfig.
From S2P Require Import ServoDm.
From S2P Require Import ServoDmFacts.

Section arx.
Context (env : BusEnv) (arrivals : nat → list can_frame).

Definition arx_handle_received_message (p_frame : can_frame) : St World unit :=
  if negb (can_dlc p_frame =? ARX_ENCODER_FEEDBACK_DLC) then mret tt
  else
    w ← get_state;
    let data_index := find_data_index (registry w) (can_id p_frame) in
    if data_index <? 0 then mret tt
    else update_encoder_slot env data_index (can_id p_frame) (arx_encoder_angle p_frame);; mret tt.

Definition arx_send_command (p_servo_dm : Servo) (kp kd position velocity torque : f32)
    : St World ReturnCode := mret SUCCESS.

Definition arx_reset_zero_position (id : Z) (type : ServoType) : St World ReturnCode := mret SUCCESS.

Fixpoint handle_all (fs : list can_frame) : St World unit :=
  match fs with
  | [] => mret tt
  | f :: fs => arx_handle_received_message f;; handle_all fs
  end.

(** The warm-up loop; [attempt] counts up to ARX_ENCODER_WARMUP_MAX_RETRY. *)
Fixpoint warmup (n attempt : nat) (data_index : Z) : St World ReturnCode :=
  match n with
  | O => mret SUCCESS
  | S n =>
      id ← gets (λ w, get_received_motor_id (mit w) data_index);
      if negb (id =? 0) then mret SUCCESS
      else handle_all (arrivals attempt);; warmup n (S attempt) data_index
  end.

Definition arx_enable (id : Z) (type : ServoType) (enable_flag : bool) : St World ReturnCode :=
  data_index ← gets (λ w, find_data_index (registry w) id);
  if data_index <? 0 then mret FAIL
  else warmup ARX_ENCODER_WARMUP_MAX_RETRY 0 data_index.

Definition arx_driver : CanMitDriver := {|
  drv_send_command := arx_send_command;
  drv_enable := arx_enable;
|}.

(** ** Theorems *)

Lemma arx_message_same_servos f : steps same_servos (arx_handle_received_message f).
Proof. unfold arx_handle_received_message, update_encoder_slot. steps_go. Qed.

Lemma handle_all_same_servos fs : steps same_servos (handle_all fs).
Proof. pose proof arx_message_same_servos. induction fs; cbn [handle_all]; steps_go. Qed.

Lemma warmup_same_servos n : ∀ k i, steps same_servos (warmup n k i).
Proof. pose proof handle_all_same_servos. induction n as [|n IH]; intros k i; cbn [warmup]; steps_go. Qed.

#[export] Instance arx_driver_laws : @CanMitDriverLaws arx_driver.
Proof.
  pose proof warmup_same_servos. split.
  - intros s kp kd pos vel tor w. split; reflexivity.
  - intros id type flag. change (steps same_servos (arx_enable id type flag)). unfold arx_enable. steps_go.
Qed.

(** Enabling waits for the first frame and never fails a mapped encoder. *)
Lemma warmup_result n : ∀ k i w, fst (warmup n k i w) = SUCCESS.
Proof.
  induction n as [|n IH]; intros k i w; cbn [warmup]; [done|].
  unfold mbind, St_bind, gets. destruct (negb _); [done|]. destruct (handle_all (arrivals k) w) as [u w1]. apply IH.
Qed.

(** ** Nothing is ever written to the bus *)

(** All servos of the process are ARX encoders, and no passive encoder is routed. *)
Definition all_arx (w : World) : Prop :=
  map_Forall (λ _ s, type_ s = ARX_ENCODER) (servos w) ∧ passive_encoder_routes_ (mit w) = ∅.

Definition quiet_arx (s0 : list can_frame) (w : World) : Prop := all_arx w ∧ sent (bus w) = s0.

Lemma quiet_on_bus {A} (m : St Bus A) s0 : (∀ b, sent (snd (m b)) = sent b) →
  steps (keeps (quiet_arx s0)) (on_bus m).
Proof.
  intros H w [[H1 H2] H3]. unfold on_bus, lift_into. specialize (H (bus w)). destruct (m (bus w)) as [a b].
  split; [by split|]. cbn in *. congruence.
Qed.

Lemma quiet_on_mit f s0 : (∀ m, passive_encoder_routes_ (f m) = passive_encoder_routes_ m) →
  steps (keeps (quiet_arx s0)) (on_mit f).
Proof. intros H w [[H1 H2] H3]. split; [|done]. split; [done|]. cbn. by rewrite H. Qed.

Lemma quiet_now s0 : steps (keeps (quiet_arx s0)) (now env).
Proof. by apply quiet_on_bus. Qed.

Lemma quiet_lifecycle s0 :
  steps (keeps (quiet_arx s0)) (on_bus stop_reception) ∧ steps (keeps (quiet_arx s0)) (on_bus bus_close) ∧
  steps (keeps (quiet_arx s0)) (on_bus (start_reception true)) ∧
  steps (keeps (quiet_arx s0)) (on_bus (bus_open env)).
Proof.
  assert (PreOrder (λ b b' : Bus, sent b' = sent b)) as Hpre by
    (split; [by intros b|intros b1 b2 b3; congruence]).
  assert (steps (λ b b', sent b' = sent b) join_reception_thread) as Hj.
  { apply steps_modify. intros b. by destruct (reception_joinable b). }
  assert (steps (λ b b', sent b' = sent b) stop_reception) as Hs.
  { unfold stop_reception. steps_go. by apply steps_modify. }
  assert (steps (λ b b', sent b' = sent b) bus_close) as Hc.
  { unfold bus_close. steps_go. apply steps_modify. intros b. by destruct (0 <=? sock_ b). }
  assert (∀ A (answer : nat → A), steps (λ b b', sent b' = sent b) (syscall answer)) as Hsys by done.
  assert (steps (λ b b', sent b' = sent b) (start_reception true)) as Hst.
  { unfold start_reception. steps_go. by apply steps_modify. }
  assert (steps (λ b b', sent b' = sent b) (bus_open env)) as Ho.
  { unfold bus_open. steps_go. by apply steps_modify. }
  split_and!; by apply quiet_on_bus.
Qed.

Lemma configure_no_routes fuel w : passive_encoder_routes_ (mit w) = ∅ →
  configure_passive_encoders env fuel w = (SUCCESS, w).
Proof.
  intros Hr. unfold configure_passive_encoders, mbind, St_bind, gets. rewrite Hr.
  unfold request_firmware_compat. rewrite map_fold_empty.
  change (in_key_order (∅ : gmap Z bool)) with (@nil (Z * bool)). done.
Qed.

Lemma quiet_open fuel s0 : steps (keeps (quiet_arx s0)) (open env fuel).
Proof.
  destruct (quiet_lifecycle s0) as (_ & Hc & Hst & Ho). intros w Hw. unfold open.
  rewrite bind_run. specialize (Ho w Hw). destruct (on_bus (bus_open env) w) as [rc w1]. cbn [fst snd] in *.
  destruct (negb (ok rc)); [exact Ho|]. rewrite bind_run, configure_no_routes by apply Ho. cbn [fst snd].
  change (ok SUCCESS) with true. cbn [negb].
  assert (steps (keeps (quiet_arx s0)) (rc ← on_bus (start_reception true);
    if negb (ok rc) then on_bus bus_close;; mret rc else mret SUCCESS)) as H by steps_go.
  by apply H.
Qed.

Lemma arm_arx stop t id w : all_arx w → arm_servo env stop t id w = (tt, w).
Proof.
  intros [H _]. unfold arm_servo, mbind, St_bind, get_state.
  destruct (lock_servo_dm (registry w) (servos w) id) as [s|] eqn:E; [|done].
  unfold lock_servo_dm in E. destruct (lock_registered_servo (registry w) id) as [p|]; [|done]. cbn in E.
  destruct (servos w !! p) as [s'|] eqn:Es; [|done]. cbn in E. destruct (dm_ s'); [|done].
  injection E as <-. by rewrite (H p s' Es).
Qed.

Lemma quiet_arm d s0 : steps (keeps (quiet_arx s0)) (arm_comm_loss_protection env (Some d)).
Proof.
  destruct (quiet_lifecycle s0) as (Hs & Hc & Hst & Ho).
  assert (∀ stop t ids, steps (keeps (quiet_arx s0)) (arm_each env stop t ids)) as Harm.
  { intros stop t ids. induction ids as [|i ids IH]; cbn [arm_each]; [steps_go|].
    apply steps_bind; [exact _| |by intros _]. intros w Hw. rewrite arm_arx by apply Hw. exact Hw. }
  unfold arm_comm_loss_protection, socket_open. steps_go.
Qed.

Lemma read_quiet p s0 : steps (keeps (quiet_arx s0)) (read_hardware_values p).
Proof.
  assert (∀ w s s', servos w !! p = Some s → type_ s' = type_ s → quiet_arx s0 w →
    quiet_arx s0 (w <| servos := alter (λ _, s') p (servos w) |>)) as Hset.
  { intros w s s' Es Et [[H1 H2] H3]. split; [|done]. split; [|done]. intros q x Hq. cbn in Hq.
    destruct (decide (p = q)) as [<-|Hne].
    - rewrite lookup_alter_eq, Es in Hq. injection Hq as <-. rewrite Et. by apply (H1 p).
    - rewrite lookup_alter_ne in Hq by done. by apply (H1 q). }
  intros w Hw. unfold read_hardware_values, mbind, St_bind, get_state.
  destruct (servos w !! p) as [s|] eqn:Es; [|exact Hw].
  destruct (bool_decide _); [exact Hw|]. destruct (negb (slot_index_ok _)); [exact Hw|].
  set (x := slot _ _). destruct (motor_id_ x =? 0).
  - cbn. by apply (Hset w s).
  - pose proof (position_wrap_frame (copy_slot x s)) as (_ & Et & _).
    destruct (initialize_position_wrap (copy_slot x s)) as [rc s']. cbn [snd] in Et.
    cbn. destruct (negb (ok rc)); by apply (Hset w s).
Qed.

Lemma quiet_message f s0 : steps (keeps (quiet_arx s0)) (arx_handle_received_message f).
Proof.
  pose proof (quiet_now s0). unfold arx_handle_received_message, update_encoder_slot. steps_go.
Qed.

Lemma quiet_enable id type flag s0 : steps (keeps (quiet_arx s0)) (arx_enable id type flag).
Proof.
  assert (∀ fs, steps (keeps (quiet_arx s0)) (handle_all fs)).
  { pose proof quiet_message. induction fs; cbn [handle_all]; steps_go. }
  assert (∀ n k i, steps (keeps (quiet_arx s0)) (warmup n k i)).
  { induction n as [|n IH]; intros k i; cbn [warmup]; steps_go. }
  unfold arx_enable. steps_go.
Qed.

Lemma group_read_quiet d s0 : steps (keeps (quiet_arx s0)) (group_read_hardware_values env (Some d)).
Proof.
  intros w [[H1 H2] H3]. destruct (servo_ids_ d) eqn:E.
  - unfold group_read_hardware_values. rewrite E. by split.
  - destruct (group_read_spec env d w) as ((_ & _ & _ & _ & _ & S) & P & B); [by rewrite E|].
    split; [split|]; [by rewrite S|by rewrite P|by rewrite B].
Qed.
End arx.

(** The calls an ARX arm makes of its driver. *)
Inductive arx_op :=
  | ArxOpen | ArxClose | ArxGroupRead | ArxArm
  | ArxCommand (s : Servo) (kp kd pos vel tor : f32) | ArxEnable (id : Z) (type : ServoType) (flag : bool)
  | ArxDisableOnce (id : Z) | ArxResetZero (id : Z) (type : ServoType)
  | ArxRead (p : ptr) | ArxFrame (f : can_frame).

Definition arx_step (env : BusEnv) (arrivals : nat → list can_frame) (d : Device) (fuel : nat)
    (w : World) (o : arx_op) : World :=
  match o with
  | ArxOpen => snd (open env fuel w)
  | ArxClose => snd (close w)
  | ArxGroupRead => snd (group_read_hardware_values env (Some d) w)
  | ArxArm => snd (arm_comm_loss_protection env (Some d) w)
  | ArxCommand s kp kd pos vel tor => snd (arx_send_command s kp kd pos vel tor w)
  | ArxEnable id type flag => snd (arx_enable env arrivals id type flag w)
  | ArxDisableOnce id => snd (send_disable_once env id ARX_ENCODER w)
  | ArxResetZero id type => snd (arx_reset_zero_position id type w)
  | ArxRead p => snd (read_hardware_values p w)
  | ArxFrame f => snd (arx_handle_received_message env f w)
  end.

(** A read-only arm never writes to the bus.  With ARX encoders only and no
    passive-encoder route, whatever sequence of calls is made of the driver
    (commands, enabling, the thermal stop's disable, the communication-loss pass
    included) and whatever frames arrive, not one frame is sent. *)
Theorem arx_never_sends env arrivals d fuel os w : all_arx w →
  let w' := foldl (arx_step env arrivals d fuel) w os in
  sent (bus w') = sent (bus w) ∧ all_arx w'.
Proof.
  intros Hw. assert (quiet_arx (sent (bus w)) w) as Hq by by split. revert Hq. generalize (sent (bus w)) as s0.
  clear Hw. revert w. induction os as [|o os IH]; intros w s0 Hq; [by destruct Hq|]. cbn [foldl]. apply IH.
  destruct (quiet_lifecycle env s0) as (_ & Hc & _ & _).
  destruct o; cbn [arx_step]; try exact Hq.
  - by apply quiet_open.
  - revert w Hq. change (steps (keeps (quiet_arx s0)) close). unfold close. steps_go.
  - by apply group_read_quiet.
  - by apply quiet_arm.
  - by apply quiet_enable.
  - revert w Hq. change (steps (keeps (quiet_arx s0)) (send_disable_once env id ARX_ENCODER)).
    unfold send_disable_once, socket_open. steps_go.
  - by apply read_quiet.
  - by apply quiet_message.
Qed.

Lemma arx_never_sends_witness :
  let w := example_world ARX_ENCODER g_servo_dm_param_arx_encoder in
  let os := [ArxArm; ArxEnable 1 ARX_ENCODER true; ArxCommand (new_Servo follower_arm None) f1 f1 f1 f1 f1;
             ArxFrame (make_frame 1 2 [0x20; 0x40]); ArxDisableOnce 1; ArxClose] in
  let w' := foldl (arx_step (answering_bus 1) (λ _, []) follower_arm 9) w os in
  (sent (bus w') = sent (bus w) ∧ all_arx w') ∧ get_received_motor_id (mit w') 0 = 1.
Proof.
  intros w os w'. split; [|vm_compute; reflexivity].
  apply (arx_never_sends (answering_bus 1) (λ _, []) follower_arm 9 os w).
  split; [|vm_compute; reflexivity]. apply map_Forall_singleton. vm_compute. reflexivity.
Defined.
