(* ===== verification/PassiveEncoder.v ===== *)
(** * The passive trigger encoder (src/pi_servo_can_encoder.cpp,
    include/pi_servo_can_encoder.hpp)

    A polled, read-only servo.  [EncWorld] is the driver's world with the private
    fields of the encoder beside it; its base-class fields are the [Servo] behind
    [this].  [publish_joystick] is [Device::publish_joystick], which sends the
    buttons on a topic. *)

From S2P Require Import Prelude.
From S2P Require Import FloatSpec.
From S2P Require Import Control.
From S2P Require Import HoldChecker.
From S2P Require Import SafeMode.
From S2P Require Import CanBus.
From S2P Require Import Servo.
From S2P Require Import DmCodec.
From S2P Require Import DriverCanMit.
From S2P Require Import ServoConfig.
From S2P Require Import ServoDm.
From S2P Require Import ServoDmFacts.

(** ** State *)

Record EncoderPart := mkEncoderPart {
  response_can_id_ : Z;
  button_num_ : Z;
  last_update_count_ : Z;
  publish_joystick_enabled_ : bool;
  response_seen_ : bool;
  poll_outstanding_ : bool;
  silence_warned_ : bool;
  restart_sent_ : bool;
  poll_sent_at_ : prof_time_t;
  next_poll_allowed_at_ : prof_time_t;
  last_response_at_ : prof_time_t;
}.
#[export] Instance eta_EncoderPart : Eta EncoderPart := λ r, mkEncoderPart
  (response_can_id_ r) (button_num_ r) (last_update_count_ r) (publish_joystick_enabled_ r)
  (response_seen_ r) (poll_outstanding_ r) (silence_warned_ r) (restart_sent_ r) (poll_sent_at_ r)
  (next_poll_allowed_at_ r) (last_response_at_ r).

Definition new_EncoderPart : EncoderPart := mkEncoderPart (-1) 2 0 false false false false false 0 0 0.

Record EncWorld := mkEncWorld { world : World; part : EncoderPart }.
#[export] Instance eta_EncWorld : Eta EncWorld := λ r, mkEncWorld (world r) (part r).

Definition on_world {A} (m : St World A) : St EncWorld A :=
  lift_into world (λ w e, e <| world := w |>) m.
Definition on_part (f : EncoderPart → EncoderPart) : St EncWorld unit :=
  modify (λ e, e <| part := f (part e) |>).

Definition PASSIVE_ENCODER_POLL_BYTE_0 : Z := 0xFF.
Definition PASSIVE_ENCODER_POLL_BYTE_1 : Z := 0x02.
Definition PASSIVE_ENCODER_RESTART_BYTE_1 : Z := 0x0F.

Definition PASSIVE_ENCODER_POLL_INTERVAL : Z := milliseconds 4.
Definition PASSIVE_ENCODER_RESPONSE_DEADLINE : Z := milliseconds 10.
Definition PASSIVE_ENCODER_RETRY_BACKOFF : Z := milliseconds 500.
Definition PASSIVE_ENCODER_START_TIMEOUT : Z := milliseconds 1500.
Definition PASSIVE_ENCODER_SILENCE_WARN : Z := milliseconds 2000.
Definition PASSIVE_ENCODER_RESTART_AT : Z := milliseconds 3000.
Definition PASSIVE_ENCODER_FAILURE_AT : Z := milliseconds 20000.

(** Only the base part of the parameters is meaningful for an encoder. *)
Definition g_servo_can_passive_encoder_param : ServoDmParam := mit_param 0 0 0 0.

Definition fn_servo_response_can_id := "response_can_id".
Definition fn_joystick_button_num := "joystick_button_num".
Definition fn_passive_encoder_firmware_compat := "passive_encoder_firmware_compat".

Section encoder.
Context (env : BusEnv) (d : Device) (has_driver : bool) (this : ptr)
  (topic_joystick_set : bool) (publish_joystick : list Z → ReturnCode) (poll_fuel : nat).

Definition enc_servo (e : EncWorld) : Servo := this_servo d this (world e).
Definition update_servo (f : Servo → Servo) : St EncWorld unit := on_world (update_this d this f).
Definition clock_now : St EncWorld prof_time_t := on_world (now env).

Definition enc_park_safely : St EncWorld ReturnCode :=
  update_servo (λ s, s <| parked_ := true |>);; mret SUCCESS.

Definition enc_move (target_pos : f32) : St EncWorld ReturnCode := mret SUCCESS.
Definition enc_move_with (target_pos target_vel target_tor : f32) : St EncWorld ReturnCode := mret SUCCESS.
Definition enc_apply_torque (torque : f32) : St EncWorld ReturnCode := mret SUCCESS.

(** ** Configuration *)

Definition enc_init_config_model {J} `{JsonReader J} (servo_config : J) : St EncWorld ReturnCode :=
  update_servo (λ s, s <| type_ := CAN_PASSIVE_ENCODER |>
                       <| p_servo_param_ := Some g_servo_can_passive_encoder_param |>);;
  require (lift_into (λ e, (enc_servo e, registry (world e)))
             (λ '(s, r) e, e <| world := (set_this this s (world e)) <| registry := r |> |>)
             (init_config_model this servo_config (mret SUCCESS)))
  (if negb has_driver then mret NOT_INITIALIZED
   else
     s ← gets enc_servo;
     on_part (λ p, p <| response_can_id_ := id_ s + 1 |>);;
     require (if json_contains servo_config fn_servo_response_can_id
              then get_field_value json_get_int servo_config fn_servo_response_can_id
                     (λ v e, e <| part := (part e) <| response_can_id_ := v |> |>)
              else mret SUCCESS)
    (require (if json_contains servo_config fn_joystick_button_num
              then require (get_field_value json_get_int servo_config fn_joystick_button_num
                              (λ v e, e <| part := (part e) <| button_num_ := v |> |>))
                     (n ← gets (λ e, button_num_ (part e));
                      mret (if (n <? 0) || (n >? 8) then INVALID_PARAM else SUCCESS))
              else mret SUCCESS)
       (let compat := if json_contains servo_config fn_passive_encoder_firmware_compat
                      then json_get_bool servo_config fn_passive_encoder_firmware_compat
                      else Some false in
        match compat with
        | None => mret INVALID_PARAM
        | Some firmware_compat =>
            p ← gets part;
            on_world (register_passive_encoder (response_can_id_ p) (id_ s) (data_index_ s) firmware_compat)
        end))).

(** ** Polling *)

Definition send_request (byte_1 : Z) : St EncWorld ReturnCode :=
  s ← gets enc_servo;
  on_world (send env (make_frame (id_ s) 2 [PASSIVE_ENCODER_POLL_BYTE_0; byte_1])).
Definition send_poll_frame : St EncWorld ReturnCode := send_request PASSIVE_ENCODER_POLL_BYTE_1.
Definition send_restart_frame : St EncWorld ReturnCode := send_request PASSIVE_ENCODER_RESTART_BYTE_1.

(** [get_received_encoder_data] of the servo's slot. *)
Definition encoder_data (e : EncWorld) : option (f32 * f32 * Z * Z) :=
  get_received_encoder_data (mit (world e)) (data_index_ (enc_servo e)).

(** The response deadline passed: give up on the poll and back off. *)
Definition expire_poll (now : prof_time_t) : St EncWorld unit :=
  on_part (λ p,
    if poll_outstanding_ p && (now - poll_sent_at_ p >=? PASSIVE_ENCODER_RESPONSE_DEADLINE)
    then p <| poll_outstanding_ := false |> <| next_poll_allowed_at_ := now + PASSIVE_ENCODER_RETRY_BACKOFF |>
    else p).

(** Send a poll when none is outstanding and the time has come; the error of a
    failed send ends the caller. *)
Definition poll_if_due (now : prof_time_t) : St EncWorld ReturnCode :=
  p ← gets part;
  if negb (poll_outstanding_ p) && (now >=? next_poll_allowed_at_ p) then
    rc ← send_poll_frame;
    if negb (ok rc) then mret rc
    else
      on_part (λ p, p <| poll_sent_at_ := now |> <| poll_outstanding_ := true |>
                      <| next_poll_allowed_at_ := now + PASSIVE_ENCODER_POLL_INTERVAL |>);;
      mret SUCCESS
  else mret SUCCESS.

(** One iteration of the startup loop. *)
Definition startup_step : St EncWorld (option ReturnCode) :=
  now ← clock_now;
  data ← gets encoder_data;
  match data with
  | Some (_, _, _, update_count) =>
      if update_count >? 0 then
        on_part (λ p, p <| response_seen_ := true |> <| poll_outstanding_ := false |>
          <| last_response_at_ := now |>
          <| next_poll_allowed_at_ :=
               Z.max (next_poll_allowed_at_ p) (poll_sent_at_ p + PASSIVE_ENCODER_POLL_INTERVAL) |>);;
        mret (Some SUCCESS)
      else
        expire_poll now;; rc ← poll_if_due now; mret (if ok rc then None else Some rc)
  | None =>
      expire_poll now;; rc ← poll_if_due now; mret (if ok rc then None else Some rc)
  end.

(** Between two iterations the thread sleeps, and the reception thread may
    update the cache: [idle n] is what it does during the [n]-th sleep. *)
Fixpoint startup_loop (fuel : nat) (idle : nat → World → World) (deadline : Z) : St EncWorld ReturnCode :=
  match fuel with
  | O => mret NO_RESPONSE
  | S fuel =>
      t ← clock_now;
      if t <? deadline then
        o ← startup_step;
        match o with
        | Some rc => mret rc
        | None =>
            modify (λ e, e <| world := idle fuel (world e) |>);;
            startup_loop fuel idle deadline
        end
      else mret NO_RESPONSE
  end.

Definition enc_start_hardware (idle : nat → World → World) : St EncWorld ReturnCode :=
  if negb has_driver then mret NOT_INITIALIZED
  else
    on_part (λ p, p <| publish_joystick_enabled_ :=
                         bool_decide (role_ d = LEADER) && topic_joystick_set |>);;
    t ← clock_now;
    let startup_deadline := t + PASSIVE_ENCODER_START_TIMEOUT in
    t ← clock_now;
    on_part (λ p, p <| next_poll_allowed_at_ := t |>);;
    startup_loop poll_fuel idle startup_deadline.

Definition enc_verify_position_fresh : St EncWorld ReturnCode :=
  if negb has_driver then mret NOT_INITIALIZED
  else
    data ← gets encoder_data;
    mret match data with
         | Some (_, _, _, update_count) => if update_count =? 0 then FAIL else SUCCESS
         | None => FAIL
         end.

(** ** Reading *)

Definition button_bits (n digital_inputs : Z) : list Z :=
  map (λ i, Z.land (Z.shiftr digital_inputs (Z.of_nat i)) 0x01) (seq 0 (Z.to_nat n)).

Definition publish_buttons (digital_inputs : Z) : St EncWorld ReturnCode :=
  p ← gets part;
  if negb (publish_joystick_enabled_ p) then mret SUCCESS
  else mret (publish_joystick (button_bits (button_num_ p) digital_inputs)).

(** A fresh response ends the silence. *)
Definition on_fresh (now : prof_time_t) (p : EncoderPart) : EncoderPart :=
  let in_time := poll_outstanding_ p in
  let p := p <| response_seen_ := true |> <| poll_outstanding_ := false |> <| last_response_at_ := now |>
             <| silence_warned_ := false |> <| restart_sent_ := false |> in
  if in_time then p <| next_poll_allowed_at_ :=
      Z.max (next_poll_allowed_at_ p) (poll_sent_at_ p + PASSIVE_ENCODER_POLL_INTERVAL) |>
  else p.

(** The recovery ladder of a silent encoder; [Some] ends the read. *)
Definition on_silence (now : prof_time_t) : St EncWorld (option ReturnCode) :=
  expire_poll now;;
  p ← gets part;
  if negb (response_seen_ p) then mret None
  else
    let silence := now - last_response_at_ p in
    when_ (negb (silence_warned_ p) && (silence >=? PASSIVE_ENCODER_SILENCE_WARN))
      (on_part (λ p, p <| silence_warned_ := true |>));;
    when_ (negb (restart_sent_ p) && (silence >=? PASSIVE_ENCODER_RESTART_AT))
      (send_restart_frame;;
       on_part (λ p, p <| restart_sent_ := true |> <| poll_outstanding_ := false |>
                       <| next_poll_allowed_at_ := now + PASSIVE_ENCODER_RETRY_BACKOFF |>));;
    if silence >=? PASSIVE_ENCODER_FAILURE_AT then
      rc ← on_world (on_this d this (graceful SAFE_MODE_SIG)); mret (Some rc)
    else mret None.

Definition enc_read_hardware_values : St EncWorld ReturnCode :=
  if negb has_driver then mret NOT_INITIALIZED
  else
    update_servo save_previous;;
    data ← gets encoder_data;
    match data with
    | None => mret FAIL
    | Some (pos, vel, digital, update_count) =>
        update_servo (λ s, s <| curr_pos_abs_ := SFabs pos |> <| curr_vel_ := vel |> <| curr_tor_ := f0 |>);;
        now ← clock_now;
        p ← gets part;
        let fresh := negb (update_count =? last_update_count_ p) in
        on_part (λ p, p <| last_update_count_ := update_count |>);;
        stop ← (if fresh
                then on_part (on_fresh now);; on_world (on_this d this (exit_safe SAFE_MODE_SIG));; mret None
                else on_silence now);
        match stop with
        | Some rc => mret rc
        | None =>
            rc ← poll_if_due now;
            if negb (ok rc) then mret rc
            else if fresh then publish_buttons digital else mret SUCCESS
        end
    end.
End encoder.

(** ** Theorems *)

(** Sending puts the frame on the bus at most once and touches nothing else. *)
Lemma send_once env f w : wp (send env f) (λ rc w',
  (sent (bus w') = sent (bus w) ∨ sent (bus w') = f :: sent (bus w)) ∧
  servos w' = servos w ∧ registry w' = registry w ∧ mit w' = mit w ∧
  rc ≠ SAFE_MODE_SIG) w.
Proof.
  apply wp_lift_into. unfold send_frame, send_frame_buf. change (sizeof_can_frame =? sizeof_can_frame) with true.
  cbn [negb]. wp_step. wp_step. wp_step; [by wp_step; split_and!; [left|..]|]. wp_step.
  unfold wp at 1, syscall at 1. cbn [fst snd]. destruct (env_select env (io_count (bus w))) as [ret eintr].
  wp_step; [wp_step; split_and!; [by left|done..|by destruct eintr]|].
  wp_step; [by wp_step; split_and!; [left|..]|]. wp_step. unfold wp at 1, syscall at 1. cbn [fst snd].
  wp_step; [by wp_step; split_and!; [left|..]|]. wp_step. wp_step. wp_step. split_and!; try done. by right.
Qed.

Section silence.
Context (env : BusEnv) (d : Device) (this : ptr) (topic : bool) (publish : list Z → ReturnCode) (id : Z).
Local Abbreviation servo := (enc_servo d this).

Definition restart_frame : can_frame :=
  make_frame id 2 [PASSIVE_ENCODER_POLL_BYTE_0; PASSIVE_ENCODER_RESTART_BYTE_1].

(** The restarts sent so far, and those the current silence may still send. *)
Definition restarts (e : EncWorld) : nat :=
  length (filter (λ f, f = restart_frame) (sent (bus (world e)))).
Definition budget (e : EncWorld) : nat := restarts e + if restart_sent_ (part e) then 0 else 1.

(** What a silent read keeps, and that it never gains budget. *)
Definition silent_keeps (e e' : EncWorld) : Prop :=
  id_ (servo e) = id →
  mit (world e') = mit (world e) ∧ id_ (servo e') = id ∧ data_index_ (servo e') = data_index_ (servo e) ∧
  curr_pos_abs_ (servo e') = curr_pos_abs_ (servo e) ∧
  response_seen_ (part e') = response_seen_ (part e) ∧
  last_response_at_ (part e') = last_response_at_ (part e) ∧
  last_update_count_ (part e') = last_update_count_ (part e) ∧
  (budget e' ≤ budget e)%nat.

#[local] Instance silent_keeps_preorder : PreOrder silent_keeps.
Proof.
  split; [by intros e Hid; split_and!|]. intros e1 e2 e3 H12 H23 Hid.
  destruct (H12 Hid) as (A1 & A2 & A3 & A4 & A5 & A6 & A7 & A8).
  destruct (H23 A2) as (B1 & B2 & B3 & B4 & B5 & B6 & B7 & B8). split_and!; congruence || lia.
Qed.

Lemma silent_on_part f :
  (∀ p, response_seen_ (f p) = response_seen_ p ∧ last_response_at_ (f p) = last_response_at_ p ∧
        last_update_count_ (f p) = last_update_count_ p ∧
        (restart_sent_ p = true → restart_sent_ (f p) = true)) →
  steps silent_keeps (on_part f).
Proof.
  intros Hf. apply steps_modify. intros e Hid. destruct (Hf (part e)) as (F1 & F2 & F3 & F4).
  split_and!; try done. unfold budget, restarts. cbn.
  destruct (restart_sent_ (part e)); [by rewrite F4|destruct (restart_sent_ (f (part e))); lia].
Qed.

Lemma restarts_cons f l : f ≠ restart_frame →
  length (filter (λ g, g = restart_frame) (f :: l)) = length (filter (λ g, g = restart_frame) l).
Proof. intros H. by rewrite filter_cons_False. Qed.

Lemma poll_silent : steps silent_keeps (send_poll_frame env d this).
Proof.
  intros e Hid. unfold send_poll_frame, send_request, mbind, St_bind, gets, on_world, lift_into.
  rewrite Hid. set (f := make_frame id 2 _).
  destruct (send_once env f (world e)) as (Hs & S1 & S2 & S3 & _).
  destruct (send env f (world e)) as [rc w']. cbn [fst snd world part upd] in *.
  assert (enc_servo d this (mkEncWorld w' (part e)) = servo e) as E by (unfold enc_servo, this_servo; cbn; by rewrite S1).
  split_and!; cbn; rewrite ?E; try done. unfold budget, restarts. cbn.
  destruct Hs as [-> | ->]; [done|]. rewrite restarts_cons; [done|]. unfold f, restart_frame. injection. discriminate.
Qed.

Lemma restart_silent now e : restart_sent_ (part e) = false →
  silent_keeps e (snd ((send_restart_frame env d this;;
    on_part (λ p, p <| restart_sent_ := true |> <| poll_outstanding_ := false |>
                    <| next_poll_allowed_at_ := now + PASSIVE_ENCODER_RETRY_BACKOFF |>)) e)).
Proof.
  intros Hr Hid. unfold send_restart_frame, send_request, mbind, St_bind, gets, on_world, lift_into.
  rewrite Hid. fold restart_frame.
  destruct (send_once env restart_frame (world e)) as (Hs & S1 & S2 & S3 & _).
  destruct (send env restart_frame (world e)) as [rc w']. cbn [fst snd world part upd] in *.
  unfold on_part, modify. cbn [snd].
  match goal with |- context [id_ (servo ?x)] => assert (servo x = servo e) as E by
    (unfold enc_servo, this_servo; cbn; by rewrite S1) end.
  split_and!; rewrite ?E; try done. unfold budget, restarts. cbn. rewrite Hr.
  destruct Hs as [-> | ->]; [lia|]. rewrite filter_cons_True by done. cbn. lia.
Qed.

Lemma expire_silent now : steps silent_keeps (expire_poll now).
Proof. apply silent_on_part. intros p. by destruct (poll_outstanding_ p && _). Qed.

Lemma poll_if_due_silent now : steps silent_keeps (poll_if_due env d this now).
Proof.
  unfold poll_if_due. apply steps_bind; [exact _|apply steps_gets; exact _|]. intros p.
  destruct (negb _ && _); [|apply steps_ret; exact _].
  apply steps_bind; [exact _|apply poll_silent|]. intros rc. destruct (negb (ok rc)); [apply steps_ret; exact _|].
  apply steps_bind; [exact _|by apply silent_on_part|]. intros _. apply steps_ret; exact _.
Qed.

Lemma poll_if_due_code now e : fst (poll_if_due env d this now e) ≠ SAFE_MODE_SIG.
Proof.
  unfold poll_if_due, send_poll_frame, send_request, mbind, St_bind, gets, on_world, lift_into.
  destruct (negb _ && _); [|done].
  match goal with |- context [send env ?f ?w] => destruct (send_once env f w) as (_ & _ & _ & _ & Hrc);
    destruct (send env f w) as [rc w'] end.
  cbn in Hrc. by destruct (ok rc); cbn.
Qed.

Lemma graceful_silent : steps silent_keeps (on_world (on_this d this (graceful SAFE_MODE_SIG))).
Proof.
  intros e Hid. unfold on_world, on_this, lift_into.
  change (this_servo d this (world e)) with (servo e).
  destruct (graceful SAFE_MODE_SIG (servo e)) as [rc s'] eqn:Eg. cbn [fst snd].
  assert (s' = (servo e) <| safe_mode_ := safe_mode_ s' |>) as Es.
  { pose proof (wp_graceful SAFE_MODE_SIG (λ _ s', s' = (servo e) <| safe_mode_ := safe_mode_ s' |>) (servo e)
      ltac:(done)) as H. unfold wp in H. by rewrite Eg in H. }
  assert (servo (e <| world := set_this this s' (world e) |>) = s') as E by apply this_set.
  rewrite E, Es. by split_and!.
Qed.

Definition silence_fatal (now : prof_time_t) (p : EncoderPart) : bool :=
  response_seen_ p && (now - last_response_at_ p >=? PASSIVE_ENCODER_FAILURE_AT).

Lemma on_silence_spec now e : id_ (servo e) = id →
  wp (on_silence env d this now) (λ o e', silent_keeps e e' ∧
    o = if silence_fatal now (part e) then Some SAFE_MODE_SIG else None) e.
Proof.
  intros Hid. unfold on_silence, silence_fatal. wp_step. eapply wp_mono; [apply (steps_wp _ _ _ (expire_silent now))|].
  intros [] e1 K1. pose proof (K1 Hid) as (_ & Hid1 & _ & _ & Es & El & _). wp_step. wp_step. cbv beta.
  rewrite <- Es, <- El. destruct (response_seen_ (part e1)) eqn:Eseen; cbn [negb andb]; [|by wp_step].
  set (silence := now - last_response_at_ (part e1)).
  assert (∀ e2, silent_keeps e1 e2 → restart_sent_ (part e2) = restart_sent_ (part e1) →
    wp (when_ (negb (restart_sent_ (part e1)) && (silence >=? PASSIVE_ENCODER_RESTART_AT))
          (send_restart_frame env d this;;
           on_part (λ p, p <| restart_sent_ := true |> <| poll_outstanding_ := false |>
                           <| next_poll_allowed_at_ := now + PASSIVE_ENCODER_RETRY_BACKOFF |>));;
        if silence >=? PASSIVE_ENCODER_FAILURE_AT
        then rc ← on_world (on_this d this (graceful SAFE_MODE_SIG)); mret (Some rc) else mret None)
      (λ o e', silent_keeps e e' ∧
         o = if silence >=? PASSIVE_ENCODER_FAILURE_AT then Some SAFE_MODE_SIG else None) e2) as Hrest.
  { intros e2 K2 Er. wp_step. apply (wp_mono _ (λ _ e3, silent_keeps e2 e3)).
    { apply wp_when; intros Hb; [|reflexivity]. apply restart_silent. rewrite Er.
      apply andb_true_iff in Hb as [Hb%negb_true_iff _]. exact Hb. }
    intros [] e3 K3. assert (silent_keeps e e3) as K03 by (etrans; [exact K1|]; by etrans).
    destruct (silence >=? PASSIVE_ENCODER_FAILURE_AT); [|by wp_step].
    wp_step. eapply wp_mono.
    { apply (wp_and _ (λ _ e4, silent_keeps e3 e4) (λ rc _, rc = SAFE_MODE_SIG)); [apply graceful_silent|].
      unfold on_world, on_this. apply wp_lift_into, wp_lift_into. apply graceful_sig_result. }
    intros rc e4 [K4 ->]. wp_step. split; [by etrans|done]. }
  wp_step. apply wp_when; intros Hw; [|by apply Hrest].
  unfold on_part at 1. wp_step. apply Hrest; [|done].
  by apply (silent_on_part (λ p, p <| silence_warned_ := true |>)).
Qed.

(** The slot has the count the encoder saw at its last read. *)
Definition silent (e : EncWorld) : Prop :=
  ∃ pos vel digital, encoder_data d this e = Some (pos, vel, digital, last_update_count_ (part e)).

(** The position the slot holds, as a displacement. *)
Definition cached_displacement (e : EncWorld) : f32 :=
  match encoder_data d this e with Some (pos, _, _, _) => SFabs pos | None => f0 end.

(** What one read of a silent encoder does. *)
Definition silent_read (e : EncWorld) (rc : ReturnCode) (e' : EncWorld) : Prop :=
  let now := env_clock env (clock_count (bus (world e))) in
  (rc = SAFE_MODE_SIG ↔ silence_fatal now (part e) = true) ∧
  curr_pos_abs_ (servo e') = cached_displacement e ∧
  encoder_data d this e' = encoder_data d this e ∧ id_ (servo e') = id ∧
  response_seen_ (part e') = response_seen_ (part e) ∧
  last_response_at_ (part e') = last_response_at_ (part e) ∧
  last_update_count_ (part e') = last_update_count_ (part e) ∧
  (budget e' ≤ budget e)%nat.

(** An update of the servo that keeps its slot and its id. *)
Lemma update_servo_spec f e : (∀ s, data_index_ (f s) = data_index_ s ∧ id_ (f s) = id_ s) →
  wp (update_servo d this f) (λ _ e', servo e' = f (servo e) ∧ mit (world e') = mit (world e) ∧
    bus (world e') = bus (world e) ∧ part e' = part e ∧
    encoder_data d this e' = encoder_data d this e) e.
Proof.
  intros Hf. unfold update_servo, on_world, update_this. wp_step. wp_step. unfold enc_servo, encoder_data.
  cbn [world part upd]. rewrite this_set. split_and!; try done.
  unfold enc_servo. cbn [world upd]. by rewrite this_set, (proj1 (Hf _)).
Qed.

Lemma silent_read_spec e : silent e → id_ (servo e) = id →
  wp (enc_read_hardware_values env d true this publish) (silent_read e) e.
Proof.
  intros (pos & vel & digital & Ed) Hid. unfold enc_read_hardware_values. cbn [negb]. cbv iota.
  wp_step. eapply wp_mono; [by apply update_servo_spec|]. intros _ e1 (S1 & M1 & B1 & P1 & D1).
  wp_step. wp_step. cbv beta. rewrite D1, Ed.
  wp_step. eapply wp_mono; [by apply update_servo_spec|]. intros _ e2 (S2 & M2 & B2 & P2 & D2).
  wp_step. unfold clock_now, on_world at 1. wp_step. unfold now, on_bus. wp_step. unfold get_time_now, wp at 1.
  cbn [fst snd]. rewrite B2, B1. set (t := env_clock env (clock_count (bus (world e)))).
  set (e3 := e2 <| world := _ |>).
  assert (servo e3 = servo e2 ∧ mit (world e3) = mit (world e) ∧ sent (bus (world e3)) = sent (bus (world e)) ∧
    part e3 = part e ∧ encoder_data d this e3 = encoder_data d this e) as (S3 & M3 & B3 & P3 & D3).
  { subst e3. split_and!; cbn; try congruence.
    - by rewrite <- B1, <- B2.
    - transitivity (encoder_data d this e2); [done|congruence]. }
  clearbody e3. wp_step. wp_step. cbv beta. rewrite P3, Z.eqb_refl. cbn [negb]. cbv iota zeta.
  wp_step. unfold on_part at 1. wp_step. set (e4 := e3 <| part := _ |>).
  assert (part e4 = part e) as P4 by (subst e4; cbn; rewrite P3; by destruct (part e)).
  assert (servo e4 = servo e3 ∧ world e4 = world e3) as [S4 W4] by done.
  clearbody e4. wp_step. eapply wp_mono; [apply on_silence_spec|].
  { rewrite S4, S3, S2, S1. exact Hid. }
  rewrite P4. intros o e5 [K5 ->].
  assert (∀ rc e6, silent_keeps e5 e6 → (rc = SAFE_MODE_SIG ↔ silence_fatal t (part e) = true) →
    silent_read e rc e6) as Hfin.
  { intros rc e6 K6 Hrc. assert (silent_keeps e4 e6) as K by by etrans.
    destruct K as (A1 & A2 & A3 & A4 & A5 & A6 & A7 & A8); [by rewrite S4, S3, S2, S1|].
    assert (encoder_data d this e6 = encoder_data d this e) as D6.
    { rewrite <- D3. unfold encoder_data. rewrite A1, A3, W4, S4. done. }
    unfold silent_read. fold t. split; [exact Hrc|]. rewrite P4 in A5, A6, A7. split_and!; try done.
    - unfold cached_displacement. rewrite A4, S4, S3, S2, Ed. done.
    - revert A8. unfold budget, restarts. rewrite W4, B3, P4. done. }
  destruct (silence_fatal t (part e)) eqn:Ef.
  { wp_step. by apply Hfin. }
  wp_step. apply (wp_mono _ (λ rc e6, silent_keeps e5 e6 ∧ rc ≠ SAFE_MODE_SIG)).
  { apply wp_and; [apply (steps_wp _ _ _ (poll_if_due_silent t))|apply poll_if_due_code]. }
  intros rc e6 [K6 Hrc]. apply wp_if; intros _; wp_step; by apply Hfin.
Qed.

(** Consecutive reads; between two of them the rest of the program may do
    anything that leaves the encoder itself, its slot's count and the frames sent
    alone. *)
Record pause := mkPause {
  run_pause : EncWorld → EncWorld;
  pause_part : ∀ e, part (run_pause e) = part e;
  pause_sent : ∀ e, sent (bus (world (run_pause e))) = sent (bus (world e));
  pause_id : ∀ e, id_ (servo (run_pause e)) = id_ (servo e);
  pause_silent : ∀ e, silent e → silent (run_pause e);
}.

Definition silent_step (e : EncWorld) (p : pause) : EncWorld :=
  snd (enc_read_hardware_values env d true this publish (run_pause p e)).

Lemma silent_steps_budget ps : ∀ e, silent e → id_ (servo e) = id →
  let e' := foldl silent_step e ps in
  silent e' ∧ (budget e' ≤ budget e)%nat ∧ response_seen_ (part e') = response_seen_ (part e) ∧
  last_response_at_ (part e') = last_response_at_ (part e).
Proof.
  induction ps as [|p ps IH]; intros e He Hid; [by split_and!|]. cbn [foldl].
  pose proof (pause_silent p e He) as Hs. pose proof (pause_id p e) as Hpid. rewrite Hid in Hpid.
  pose proof (silent_read_spec (run_pause p e) Hs Hpid) as (_ & _ & D1 & I1 & R1 & L1 & C1 & B1).
  fold (silent_step e p) in D1, I1, R1, L1, C1, B1.
  destruct (IH (silent_step e p)) as (S2 & B2 & R2 & L2); [|done|].
  { destruct Hs as (pos & vel & dg & Ed). exists pos, vel, dg. by rewrite D1, Ed, C1. }
  split_and!; [done| |by rewrite R2, R1, pause_part|by rewrite L2, L1, pause_part].
  unfold budget, restarts in *. rewrite pause_part, pause_sent in B1. lia.
Qed.

(** [C40] A silent trigger encoder is restarted once and stops the arm in time.
    Over any run of reads without a fresh response: at most one restart frame is
    sent, and none once one was sent in this silence; the next read answers
    SAFE_MODE_SIG exactly when the encoder has answered before and the last
    response is at least 20 s old, and until then keeps the trigger at the
    displacement of the last response. *)
Theorem silent_encoder_ladder ps e : silent e → id_ (servo e) = id →
  let e' := foldl silent_step e ps in
  let read := enc_read_hardware_values env d true this publish e' in
  let now := env_clock env (clock_count (bus (world e'))) in
  (restarts e' ≤ restarts e + if restart_sent_ (part e) then 0 else 1)%nat ∧
  (fst read = SAFE_MODE_SIG ↔
     response_seen_ (part e) = true ∧ 20000000000 ≤ now - last_response_at_ (part e)) ∧
  curr_pos_abs_ (servo (snd read)) = cached_displacement e'.
Proof.
  intros He Hid. destruct (silent_steps_budget ps e He Hid) as (S & B & R & L). cbv zeta.
  set (e' := foldl silent_step e ps) in *.
  assert (id_ (servo e') = id) as Hid'.
  { subst e'. clear S B R L. revert e He Hid. induction ps as [|p ps IH]; intros e He Hid; [done|].
    cbn [foldl]. pose proof (pause_silent p e He) as Hs. pose proof (pause_id p e) as Hpid. rewrite Hid in Hpid.
    pose proof (silent_read_spec (run_pause p e) Hs Hpid) as (_ & _ & D1 & I1 & _ & _ & C1 & _).
    apply IH; [|done]. destruct Hs as (pos & vel & dg & Ed). exists pos, vel, dg.
    unfold silent_step. by rewrite D1, Ed, C1. }
  destruct (silent_read_spec e' S Hid') as (Hsig & Hpos & _).
  split_and!; [|etrans; [exact Hsig|]|exact Hpos].
  - unfold budget in B. destruct (restart_sent_ (part e')); lia.
  - unfold silence_fatal. rewrite R, L, andb_true_iff, Z.geb_le. done.
Qed.
End silence.

(** An encoder that answered once, at second one, on a clock that gains a second at
    every reading; nothing happens between its reads. *)
Definition no_pause (d : Device) (this : ptr) : pause d this :=
  mkPause d this (λ e, e) (λ e, eq_refl) (λ e, eq_refl) (λ e, eq_refl) (λ e H, H).
Definition encoder_example : EncWorld :=
  mkEncWorld
    (mkWorld (new_Bus <| sock_ := 3 |>) example_registry
       {[ 1%positive := (new_Servo follower_arm None) <| id_ := 0x50 |> <| type_ := CAN_PASSIVE_ENCODER |> ]}
       (new_MitDriver <| received_servo_data_ := set_slot 0
          (new_ReceivedServoData <| update_count_ := 1 |> <| angle_actual_rad_ := f32_of_Z (-1) |>) new_slots |>))
    (new_EncoderPart <| response_seen_ := true |> <| last_update_count_ := 1 |>
       <| last_response_at_ := 1000000000 |>).
Definition slow_clock : BusEnv :=
  mkBusEnv (λ n, 1000000000 * (1 + Z.of_nat n)) (λ _, 3) (λ _, 0) (λ _, 0) (λ _, (1, false)) (λ _, 16)
    (λ _, (16, false, zero_frame)).

Lemma silent_encoder_ladder_witness :
  let d := follower_arm in let this := 1%positive in let e := encoder_example in
  let e' := foldl (silent_step slow_clock d this (λ _, SUCCESS)) e (repeat (no_pause d this) 20) in
  let read := enc_read_hardware_values slow_clock d true this (λ _, SUCCESS) e' in
  let now := env_clock slow_clock (clock_count (bus (world e'))) in
  (restarts 0x50 e' = 1%nat ∧ fst read = SAFE_MODE_SIG) ∧
  (restarts 0x50 e' ≤ restarts 0x50 e + if restart_sent_ (part e) then 0 else 1)%nat ∧
  (fst read = SAFE_MODE_SIG ↔
     response_seen_ (part e) = true ∧ 20000000000 ≤ now - last_response_at_ (part e)) ∧
  curr_pos_abs_ (enc_servo d this (snd read)) = cached_displacement d this e'.
Proof.
  intros d this e. split; [split; vm_compute; reflexivity|].
  apply (silent_encoder_ladder slow_clock d this (λ _, SUCCESS) 0x50 (repeat (no_pause d this) 20) e).
  - exists (f32_of_Z (-1)), f0, 0. vm_compute. reflexivity.
  - vm_compute. reflexivity.
Defined.
