(* ===== verification/SerialPort.v ===== *)
(** * The raw serial port (src/pi_driver_serial.cpp, include/pi_driver_serial.hpp)

    The operating system, the line and whatever hangs on it are a state [P] with the
    operations of [Tty]; [TtyLaws] says what POSIX promises of a read and a write.
    The kernel's latency tuning (sysfs, [TIOCSSERIAL]) touches nothing the program
    sees and is left out; [tty_tcsetattr] stands for the raw 8N1 setting of the code.
    [io_fuel] bounds the loops that the code leaves to the kernel; [settles] says that
    it does not matter. *)

From S2P Require Import Prelude.
From S2P Require Import Control.

(** ** The line *)

(** [errno] as the code tells it apart; [EWOULDBLOCK] is [EAGAIN]. *)
Inductive IoError := EINTR | EAGAIN | IO_FATAL.
#[export] Instance IoError_eq_dec : EqDecision IoError.
Proof. solve_decision. Defined.

Class Tty (P : Type) := {
  tty_now : St P Z;                              (* steady_clock::now(), nanoseconds *)
  tty_sleep : Z → St P unit;                     (* nanoseconds *)
  tty_open : string → St P Z;                    (* a descriptor, or below 0 *)
  tty_tcgetattr : Z → St P bool;
  tty_tcsetattr : Z → Z → St P bool;             (* descriptor, speed_t *)
  tty_get_modem_bits : Z → St P bool;            (* TIOCMGET *)
  tty_set_dtr_rts : Z → St P bool;               (* TIOCMSET *)
  tty_flush : Z → St P unit;                     (* tcflush of the input *)
  tty_close : Z → St P unit;
  tty_read : Z → nat → St P (IoError + list Z);
  tty_write : Z → list Z → St P (IoError + nat);
  tty_poll : Z → Z → St P unit;                  (* POLLIN, milliseconds *)
}.
#[export] Hint Mode Tty ! : typeclass_instances.

(** At most as many bytes as were asked for, and bytes they are. *)
Class TtyLaws (P : Type) `{Tty P} : Prop := {
  tty_read_bytes : ∀ fd n (p : P),
    match fst (tty_read (P:=P) fd n p) with inr l => (length l ≤ n)%nat ∧ Forall is_byte l | inl _ => True end;
  tty_write_count : ∀ fd l (p : P),
    match fst (tty_write (P:=P) fd l p) with inr k => (k ≤ length l)%nat | inl _ => True end;
}.

(** ** State *)

Record Serial (P : Type) := mkSerial {
  control_port_name_ : string;
  port_handler_ : Z;
  serial_is_running_ : bool;
  serial_joinable : bool;           (* reception_thread_.joinable() *)
  tty : P;
}.
Arguments mkSerial {P}.
Arguments control_port_name_ {P}.
Arguments port_handler_ {P}.
Arguments serial_is_running_ {P}.
Arguments serial_joinable {P}.
Arguments tty {P}.
#[export] Instance eta_Serial P : Eta (Serial P) := λ r, mkSerial
  (control_port_name_ r) (port_handler_ r) (serial_is_running_ r) (serial_joinable r) (tty r).

Definition new_Serial {P} (port_name : string) (p : P) : Serial P := mkSerial port_name (-1) false false p.

(** The [B*] constants of Linux; 0 for a rate it does not have. *)
Definition baud_constant (baud_rate : Z) : Z :=
  match list_find (λ '(rate, _), rate = baud_rate)
    [(9600, 13); (19200, 14); (38400, 15); (57600, 4097); (115200, 4098); (230400, 4099);
     (460800, 4100); (500000, 4101); (576000, 4102); (921600, 4103); (1000000, 4104)] with
  | Some (_, (_, speed)) => speed
  | None => 0
  end.

Section serial.
Context {P : Type} `{Tty P} (io_fuel : nat).
Local Abbreviation S := (Serial P).

Definition on_tty {A} (m : St P A) : St S A := lift_into tty (λ p s, s <| tty := p |>) m.

(** The thread ends its loop before it is joined. *)
Definition stop_reception : St S ReturnCode :=
  modify (λ s, s <| serial_is_running_ := false |>);;
  modify (λ s, if serial_joinable s then s <| serial_joinable := false |> else s);;
  mret SUCCESS.

Definition close_fd (fd : Z) (rc : ReturnCode) : St S ReturnCode := on_tty (tty_close fd);; mret rc.

Definition serial_open (baud_rate : Z) : St S ReturnCode :=
  s ← get_state;
  let speed := baud_constant baud_rate in
  if 0 <=? port_handler_ s then mret SUCCESS
  else if String.eqb (control_port_name_ s) "" then mret INVALID_PARAM
  else if speed =? 0 then mret NOT_SUPPORTED
  else
    fd ← on_tty (tty_open (control_port_name_ s));
    if fd <? 0 then mret FAIL
    else
      attr ← on_tty (tty_tcgetattr fd);
      if negb attr then close_fd fd FAIL
      else
        set ← on_tty (tty_tcsetattr fd speed);
        if negb set then close_fd fd FAIL
        else
          bits ← on_tty (tty_get_modem_bits fd);
          when_ bits
            (asserted ← on_tty (tty_set_dtr_rts fd);
             when_ asserted (on_tty (tty_sleep (milliseconds 200))));;
          on_tty (tty_flush fd);;
          modify (λ s, s <| port_handler_ := fd |>);;
          mret SUCCESS.

Definition serial_close : St S ReturnCode :=
  stop_reception;;
  s ← get_state;
  when_ (0 <=? port_handler_ s)
    (on_tty (tty_close (port_handler_ s));; modify (λ s, s <| port_handler_ := -1 |>));;
  mret SUCCESS.

(** [bytes] are what is left to write. *)
Fixpoint write_loop (fuel : nat) (fd : Z) (bytes : list Z) : St S ReturnCode :=
  match bytes, fuel with
  | [], _ => mret SUCCESS
  | _, O => mret FAIL
  | _, Datatypes.S fuel =>
      n ← on_tty (tty_write fd bytes);
      match n with
      | inl EINTR => write_loop fuel fd bytes
      | inl EAGAIN => on_tty (tty_sleep (milliseconds 1));; write_loop fuel fd bytes
      | inl IO_FATAL => mret FAIL
      | inr n => write_loop fuel fd (drop n bytes)
      end
  end.

(** [None] is a null pointer. *)
Definition write_bytes (p_data : option (list Z)) : St S ReturnCode :=
  s ← get_state;
  if port_handler_ s <? 0 then mret NOT_INITIALIZED
  else
    match p_data with
    | None | Some [] => mret INVALID_PARAM
    | Some bytes => write_loop io_fuel (port_handler_ s) bytes
    end.

(** A C string ends before its first NUL. *)
Fixpoint c_string (l : list Z) : list Z :=
  match l with
  | [] => []
  | b :: l => if b =? 0 then [] else b :: c_string l
  end.

Definition write_text (text : option (list Z)) : St S ReturnCode :=
  match text with
  | None => mret INVALID_PARAM
  | Some text => write_bytes (Some (c_string text))
  end.

Definition start_reception (callback : bool) : St S ReturnCode :=
  stop_reception;;
  s ← get_state;
  if port_handler_ s <? 0 then mret NOT_INITIALIZED
  else if negb callback then mret INVALID_PARAM
  else
    modify (λ s, s <| serial_is_running_ := true |> <| serial_joinable := true |>);;
    mret SUCCESS.

(** The reception thread, for at most [rounds] rounds; [callback] runs on the whole
    state and may stop the reception. *)
Fixpoint receive_loop (rounds : nat) (callback : list Z → St S unit) : St S unit :=
  match rounds with
  | O => mret tt
  | Datatypes.S rounds =>
      s ← get_state;
      if negb (serial_is_running_ s) || (port_handler_ s <? 0) then mret tt
      else
        n ← on_tty (tty_read (port_handler_ s) 256);
        match n with
        | inr ((_ :: _) as buffer) => callback buffer;; receive_loop rounds callback
        | inl IO_FATAL => mret tt
        | _ => on_tty (tty_sleep (milliseconds 2));; receive_loop rounds callback
        end
  end.
End serial.
