(* ===== verification/DriverFt.v ===== *)
(** * The FeeTech driver (src/pi_driver_ft.cpp, include/pi_driver_ft.hpp)

    Packets on a half-duplex serial bus: instructions out, status packets in, one bulk
    read and up to two bulk writes per control cycle, and a sticky set of servos that
    went silent.  [ServoFt] is the servo object with what the driver reads and writes
    of it (include/pi_servo_ft.hpp).  [io_fuel] is as in [SerialPort];
    [undefined_cast] supplies the integer of a cast that C++ leaves undefined. *)

From S2P Require Import Prelude.
From S2P Require Import FloatSpec.
From S2P Require Import Control.
From S2P Require Import CanBus.
From S2P Require Import Servo.
From S2P Require Import SerialPort.

(** ** Protocol *)

Definition kFtHeaderByte : Z := 0xFF.
Definition kFtBroadcastId : Z := 0xFE.
Definition kFtInstPing : Z := 0x01.
Definition kFtInstRead : Z := 0x02.
Definition kFtInstWrite : Z := 0x03.
Definition kFtInstSyncRead : Z := 0x82.
Definition kFtInstSyncWrite : Z := 0x83.
Definition kFtAddrPositionPGain : Z := 21.
Definition kFtAddrPositionDGain : Z := 22.
Definition kFtAddrPositionIGain : Z := 23.
Definition kFtAddrOperatingMode : Z := 33.
Definition kFtAddrTorqueEnable : Z := 40.
Definition kFtAddrAcceleration : Z := 41.
Definition kFtAddrGoalPosition : Z := 42.
Definition kFtAddrTorqueLimit : Z := 48.
Definition kFtAddrLockFlag : Z := 55.
Definition kFtAddrPresentPosition : Z := 56.
Definition kFtFeedbackLength : nat := 10.
Definition kFtSramStartAddr : Z := 40.
Definition kFtLockFlagLocked : Z := 1.
Definition kFtLockFlagUnlocked : Z := 0.
Definition kFtVelocitySignBit : Z := 15.
Definition kFtLoadSignBit : Z := 10.
Definition kFtResponseTimeoutMs : Z := 40.
Definition kFtSingleRegMaxAttempts : nat := 3.
Definition kFtInstructionOverhead : nat := 6.
Definition kFtTxBufCapacity : nat := 64.
Definition kFtMaxInstructionParams : nat := kFtTxBufCapacity - kFtInstructionOverhead.
Definition kFtMaxStatusParams : nat := 32.
Definition kFtGoalPositionMin : Z := 0.
Definition kFtGoalPositionMax : Z := 4095.
Definition kFtTorqueLimitMin : Z := 0.
Definition kFtTorqueLimitMax : Z := 1000.

(** The sum is an [unsigned int]. *)
Definition ft_checksum (bytes : list Z) : Z := Z.land (Z.lnot (u32 (foldr Z.add 0 bytes))) 0xFF.

Definition decode_sign_magnitude (value sign_bit : Z) : Z :=
  let sign_mask := Z.shiftl 1 sign_bit in
  if negb (Z.land value sign_mask =? 0) then - Z.land value (sign_mask - 1) else value.

Definition encode_sign_magnitude (value sign_bit : Z) : Z :=
  if value <? 0 then Z.lor (u32 (- value)) (Z.shiftl 1 sign_bit) else u32 value.

(** FF FF ID LEN INST params CHK *)
Definition instruction_packet (id instruction : Z) (params : list Z) : list Z :=
  let body := id :: u8 (Z.of_nat (length params) + 2) :: instruction :: params in
  kFtHeaderByte :: kFtHeaderByte :: body ++ [ft_checksum body].

(** A 16-bit register, low byte first. *)
Definition u16_of (lo hi : Z) : Z := Z.lor lo (Z.shiftl hi 8).
Definition lo_byte (value : Z) : Z := u8 (Z.land value 0xFF).
Definition hi_byte (value : Z) : Z := u8 (Z.land (Z.shiftr value 8) 0xFF).
Definition value_bytes (length value : Z) : list Z :=
  if length =? 2 then [lo_byte value; hi_byte value] else [lo_byte value].

(** The payload of a SYNC WRITE. *)
Definition sync_write_params (address data_length : Z) (entries : list (Z * Z)) : list Z :=
  address :: data_length ::
  concat (map (λ '(id, value), u8 id :: value_bytes data_length value) entries).

Definition clamp_Z (lo hi x : Z) : Z :=
  let x := if x <? lo then lo else x in if hi <? x then hi else x.

(** ** The servo object *)

Record ServoFt := mkServoFt {
  ft_servo : Servo;                (* the base class *)
  curr_pos_steps_ : Z;
  servo_resolution_ : Z;
  center_offset_ : Z;
  prof_accel_ : Z;
}.
#[export] Instance eta_ServoFt : Eta ServoFt := λ r, mkServoFt
  (ft_servo r) (curr_pos_steps_ r) (servo_resolution_ r) (center_offset_ r) (prof_accel_ r).

Definition new_ServoFt (s : Servo) : ServoFt := mkServoFt s 0 0 0 0.

Definition M_PI : f64 := S754_finite false 7074237752028440 (-51).
Definition two_pi : f64 := (f64_of_Z 2 * M_PI)%f64.

Definition get_vel_rad_sec (s : ServoFt) (servo_value : Z) : f32 := (f32_of_Z servo_value * kv_ (ft_servo s))%f32.
Definition get_tor_nm (s : ServoFt) (servo_value : Z) : f32 := (f32_of_Z servo_value * kt_ (ft_servo s))%f32.

Definition steps_to_rad (s : ServoFt) (steps : Z) : f32 :=
  to_f32 (f64_of_Z (steps - center_offset_ s) * two_pi / to_f64 (f32_of_Z (servo_resolution_ s)))%f64.

(** [None] when the result is no [int32_t]. *)
Definition rad_to_steps (s : ServoFt) (rad_value : f32) : option Z :=
  int_of_float (to_f64 rad_value * (to_f64 (f32_of_Z (servo_resolution_ s)) / two_pi)
                + f64_of_Z (center_offset_ s))%f64.

(** ** State *)

Record FtDriver := mkFtDriver {
  servo_num_total_ : Z;
  sync_read_ids_ : list Z;
  all_servo_ids_ : list Z;
  dead_servo_ids_ : gset Z;
  last_failed_servo_id_ : Z;
  pres_pos_ : list Z;
  pres_vel_ : list Z;
  pres_load_ : list Z;
  pres_temp_ : list Z;
  pres_status_ : list Z;
  pending_goal_position_ : list (Z * Z);
  pending_torque_limit_ : list (Z * Z);
}.
#[export] Instance eta_FtDriver : Eta FtDriver := λ r, mkFtDriver
  (servo_num_total_ r) (sync_read_ids_ r) (all_servo_ids_ r) (dead_servo_ids_ r)
  (last_failed_servo_id_ r) (pres_pos_ r) (pres_vel_ r) (pres_load_ r) (pres_temp_ r)
  (pres_status_ r) (pending_goal_position_ r) (pending_torque_limit_ r).

Definition new_FtDriver : FtDriver := mkFtDriver 0 [] [] ∅ (-1) [] [] [] [] [] [] [].

Record FtWorld (P : Type) := mkFtWorld {
  ft_servos : gmap ptr ServoFt;
  ft_registry : Registry;
  ft : FtDriver;
  serial : Serial P;
}.
Arguments mkFtWorld {P}.
Arguments ft_servos {P}.
Arguments ft_registry {P}.
Arguments ft {P}.
Arguments serial {P}.
#[export] Instance eta_FtWorld P : Eta (FtWorld P) := λ r, mkFtWorld
  (ft_servos r) (ft_registry r) (ft r) (serial r).

(** ** Transactions *)

Section driver.
Context {P : Type} `{Tty P} (io_fuel : nat) (undefined_cast : spec_float → Z) (p_device_ : option Device).
Local Abbreviation W := (FtWorld P).

Definition on_serial {A} (m : St (Serial P) A) : St W A := lift_into serial (λ s w, w <| serial := s |>) m.
Definition on_line {A} (m : St P A) : St W A := on_serial (on_tty m).
Definition on_ft (f : FtDriver → FtDriver) : St W unit := modify (λ w, w <| ft := f (ft w) |>).
Definition fd_of (w : W) : Z := port_handler_ (serial w).

Definition flush_input : St W unit :=
  w ← get_state; when_ (0 <=? fd_of w) (on_line (tty_flush (fd_of w))).

(** [received] grows until it has [length] bytes or the deadline is over. *)
Fixpoint read_loop (fuel : nat) (fd : Z) (length : nat) (deadline : Z) (received : list Z) : St W (list Z) :=
  match fuel with
  | O => mret received
  | S fuel =>
      if (length <=? List.length received)%nat then mret received
      else
        n ← on_line (tty_read fd (length - List.length received));
        match n with
        | inr ((_ :: _) as bytes) => read_loop fuel fd length deadline (received ++ bytes)
        | inl IO_FATAL => mret received
        | _ =>
            now ← on_line tty_now;
            if deadline <=? now then mret received
            else
              let remain_ms := (deadline - now) `quot` 1000000 in
              on_line (tty_poll fd (if 0 <? remain_ms then remain_ms else 1));;
              read_loop fuel fd length deadline received
        end
  end.

Definition read_exact (length : nat) (deadline_ms : Z) : St W (list Z) :=
  w ← get_state;
  if (fd_of w <? 0) || (length =? 0)%nat then mret []
  else
    now ← on_line tty_now;
    read_loop io_fuel (fd_of w) length (now + milliseconds deadline_ms) [].

Definition send_instruction (id instruction : Z) (params : list Z) : St W ReturnCode :=
  if (kFtMaxInstructionParams <? length params)%nat then mret INVALID_PARAM
  else on_serial (write_bytes io_fuel (Some (instruction_packet id instruction params))).

Definition remaining_ms (deadline : Z) : St W Z :=
  now ← on_line tty_now;
  mret (if deadline <=? now then 0 else (deadline - now) `quot` 1000000).

(** The first byte other than FF after two or more FF is the id; [None] is a timeout. *)
Fixpoint wait_for_header (fuel : nat) (deadline header_ff_count : Z) : St W (option Z) :=
  match fuel with
  | O => mret None
  | S fuel =>
      remain ← remaining_ms deadline;
      if remain <=? 0 then mret None
      else
        bytes ← read_exact 1 remain;
        match bytes with
        | [byte] =>
            if byte =? kFtHeaderByte then wait_for_header fuel deadline (header_ff_count + 1)
            else if 2 <=? header_ff_count then mret (Some byte)
            else wait_for_header fuel deadline 0
        | _ => mret None
        end
  end.

(** [read_exact] into a buffer of a fixed size. *)
Definition read_all (length : nat) (deadline : Z) : St W (option (list Z)) :=
  remain ← remaining_ms deadline;
  bytes ← read_exact length remain;
  mret (if (List.length bytes =? length)%nat then Some bytes else None).

Definition reject (rc : ReturnCode) : St W (ReturnCode * Z * list Z) := flush_input;; mret (rc, -1, []).

(** The id of the packet and its parameters are meaningful on [SUCCESS]. *)
Definition receive_status (expected_id : Z) (param_length : nat) (timeout_ms : Z)
    : St W (ReturnCode * Z * list Z) :=
  if (kFtMaxStatusParams <? param_length)%nat then mret (INVALID_PARAM, -1, [])
  else
    now ← on_line tty_now;
    let deadline := now + milliseconds timeout_ms in
    header ← wait_for_header io_fuel deadline 0;
    match header with
    | None => mret (NO_RESPONSE, -1, [])
    | Some packet_id =>
        length_error ← read_all 2 deadline;
        match length_error with
        | Some [packet_length; error_byte] =>
            if negb (packet_length =? Z.of_nat param_length + 2) then reject FAIL
            else
              body ← read_all (param_length + 1) deadline;
              match body with
              | None => mret (NO_RESPONSE, -1, [])
              | Some body =>
                  let params := take param_length body in
                  let expected_checksum := ft_checksum (packet_id :: packet_length :: error_byte :: params) in
                  if negb (nth param_length body 0 =? expected_checksum) then reject FAIL
                  else if negb (expected_id =? kFtBroadcastId) && negb (packet_id =? expected_id) then reject FAIL
                  else mret (SUCCESS, packet_id, params)
              end
        | _ => mret (NO_RESPONSE, -1, [])
        end
    end.

Fixpoint txrx_attempts (n : nat) (return_code : ReturnCode) (id instruction : Z) (params : list Z)
    (rsp_param_length : nat) : St W (ReturnCode * list Z) :=
  match n with
  | O => mret (return_code, [])
  | S n =>
      flush_input;;
      rc ← send_instruction id instruction params;
      if negb (ok rc) then mret (rc, [])
      else
        '(rc, _, rsp) ← receive_status id rsp_param_length kFtResponseTimeoutMs;
        if ok rc then mret (SUCCESS, rsp) else txrx_attempts n rc id instruction params rsp_param_length
  end.

Definition txrx_instruction (id instruction : Z) (params : list Z) (rsp_param_length : nat)
    : St W (ReturnCode * list Z) :=
  txrx_attempts kFtSingleRegMaxAttempts FAIL id instruction params rsp_param_length.

Definition ping (id : Z) : St W ReturnCode :=
  '(rc, _) ← txrx_instruction (u8 id) kFtInstPing [] 0; mret rc.

Definition length_ok (length : Z) : bool := (length =? 1) || (length =? 2).

(** The value is meaningful on [SUCCESS]. *)
Definition read_register (id address length : Z) : St W (ReturnCode * Z) :=
  if negb (length_ok length) then mret (INVALID_PARAM, 0)
  else
    '(rc, response) ← txrx_instruction (u8 id) kFtInstRead [address; length] (Z.to_nat length);
    if negb (ok rc) then mret (rc, 0)
    else mret (SUCCESS, if length =? 1 then nth 0 response 0 else u16_of (nth 0 response 0) (nth 1 response 0)).

Definition write_register_raw (id address value length : Z) : St W ReturnCode :=
  if negb (length_ok length) then mret INVALID_PARAM
  else '(rc, _) ← txrx_instruction (u8 id) kFtInstWrite (address :: value_bytes length value) 0; mret rc.

Definition write_register (id address value length : Z) : St W ReturnCode :=
  if kFtSramStartAddr <=? address then write_register_raw id address value length
  else
    require (write_register_raw id kFtAddrLockFlag kFtLockFlagUnlocked 1)
      (write_result ← write_register_raw id address value length;
       require (write_register_raw id kFtAddrLockFlag kFtLockFlagLocked 1)
         (mret write_result)).

Definition sync_write (address data_length : Z) (entries : list (Z * Z)) : St W ReturnCode :=
  match entries with
  | [] => mret SUCCESS
  | _ =>
      let params := sync_write_params address data_length entries in
      if (Z.of_nat kFtMaxInstructionParams <? 2 + Z.of_nat (length entries) * (1 + data_length))
      then mret INVALID_PARAM
      else send_instruction kFtBroadcastId kFtInstSyncWrite params
  end.

(** ** Dead servos *)

Definition is_dead (w : W) (id : Z) : bool := bool_decide (id ∈ dead_servo_ids_ (ft w)).

Definition probe_servo (id : Z) : St W unit :=
  w ← get_state;
  if is_dead w id then mret tt
  else
    rc ← ping id;
    when_ (negb (ok rc))
      (flush_input;;
       on_ft (λ f, f <| dead_servo_ids_ := {[ id ]} ∪ dead_servo_ids_ f |>)).

(** [dead_servo_ids_.empty() ? -1 : *dead_servo_ids_.begin()] *)
Definition first_dead (f : FtDriver) : Z := default (-1) (set_begin (dead_servo_ids_ f)).
Definition report_first_dead (f : FtDriver) : FtDriver := f <| last_failed_servo_id_ := first_dead f |>.

Definition alive_ids (f : FtDriver) : list Z := filter (λ id, id ∉ dead_servo_ids_ f) (all_servo_ids_ f).

Definition classify_dead_servos : St W unit :=
  w ← get_state;
  when_ (existsb (λ id, negb (is_dead w id)) (all_servo_ids_ (ft w)))
    (each_ probe_servo (all_servo_ids_ (ft w)));;
  on_ft (λ f, report_first_dead (f <| sync_read_ids_ := alive_ids f |>)).

(** ** Once per control cycle *)

(** One servo's feedback window, stored at its data index. *)
Definition store_feedback (i : nat) (feedback : list Z) (f : FtDriver) : FtDriver :=
  let fb k := nth k feedback 0 in
  f <| pres_pos_ := <[i := u16 (u16_of (fb 0%nat) (fb 1%nat))]> (pres_pos_ f) |>
    <| pres_vel_ := <[i := decode_sign_magnitude (u16_of (fb 2%nat) (fb 3%nat)) kFtVelocitySignBit]> (pres_vel_ f) |>
    <| pres_load_ := <[i := decode_sign_magnitude (u16_of (fb 4%nat) (fb 5%nat)) kFtLoadSignBit]> (pres_load_ f) |>
    <| pres_temp_ := <[i := fb 7%nat]> (pres_temp_ f) |>
    <| pres_status_ := <[i := fb 9%nat]> (pres_status_ f) |>.

(** [n] more responses of the servos in [pending_ids]; what is left of them. *)
Fixpoint collect_feedback (n : nat) (pending_ids : gset Z) : St W (ReturnCode * gset Z) :=
  match n with
  | O => mret (SUCCESS, pending_ids)
  | S n =>
      '(rc, packet_id, feedback) ← receive_status kFtBroadcastId kFtFeedbackLength kFtResponseTimeoutMs;
      if negb (ok rc) then mret (rc, pending_ids)
      else if negb (bool_decide (packet_id ∈ pending_ids)) then mret (FAIL, pending_ids)
      else
        let pending_ids := pending_ids ∖ {[ packet_id ]} in
        w ← get_state;
        let data_index := find_data_index (ft_registry w) packet_id in
        if (data_index <? 0) || (servo_num_total_ (ft w) <=? data_index) then mret (FAIL, pending_ids)
        else
          on_ft (store_feedback (Z.to_nat data_index) feedback);;
          collect_feedback n pending_ids
  end.

Definition group_read_hardware_values : St W ReturnCode :=
  w ← get_state;
  let f := ft w in
  let ids := sync_read_ids_ f in
  if fd_of w <? 0 then mret NOT_INITIALIZED
  else if bool_decide (all_servo_ids_ f = []) then mret SUCCESS
  else if bool_decide (ids = []) then mret FAIL
  else if (kFtMaxInstructionParams <? 2 + length ids)%nat then mret INVALID_PARAM
  else
    flush_input;;
    require (send_instruction kFtBroadcastId kFtInstSyncRead
               (kFtAddrPresentPosition :: Z.of_nat kFtFeedbackLength :: map u8 ids))
      ('(rc, pending_ids) ← collect_feedback (length ids) (list_to_set ids);
       if negb (ok rc) || negb (bool_decide (pending_ids = ∅)) then
         flush_input;; classify_dead_servos;; mret FAIL
       else on_ft report_first_dead;; mret SUCCESS).

Definition group_write_hardware_values : St W ReturnCode :=
  w ← get_state;
  if fd_of w <? 0 then mret NOT_INITIALIZED
  else
    rc ← sync_write kFtAddrTorqueLimit 2 (pending_torque_limit_ (ft w));
    on_ft (λ f, f <| pending_torque_limit_ := [] |>);;
    if negb (ok rc) then on_ft (λ f, f <| pending_goal_position_ := [] |>);; mret rc
    else
      rc ← sync_write kFtAddrGoalPosition 2 (pending_goal_position_ (ft w));
      on_ft (λ f, f <| pending_goal_position_ := [] |>);;
      mret rc.

(** ** Opening and closing *)

Definition reset_driver (ids : list Z) (f : FtDriver) : FtDriver :=
  let n := length ids in
  f <| all_servo_ids_ := ids |> <| sync_read_ids_ := ids |> <| dead_servo_ids_ := ∅ |>
    <| last_failed_servo_id_ := -1 |> <| servo_num_total_ := Z.of_nat n |>
    <| pres_pos_ := replicate n 0 |> <| pres_vel_ := replicate n 0 |> <| pres_load_ := replicate n 0 |>
    <| pres_temp_ := replicate n 0 |> <| pres_status_ := replicate n 0 |>
    <| pending_goal_position_ := [] |> <| pending_torque_limit_ := [] |>.

Definition ft_open (baud_rate : Z) : St W ReturnCode :=
  require (on_serial (serial_open baud_rate))
    match p_device_ with
    | None => mret NOT_INITIALIZED
    | Some d =>
        on_ft (reset_driver (servo_ids_ d));;
        if bool_decide (servo_ids_ d = []) then mret SUCCESS
        else
          rc ← group_read_hardware_values;
          mret (if negb (ok rc) then FAIL else SUCCESS)
    end.

Definition ft_close : St W ReturnCode := on_serial serial_close.

(** ** Calls for one servo

    A servo is its pointer; [None] is null. *)

Definition the_servo (w : W) (p : option ptr) : option ServoFt := p ≫= λ p, ft_servos w !! p.

Definition with_id {A} (p : option ptr) (null : A) (m : Z → St W A) : St W A :=
  w ← get_state;
  match the_servo w p with
  | None => mret null
  | Some s => m (id_ (ft_servo s))
  end.

(** What the bulk read cached of the servo. *)
Definition adopt_feedback (f : FtDriver) (s : ServoFt) : ServoFt :=
  let i := Z.to_nat (data_index_ (ft_servo s)) in
  let steps := nth i (pres_pos_ f) 0 in
  s <| curr_pos_steps_ := steps |>
    <| ft_servo := (ft_servo s)
         <| curr_pos_abs_ := steps_to_rad s steps |>
         <| curr_vel_ := get_vel_rad_sec s (nth i (pres_vel_ f) 0) |>
         <| curr_tor_ := get_tor_nm s (nth i (pres_load_ f) 0) |>
         <| temperature_ := f32_of_Z (nth i (pres_temp_ f) 0) |>
         <| motor_error_code_ := nth i (pres_status_ f) 0 |> |>.

Definition read_hardware_values (p : option ptr) : St W ReturnCode :=
  w ← get_state;
  match p, the_servo w p with
  | Some q, Some s =>
      let total := servo_num_total_ (ft w) in
      if total <=? 0 then mret NOT_INITIALIZED
      else if (data_index_ (ft_servo s) <? 0) || (total <=? data_index_ (ft_servo s)) then mret INVALID_PARAM
      else
        modify (λ w, w <| ft_servos := <[q := adopt_feedback (ft w) s]> (ft_servos w) |>);;
        mret SUCCESS
  | _, _ => mret INVALID_PARAM
  end.

Definition enable_torque (p : option ptr) (enable : bool) : St W ReturnCode :=
  with_id p INVALID_PARAM (λ id, write_register id kFtAddrTorqueEnable (if enable then 1 else 0) 1).

Definition set_operating_mode (p : option ptr) (mode : Z) : St W ReturnCode :=
  with_id p INVALID_PARAM (λ id, write_register id kFtAddrOperatingMode mode 1).

(** A NaN passes both comparisons. *)
Definition to_gain_byte (gain : f32) : Z :=
  let gain := if gain <?. f0 then f0 else gain in
  let gain := if gain >?. f32_of_Z 254 then f32_of_Z 254 else gain in
  default (undefined_cast gain) (int_of_float gain).

Definition set_position_pid (p : option ptr) (pos_p pos_i pos_d : f32) : St W ReturnCode :=
  with_id p INVALID_PARAM (λ id,
    require (write_register id kFtAddrPositionPGain (to_gain_byte pos_p) 1)
    (require (write_register id kFtAddrPositionDGain (to_gain_byte pos_d) 1)
     (write_register id kFtAddrPositionIGain (to_gain_byte pos_i) 1))).

Definition set_acceleration (p : option ptr) (acceleration : Z) : St W ReturnCode :=
  with_id p INVALID_PARAM (λ id, write_register id kFtAddrAcceleration acceleration 1).

Definition clamp_goal : Z → Z := clamp_Z kFtGoalPositionMin kFtGoalPositionMax.
Definition clamp_torque_limit : Z → Z := clamp_Z kFtTorqueLimitMin kFtTorqueLimitMax.

Definition set_goal_position_direct (p : option ptr) (goal_position : Z) : St W ReturnCode :=
  with_id p INVALID_PARAM (λ id, write_register id kFtAddrGoalPosition (clamp_goal goal_position) 2).

(** A dead servo is skipped. *)
Definition queue_for (p : option ptr) (enqueue : Z → FtDriver → FtDriver) : St W ReturnCode :=
  with_id p INVALID_PARAM (λ id,
    w ← get_state;
    when_ (negb (is_dead w id)) (on_ft (enqueue id));;
    mret SUCCESS).

Definition set_goal_position_group (p : option ptr) (goal_position : Z) : St W ReturnCode :=
  queue_for p (λ id f,
    f <| pending_goal_position_ := pending_goal_position_ f ++ [(id, u16 (clamp_goal goal_position))] |>).

Definition set_torque_limit_group (p : option ptr) (torque_limit : Z) : St W ReturnCode :=
  queue_for p (λ id f,
    f <| pending_torque_limit_ := pending_torque_limit_ f ++ [(id, u16 (clamp_torque_limit torque_limit))] |>).

Definition drop_id (id : Z) (entries : list (Z * Z)) : list (Z * Z) := filter (λ e, e.1 ≠ id) entries.

Definition discard_pending_group_writes (p : option ptr) : St W unit :=
  with_id p tt (λ id,
    on_ft (λ f, f <| pending_goal_position_ := drop_id id (pending_goal_position_ f) |>
                  <| pending_torque_limit_ := drop_id id (pending_torque_limit_ f) |>)).

Definition get_torque_enabled (p : option ptr) : St W (ReturnCode * Z) :=
  with_id p (INVALID_PARAM, 0) (λ id, read_register id kFtAddrTorqueEnable 1).

Definition get_present_position (p : option ptr) : St W (ReturnCode * Z) :=
  with_id p (INVALID_PARAM, 0) (λ id, read_register id kFtAddrPresentPosition 2).

Definition sync_goal_position_to_present (p : option ptr) : St W ReturnCode :=
  '(rc, present_position) ← get_present_position p;
  if negb (ok rc) then mret rc else set_goal_position_direct p present_position.
End driver.
