(* ===== verification/ServoFt.v ===== *)
(** * FeeTech servos (src/pi_servo_ft.cpp, include/pi_servo_ft.hpp)

    The operations of one servo on its driver.  [this] is its address, [d] its device
    (never null once constructed) and [has_driver] whether the driver pointer is set.
    [ft_joint_servos] puts the servos behind the interface of a joint, so that joints,
    arms and effectors run on them. *)

From S2P Require Import Prelude.
From S2P Require Import FloatSpec.
From S2P Require Import Control.
From S2P Require Import CanBus.
From S2P Require Import Servo.
From S2P Require Import Joint.
From S2P Require Import ServoConfig.
From S2P Require Import SerialPort.
From S2P Require Import DriverFt.

Definition FT_MODE_POSITION : Z := 0.
Definition FT_TORQUE_LIMIT_FULL_SCALE : Z := 1000.
Definition FT_ACCELERATION_MAX : Z := 254.
Definition FT_TORQUE_DISABLE_MAX_ATTEMPTS : nat := 5.
Definition FT_TORQUE_DISABLE_RETRY_DELAY_US : Z := 10000.

Definition val_servo_model_ft_sts3215 := "FeeTech STS3215".
Definition fn_servo_resolution := "servo_resolution".
Definition fn_servo_prof_accel := "prof_accel".

(** Only the base part is meaningful for this family. *)
Definition g_servo_ft_param : ServoDmParam := mkServoDmParam f0 f0 f0 f0 f0 f0 f0 f0 f0 f0
  (mkServoParam (to_f32 DEFAULT_TOLERABLE_POS_DIFFERENCE_RAD) (to_f32 MAX_POS_DIFFERENCE_RAD)
     (to_f32 DEFAULT_VELOCITY_THRESHOLD_RAD_SEC)).

(** ** Configuration *)

Section config.
Context {J : Type} `{JsonReader J} (this : ptr).

Definition FSR : Type := ServoFt * Registry.

Definition on_base_servo {A} (m : St SR A) : St FSR A :=
  lift_into (λ '(s, r), (ft_servo s, r)) (λ '(b, r) '(s, _), (s <| ft_servo := b |>, r)) m.

Definition ServoFt_init_config_model (servo_config : J) : St FSR ReturnCode :=
  modify (λ '(s, r), (s <| ft_servo := (ft_servo s) <| p_servo_param_ := Some g_servo_ft_param |> |>, r));;
  require (on_base_servo (init_config_model this servo_config (mret SUCCESS)))
    ('(s, _) ← get_state;
     if negb (String.eqb (servo_model_ (ft_servo s)) val_servo_model_ft_sts3215) then mret NOT_SUPPORTED
     else
       modify (λ '(s, r), (s <| ft_servo := (ft_servo s) <| type_ := FT_STS3215 |> |>, r));;
       require (get_field_value json_get_int servo_config fn_servo_resolution
                  (λ v '(s, r), (s <| servo_resolution_ := u32 v |>, r)))
         (modify (λ '(s, r), (s <| center_offset_ := servo_resolution_ s / 2 |>, r));;
          rc ← get_field_value json_get_int servo_config fn_servo_prof_accel
                 (λ v '(s, r), (s <| prof_accel_ := v |>, r));
          '(s, _) ← get_state;
          mret (if ok rc && ((prof_accel_ s <? 0) || (FT_ACCELERATION_MAX <? prof_accel_ s))
                then INVALID_PARAM else SUCCESS))).
End config.

(** ** Operations on the bus *)

Section servo.
Context {P : Type} `{Tty P} (io_fuel : nat) (undefined_cast : spec_float → Z).
Context (d : Device) (has_driver : bool) (this : ptr).
Local Abbreviation W := (FtWorld P).

Definition this_ft (w : W) : ServoFt := default (new_ServoFt (new_Servo d None)) (ft_servos w !! this).
Definition set_ft (s : ServoFt) (w : W) : W := w <| ft_servos := <[this := s]> (ft_servos w) |>.
Definition this_servo (w : W) : Servo := ft_servo (this_ft w).
Definition set_this (s : Servo) (w : W) : W := set_ft ((this_ft w) <| ft_servo := s |>) w.

Definition me : option ptr := Some this.
Definition usleep (us : Z) : St W unit := on_line (tty_sleep (us * 1000)).

(** A call of the driver and the pause after it. *)
Definition then_wait (us : Z) (m : St W ReturnCode) : St W ReturnCode :=
  rc ← m; when_ (ok rc) (usleep us);; mret rc.

(** The guards that most operations start with. *)
Definition on_hardware (m : St W ReturnCode) : St W ReturnCode :=
  if negb has_driver then mret NOT_INITIALIZED
  else if is_read_only_ d then mret SUCCESS
  else m.

Definition ft_start_hardware : St W ReturnCode :=
  on_hardware
    (require (then_wait 200 (enable_torque io_fuel me false))
    (require (then_wait 200 (set_operating_mode io_fuel me FT_MODE_POSITION))
    (s ← gets this_ft;
     let b := ft_servo s in
     require (if pos_kp_ b >?. f0
              then then_wait 200 (set_position_pid io_fuel undefined_cast me (pos_kp_ b) (pos_ki_ b) (pos_kd_ b))
              else mret SUCCESS)
    (require (if 0 <? prof_accel_ s then then_wait 200 (set_acceleration io_fuel me (u8 (prof_accel_ s)))
              else mret SUCCESS)
    (require (then_wait 200 (sync_goal_position_to_present io_fuel me))
    (then_wait 200 (enable_torque io_fuel me true))))))).

Definition ft_read_hardware_values : St W ReturnCode :=
  Servo_read_hardware_values this_servo set_this d
    (if has_driver then Some (read_hardware_values me) else None).

(** The goal is set before the torque goes off: set after it, the firmware of some
    kits switches the torque on again. *)
Definition ft_park_safely : St W ReturnCode :=
  s ← gets this_servo;
  if parked_ s then mret SUCCESS
  else if is_read_only_ d then mret SUCCESS
  else if negb has_driver then mret NOT_INITIALIZED
  else
    require (then_wait 200 ft_read_hardware_values)
    (s ← gets this_ft;
     require (then_wait 200 (set_goal_position_direct io_fuel me (curr_pos_steps_ s)))
    (require (then_wait 200 (enable_torque io_fuel me false))
       (modify (λ w, set_this ((this_servo w) <| parked_ := true |>) w);; mret SUCCESS))).

(** The step of a target: clipped to the limits, mapped to the motor's frame. *)
Definition target_steps (s : ServoFt) (target_pos : f32) : Z :=
  let b := ft_servo s in
  let target_pos_absolute := get_pos_rad_absolute_of b (clipping target_pos (pos_min_rel_ b) (pos_max_rel_ b)) in
  default (undefined_cast target_pos_absolute) (rad_to_steps s target_pos_absolute).

Definition ft_move (target_pos : f32) : St W ReturnCode :=
  if negb has_driver then mret NOT_INITIALIZED
  else s ← gets this_ft; set_goal_position_group me (target_steps s target_pos).

(** [fabs] of <cmath> at global scope takes a [double], so the quotient is one. *)
Definition torque_to_torque_limit (s : Servo) (torque : f32) : Z :=
  if kt_ s <=?. f0 then 0
  else
    let quotient := (SFabs (to_f64 torque) / to_f64 (kt_ s))%f64 in
    let torque_limit := default (undefined_cast quotient) (int_of_float quotient) in
    if FT_TORQUE_LIMIT_FULL_SCALE <? torque_limit then FT_TORQUE_LIMIT_FULL_SCALE else torque_limit.

Definition ft_move_with (target_pos target_vel target_tor : f32) : St W ReturnCode :=
  s ← gets this_ft;
  match p_joint_ (ft_servo s) with
  | Some j =>
      if negb has_driver then mret NOT_INITIALIZED
      else
        let clipped_torque := clipping (target_tor * joint_torq_rescale j)%f32 (joint_torq_min j) (joint_torq_max j) in
        require (set_torque_limit_group me (torque_to_torque_limit (ft_servo s) clipped_torque))
          (set_goal_position_group me (target_steps s target_pos))
  | None => mret NOT_INITIALIZED
  end.

Definition ft_apply_torque (torque : f32) : St W ReturnCode := mret NOT_SUPPORTED.

Definition ft_enable_torque (enable : bool) : St W ReturnCode := on_hardware (enable_torque io_fuel me enable).

(** Disable, read back, try again. *)
Fixpoint disable_torque_verified (attempts : nat) : St W ReturnCode :=
  match attempts with
  | O => mret FAIL
  | S attempts =>
      require (then_wait 200 (enable_torque io_fuel me false))
        ('(rc, torque_enabled) ← get_torque_enabled io_fuel me;
         if negb (ok rc) then mret rc
         else if torque_enabled =? 0 then mret SUCCESS
         else usleep FT_TORQUE_DISABLE_RETRY_DELAY_US;; disable_torque_verified attempts)
  end.

Definition ft_change_control_mode_for_leader : St W ReturnCode :=
  on_hardware
    (if is_force_feedback_enabled d then mret NOT_SUPPORTED
     else
       discard_pending_group_writes me;;
       disable_torque_verified FT_TORQUE_DISABLE_MAX_ATTEMPTS).

Definition ft_change_control_mode_for_follower : St W ReturnCode :=
  on_hardware
    (require (then_wait 10000 (enable_torque io_fuel me false))
    (require (set_operating_mode io_fuel me FT_MODE_POSITION)
    (require (sync_goal_position_to_present io_fuel me)
       (enable_torque io_fuel me true)))).
End servo.

(** ** FeeTech servos as the servos of a joint

    What the class does not override is the base's. *)
Definition ft_joint_servos {P} `{Tty P} (io_fuel : nat) (undefined_cast : spec_float → Z)
    (d : Device) (has_driver : bool) : JointServos (FtWorld P) := {|
  js_servo := this_servo d;
  js_update := λ p f w, set_this d p (f (this_servo d p w)) w;
  js_effective_pos_kp := λ p w, pos_kp_ (this_servo d p w);
  js_read_hardware_values := ft_read_hardware_values d has_driver;
  js_park_safely := ft_park_safely io_fuel d has_driver;
  js_start_hardware := ft_start_hardware io_fuel undefined_cast d has_driver;
  js_verify_position_fresh := λ _, mret SUCCESS;
  js_verify_operational := λ _, mret SUCCESS;
  js_change_control_mode_for_leader := ft_change_control_mode_for_leader io_fuel d has_driver;
  js_change_control_mode_for_follower := ft_change_control_mode_for_follower io_fuel d has_driver;
  js_move := ft_move undefined_cast d has_driver;
  js_move_with := ft_move_with undefined_cast d has_driver;
  js_apply_torque := λ _, ft_apply_torque;
  js_apply_torque_with_damping := λ _, ft_apply_torque;
  js_frame_age_ms := λ _, mret (-1);
  js_mit_codec_report := λ _ _, None;
|}.
