(* ===== verification/FtProtocol.v ===== *)
(** * Theorems on FeeTech transactions ([SerialPort], [DriverFt])

    What a transaction touches; an accepted status packet is one that the line really
    carried; and every call of the driver returns. *)

From S2P Require Import Prelude.
From S2P Require Import Control.
From S2P Require Import CanBus.
From S2P Require Import Servo.
From S2P Require Import SerialPort.
From S2P Require Import DriverFt.

(** ** A line with a record of what passed *)

Record Logged (P : Type) := mkLogged {
  line : P;
  heard : list Z;         (* bytes read, oldest first *)
  said : list Z;          (* bytes written, oldest first *)
}.
Arguments mkLogged {P}.
Arguments line {P}.
Arguments heard {P}.
Arguments said {P}.
#[export] Instance eta_Logged P : Eta (Logged P) := λ r, mkLogged (line r) (heard r) (said r).

Definition on_inner_line {P A} (m : St P A) : St (Logged P) A :=
  lift_into line (λ p l, l <| line := p |>) m.

Definition hear {P} (n : IoError + list Z) : St (Logged P) unit :=
  modify (λ l, match n with inr bytes => l <| heard := heard l ++ bytes |> | inl _ => l end).
Definition say {P} (bytes : list Z) (n : IoError + nat) : St (Logged P) unit :=
  modify (λ l, match n with inr k => l <| said := said l ++ take k bytes |> | inl _ => l end).

#[export] Instance logged_tty {P} `{Tty P} : Tty (Logged P) := {|
  tty_now := on_inner_line tty_now;
  tty_sleep := λ t, on_inner_line (tty_sleep t);
  tty_open := λ name, on_inner_line (tty_open name);
  tty_tcgetattr := λ fd, on_inner_line (tty_tcgetattr fd);
  tty_tcsetattr := λ fd speed, on_inner_line (tty_tcsetattr fd speed);
  tty_get_modem_bits := λ fd, on_inner_line (tty_get_modem_bits fd);
  tty_set_dtr_rts := λ fd, on_inner_line (tty_set_dtr_rts fd);
  tty_flush := λ fd, on_inner_line (tty_flush fd);
  tty_close := λ fd, on_inner_line (tty_close fd);
  tty_read := λ fd n, r ← on_inner_line (tty_read fd n); hear r;; mret r;
  tty_write := λ fd bytes, r ← on_inner_line (tty_write fd bytes); say bytes r;; mret r;
  tty_poll := λ fd ms, on_inner_line (tty_poll fd ms);
|}.

#[export] Instance logged_laws {P} `{TtyLaws P} : TtyLaws (Logged P).
Proof.
  split; intros fd x l; cbn; unfold mbind, St_bind, on_inner_line, lift_into; cbn.
  - pose proof (tty_read_bytes fd x (line l)) as Hr. by destruct (tty_read fd x (line l)).
  - pose proof (tty_write_count fd x (line l)) as Hr. by destruct (tty_write fd x (line l)).
Qed.

(** ** What a transaction leaves alone *)

Definition same_driver {P} (w w' : FtWorld P) : Prop :=
  ft w' = ft w ∧ ft_servos w' = ft_servos w ∧ ft_registry w' = ft_registry w ∧ fd_of w' = fd_of w.
#[export] Instance same_driver_preorder P : PreOrder (@same_driver P).
Proof.
  split; [by intros w|]. intros w1 w2 w3 (? & ? & ? & ?) (? & ? & ? & ?). split_and!; congruence.
Qed.

Section same.
Context {P : Type} `{Tty P} (io_fuel : nat).
Local Abbreviation W := (FtWorld P).

Lemma same_on_line {A} (m : St P A) : steps (same_driver (P := P)) (on_line m).
Proof. intros w. unfold on_line, on_serial, on_tty, lift_into. by destruct (m (tty (serial w))). Qed.
Hint Resolve same_on_line : steps.

Lemma same_flush_input : steps (same_driver (P := P)) flush_input.
Proof. unfold flush_input. steps_go. Qed.

Lemma same_read_loop fuel : ∀ fd length deadline received,
  steps (same_driver (P := P)) (read_loop fuel fd length deadline received).
Proof. induction fuel as [|fuel IH]; intros; cbn [read_loop]; steps_go; by apply IH. Qed.
Hint Resolve same_flush_input same_read_loop : steps.

Lemma same_read_exact length ms : steps (same_driver (P := P)) (read_exact io_fuel length ms).
Proof. unfold read_exact. steps_go. Qed.
Hint Resolve same_read_exact : steps.

Lemma same_remaining_ms deadline : steps (same_driver (P := P)) (remaining_ms deadline).
Proof. unfold remaining_ms. steps_go. Qed.
Hint Resolve same_remaining_ms : steps.

Lemma same_wait_for_header fuel : ∀ deadline count,
  steps (same_driver (P := P)) (wait_for_header io_fuel fuel deadline count).
Proof. induction fuel as [|fuel IH]; intros; cbn [wait_for_header]; steps_go; by apply IH. Qed.

Lemma same_read_all length deadline : steps (same_driver (P := P)) (read_all io_fuel length deadline).
Proof. unfold read_all. steps_go. Qed.

Lemma same_reject rc : steps (same_driver (P := P)) (reject rc).
Proof. unfold reject. steps_go. Qed.
Hint Resolve same_wait_for_header same_read_all same_reject : steps.

Lemma same_receive_status id n ms : steps (same_driver (P := P)) (receive_status io_fuel id n ms).
Proof. unfold receive_status. steps_go. Qed.

Definition same_port (s s' : Serial P) : Prop := port_handler_ s' = port_handler_ s.
#[local] Instance same_port_preorder : PreOrder same_port.
Proof. split; [by intros s|]. intros s1 s2 s3 E1 E2. unfold same_port in *. congruence. Qed.

Lemma same_port_on_tty {A} (m : St P A) : steps same_port (on_tty m).
Proof. intros s. unfold on_tty, lift_into. by destruct (m (tty s)). Qed.
Hint Resolve same_port_on_tty : steps.

Lemma same_port_write_loop fuel : ∀ fd bytes, steps same_port (write_loop fuel fd bytes).
Proof.
  induction fuel as [|fuel IH]; intros fd [|b bytes]; cbn [write_loop]; steps_go; by apply IH.
Qed.
Hint Resolve same_port_write_loop : steps.

Lemma same_write_bytes bytes : steps (same_driver (P := P)) (on_serial (write_bytes io_fuel bytes)).
Proof. apply steps_lift_into with same_port; [unfold write_bytes; steps_go|done]. Qed.
Hint Resolve same_receive_status same_write_bytes : steps.

Lemma same_send_instruction id inst params : steps (same_driver (P := P)) (send_instruction io_fuel id inst params).
Proof. unfold send_instruction. steps_go. Qed.
Hint Resolve same_send_instruction : steps.

Lemma same_txrx_attempts n : ∀ rc id inst params k,
  steps (same_driver (P := P)) (txrx_attempts io_fuel n rc id inst params k).
Proof. induction n as [|n IH]; intros; cbn [txrx_attempts]; steps_go; by apply IH. Qed.
Hint Resolve same_txrx_attempts : steps.

Lemma same_ping id : steps (same_driver (P := P)) (ping io_fuel id).
Proof. unfold ping, txrx_instruction. steps_go. Qed.

Lemma same_read_register id address length : steps (same_driver (P := P)) (read_register io_fuel id address length).
Proof. unfold read_register, txrx_instruction. steps_go. Qed.

Lemma same_write_register_raw id address value length :
  steps (same_driver (P := P)) (write_register_raw io_fuel id address value length).
Proof. unfold write_register_raw, txrx_instruction. steps_go. Qed.
Hint Resolve same_write_register_raw : steps.

Lemma same_write_register id address value length :
  steps (same_driver (P := P)) (write_register io_fuel id address value length).
Proof. unfold write_register, require. steps_go. Qed.

Lemma same_sync_write address length entries : steps (same_driver (P := P)) (sync_write io_fuel address length entries).
Proof. unfold sync_write. steps_go. Qed.
End same.
#[export] Hint Resolve same_on_line same_flush_input same_read_exact same_receive_status same_write_bytes
  same_send_instruction same_ping same_read_register same_write_register_raw same_write_register same_sync_write : steps.

(** ** Accepted packets are genuine *)

(** FF FF ID LEN ERR PARAMS CHK *)
Definition status_packet (id error_byte : Z) (params : list Z) : list Z :=
  let body := id :: Z.of_nat (length params) + 2 :: error_byte :: params in
  kFtHeaderByte :: kFtHeaderByte :: body ++ [ft_checksum body].

Section genuine.
Context {P : Type} `{TtyLaws P} (io_fuel : nat).
Local Abbreviation W := (FtWorld (Logged P)).

Definition heard_of (w : W) : list Z := heard (tty (serial w)).

(** A call of the line that is no read. *)
Lemma wp_silent {A} (m : St P A) (Q : A → W → Prop) w :
  (∀ a w', heard_of w' = heard_of w → fd_of w' = fd_of w → Q a w') → wp (on_line (on_inner_line m)) Q w.
Proof.
  intros HQ. unfold wp, on_line, on_serial, on_tty, on_inner_line, lift_into.
  destruct (m (line (tty (serial w)))) as [a p]. by apply HQ.
Qed.

Lemma wp_tty_read fd n (Q : IoError + list Z → W → Prop) w :
  (∀ e w', heard_of w' = heard_of w → Q (inl e) w') →
  (∀ l w', (length l ≤ n)%nat → Forall is_byte l → heard_of w' = heard_of w ++ l → Q (inr l) w') →
  wp (on_line (tty_read fd n)) Q w.
Proof.
  intros HL HR. unfold wp, on_line, on_serial, on_tty, lift_into. cbn [tty_read logged_tty].
  rewrite bind_run. unfold on_inner_line, lift_into.
  pose proof (tty_read_bytes fd n (line (tty (serial w)))) as Hl.
  destruct (tty_read fd n (line (tty (serial w)))) as [[e|l] p]; cbn in *.
  - by apply HL.
  - destruct Hl. by apply HR.
Qed.

Lemma read_loop_heard fuel fd n deadline : ∀ received w, (length received ≤ n)%nat →
  wp (read_loop fuel fd n deadline received) (λ r w', ∃ new, r = received ++ new ∧ (length r ≤ n)%nat ∧
    Forall is_byte new ∧ heard_of w' = heard_of w ++ new) w.
Proof.
  induction fuel as [|fuel IH]; intros received w Hle; cbn [read_loop].
  { wp_step. exists []. by rewrite !app_nil_r. }
  wp_step; wp_step. { exists []. by rewrite !app_nil_r. }
  assert (∀ w1, heard_of w1 = heard_of w →
    wp (now ← on_line tty_now; if deadline <=? now then mret received else
        (on_line (tty_poll fd (if 0 <? (deadline - now) `quot` 1000000 then (deadline - now) `quot` 1000000 else 1));;
         read_loop fuel fd n deadline received))
      (λ r w', ∃ new, r = received ++ new ∧ (length r ≤ n)%nat ∧ Forall is_byte new ∧ heard_of w' = heard_of w ++ new) w1) as Hwait.
  { intros w1 E1. wp_step. apply wp_silent. intros t w2 E2 _. wp_step.
    - wp_step. exists []. rewrite !app_nil_r. by rewrite E2.
    - wp_step. apply wp_silent. intros _ w3 E3 _. eapply wp_mono; [by apply IH|].
      intros r w4 (new & ? & ? & ? & E4). exists new. by rewrite E4, E3, E2, E1. }
  apply wp_tty_read.
  - intros [] w1 E1; [by apply Hwait..|]. wp_step. exists []. by rewrite !app_nil_r.
  - intros [|b l] w1 Hl Hb E1; [apply Hwait; by rewrite app_nil_r in E1|].
    eapply wp_mono; [apply IH; rewrite length_app; lia|].
    intros r w4 (new & -> & ? & ? & E4). exists ((b :: l) ++ new).
    split_and!; [by rewrite (assoc_L (++))|done|by apply Forall_app|]. by rewrite E4, E1, (assoc_L (++)).
Qed.

Lemma read_exact_heard n ms w :
  wp (read_exact io_fuel n ms) (λ r w', (length r ≤ n)%nat ∧ Forall is_byte r ∧ heard_of w' = heard_of w ++ r) w.
Proof.
  unfold read_exact. wp_steps.
  { split_and!; [cbn; lia|done|by rewrite app_nil_r]. }
  apply wp_silent. intros t w1 E1 _. eapply wp_mono; [apply read_loop_heard; cbn; lia|].
  intros r w2 (new & -> & ? & ? & E2). by rewrite E2, E1.
Qed.

Lemma remaining_ms_heard deadline (Q : Z → W → Prop) w :
  (∀ r w', heard_of w' = heard_of w → Q r w') → wp (remaining_ms deadline) Q w.
Proof. intros HQ. unfold remaining_ms. wp_step. apply wp_silent. intros t w1 E1 _. wp_step. by apply HQ. Qed.

Lemma wait_for_header_heard fuel deadline : ∀ count before w, 0 ≤ count →
  heard_of w = before ++ replicate (Z.to_nat count) kFtHeaderByte →
  wp (wait_for_header io_fuel fuel deadline count) (λ r w', ∀ id, r = Some id →
    id ≠ kFtHeaderByte ∧ is_byte id ∧ ∃ noise, heard_of w' = before ++ noise ++ [kFtHeaderByte; kFtHeaderByte; id]) w.
Proof.
  induction fuel as [|fuel IH]; intros count before w Hc E; cbn [wait_for_header]; [by wp_step|].
  wp_step. apply remaining_ms_heard. intros remain w1 E1. wp_step; [by wp_step|].
  wp_step. eapply wp_mono; [apply read_exact_heard|]. intros r w2 (Hl & Hb & E2).
  destruct r as [|byte [|]]; [by wp_step| |by wp_step]. rewrite E1, E in E2.
  destruct (byte =? kFtHeaderByte) eqn:EF.
  - apply Z.eqb_eq in EF as ->. apply IH; [lia|]. rewrite E2, <- (assoc_L (++)). f_equal.
    rewrite Z2Nat.inj_add, Nat.add_1_r, replicate_S_end by lia. done.
  - apply Z.eqb_neq in EF. destruct (2 <=? count) eqn:E3.
    + wp_step. intros id [= <-]. apply Z.leb_le in E3. apply Forall_inv in Hb. split_and!; [done..|].
      exists (replicate (Z.to_nat (count - 2)) kFtHeaderByte). rewrite E2, <- !(assoc_L (++)). f_equal.
      replace (Z.to_nat count) with (Z.to_nat (count - 2) + 2)%nat by lia.
      by rewrite replicate_add, <- (assoc_L (++)).
    + eapply wp_mono; [apply (IH 0 (before ++ replicate (Z.to_nat count) kFtHeaderByte ++ [byte]))|].
      * lia.
      * rewrite E2. by rewrite app_nil_r, (assoc_L (++)).
      * intros r' w3 Hr id Hid. destruct (Hr id Hid) as (? & ? & noise & E4). split_and!; [done..|].
        exists (replicate (Z.to_nat count) kFtHeaderByte ++ [byte] ++ noise). by rewrite E4, <- !(assoc_L (++)).
Qed.

Lemma read_all_heard n deadline w :
  wp (read_all io_fuel n deadline) (λ r w', ∀ l, r = Some l →
    length l = n ∧ Forall is_byte l ∧ heard_of w' = heard_of w ++ l) w.
Proof.
  unfold read_all. wp_step. apply remaining_ms_heard. intros remain w1 E1. wp_step.
  eapply wp_mono; [apply read_exact_heard|]. intros r w2 (_ & Hb & E2). wp_step. intros l.
  destruct (Nat.eqb_spec (length r) n) as [E|]; [|done]. intros [= <-]. by rewrite E2, E1.
Qed.

Definition genuine (expected_id : Z) (n : nat) (before : list Z) (r : ReturnCode * Z * list Z) (w' : W) : Prop :=
  let '(rc, id, params) := r in rc = SUCCESS →
    length params = n ∧ Forall is_byte params ∧ (expected_id = kFtBroadcastId ∨ id = expected_id) ∧ id ≠ kFtHeaderByte ∧
    ∃ noise error_byte, heard_of w' = before ++ noise ++ status_packet id error_byte params.

Lemma receive_status_heard expected_id n ms w :
  wp (receive_status io_fuel expected_id n ms) (genuine expected_id n (heard_of w)) w.
Proof.
  unfold receive_status. wp_step; [by wp_step|]. wp_step. apply wp_silent. intros t w1 E1 _. wp_step.
  eapply wp_mono; [apply (wait_for_header_heard _ _ 0 (heard_of w)); [lia|by rewrite E1, app_nil_r]|].
  intros [id|] w2 Hh; [|by wp_step]. destruct (Hh id eq_refl) as (Hid & _ & noise & E2). clear Hh.
  wp_step. eapply wp_mono; [apply read_all_heard|]. intros [le|] w3 Hle; [|by wp_step].
  destruct (Hle le eq_refl) as (Ll & _ & E3). destruct le as [|len [|error_byte [|]]]; try done.
  wp_step; [unfold wp, reject; by rewrite bind_run|].
  match goal with H : negb _ = false |- _ => apply negb_false_iff, Z.eqb_eq in H as -> end.
  wp_step. eapply wp_mono; [apply read_all_heard|]. intros [body|] w4 Hb; [|by wp_step].
  destruct (Hb body eq_refl) as (Lb & Bb & E4).
  wp_step; [unfold wp, reject; by rewrite bind_run|].
  wp_step; [unfold wp, reject; by rewrite bind_run|]. wp_step. intros _.
  match goal with H : negb (nth _ _ _ =? _) = false |- _ => apply negb_false_iff, Z.eqb_eq in H as Hchk end.
  assert (length (take n body) = n) as Ln by (rewrite length_take; lia).
  split_and!; [done|by apply Forall_take| |done|].
  - match goal with H : _ && _ = false |- _ => apply andb_false_iff in H as [H|H]; apply negb_false_iff, Z.eqb_eq in H end; auto.
  - exists noise, error_byte. unfold status_packet. rewrite Ln, <- Hchk, E4, E3, E2. rewrite <- !(assoc_L (++)). cbn [app].
    do 2 f_equal. cbn. do 5 f_equal.
    rewrite <- (take_drop n body) at 1. f_equal.
    destruct (drop n body) as [|c [|]] eqn:Ed; apply (f_equal length) in Ed as Ed'; rewrite length_drop in Ed'; cbn in Ed'; try lia.
    f_equal. rewrite <- (take_drop n body), app_nth2, Ln, Nat.sub_diag, Ed by lia. done.
Qed.

(** [C35] When the driver accepts a status packet, the line did carry it: noise, two
    header bytes, the id, the length, an error byte, the parameters that are returned
    and the right checksum, from the servo that was asked unless any was wanted. *)
Theorem accepted_status_genuine expected_id n ms w :
  let '(rc, id, params, w') := receive_status io_fuel expected_id n ms w in
  rc = SUCCESS →
  length params = n ∧ Forall is_byte params ∧ (expected_id = kFtBroadcastId ∨ id = expected_id) ∧ id ≠ kFtHeaderByte ∧
  ∃ noise error_byte, heard_of w' = heard_of w ++ noise ++ status_packet id error_byte params.
Proof.
  pose proof (receive_status_heard expected_id n ms w) as Hw. unfold wp in Hw.
  by destruct (receive_status _ _ _ _ w) as [[[rc id] ps] w'].
Qed.
End genuine.

(** ** Every call returns

    [settles m s]: from [s] the computation ends, and with enough fuel always in the
    same value and state, which is where the unbounded loops of the code end. *)

Definition settles {S A} (m : nat → St S A) (s : S) : Prop :=
  ∃ F a s', ∀ fuel, (F ≤ fuel)%nat → m fuel s = (a, s').
Definition returns {S A} (m : nat → St S A) : Prop := ∀ s, settles m s.

Lemma returns_const {S A} (m : St S A) : returns (λ _, m).
Proof. intros s. destruct (m s) as [a s'] eqn:E. by exists O, a, s'. Qed.

Lemma settles_bind {S A B} (m : nat → St S A) (k : nat → A → St S B) s :
  settles m s → (∀ a s', settles (λ f, k f a) s') → settles (λ f, m f ≫= k f) s.
Proof.
  intros (F & a & s1 & Hm) Hk. destruct (Hk a s1) as (F' & b & s2 & Hk').
  exists (F `max` F')%nat, b, s2. intros fuel Hf. rewrite bind_run, Hm by lia. apply Hk'. lia.
Qed.

(** The last step of the fuel is spent on the first round. *)
Lemma settles_S {S A} (m : nat → St S A) s : settles (λ f, m (Datatypes.S f)) s → settles m s.
Proof. intros (F & a & s' & Hm). exists (Datatypes.S F), a, s'. intros [|fuel] Hf; [lia|]. apply Hm. lia. Qed.

Lemma settles_first {S A B} (m : St S A) (k : nat → A → St S B) s a s' :
  m s = (a, s') → settles (λ f, k f a) s' → settles (λ f, m ≫= k f) s.
Proof. intros E (F & b & s2 & Hk). exists F, b, s2. intros fuel Hf. rewrite bind_run, E. by apply Hk. Qed.

Lemma returns_bind {S A B} (m : nat → St S A) (k : nat → A → St S B) :
  returns m → (∀ a, returns (λ f, k f a)) → returns (λ f, m f ≫= k f).
Proof. intros Hm Hk s. by apply settles_bind; [|intros a s'; apply Hk]. Qed.

Lemma returns_lift_into {S T A} (proj : S → T) (inj : T → S → S) (m : nat → St T A) :
  returns m → returns (λ f, lift_into proj inj (m f)).
Proof.
  intros Hm s. destruct (Hm (proj s)) as (F & a & t & E). exists F, a, (inj t s).
  intros fuel Hf. unfold lift_into. by rewrite E.
Qed.

Lemma returns_each_ {S I} (m : nat → I → St S unit) xs :
  (∀ i, returns (λ f, m f i)) → returns (λ f, each_ (m f) xs).
Proof.
  intros Hm. induction xs as [|i xs IH]; cbn [each_]; [apply returns_const|].
  apply returns_bind; [apply Hm|]. intros _. apply IH.
Qed.

Create HintDb returns.
Ltac returns_step :=
  lazymatch goal with
  | |- returns (λ _, require _ _) => unfold require
  | |- returns (λ _, when_ ?b _) => unfold when_
  | |- returns (λ _, _ ≫= _) => apply returns_bind; [|intros ?]
  | |- returns (λ _, if ?b then _ else _) => destruct b eqn:?
  | |- returns (λ _, match ?x with _ => _ end) => destruct x eqn:?
  | |- returns (λ _, let x := ?e in _) => cbv zeta
  | |- returns (λ _, each_ _ _) => apply returns_each_; intros ?
  end.
Ltac returns_go := repeat (first [apply returns_const | returns_step | progress cbv beta | solve [eauto with returns]]).

(** What the operating system owes: the clock reaches every time after finitely many
    readings, and a write is refused only finitely often in a row. *)
Class TtyTime (P : Type) `{Tty P} := {
  ticks : Z → P → nat;                (* readings of the clock before this time *)
  stalls : P → nat;                   (* writes that will be refused *)
  ticks_now : ∀ deadline (p : P), let '(t, p') := tty_now p in
    (ticks deadline p' ≤ ticks deadline p)%nat ∧ (t < deadline → (ticks deadline p' < ticks deadline p)%nat);
  ticks_read : ∀ deadline fd n (p : P), (ticks deadline (tty_read fd n p).2 ≤ ticks deadline p)%nat;
  ticks_poll : ∀ deadline fd ms (p : P), (ticks deadline (tty_poll fd ms p).2 ≤ ticks deadline p)%nat;
  stalls_sleep : ∀ t (p : P), (stalls (tty_sleep t p).2 ≤ stalls p)%nat;
  stalls_write : ∀ fd b l (p : P),
    match tty_write fd (b :: l) p with
    | (inl IO_FATAL, _) | (inr (S _), _) => True
    | (_, p') => (stalls p' < stalls p)%nat
    end;
}.

Section returns.
Context {P : Type} `{TtyTime P}.
Local Abbreviation W := (FtWorld P).

Definition ticks_of (deadline : Z) (w : W) : nat := ticks deadline (tty (serial w)).

Lemma on_tty_run {A} (m : St P A) (s : Serial P) :
  on_tty m s = ((m (tty s)).1, s <| tty := (m (tty s)).2 |>).
Proof. unfold on_tty, lift_into. by destruct (m (tty s)). Qed.
Lemma on_line_run {A} (m : St P A) (w : W) :
  on_line m w = ((m (tty (serial w))).1, w <| serial := (serial w) <| tty := (m (tty (serial w))).2 |> |>).
Proof. unfold on_line, on_serial, on_tty, lift_into. by destruct (m (tty (serial w))). Qed.

Lemma returns_write_loop fd : ∀ (bytes : list Z), returns (λ f, write_loop (P := P) f fd bytes).
Proof.
  intros bytes. remember (length bytes) as n eqn:En. revert bytes En.
  induction (lt_wf n) as [n _ IHn]. intros bytes En s. remember (stalls (tty s)) as k eqn:Ek.
  revert s Ek. induction (lt_wf k) as [k _ IHk]. intros s Ek.
  apply settles_S. destruct bytes as [|b l]; [apply returns_const|].
  cbn [write_loop]. eapply settles_first; [apply on_tty_run|].
  pose proof (stalls_write fd b l (tty s)) as Hs.
  destruct (tty_write fd (b :: l) (tty s)) as [[[]|[|j]] p]; cbn [fst snd].
  - eapply IHk; [|done]. cbn. lia.
  - eapply settles_first; [apply on_tty_run|]. eapply IHk; [|done].
    pose proof (stalls_sleep (milliseconds 1) p) as Hp. cbn in *. lia.
  - apply returns_const.
  - eapply IHk; [|done]. cbn. lia.
  - eapply IHn; [|done]. rewrite length_drop. cbn in *. lia.
Qed.
Hint Resolve returns_write_loop : returns.

Lemma returns_write_bytes bytes : returns (λ f, on_serial (P := P) (write_bytes f bytes)).
Proof. unfold on_serial. apply returns_lift_into. unfold write_bytes. returns_go. Qed.

Definition no_later (deadline : Z) (w w' : W) : Prop := (ticks_of deadline w' ≤ ticks_of deadline w)%nat.
#[local] Instance no_later_preorder deadline : PreOrder (no_later deadline).
Proof. split; [by intros w; unfold no_later|]. intros w1 w2 w3 H1 H2. unfold no_later in *. lia. Qed.

Lemma no_later_now d : steps (no_later d) (on_line tty_now).
Proof.
  intros w. rewrite on_line_run. unfold no_later, ticks_of. cbn. pose proof (ticks_now d (tty (serial w))) as Hn.
  destruct (tty_now (tty (serial w))). apply Hn.
Qed.
Lemma no_later_read d fd n : steps (no_later d) (on_line (tty_read fd n)).
Proof. intros w. rewrite on_line_run. apply ticks_read. Qed.
Lemma no_later_poll d fd ms : steps (no_later d) (on_line (tty_poll fd ms)).
Proof. intros w. rewrite on_line_run. apply ticks_poll. Qed.
Hint Resolve no_later_now no_later_read no_later_poll : steps.

Lemma no_later_read_loop d fuel : ∀ fd n deadline received, steps (no_later d) (read_loop fuel fd n deadline received).
Proof. induction fuel as [|fuel IH]; intros; cbn [read_loop]; steps_go; by apply IH. Qed.
Hint Resolve no_later_read_loop : steps.
Lemma no_later_read_exact d fuel n ms : steps (no_later d) (read_exact fuel n ms).
Proof. unfold read_exact. steps_go. Qed.

Lemma returns_read_loop fd n deadline : ∀ received, returns (λ f, read_loop (P := P) f fd n deadline received).
Proof.
  intros received. remember (n - length received)%nat as m eqn:Em. revert received Em.
  induction (lt_wf m) as [m _ IHm]. intros received Em w. remember (ticks_of deadline w) as k eqn:Ek.
  revert w Ek. induction (lt_wf k) as [k _ IHk]. intros w Ek.
  apply settles_S. cbn [read_loop]. destruct (Nat.leb_spec n (length received)); [apply returns_const|].
  pose proof (no_later_read deadline fd (n - length received) w) as Hr.
  destruct (on_line (tty_read fd (n - length received)) w) as [r w1] eqn:E1. eapply settles_first; [exact E1|].
  cbn [fst snd] in *.
  assert (settles (λ f, now ← on_line tty_now; if deadline <=? now then mret received else
        (on_line (tty_poll fd (if 0 <? (deadline - now) `quot` 1000000 then (deadline - now) `quot` 1000000 else 1));;
         read_loop f fd n deadline received)) w1) as Hwait.
  { eapply settles_first; [apply on_line_run|]. pose proof (ticks_now deadline (tty (serial w1))) as Hn.
    destruct (tty_now (tty (serial w1))) as [t p]. cbn [fst snd]. destruct Hn as [_ Hn].
    destruct (Z.leb_spec deadline t); [apply returns_const|]. specialize (Hn ltac:(done)).
    eapply settles_first; [apply on_line_run|]. eapply IHk; [|done].
    unfold no_later, ticks_of in *. cbn.
    match goal with |- context [tty_poll ?a ?b ?p] => pose proof (ticks_poll deadline a b p) end. lia. }
  destruct r as [[]|[|b l]]; [done|done|apply returns_const|done|].
  eapply IHm; [|done]. rewrite length_app. cbn. lia.
Qed.
Hint Resolve returns_read_loop : returns.

Lemma returns_read_exact n ms : returns (λ f, read_exact (P := P) f n ms).
Proof. unfold read_exact. returns_go. Qed.
Hint Resolve returns_read_exact : returns.

Lemma settles_wait_for_header deadline : ∀ (w : W) count, ∃ F a w', ∀ io fuel, (F ≤ io)%nat → (F ≤ fuel)%nat →
  wait_for_header io fuel deadline count w = (a, w').
Proof.
  intros w. remember (ticks_of deadline w) as k eqn:Ek. revert w Ek. induction (lt_wf k) as [k _ IH].
  intros w Ek count. destruct (remaining_ms deadline w) as [remain w1] eqn:E1.
  assert (remain <=? 0 = false → (ticks_of deadline w1 < ticks_of deadline w)%nat) as Ht.
  { unfold remaining_ms in E1. rewrite bind_run, on_line_run in E1. cbn in E1.
    pose proof (ticks_now deadline (tty (serial w))) as Hn. destruct (tty_now (tty (serial w))) as [t p].
    injection E1 as <- <-. unfold ticks_of. cbn. destruct (Z.leb_spec deadline t); [done|]. intros _. by apply Hn. }
  destruct (remain <=? 0) eqn:Er.
  { exists 1%nat, None, w1. intros io [|fuel] _ Hf; [lia|]. cbn [wait_for_header]. by rewrite bind_run, E1; cbn [fst snd]; rewrite Er. }
  destruct (returns_read_exact 1 remain w1) as (F1 & r & w2 & E2).
  assert (ticks_of deadline w2 < ticks_of deadline w)%nat as Ht2.
  { pose proof (no_later_read_exact deadline F1 1 remain w1) as Hn. rewrite E2 in Hn by lia. specialize (Ht eq_refl).
    unfold no_later in Hn. cbn [snd] in Hn. lia. }
  assert (∀ c, ∃ F a w', ∀ io fuel, (F ≤ io)%nat → (F ≤ fuel)%nat → wait_for_header io fuel deadline c w2 = (a, w')) as Hrec.
  { intros c. eapply IH; [|done]. lia. }
  assert (∀ io fuel, (F1 ≤ io)%nat → wait_for_header io (S fuel) deadline count w =
    match r with [byte] => if byte =? kFtHeaderByte then wait_for_header io fuel deadline (count + 1) w2
      else if 2 <=? count then (Some byte, w2) else wait_for_header io fuel deadline 0 w2 | _ => (None, w2) end) as Eq.
  { intros io fuel Hio. cbn [wait_for_header]. rewrite bind_run, E1. cbn [fst snd]. rewrite Er, bind_run, E2 by done.
    cbn [fst snd]. destruct r as [|byte [|]]; try done. by destruct (byte =? kFtHeaderByte), (2 <=? count). }
  assert (∀ m : nat → nat → Z → option Z * W, (∃ F a w', ∀ io fuel, (F ≤ io)%nat → (F ≤ fuel)%nat → m io fuel 0 = (a, w')) →
    (∀ io fuel, (F1 ≤ io)%nat → wait_for_header io (S fuel) deadline count w = m io fuel 0) →
    ∃ F a w', ∀ io fuel, (F ≤ io)%nat → (F ≤ fuel)%nat → wait_for_header io fuel deadline count w = (a, w')) as Hfin.
  { intros m (F & a & w' & Hm) HE. exists (S (F `max` F1)), a, w'. intros io [|fuel] ? ?; [lia|].
    rewrite HE, Hm by lia. done. }
  destruct r as [|byte [|b2 r]].
  - apply (Hfin (λ _ _ _, (None, w2))); [by exists O, None, w2|]. intros. by rewrite Eq.
  - destruct (byte =? kFtHeaderByte) eqn:Eb; [|destruct (2 <=? count) eqn:Ec].
    + destruct (Hrec (count + 1)) as (F & a & w' & Hm). apply (Hfin (λ io f _, wait_for_header io f deadline (count + 1) w2)).
      * by exists F, a, w'.
      * intros. by rewrite Eq.
    + apply (Hfin (λ _ _ _, (Some byte, w2))); [by exists O, (Some byte), w2|]. intros. by rewrite Eq.
    + destruct (Hrec 0) as (F & a & w' & Hm). apply (Hfin (λ io f _, wait_for_header io f deadline 0 w2)).
      * by exists F, a, w'.
      * intros. by rewrite Eq.
  - apply (Hfin (λ _ _ _, (None, w2))); [by exists O, None, w2|]. intros. by rewrite Eq.
Qed.
Lemma returns_wait_for_header deadline : returns (λ f, wait_for_header (P := P) f f deadline 0).
Proof.
  intros w. destruct (settles_wait_for_header deadline w 0) as (F & a & w' & Hm). exists F, a, w'. intros. by apply Hm.
Qed.

Lemma returns_read_all n deadline : returns (λ f, read_all (P := P) f n deadline).
Proof. unfold read_all. returns_go. Qed.
Hint Resolve returns_write_bytes returns_wait_for_header returns_read_all : returns.

Lemma returns_receive_status id n ms : returns (λ f, receive_status (P := P) f id n ms).
Proof. unfold receive_status. returns_go. Qed.
Lemma returns_send_instruction id inst params : returns (λ f, send_instruction (P := P) f id inst params).
Proof. unfold send_instruction. returns_go. Qed.
Hint Resolve returns_receive_status returns_send_instruction : returns.

Lemma returns_txrx n : ∀ rc id inst params k, returns (λ f, txrx_attempts (P := P) f n rc id inst params k).
Proof. induction n as [|n IH]; intros; cbn [txrx_attempts]; returns_go. all: apply IH. Qed.
Lemma returns_txrx_instruction id inst params k : returns (λ f, txrx_instruction (P := P) f id inst params k).
Proof. apply returns_txrx. Qed.
Hint Resolve returns_txrx_instruction : returns.
Lemma returns_ping id : returns (λ f, ping (P := P) f id).
Proof. unfold ping. returns_go. Qed.
Lemma returns_write_register_raw id a v l : returns (λ f, write_register_raw (P := P) f id a v l).
Proof. unfold write_register_raw. returns_go. Qed.
Hint Resolve returns_ping returns_write_register_raw : returns.
Lemma returns_read_register id a l : returns (λ f, read_register (P := P) f id a l).
Proof. unfold read_register. returns_go. Qed.
Lemma returns_write_register id a v l : returns (λ f, write_register (P := P) f id a v l).
Proof. unfold write_register. returns_go. Qed.
Lemma returns_sync_write a l es : returns (λ f, sync_write (P := P) f a l es).
Proof. unfold sync_write. returns_go. Qed.
Lemma returns_probe_servo id : returns (λ f, probe_servo (P := P) f id).
Proof. unfold probe_servo. returns_go. Qed.
Hint Resolve returns_read_register returns_write_register returns_sync_write returns_probe_servo : returns.
Lemma returns_classify : returns (λ f, classify_dead_servos (P := P) f).
Proof. unfold classify_dead_servos. returns_go. Qed.
Lemma returns_collect n : ∀ pending, returns (λ f, collect_feedback (P := P) f n pending).
Proof. induction n as [|n IH]; intros; cbn [collect_feedback]; returns_go. all: apply IH. Qed.
Hint Resolve returns_classify returns_collect : returns.
Lemma returns_group_read : returns (λ f, group_read_hardware_values (P := P) f).
Proof. unfold group_read_hardware_values. returns_go. Qed.
Lemma returns_group_write : returns (λ f, group_write_hardware_values (P := P) f).
Proof. unfold group_write_hardware_values. returns_go. Qed.
End returns.
#[export] Hint Resolve returns_write_bytes returns_read_register returns_write_register returns_ping
  returns_group_read returns_group_write : returns.
