(* ===== verification/FtFacts.v ===== *)
(** * Theorems on the FeeTech driver and its servos ([DriverFt], [ServoFt])

    Any sequence of calls keeps the driver's books in order and every call returns; a
    leader's servo is only let go when it says so; steps and radians round trip. *)

From S2P Require Import Prelude.
From S2P Require Import FloatSpec.
From S2P Require Import Control.
From S2P Require Import CanBus.
From S2P Require Import Servo.
From S2P Require Import SerialPort.
From S2P Require Import DriverFt.
From S2P Require Import ServoFt.
From S2P Require Import FtProtocol.

(** ** The calls of the driver *)

Inductive FtCall :=
| CallOpen (baud_rate : Z) | CallClose | CallGroupRead | CallGroupWrite | CallRead (p : option ptr)
| CallPing (id : Z) | CallReadRegister (id address length : Z) | CallWriteRegister (id address value length : Z)
| CallEnableTorque (p : option ptr) (enable : bool) | CallSetOperatingMode (p : option ptr) (mode : Z)
| CallSetPid (p : option ptr) (pos_p pos_i pos_d : f32) | CallSetAcceleration (p : option ptr) (acceleration : Z)
| CallGoalDirect (p : option ptr) (goal : Z) | CallGoalGroup (p : option ptr) (goal : Z)
| CallTorqueLimitGroup (p : option ptr) (limit : Z) | CallDiscard (p : option ptr)
| CallTorqueEnabled (p : option ptr) | CallPresentPosition (p : option ptr) | CallSyncGoal (p : option ptr).

Definition is_open (c : FtCall) : bool := match c with CallOpen _ => true | _ => false end.

Section calls.
Context {P : Type} `{Tty P} (undefined_cast : spec_float → Z) (p_device_ : option Device).
Local Abbreviation W := (FtWorld P).

Definition ignore {A} (m : St W A) : St W unit := m;; mret tt.

Definition ft_call (io_fuel : nat) (c : FtCall) : St W unit :=
  match c with
  | CallOpen baud_rate => ignore (ft_open io_fuel p_device_ baud_rate)
  | CallClose => ignore ft_close
  | CallGroupRead => ignore (group_read_hardware_values io_fuel)
  | CallGroupWrite => ignore (group_write_hardware_values io_fuel)
  | CallRead p => ignore (read_hardware_values p)
  | CallPing id => ignore (ping io_fuel id)
  | CallReadRegister id address length => ignore (read_register io_fuel id address length)
  | CallWriteRegister id address value length => ignore (write_register io_fuel id address value length)
  | CallEnableTorque p enable => ignore (enable_torque io_fuel p enable)
  | CallSetOperatingMode p mode => ignore (set_operating_mode io_fuel p mode)
  | CallSetPid p pos_p pos_i pos_d => ignore (set_position_pid io_fuel undefined_cast p pos_p pos_i pos_d)
  | CallSetAcceleration p acceleration => ignore (set_acceleration io_fuel p acceleration)
  | CallGoalDirect p goal => ignore (set_goal_position_direct io_fuel p goal)
  | CallGoalGroup p goal => ignore (set_goal_position_group p goal)
  | CallTorqueLimitGroup p limit => ignore (set_torque_limit_group p limit)
  | CallDiscard p => ignore (discard_pending_group_writes p)
  | CallTorqueEnabled p => ignore (get_torque_enabled io_fuel p)
  | CallPresentPosition p => ignore (get_present_position io_fuel p)
  | CallSyncGoal p => ignore (sync_goal_position_to_present io_fuel p)
  end.

Definition ft_calls (io_fuel : nat) (cs : list FtCall) : St W unit := each_ (ft_call io_fuel) cs.
End calls.

(** ** Every call returns *)

Section returns.
Context {P : Type} `{TtyTime P} (undefined_cast : spec_float → Z) (p_device_ : option Device).
Local Abbreviation W := (FtWorld P).

Lemma returns_with_id {A} p (null : A) (m : nat → Z → St W A) :
  (∀ id, returns (λ f, m f id)) → returns (λ f, with_id p null (m f)).
Proof.
  intros Hm. unfold with_id. apply returns_bind; [apply returns_const|]. intros w.
  destruct (the_servo w p); [apply Hm|apply returns_const].
Qed.

Lemma returns_enable_torque p b : returns (λ f, enable_torque (P := P) f p b).
Proof. apply returns_with_id. intros id. returns_go. Qed.
Lemma returns_get_torque_enabled p : returns (λ f, get_torque_enabled (P := P) f p).
Proof. apply returns_with_id. intros id. returns_go. Qed.
Lemma returns_set_operating_mode p m : returns (λ f, set_operating_mode (P := P) f p m).
Proof. apply returns_with_id. intros id. returns_go. Qed.
Lemma returns_set_acceleration p a : returns (λ f, set_acceleration (P := P) f p a).
Proof. apply returns_with_id. intros id. returns_go. Qed.
Lemma returns_set_position_pid p a b c : returns (λ f, set_position_pid (P := P) f undefined_cast p a b c).
Proof. apply returns_with_id. intros id. returns_go. Qed.
Lemma returns_get_present_position p : returns (λ f, get_present_position (P := P) f p).
Proof. apply returns_with_id. intros id. returns_go. Qed.
Lemma returns_set_goal_position_direct p g : returns (λ f, set_goal_position_direct (P := P) f p g).
Proof. apply returns_with_id. intros id. returns_go. Qed.
Hint Resolve returns_enable_torque returns_get_torque_enabled returns_set_operating_mode returns_set_acceleration
  returns_set_position_pid returns_get_present_position returns_set_goal_position_direct : returns.

Lemma returns_sync_goal p : returns (λ f, sync_goal_position_to_present (P := P) f p).
Proof. unfold sync_goal_position_to_present. returns_go. Qed.
Lemma returns_open baud_rate : returns (λ f, ft_open (P := P) f p_device_ baud_rate).
Proof. unfold ft_open. returns_go. Qed.
Hint Resolve returns_sync_goal returns_open : returns.

(** [C27] Every call of the FeeTech driver returns: if the clock advances and the port
    does not refuse writes for ever, the waits, retries and byte loops of the call end
    in one value and state, however the line and the servos behave. *)
Theorem ft_calls_return c (w : W) :
  ∃ F w', ∀ io_fuel, (F ≤ io_fuel)%nat → ft_call undefined_cast p_device_ io_fuel c w = (tt, w').
Proof.
  assert (returns (λ f, ft_call (P := P) undefined_cast p_device_ f c)) as Hc.
  { destruct c; unfold ft_call, ignore; returns_go. }
  destruct (Hc w) as (F & [] & w' & HF). by exists F, w'.
Qed.
End returns.

(** ** The driver's books *)

Record ft_wf (f : FtDriver) : Prop := {
  wf_total : servo_num_total_ f = Z.of_nat (length (all_servo_ids_ f));
  wf_sync : sync_read_ids_ f = alive_ids f;
  wf_dead : ∀ id, id ∈ dead_servo_ids_ f → id ∈ all_servo_ids_ f;
  wf_first : last_failed_servo_id_ f = first_dead f;
  wf_caches : Forall (λ n, n = length (all_servo_ids_ f))
    [length (pres_pos_ f); length (pres_vel_ f); length (pres_load_ f); length (pres_temp_ f); length (pres_status_ f)];
  wf_pos : Forall (is_unsigned 16) (pres_pos_ f);
  wf_goal : Forall (λ e, 0 ≤ e.2 ≤ 4095) (pending_goal_position_ f);
  wf_torque : Forall (λ e, 0 ≤ e.2 ≤ 1000) (pending_torque_limit_ f);
}.

(** What every call but [open] respects. *)
Record sound_ft (f f' : FtDriver) : Prop := {
  so_all : all_servo_ids_ f' = all_servo_ids_ f;
  so_dead : dead_servo_ids_ f ⊆ dead_servo_ids_ f';
  so_wf : ft_wf f → ft_wf f';
}.
#[export] Instance sound_ft_preorder : PreOrder sound_ft.
Proof. split; [by intros f|]. intros f1 f2 f3 [] []. split; [congruence|set_solver|auto]. Qed.

Definition sound {P} (w w' : FtWorld P) : Prop := sound_ft (ft w) (ft w').
#[export] Instance sound_preorder P : PreOrder (@sound P).
Proof. split; [by intros w; unfold sound|]. intros w1 w2 w3. unfold sound. by etrans. Qed.

Lemma clamp_Z_range lo hi x : lo ≤ hi → lo ≤ clamp_Z lo hi x ≤ hi.
Proof. intros. unfold clamp_Z. split_ifs; lia. Qed.
Lemma clamp_Z_id lo hi x : lo ≤ x ≤ hi → clamp_Z lo hi x = x.
Proof.
  intros. unfold clamp_Z. destruct (Z.ltb_spec x lo); [lia|]. destruct (Z.ltb_spec hi x); [lia|done].
Qed.
Lemma clamp_goal_range g : 0 ≤ u16 (clamp_goal g) ≤ 4095.
Proof.
  pose proof (clamp_Z_range kFtGoalPositionMin kFtGoalPositionMax g ltac:(by vm_compute)) as Hr.
  unfold clamp_goal, kFtGoalPositionMin, kFtGoalPositionMax in *. rewrite wrap_small; [done|]. unfold is_unsigned. lia.
Qed.
Lemma clamp_torque_range t : 0 ≤ u16 (clamp_torque_limit t) ≤ 1000.
Proof.
  pose proof (clamp_Z_range kFtTorqueLimitMin kFtTorqueLimitMax t ltac:(by vm_compute)) as Hr.
  unfold clamp_torque_limit, kFtTorqueLimitMin, kFtTorqueLimitMax in *. rewrite wrap_small; [done|]. unfold is_unsigned. lia.
Qed.

Lemma Forall_filter_keep {A} (Q : A → Prop) (p : A → Prop) `{!∀ x, Decision (p x)} (l : list A) : Forall Q l → Forall Q (filter p l).
Proof. rewrite !Forall_forall. intros HQ x [_ Hx]%list_elem_of_filter. by apply HQ. Qed.

Lemma filter_every {A} (p : A → Prop) `{!∀ x, Decision (p x)} (l : list A) : (∀ x, x ∈ l → p x) → filter p l = l.
Proof.
  induction l as [|x l IH]; intros Hp; [done|]. rewrite filter_cons_True by (apply Hp; left).
  f_equal. apply IH. intros y Hy. apply Hp. by right.
Qed.

Lemma sound_store i fb f : sound_ft f (store_feedback i fb f).
Proof.
  split; [done..|]. intros [? ? ? ? C ? ? ?]. rewrite !Forall_cons in C. split; try done; cbn.
  - rewrite !length_insert. rewrite !Forall_cons. tauto.
  - apply Forall_insert; [done|]. by apply wrap_range.
Qed.

Lemma sound_reset ids f : ft_wf (reset_driver ids f).
Proof.
  split; try done; cbn.
  - symmetry. by apply filter_every.
  - by rewrite !length_replicate, !Forall_cons.
  - by apply Forall_replicate.
Qed.

Section sound.
Context {P : Type} `{Tty P} (io_fuel : nat) (undefined_cast : spec_float → Z) (p_device_ : option Device).
Local Abbreviation W := (FtWorld P).

Lemma sound_same {A} (m : St W A) : steps (same_driver (P := P)) m → steps (sound (P := P)) m.
Proof. intros Hm w. destruct (Hm w) as (E & _). unfold sound. by rewrite E. Qed.
Lemma sound_on_ft f : (∀ x, sound_ft x (f x)) → steps (sound (P := P)) (on_ft f).
Proof. intros Hf w. apply Hf. Qed.
Hint Resolve sound_same : steps.

Lemma sound_collect n : ∀ pending, steps (sound (P := P)) (collect_feedback io_fuel n pending).
Proof.
  induction n as [|n IH]; intros; cbn [collect_feedback]; steps_go; try by apply IH.
  apply sound_on_ft. intros f. apply sound_store.
Qed.

(** Probing moves only silent servos of the bus into the dead set. *)
Definition probing (ids : list Z) (w w' : W) : Prop :=
  fd_of w' = fd_of w ∧ ∃ dead, ft w' = (ft w) <| dead_servo_ids_ := dead |> ∧
    dead_servo_ids_ (ft w) ⊆ dead ∧ ∀ id, id ∈ dead → id ∈ dead_servo_ids_ (ft w) ∨ id ∈ ids.
#[local] Instance probing_preorder ids : PreOrder (probing ids).
Proof.
  split.
  - intros w. split; [done|]. exists (dead_servo_ids_ (ft w)). split_and!; [by destruct (ft w)|done|auto].
  - intros w1 w2 w3 (F1 & d1 & E1 & S1 & O1) (F2 & d2 & E2 & S2 & O2). split; [congruence|]. rewrite E1 in *. cbn in *.
    exists d2. split_and!; [by rewrite E2|set_solver|]. intros id Hid. destruct (O2 id Hid); auto.
Qed.
Lemma probing_same {A} ids (m : St W A) : steps (same_driver (P := P)) m → steps (probing ids) m.
Proof.
  intros Hm w. destruct (Hm w) as (E & _ & _ & F). split; [done|]. exists (dead_servo_ids_ (ft w)).
  split_and!; [by rewrite E; destruct (ft w)|done|auto].
Qed.
Hint Resolve probing_same : steps.

Lemma probing_probe_servo ids id : id ∈ ids → steps (probing ids) (probe_servo io_fuel id).
Proof.
  intros Hid. unfold probe_servo. steps_go. intros w. split; [done|]. eexists. split_and!; [done|cbn; set_solver|].
  cbn. intros x [->%elem_of_singleton|]%elem_of_union; auto.
Qed.

Lemma probing_each ids l : (∀ id, id ∈ l → id ∈ ids) → steps (probing ids) (each_ (probe_servo io_fuel) l).
Proof.
  induction l as [|id l IH]; intros Hl; cbn [each_]; [apply steps_ret, _|].
  apply steps_bind; [exact _| |intros _; apply IH; set_solver]. apply probing_probe_servo. set_solver.
Qed.

Lemma sound_classify : steps (sound (P := P)) (classify_dead_servos io_fuel).
Proof.
  intros w. unfold classify_dead_servos. rewrite bind_run. cbn [get_state fst snd]. rewrite bind_run.
  set (m := when_ _ _). assert (probing (all_servo_ids_ (ft w)) w (m w).2) as (_ & dead & E & Hsub & Hdead).
  { revert w m. intros w m. unfold m, when_. destruct (existsb _ _); [by apply probing_each|]. cbn. reflexivity. }
  unfold sound. cbn. rewrite E. split; [done..|]. intros [T S D F C Q G L]. split; try done. cbn. intros id Hid.
  destruct (Hdead id Hid); auto.
Qed.
Hint Resolve sound_collect sound_classify : steps.

Lemma sound_report_first : steps (sound (P := P)) (on_ft report_first_dead).
Proof. apply sound_on_ft. intros f. split; [done..|]. intros []. by split. Qed.
Hint Resolve sound_report_first : steps.

Lemma sound_group_read : steps (sound (P := P)) (group_read_hardware_values io_fuel).
Proof. unfold group_read_hardware_values, require. steps_go. Qed.

Lemma sound_empty_queue (f : FtDriver → FtDriver) :
  (∀ x, f x = x <| pending_torque_limit_ := [] |> ∨ f x = x <| pending_goal_position_ := [] |>) →
  steps (sound (P := P)) (on_ft f).
Proof.
  intros Hf. apply sound_on_ft. intros x. destruct (Hf x) as [-> | ->]; (split; [done..|]; intros []; by split).
Qed.

Lemma sound_group_write : steps (sound (P := P)) (group_write_hardware_values io_fuel).
Proof. unfold group_write_hardware_values. steps_go; apply sound_empty_queue; auto. Qed.

Lemma steps_with_id {A} R `{!PreOrder R} p (null : A) (m : Z → St W A) : (∀ id, steps R (m id)) → steps R (with_id p null m).
Proof. intros Hm. unfold with_id. steps_go. Qed.

Lemma sound_queue_for p enqueue : (∀ id f, sound_ft f (enqueue id f)) → steps (sound (P := P)) (queue_for p enqueue).
Proof.
  intros Hq. apply steps_with_id; [exact _|]. intros id. steps_go. apply sound_on_ft. apply Hq.
Qed.

Lemma sound_goal_group p g : steps (sound (P := P)) (set_goal_position_group p g).
Proof.
  apply sound_queue_for. intros id f. split; [done..|]. intros []. split; try done; cbn.
  apply Forall_app. split; [done|]. constructor; [apply clamp_goal_range|done].
Qed.
Lemma sound_torque_group p t : steps (sound (P := P)) (set_torque_limit_group p t).
Proof.
  apply sound_queue_for. intros id f. split; [done..|]. intros []. split; try done; cbn.
  apply Forall_app. split; [done|]. constructor; [apply clamp_torque_range|done].
Qed.
Lemma sound_discard p : steps (sound (P := P)) (discard_pending_group_writes p).
Proof.
  apply steps_with_id; [exact _|]. intros id. apply sound_on_ft. intros f. split; [done..|]. intros [].
  split; try done; cbn; by apply Forall_filter_keep.
Qed.

Lemma same_sync_goal p : steps (same_driver (P := P)) (sync_goal_position_to_present io_fuel p).
Proof.
  unfold sync_goal_position_to_present, get_present_position, set_goal_position_direct.
  apply steps_bind; [exact _|apply steps_with_id; [exact _|]; intros id; steps_go|]. intros [rc pos].
  destruct (negb (ok rc)); [apply steps_ret, _|]. apply steps_with_id; [exact _|]. intros id. steps_go.
Qed.

Lemma same_serial_close : steps (λ w w', ft w' = ft w) (on_serial (P := P) serial_close).
Proof. intros w. unfold on_serial, lift_into. by destruct (serial_close (serial w)). Qed.

Lemma sound_read p : steps (sound (P := P)) (read_hardware_values p).
Proof. intros w. unfold read_hardware_values. rewrite bind_run. cbn. repeat case_match; unfold sound; cbn; done. Qed.

Hint Resolve sound_group_read sound_group_write sound_goal_group sound_torque_group sound_discard sound_read same_sync_goal : steps.

Lemma sound_call c : is_open c = false → steps (sound (P := P)) (ft_call undefined_cast p_device_ io_fuel c).
Proof.
  intros Hc. destruct c; try done; unfold ft_call, ignore; (apply steps_bind; [exact _| |intros a; apply steps_ret, _]);
    try solve [eauto with steps | apply sound_same, steps_with_id; [exact _|]; intros i; unfold require; steps_go].
  intros w. pose proof (same_serial_close w) as E. unfold sound, ft_close. cbv beta in E. by rewrite E.
Qed.

Lemma ft_open_wf baud_rate (w : W) : ft_wf (ft w) → ft_wf (ft (ft_open io_fuel p_device_ baud_rate w).2).
Proof.
  intros Hw. unfold ft_open, require. rewrite bind_run.
  assert (ft (on_serial (serial_open baud_rate) w).2 = ft w) as E1.
  { unfold on_serial, lift_into. by destruct (serial_open baud_rate (serial w)). }
  destruct (on_serial (serial_open baud_rate) w) as [rc w1]. cbn [fst snd] in *.
  destruct (negb (ok rc)); [by cbn; rewrite E1|]. destruct p_device_ as [d|]; [|by cbn; rewrite E1].
  rewrite bind_run. cbn [on_ft modify fst snd]. destruct (bool_decide _); [apply sound_reset|].
  rewrite bind_run. cbn [snd]. apply (so_wf _ _ (sound_group_read _)). apply sound_reset.
Qed.

(** [C28] Any sequence of driver calls keeps the books in order: the bulk read asks
    exactly the servos of the bus that are not dead, the reported break point is the
    smallest dead id, the caches have one slot per servo, and every queued goal and
    torque limit is within the range of its register.  Until the next [open] a dead
    servo stays dead. *)
Theorem ft_driver_books cs (w : W) : ft_wf (ft w) →
  let w' := (ft_calls undefined_cast p_device_ io_fuel cs w).2 in
  ft_wf (ft w') ∧
  (existsb is_open cs = false →
   all_servo_ids_ (ft w') = all_servo_ids_ (ft w) ∧ dead_servo_ids_ (ft w) ⊆ dead_servo_ids_ (ft w')).
Proof.
  unfold ft_calls. revert w. induction cs as [|c cs IH]; intros w Hw; [done|].
  cbn [each_]. rewrite bind_run. set (w1 := (ft_call undefined_cast p_device_ io_fuel c w).2).
  assert (ft_wf (ft w1)) as H1.
  { destruct (is_open c) eqn:Ec; [|by apply (sound_call c Ec w)]. destruct c; try done. subst w1.
    unfold ft_call, ignore. rewrite bind_run. by apply ft_open_wf. }
  destruct (IH w1 H1) as [H2 Hno]. split; [done|]. cbn [existsb]. intros [Ec Ecs]%orb_false_iff.
  destruct (Hno Ecs) as [E D]. destruct (sound_call c Ec w) as [E1 D1 _]. fold w1 in E1, D1. split; [congruence|by etrans].
Qed.
End sound.

(** ** Letting a leader go *)

Section leader.
Context {P : Type} `{TtyLaws P} (io_fuel : nat) (d : Device) (this : ptr).
Local Abbreviation W := (FtWorld (Logged P)).

(** The last thing heard is a status packet with these parameters, from the servo of this
    id, of which the bus carries the low byte; were that the broadcast id, from any. *)
Definition answered (id : Z) (rsp : list Z) (w : W) : Prop :=
  ∃ before sender error_byte, heard_of w = before ++ status_packet sender error_byte rsp ∧
    (u8 id = kFtBroadcastId ∨ sender = u8 id).

Lemma txrx_answered n : ∀ rc id inst params k (w : W), rc ≠ SUCCESS →
  wp (txrx_attempts io_fuel n rc (u8 id) inst params k)
     (λ r w', r.1 = SUCCESS → length r.2 = k ∧ answered id r.2 w') w.
Proof.
  induction n as [|n IH]; intros rc id inst params k w Hrc; cbn [txrx_attempts]; [by wp_step|].
  wp_step. unfold wp at 1. set (w1 := (flush_input w).2). wp_step. unfold wp at 1.
  set (s1 := send_instruction io_fuel (u8 id) inst params w1). wp_step.
  { wp_step. cbn. intros E. by rewrite E in *. }
  wp_step. eapply wp_mono; [apply receive_status_heard|]. intros [[rc' id'] rsp] w2 Hg. unfold genuine in Hg.
  destruct (ok rc') eqn:Eok.
  - apply ok_spec in Eok as ->. wp_step. intros _. cbn [snd].
    destruct (Hg eq_refl) as (Hl & _ & Hid & _ & noise & err & E). split; [done|].
    exists (heard_of s1.2 ++ noise), id', err. by rewrite E, <- (assoc_L (++)).
  - apply IH. by apply ok_false.
Qed.

Lemma read_register_answered id address (w : W) :
  wp (read_register io_fuel id address 1) (λ r w', r.1 = SUCCESS → answered id [r.2] w') w.
Proof.
  unfold read_register, txrx_instruction. cbn [length_ok orb negb].
  change (negb (length_ok 1)) with false. cbv beta iota. wp_step.
  eapply wp_mono; [by apply txrx_answered|].
  intros [rc rsp] w' Hr. cbn in Hr. destruct (ok rc) eqn:Eok; cbn [negb].
  - apply ok_spec in Eok as ->. wp_step. intros _. cbn [fst snd]. destruct (Hr eq_refl) as [Hl Ha].
    destruct rsp as [|b [|]]; try done.
  - wp_step. cbn. intros ->. done.
Qed.

Lemma same_enable_torque p b : steps (same_driver (P := Logged P)) (enable_torque io_fuel p b).
Proof. apply steps_with_id; [exact _|]. intros id. steps_go. Qed.
Lemma same_get_torque_enabled p : steps (same_driver (P := Logged P)) (get_torque_enabled io_fuel p).
Proof. apply steps_with_id; [exact _|]. intros id. steps_go. Qed.
Lemma same_then_wait us (m : St W ReturnCode) : steps (same_driver (P := Logged P)) m → steps (same_driver (P := Logged P)) (then_wait us m).
Proof. intros Hm. unfold then_wait, usleep. steps_go. Qed.
Hint Resolve same_enable_torque same_get_torque_enabled same_then_wait : steps.

Lemma same_disable_torque n : steps (same_driver (P := Logged P)) (disable_torque_verified io_fuel this n).
Proof.
  induction n as [|n IH]; cbn [disable_torque_verified]; [apply steps_ret, _|]. unfold require, usleep. steps_go; exact IH.
Qed.

Lemma disable_torque_answered n : ∀ s (w : W), ft_servos w !! this = Some s →
  wp (disable_torque_verified io_fuel this n) (λ rc w', rc = SUCCESS → answered (id_ (ft_servo s)) [0] w') w.
Proof.
  induction n as [|n IH]; intros s w Hs; cbn [disable_torque_verified]; [by wp_step|].
  apply wp_require. pose proof (same_then_wait 200 _ (same_enable_torque (me this) false) w) as (_ & E1 & _).
  unfold wp at 1. set (r1 := then_wait 200 (enable_torque io_fuel (me this) false) w) in *.
  destruct (ok r1.1) eqn:Er; [|by intros E; rewrite E in Er]. wp_step.
  assert (ft_servos r1.2 !! this = Some s) as Hs1 by (by rewrite E1).
  pose proof (same_get_torque_enabled (me this) r1.2) as (_ & E2 & _). unfold wp at 1.
  assert (wp (get_torque_enabled io_fuel (me this)) (λ r w', r.1 = SUCCESS → answered (id_ (ft_servo s)) [r.2] w') r1.2) as Hw.
  { unfold get_torque_enabled, with_id. do 2 wp_step. unfold the_servo, me. cbn. rewrite Hs1. apply read_register_answered. }
  unfold wp in Hw. destruct (get_torque_enabled io_fuel (me this) r1.2) as [[rc v] w2]. cbn [fst snd] in *.
  destruct (ok rc) eqn:Eok; cbn [negb]; [|wp_step; by intros ->]. apply ok_spec in Eok as ->.
  destruct (Z.eqb_spec v 0) as [->|].
  { wp_step. intros _. by apply Hw. }
  wp_step. unfold wp at 1. apply IH.
  destruct (same_on_line (P := Logged P) (tty_sleep (FT_TORQUE_DISABLE_RETRY_DELAY_US * 1000)) w2) as (_ & E3 & _).
  unfold usleep. by rewrite E3, E2.
Qed.

(** [C26] A leader's servo is let go only when it says so.  If the change to leader mode
    succeeds, either the device is read-only and nothing at all was done, or the last
    packet heard is the servo's own answer that its torque is off (of a servo whose id is
    the broadcast id of the bus, some servo's), and no goal or torque limit is queued for
    it, so that the next flush cannot engage it again; what is queued for other servos
    stays. *)
Theorem passive_leader_released has_driver s (w : W) : ft_servos w !! this = Some s →
  let '(rc, w') := ft_change_control_mode_for_leader io_fuel d has_driver this w in
  rc = SUCCESS →
  if is_read_only_ d then w' = w
  else
    answered (id_ (ft_servo s)) [0] w' ∧
    (∀ e, e ∈ pending_goal_position_ (ft w') ++ pending_torque_limit_ (ft w') → e.1 ≠ id_ (ft_servo s)) ∧
    (∀ e, e.1 ≠ id_ (ft_servo s) →
       (e ∈ pending_goal_position_ (ft w) ↔ e ∈ pending_goal_position_ (ft w')) ∧
       (e ∈ pending_torque_limit_ (ft w) ↔ e ∈ pending_torque_limit_ (ft w'))).
Proof.
  intros Hs. unfold ft_change_control_mode_for_leader, on_hardware. destruct has_driver; [|done].
  cbn [negb]. destruct (is_read_only_ d); [done|]. destruct (is_force_feedback_enabled d); [done|]. rewrite bind_run.
  unfold discard_pending_group_writes, with_id. rewrite bind_run. cbn [get_state fst snd]. unfold the_servo, me.
  cbn [mbind option_bind]. rewrite Hs. unfold on_ft, modify. cbn [fst snd]. set (w1 := w <| ft := _ |>).
  assert (ft_servos w1 !! this = Some s) as Hs1 by done.
  pose proof (disable_torque_answered FT_TORQUE_DISABLE_MAX_ATTEMPTS s w1 Hs1) as Ha.
  pose proof (same_disable_torque FT_TORQUE_DISABLE_MAX_ATTEMPTS w1) as (E & _). unfold wp in Ha.
  destruct (disable_torque_verified _ _ _ w1) as [rc w2]. cbn [fst snd] in *. intros Hrc. rewrite E. cbn.
  split; [by apply Ha|]. unfold drop_id. split.
  - intros e [[He _]%list_elem_of_filter|[He _]%list_elem_of_filter]%elem_of_app; exact He.
  - intros e He. rewrite !list_elem_of_filter. tauto.
Qed.
End leader.

(** ** Steps and radians *)

(** The encoder of the supported model: 4096 steps with the middle at 2048. *)
Definition sts3215 (s : Servo) : ServoFt := mkServoFt s 0 4096 2048 0.

(** The goal that holds the servo where it measures itself, in steps. *)
Definition hold_steps (s : Servo) (steps : Z) : option Z := rad_to_steps (sts3215 s) (steps_to_rad (sts3215 s) steps).

Definition near (s : Servo) (steps : Z) : bool :=
  match hold_steps s steps with Some goal => (steps - 1 <=? goal) && (goal <=? steps) | None => false end.

Lemma all_near s : forall_below 4096 0 (near s) = true.
Proof. by vm_compute. Qed.

(** A measured position commanded back is a goal of the encoder at most one step
    below, for every one of its 4096 steps: a servo that holds its pose never jumps,
    and no pose leaves the range of the goal register. *)
Theorem hold_within_one_step s steps : 0 ≤ steps < 4096 →
  ∃ goal, hold_steps s steps = Some goal ∧ steps - 1 ≤ goal ≤ steps ∧ clamp_goal goal = goal.
Proof.
  intros Hs. pose proof (forall_below_spec 4096 0 (near s) (all_near s) steps ltac:(lia)) as Hn. unfold near in Hn.
  destruct (hold_steps s steps) as [goal|] eqn:E; [|done]. apply andb_true_iff in Hn as [H1 H2].
  assert (steps = 0 → goal = 0) as H0.
  { intros ->. assert (hold_steps s 0 = Some 0) as E0 by by vm_compute. rewrite E0 in E. by injection E. }
  exists goal. split; [done|]. split; [lia|]. apply clamp_Z_id.
  unfold kFtGoalPositionMin, kFtGoalPositionMax. destruct (decide (steps = 0)); lia.
Qed.
Lemma hold_within_one_step_witness :
  let s := new_Servo follower_arm None in
  ∃ goal, hold_steps s 1000 = Some goal ∧ 999 ≤ goal ≤ 1000 ∧ clamp_goal goal = goal.
Proof. intros s. by apply (hold_within_one_step s 1000). Defined.

(** The conversion truncates: half of the positions are commanded one step low. *)
Lemma hold_drifts s : length (filter (λ steps, bool_decide (hold_steps s steps = Some (steps - 1))) (seqZ 0 4096)) = 2047%nat.
Proof. by vm_compute. Qed.

(** ** Sign and magnitude *)

Lemma sign_magnitude_roundtrip value sign_bit : 0 ≤ sign_bit < 31 → - 2 ^ sign_bit < value < 2 ^ sign_bit →
  decode_sign_magnitude (encode_sign_magnitude value sign_bit) sign_bit = value.
Proof.
  intros Hb Hv. pose proof (Z.pow_lt_mono_r 2 sign_bit 31 ltac:(lia) ltac:(lia) ltac:(lia)).
  pose proof (Z.pow_pos_nonneg 2 sign_bit ltac:(lia) ltac:(lia)).
  unfold decode_sign_magnitude, encode_sign_magnitude. rewrite !Z.shiftl_1_l.
  assert (∀ m, 0 ≤ m < 2 ^ sign_bit → u32 m = m) as Hu.
  { intros m Hm. apply wrap_small. unfold is_unsigned. change (2 ^ 32) with (2 * 2 ^ 31). lia. }
  assert (2 ^ sign_bit - 1 = Z.ones sign_bit) as -> by (rewrite Z.ones_equiv; lia).
  assert (∀ z, (Z.land z (2 ^ sign_bit) =? 0) = negb (Z.testbit z sign_bit)) as Ht.
  { intros z. destruct (Z.testbit z sign_bit) eqn:E; cbn.
    - apply Z.eqb_neq. intros E0. assert (Z.testbit (Z.land z (2 ^ sign_bit)) sign_bit = true) as E1.
      { rewrite Z.land_spec, E, Z.pow2_bits_true by lia. done. }
      by rewrite E0, Z.bits_0 in E1.
    - apply Z.eqb_eq, Z.bits_inj'. intros i Hi. rewrite Z.land_spec, Z.bits_0.
      destruct (decide (i = sign_bit)) as [->|]; [by rewrite E|]. rewrite Z.pow2_bits_false by lia. apply andb_false_r. }
  assert (∀ m, 0 ≤ m < 2 ^ sign_bit → Z.testbit m sign_bit = false) as Hs.
  { intros m Hm. rewrite <- (Z.mod_small m (2 ^ sign_bit)) by lia. apply Z.mod_pow2_bits_high. lia. }
  rewrite Ht, negb_involutive. destruct (Z.ltb_spec value 0).
  - rewrite Hu by lia. rewrite Z.lor_spec, Z.pow2_bits_true, orb_true_r by lia.
    rewrite Z.land_lor_distr_l, !Z.land_ones, Z.mod_same, Z.lor_0_r, Z.mod_small by lia. lia.
  - rewrite Hu, Hs by lia. done.
Qed.
