(* ===== verification/FtBus.v ===== *)
(** * A bus of FeeTech servos

    The servos' side of the protocol, as the comments of pi_driver_ft.cpp state it:
    every servo has byte registers, answers ping, read and write with a status packet,
    answers a bulk read in the order of its id list, obeys a bulk write silently, and
    ignores writes to EEPROM registers while its lock flag is set.  On this line the
    driver's transactions do to the registers what their names say. *)

From S2P Require Import Prelude.
From S2P Require Import FloatSpec.
From S2P Require Import Control.
From S2P Require Import CanBus.
From S2P Require Import Servo.
From S2P Require Import SerialPort.
From S2P Require Import DriverFt.
From S2P Require Import ServoFt.
From S2P Require Import FtProtocol.
From S2P Require Import FtFacts.

(** ** The servos *)

Record FtBus := mkFtBus {
  present : gset Z;               (* ids of the servos on the bus *)
  regs : gmap (Z * Z) Z;          (* by id and address, zero where absent *)
  rx : list Z;                    (* bytes under way to the host *)
  bus_time : Z;
}.
#[export] Instance eta_FtBus : Eta FtBus := λ r, mkFtBus (present r) (regs r) (rx r) (bus_time r).

Definition reg (m : gmap (Z * Z) Z) (id address : Z) : Z := default 0 (m !! (id, address)).

Fixpoint put (m : gmap (Z * Z) Z) (id address : Z) (values : list Z) : gmap (Z * Z) Z :=
  match values with
  | [] => m
  | v :: values => put (<[(id, address) := v]> m) id (address + 1) values
  end.

(** A locked EEPROM register keeps its value. *)
Definition write_regs (m : gmap (Z * Z) Z) (id address : Z) (values : list Z) : gmap (Z * Z) Z :=
  if (address <? kFtSramStartAddr) && negb (reg m id kFtAddrLockFlag =? 0) then m else put m id address values.

Definition read_regs (m : gmap (Z * Z) Z) (id address : Z) (n : nat) : list Z :=
  map (λ k, reg m id (address + Z.of_nat k)) (seq 0 n).

(** FF FF ID LEN INST PARAMS CHK with the right length and checksum. *)
Definition parse_instruction (packet : list Z) : option (Z * Z * list Z) :=
  match packet with
  | h1 :: h2 :: id :: len :: inst :: rest =>
      let params := take (length rest - 1) rest in
      if (h1 =? kFtHeaderByte) && (h2 =? kFtHeaderByte) && (len =? Z.of_nat (length rest) + 1) &&
         (nth (length rest - 1) rest (-1) =? ft_checksum (id :: len :: inst :: params))
      then Some (id, inst, params) else None
  | _ => None
  end.

(** The entries of a bulk write, [len] bytes each. *)
Fixpoint bulk_entries (fuel : nat) (len : nat) (params : list Z) : list (Z * list Z) :=
  match fuel, params with
  | S fuel, id :: params => (id, take len params) :: bulk_entries fuel len (drop len params)
  | _, _ => []
  end.

Definition reply (id : Z) (params : list Z) (b : FtBus) : FtBus := b <| rx := rx b ++ status_packet id 0 params |>.

Definition obey (inst id : Z) (params : list Z) (b : FtBus) : FtBus :=
  if inst =? kFtInstPing then reply id [] b
  else if inst =? kFtInstRead then
    match params with [address; n] => reply id (read_regs (regs b) id address (Z.to_nat n)) b | _ => b end
  else if inst =? kFtInstWrite then
    match params with
    | address :: values => reply id [] (b <| regs := write_regs (regs b) id address values |>)
    | [] => b
    end
  else b.

Definition obey_all (inst : Z) (params : list Z) (b : FtBus) : FtBus :=
  match params with
  | address :: n :: params =>
      if inst =? kFtInstSyncRead then
        foldl (λ b id, if bool_decide (id ∈ present b)
                       then reply id (read_regs (regs b) id address (Z.to_nat n)) b else b) b params
      else if inst =? kFtInstSyncWrite then
        foldl (λ b '(id, values), if bool_decide (id ∈ present b)
                                  then b <| regs := write_regs (regs b) id address values |> else b)
              b (bulk_entries (length params) (Z.to_nat n) params)
      else b
  | _ => b
  end.

Definition receive_packet (packet : list Z) (b : FtBus) : FtBus :=
  match parse_instruction packet with
  | None => b
  | Some (id, inst, params) =>
      if id =? kFtBroadcastId then obey_all inst params b
      else if bool_decide (id ∈ present b) then obey inst id params b
      else b
  end.

(** ** The line

    A reading of the clock takes a microsecond; what is written reaches the servos as
    one packet. *)
Definition clock_step : Z := 1000.

#[export] Instance bus_tty : Tty FtBus := {|
  tty_now := λ b, (bus_time b, b <| bus_time := bus_time b + clock_step |>);
  tty_sleep := λ t b, (tt, b <| bus_time := bus_time b + Z.max 0 t |>);
  tty_open := λ _ b, (3, b);
  tty_tcgetattr := λ _ b, (true, b);
  tty_tcsetattr := λ _ _ b, (true, b);
  tty_get_modem_bits := λ _ b, (false, b);
  tty_set_dtr_rts := λ _ b, (false, b);
  tty_flush := λ _ b, (tt, b <| rx := [] |>);
  tty_close := λ _ b, (tt, b);
  tty_read := λ _ n b, (inr (take n (rx b)), b <| rx := drop n (rx b) |>);
  tty_write := λ _ bytes b, (inr (length bytes), receive_packet bytes b);
  tty_poll := λ _ ms b, (tt, b <| bus_time := bus_time b + Z.max 0 (milliseconds ms) |>);
|}.

(** It keeps its word on time and writing, so every call on it returns. *)
#[export] Instance bus_time_laws : TtyTime FtBus.
Proof.
  refine {| ticks := λ d b, Z.to_nat (d - bus_time b); stalls := λ _, O |}.
  - intros d b. cbn. unfold clock_step. lia.
  - intros. by cbn.
  - intros. cbn. lia.
  - done.
  - done.
Defined.

(** ** Packets *)

Lemma parse_instruction_packet id inst params : (length params < 254)%nat →
  parse_instruction (instruction_packet id inst params) = Some (id, inst, params).
Proof.
  intros Hl. unfold parse_instruction, instruction_packet. cbn [app].
  rewrite length_app. cbn [length]. rewrite Nat.add_sub, take_app_length.
  assert (u8 (Z.of_nat (length params) + 2) = Z.of_nat (length params) + 2) as Eu.
  { apply wrap_small. unfold is_unsigned. change (2 ^ 8) with 256. lia. }
  rewrite Eu, app_nth2, Nat.sub_diag by lia. cbn [nth].
  assert (Z.of_nat (length params) + 2 =? Z.of_nat (length params + 1) + 1 = true) as -> by (apply Z.eqb_eq; lia).
  by rewrite !Z.eqb_refl.
Qed.

Lemma bulk_entries_params fuel (entries : list (Z * list Z)) len :
  Forall (λ e, length e.2 = len) entries →
  (length (concat (map (λ e, e.1 :: e.2) entries)) ≤ fuel)%nat →
  bulk_entries fuel len (concat (map (λ e, e.1 :: e.2) entries)) = entries.
Proof.
  intros Hf. revert fuel. induction Hf as [|[id vs] entries Hl Hf IH]; intros fuel Hfuel; [by destruct fuel|].
  cbn [map concat app fst snd] in *. rewrite length_cons, length_app in Hfuel. destruct fuel as [|fuel]; [lia|].
  cbn [bulk_entries]. cbn in Hl. subst len. rewrite take_app_length, drop_app_length, IH by lia. done.
Qed.

(** ** Transactions on the bus *)

Section line.
Local Abbreviation W := (FtWorld FtBus).

Definition bus (w : W) : FtBus := tty (serial w).

(** The same driver, servos and registers; [rest] is under way and the clock was read
    [n] times. *)
Definition line_after (n : Z) (rest : list Z) (w w' : W) : Prop :=
  same_driver w w' ∧ bus w' = (bus w) <| rx := rest |> <| bus_time := bus_time (bus w) + n * clock_step |>.

Lemma line_after_trans n1 r1 n2 r2 w1 w2 w3 : line_after n1 r1 w1 w2 → line_after n2 r2 w2 w3 → line_after (n1 + n2) r2 w1 w3.
Proof.
  intros [S1 B1] [S2 B2]. split; [by etrans|]. rewrite B2, B1. destruct (bus w1). cbn. f_equal. lia.
Qed.
Lemma line_after_fd n r w w' : line_after n r w w' → fd_of w' = fd_of w.
Proof. by intros [(_ & _ & _ & E) _]. Qed.
Lemma line_after_rx n r w w' : line_after n r w w' → rx (bus w') = r.
Proof. by intros [_ ->]. Qed.

Lemma bus_now (w : W) : wp (on_line tty_now) (λ t w', t = bus_time (bus w) ∧ line_after 1 (rx (bus w)) w w') w.
Proof. unfold wp. rewrite on_line_run. cbn. split; [done|]. split; [done|]. cbn. unfold bus. by destruct (tty (serial w)). Qed.

Lemma bus_remaining deadline (w : W) :
  wp (remaining_ms deadline) (λ r w', line_after 1 (rx (bus w)) w w' ∧
    (bus_time (bus w) + 1000000 ≤ deadline → 0 < r)) w.
Proof.
  unfold remaining_ms. wp_step. eapply wp_mono; [apply bus_now|]. intros t w1 [-> L1]. wp_step. split; [done|].
  intros Hd. destruct (Z.leb_spec deadline (bus_time (bus w))); [lia|].
  apply Z.quot_str_pos. lia.
Qed.

Lemma bus_flush (w : W) : 0 ≤ fd_of w → wp flush_input (λ _ w', line_after 0 [] w w') w.
Proof.
  intros Hfd. unfold flush_input. do 2 wp_step. wp_step; [|apply Z.leb_gt in H; lia].
  unfold wp. rewrite on_line_run. cbn. split; [done|]. cbn. unfold bus. destruct (tty (serial w)). cbn. f_equal. lia.
Qed.
End line.

Section bus.
Context (io_fuel : nat) (Hfuel : (4 ≤ io_fuel)%nat).
Local Abbreviation W := (FtWorld FtBus).

Lemma bus_read_exact n ms (w : W) : 0 ≤ fd_of w → (0 < n ≤ length (rx (bus w)))%nat →
  wp (read_exact io_fuel n ms) (λ r w', r = take n (rx (bus w)) ∧ line_after 1 (drop n (rx (bus w))) w w') w.
Proof.
  intros Hfd [Hn Hl]. unfold read_exact. wp_step. wp_step. wp_step.
  { exfalso. match goal with Hc : _ || _ = true |- _ => apply orb_true_iff in Hc as [?%Z.ltb_lt|?%Nat.eqb_eq]; lia end. }
  wp_step. eapply wp_mono; [apply bus_now|]. intros t w1 [_ L1].
  pose proof (line_after_rx _ _ _ _ L1) as R1.
  destruct io_fuel as [|[|fuel]]; [lia..|]. cbn [read_loop].
  destruct (Nat.leb_spec n (length (@nil Z))) as [Hc|_]; [cbn in Hc; lia|]. cbn [List.length]. rewrite Nat.sub_0_r.
  wp_step. unfold wp at 1. rewrite on_line_run. cbn [tty_read bus_tty fst snd].
  change (tty (serial w1)) with (bus w1). rewrite R1.
  destruct (take n (rx (bus w))) as [|b l] eqn:Et.
  { apply (f_equal length) in Et. rewrite length_take in Et. cbn in Et. lia. }
  assert (n <=? length ([] ++ b :: l) = true)%nat as Hlen.
  { apply Nat.leb_le. cbn [app]. rewrite <- Et, length_take. lia. }
  rewrite Hlen. wp_step. split; [done|]. replace 1 with (1 + 0) by lia. eapply line_after_trans; [exact L1|].
  split; [done|]. unfold bus. cbn. destruct (tty (serial w1)) as [pr rg x bt] eqn:E1. cbn.
  assert (x = rx (bus w)) as -> by (by unfold bus in R1; rewrite E1 in R1). f_equal. lia.
Qed.

Lemma bus_read_all n deadline (w : W) : 0 ≤ fd_of w → (0 < n ≤ length (rx (bus w)))%nat →
  wp (read_all io_fuel n deadline) (λ r w', r = Some (take n (rx (bus w))) ∧ line_after 2 (drop n (rx (bus w))) w w') w.
Proof.
  intros Hfd Hn. unfold read_all. wp_step. eapply wp_mono; [apply bus_remaining|]. intros remain w1 [L1 _].
  pose proof (line_after_rx _ _ _ _ L1) as R1. wp_step.
  eapply wp_mono; [apply bus_read_exact; [by rewrite (line_after_fd _ _ _ _ L1)|by rewrite R1]|].
  rewrite R1. intros r w2 [-> L2]. wp_step. rewrite length_take.
  rewrite (proj2 (Nat.eqb_eq _ _)) by lia. split; [done|]. by apply (line_after_trans 1 _ 1 _ _ _ _ L1).
Qed.

(** One round of the wait for a header. *)
Lemma bus_header_round fuel deadline count byte rest (w : W) : 0 ≤ fd_of w → rx (bus w) = byte :: rest →
  bus_time (bus w) + 1000000 ≤ deadline → ∀ Q : option Z → W → Prop,
  (∀ w', line_after 2 rest w w' →
    wp (if byte =? kFtHeaderByte then wait_for_header io_fuel fuel deadline (count + 1)
        else if 2 <=? count then mret (Some byte) else wait_for_header io_fuel fuel deadline 0) Q w') →
  wp (wait_for_header io_fuel (S fuel) deadline count) Q w.
Proof.
  intros Hfd Hrx Ht Q HQ. cbn [wait_for_header]. wp_step.
  eapply wp_mono; [apply bus_remaining|]. intros remain w1 [L1 Hpos]. specialize (Hpos Ht).
  destruct (Z.leb_spec remain 0); [lia|]. pose proof (line_after_rx _ _ _ _ L1) as R1. rewrite Hrx in R1.
  wp_step. eapply wp_mono; [apply bus_read_exact; [by rewrite (line_after_fd _ _ _ _ L1)|rewrite R1; cbn; lia]|].
  rewrite R1. cbn [take drop]. intros r w2 [-> L2]. apply HQ. by apply (line_after_trans 1 _ 1 _ _ _ _ L1).
Qed.

Lemma bus_header deadline id rest (w : W) : 0 ≤ fd_of w → id ≠ kFtHeaderByte →
  rx (bus w) = kFtHeaderByte :: kFtHeaderByte :: id :: rest → bus_time (bus w) + 2000000 ≤ deadline →
  wp (wait_for_header io_fuel io_fuel deadline 0) (λ r w', r = Some id ∧ line_after 6 rest w w') w.
Proof.
  intros Hfd Hid Hrx Ht. assert (∃ k, io_fuel = S (S (S k))) as [k Ek] by (exists (io_fuel - 3)%nat; lia).
  assert (wait_for_header (P := FtBus) io_fuel io_fuel deadline 0 = wait_for_header io_fuel (S (S (S k))) deadline 0) as ->
    by congruence.
  apply (bus_header_round _ _ _ _ _ _ Hfd Hrx); [lia|]. intros w1 L1. rewrite Z.eqb_refl.
  apply (bus_header_round _ _ _ kFtHeaderByte (id :: rest)); [by rewrite (line_after_fd _ _ _ _ L1)|by apply (line_after_rx _ _ _ _ L1)| |].
  { destruct L1 as [_ ->]. cbn. unfold clock_step. lia. }
  intros w2 L2. rewrite Z.eqb_refl. pose proof (line_after_trans _ _ _ _ _ _ _ L1 L2) as L12.
  apply (bus_header_round _ _ _ id rest); [by rewrite (line_after_fd _ _ _ _ L12)|by apply (line_after_rx _ _ _ _ L2)| |].
  { destruct L12 as [_ ->]. cbn. unfold clock_step. lia. }
  intros w3 L3. apply Z.eqb_neq in Hid as ->. cbn. split; [done|]. exact (line_after_trans _ _ _ _ _ _ _ L12 L3).
Qed.

Lemma bus_receive_status expected_id id params rest (w : W) : 0 ≤ fd_of w → id ≠ kFtHeaderByte →
  (expected_id = kFtBroadcastId ∨ expected_id = id) → (length params ≤ 32)%nat →
  rx (bus w) = status_packet id 0 params ++ rest →
  wp (receive_status io_fuel expected_id (length params) kFtResponseTimeoutMs)
     (λ r w', r = (SUCCESS, id, params) ∧ line_after 11 rest w w') w.
Proof.
  intros Hfd Hid Hexp Hl Hrx. unfold receive_status.
  rewrite (proj2 (Nat.ltb_ge _ _)) by (unfold kFtMaxStatusParams; lia).
  wp_step. eapply wp_mono; [apply bus_now|]. intros t w1 [-> L1]. wp_step.
  pose proof (line_after_rx _ _ _ _ L1) as R1. rewrite Hrx in R1. unfold status_packet in R1. cbn [app] in R1.
  eapply wp_mono; [eapply bus_header; [by rewrite (line_after_fd _ _ _ _ L1)|exact Hid|exact R1|]|].
  { destruct L1 as [_ ->]. cbn. unfold clock_step, milliseconds, kFtResponseTimeoutMs. lia. }
  intros r w2 [-> L2]. pose proof (line_after_trans _ _ _ _ _ _ _ L1 L2) as L12.
  pose proof (line_after_rx _ _ _ _ L2) as R2.
  cbv beta iota. wp_step. eapply wp_mono; [apply bus_read_all; [by rewrite (line_after_fd _ _ _ _ L12)|rewrite R2; cbn; lia]|].
  rewrite R2. cbn [take drop]. rewrite take_0, drop_0. intros r w3 [-> L3]. cbv beta iota. rewrite Z.eqb_refl. cbn [negb].
  pose proof (line_after_trans _ _ _ _ _ _ _ L12 L3) as L123. pose proof (line_after_rx _ _ _ _ L3) as R3.
  wp_step. eapply wp_mono; [apply bus_read_all; [by rewrite (line_after_fd _ _ _ _ L123)|]|].
  { rewrite R3, !length_app. cbn. lia. }
  rewrite R3. intros r w4 [-> L4]. cbv beta iota.
  assert (take (length params + 1) ((params ++ [ft_checksum (id :: Z.of_nat (length params) + 2 :: 0 :: params)]) ++ rest)
    = params ++ [ft_checksum (id :: Z.of_nat (length params) + 2 :: 0 :: params)]) as ->.
  { apply take_app_length'. rewrite length_app. done. }
  rewrite take_app_length, app_nth2, Nat.sub_diag by lia. cbn [nth]. rewrite Z.eqb_refl. cbn [negb].
  assert (negb (expected_id =? kFtBroadcastId) && negb (id =? expected_id) = false) as ->.
  { destruct Hexp as [->| ->]; rewrite Z.eqb_refl; [done|apply andb_false_r]. }
  wp_step. split; [done|]. pose proof (line_after_trans _ _ _ _ _ _ _ L123 L4) as L. revert L.
  rewrite drop_app_length'; [done|]. rewrite length_app. done.
Qed.

(** The packet has reached the servos. *)
Lemma bus_send id inst params (w : W) : 0 ≤ fd_of w → (length params ≤ 58)%nat →
  send_instruction io_fuel id inst params w =
    (SUCCESS, w <| serial := (serial w) <| tty := receive_packet (instruction_packet id inst params) (bus w) |> |>).
Proof.
  intros Hfd Hl. unfold send_instruction.
  rewrite (proj2 (Nat.ltb_ge _ _)) by (unfold kFtMaxInstructionParams, kFtTxBufCapacity, kFtInstructionOverhead; lia).
  unfold on_serial, lift_into, write_bytes. rewrite bind_run. cbn [get_state fst snd].
  rewrite (proj2 (Z.ltb_ge _ _)) by done. set (packet := instruction_packet id inst params).
  assert (packet ≠ []) as Hne by done. destruct packet as [|b l] eqn:Ep; [done|].
  destruct io_fuel as [|[|fuel]]; [lia..|]. cbn [write_loop]. rewrite bind_run, on_tty_run.
  cbn [fst snd tty_write bus_tty]. rewrite drop_ge by done. done.
Qed.

(** The servo is on the bus and the port is open. *)
Definition served (id : Z) (w : W) : Prop := 0 ≤ fd_of w ∧ id ∈ present (bus w) ∧ 0 ≤ id < 254.

(** The same driver and servos; the registers are [m] and nothing is under way. *)
Definition regs_after (m : gmap (Z * Z) Z) (w w' : W) : Prop :=
  same_driver w w' ∧ present (bus w') = present (bus w) ∧ regs (bus w') = m ∧ rx (bus w') = [].

Lemma regs_after_served m id w w' : regs_after m w w' → served id w → served id w'.
Proof. intros ((_ & _ & _ & F) & P & _) (? & ? & ?). split_and!; [by rewrite F|by rewrite P|lia..]. Qed.
Lemma regs_after_trans m1 m2 w1 w2 w3 : regs_after m1 w1 w2 → regs_after m2 w2 w3 → regs_after m2 w1 w3.
Proof. intros (S1 & P1 & _) (S2 & P2 & R2 & X2). split_and!; [by etrans|congruence|done..]. Qed.

Lemma receive_instruction id inst params b : (length params ≤ 58)%nat →
  receive_packet (instruction_packet id inst params) b =
    if id =? kFtBroadcastId then obey_all inst params b
    else if bool_decide (id ∈ present b) then obey inst id params b else b.
Proof. intros Hl. unfold receive_packet. rewrite parse_instruction_packet by lia. done. Qed.

Lemma bus_transaction id inst params rsp m (w : W) : served id w →
  (length params ≤ 58)%nat → (length rsp ≤ 32)%nat →
  (∀ b, regs b = regs (bus w) → obey inst id params b = reply id rsp (b <| regs := m |>)) →
  wp (txrx_instruction io_fuel id inst params (length rsp)) (λ r w', r = (SUCCESS, rsp) ∧ regs_after m w w') w.
Proof.
  intros (Hfd & Hin & Hid) Hp Hr Ho. unfold txrx_instruction, kFtSingleRegMaxAttempts. cbn [txrx_attempts].
  wp_step. eapply wp_mono; [by apply bus_flush|]. intros u w1 L1. pose proof (line_after_fd _ _ _ _ L1) as F1.
  wp_step. unfold wp at 1. rewrite bus_send by (done || by rewrite F1). cbn [fst snd ok].
  change (negb (ok SUCCESS)) with false. cbv iota.
  rewrite receive_instruction by done.
  rewrite (proj2 (Z.eqb_neq _ _)) by (unfold kFtBroadcastId; lia).
  destruct L1 as [S1 B1]. rewrite B1. rewrite bool_decide_true by done. rewrite Ho by done. wp_step.
  match goal with |- wp _ _ ?w2 => set (w2' := w2) end.
  eapply wp_mono; [apply (bus_receive_status id id rsp [] w2')|].
  - change (0 ≤ fd_of w1). by rewrite F1.
  - unfold kFtHeaderByte. lia.
  - by right.
  - done.
  - cbn. by rewrite app_nil_r.
  - intros r w3 [-> [S3 B3]]. change (ok SUCCESS) with true. cbv iota.
    wp_step. split; [done|]. split_and!; [|by rewrite B3..].
    etrans; [exact S1|]. etrans; [|exact S3]. done.
Qed.

Lemma served_u8 id w : served id w → u8 id = id.
Proof. intros (_ & _ & ?). apply wrap_small. unfold is_unsigned. lia. Qed.

Lemma length_value_bytes len value : length_ok len = true → length (value_bytes len value) = Z.to_nat len.
Proof. unfold length_ok, value_bytes. intros [?%Z.eqb_eq|?%Z.eqb_eq]%orb_true_iff; by subst. Qed.

Lemma bus_write_raw id address value len (w : W) : served id w → length_ok len = true →
  wp (write_register_raw io_fuel id address value len)
     (λ rc w', rc = SUCCESS ∧ regs_after (write_regs (regs (bus w)) id address (value_bytes len value)) w w') w.
Proof.
  intros Hs Hl. unfold write_register_raw. rewrite Hl, (served_u8 _ _ Hs). cbn [negb]. wp_step.
  eapply wp_mono; [apply (bus_transaction id kFtInstWrite _ [])|]; try done.
  - cbn. rewrite length_value_bytes by done. unfold length_ok in Hl. lia.
  - cbn. lia.
  - intros b Eb. cbn. by rewrite Eb.
  - intros r w' [-> Hr]. by wp_step.
Qed.

Lemma bus_read_register id address len (w : W) : served id w → length_ok len = true →
  wp (read_register io_fuel id address len)
     (λ r w', r = (SUCCESS, if len =? 1 then reg (regs (bus w)) id address
                            else u16_of (reg (regs (bus w)) id address) (reg (regs (bus w)) id (address + 1)))
              ∧ regs_after (regs (bus w)) w w') w.
Proof.
  intros Hs Hl. unfold read_register. rewrite Hl, (served_u8 _ _ Hs). cbn [negb]. wp_step.
  assert (length (read_regs (regs (bus w)) id address (Z.to_nat len)) = Z.to_nat len) as El.
  { unfold read_regs. by rewrite length_map, length_seq. }
  rewrite <- El at 1.
  eapply wp_mono; [apply (bus_transaction id kFtInstRead [address; len] _ (regs (bus w)))|].
  - done.
  - cbn. lia.
  - rewrite El. unfold length_ok in Hl. lia.
  - intros b Eb. cbn. rewrite Eb. unfold reply. rewrite <- Eb. by destruct b.
  - intros r w' [-> Hr]. change (negb (ok SUCCESS)) with false. cbv beta iota. wp_step.
    split; [|done]. f_equal. unfold read_regs.
    unfold length_ok in Hl. apply orb_true_iff in Hl as [->%Z.eqb_eq| ->%Z.eqb_eq];
      [change (Z.to_nat 1) with 1%nat|change (Z.to_nat 2) with 2%nat]; cbn; by rewrite Z.add_0_r.
Qed.

(** *** Registers *)

Lemma reg_put m id address values i a :
  reg (put m id address values) i a =
    if bool_decide (i = id ∧ address ≤ a < address + Z.of_nat (length values))
    then nth (Z.to_nat (a - address)) values 0 else reg m i a.
Proof.
  revert m address. induction values as [|v values IH]; intros m address; cbn [put length].
  { rewrite bool_decide_false; [done|]. lia. }
  rewrite IH. destruct (decide (i = id ∧ address + 1 ≤ a < address + 1 + Z.of_nat (length values))) as [[-> Ha]|Hn].
  - rewrite !bool_decide_true by lia. replace (Z.to_nat (a - address)) with (S (Z.to_nat (a - (address + 1)))) by lia. done.
  - rewrite bool_decide_false by done. unfold reg. destruct (decide (i = id ∧ a = address)) as [[-> ->]|Hn2].
    + rewrite bool_decide_true by lia. rewrite lookup_insert_eq, Z.sub_diag. done.
    + rewrite bool_decide_false by lia. rewrite lookup_insert_ne; [done|]. intros [= -> ->]. apply Hn2. done.
Qed.

Lemma reg_write_regs m id address values i a : (address < 40 → reg m id 55 = 0) →
  reg (write_regs m id address values) i a =
    if bool_decide (i = id ∧ address ≤ a < address + Z.of_nat (length values))
    then nth (Z.to_nat (a - address)) values 0 else reg m i a.
Proof.
  intros Hlock. unfold write_regs. destruct (Z.ltb_spec address kFtSramStartAddr) as [Ha|]; [|apply reg_put].
  unfold kFtAddrLockFlag. rewrite Hlock by done. apply reg_put.
Qed.

Lemma value_bytes_word value len : length_ok len = true → 0 ≤ value < 2 ^ (8 * len) →
  (if len =? 1 then nth 0 (value_bytes len value) 0
   else u16_of (nth 0 (value_bytes len value) 0) (nth 1 (value_bytes len value) 0)) = value.
Proof.
  unfold length_ok, value_bytes, u16_of, lo_byte, hi_byte. change 0xFF with (Z.ones 8).
  intros [->%Z.eqb_eq| ->%Z.eqb_eq]%orb_true_iff Hv; cbn [Z.eqb Pos.eqb nth].
  - rewrite Z.land_ones, wrap_small by (done || apply Z.mod_pos_bound; done). apply Z.mod_small. lia.
  - rewrite (wrap_small 8) by (by apply land_ones_range).
    rewrite (wrap_small 8) by (by apply land_ones_range).
    rewrite (Z.land_ones (Z.shiftr value 8)), (Z.mod_small (Z.shiftr value 8)); [|..|done].
    + rewrite Z.lor_comm. by apply lor_split.
    + rewrite Z.shiftr_div_pow2 by done. split; [apply Z.div_pos; lia|]. apply Z.div_lt_upper_bound; [done|].
      change (2 ^ 8 * 2 ^ 8) with 65536. change (2 ^ (8 * 2)) with 65536 in Hv. lia.
Qed.

(** The registers after [write_register]. *)
Definition written (m : gmap (Z * Z) Z) (id address value len : Z) : gmap (Z * Z) Z :=
  if kFtSramStartAddr <=? address then write_regs m id address (value_bytes len value)
  else write_regs (write_regs (write_regs m id kFtAddrLockFlag [0]) id address (value_bytes len value))
                  id kFtAddrLockFlag [1].

Lemma bus_write_register id address value len (w : W) : served id w → length_ok len = true →
  wp (write_register io_fuel id address value len)
     (λ rc w', rc = SUCCESS ∧ regs_after (written (regs (bus w)) id address value len) w w') w.
Proof.
  intros Hs Hl. unfold write_register, written. destruct (kFtSramStartAddr <=? address); [by apply bus_write_raw|].
  apply wp_require. eapply wp_mono; [by apply bus_write_raw|]. intros rc w1 [-> H1]. change (ok SUCCESS) with true.
  cbv iota. pose proof (regs_after_served _ _ _ _ H1 Hs) as Hs1. wp_step.
  eapply wp_mono; [by apply bus_write_raw|]. intros rc w2 [-> H2].
  pose proof (regs_after_trans _ _ _ _ _ H1 H2) as H12. pose proof (regs_after_served _ _ _ _ H12 Hs) as Hs2.
  apply wp_require. eapply wp_mono; [by apply bus_write_raw|]. intros rc w3 [-> H3]. change (ok SUCCESS) with true.
  cbv iota. wp_step. split; [done|]. pose proof (regs_after_trans _ _ _ _ _ H12 H3) as H123.
  destruct H1 as (_ & _ & R1 & _), H2 as (_ & _ & R2 & _). by rewrite R2, R1 in H123.
Qed.

Lemma reg_written m id address value len i a : length_ok len = true → 0 ≤ address →
  reg (written m id address value len) i a =
    if bool_decide (i = id ∧ address ≤ a < address + len)
    then nth (Z.to_nat (a - address)) (value_bytes len value) 0
    else if bool_decide (i = id ∧ a = 55 ∧ address < 40) then 1 else reg m i a.
Proof.
  intros Hl Ha. assert (0 < len ≤ 2) as Hlen by (unfold length_ok in Hl; lia).
  unfold written, kFtSramStartAddr, kFtAddrLockFlag. destruct (Z.leb_spec 40 address).
  - rewrite reg_write_regs, length_value_bytes, Z2Nat.id by (done || lia).
    destruct (bool_decide (i = id ∧ address ≤ a < address + len)) eqn:E; [done|]. by rewrite bool_decide_false by lia.
  - assert (reg (write_regs m id 55 [0]) id 55 = 0) as H0.
    { rewrite reg_write_regs by lia. by rewrite bool_decide_true by (cbn; lia). }
    rewrite (reg_write_regs _ id 55 [1]) by lia. rewrite (reg_write_regs _ id address) by done.
    rewrite (reg_write_regs m) by lia. rewrite length_value_bytes, Z2Nat.id by (done || lia).
    cbn [length]. destruct (decide (i = id ∧ a = 55)) as [[-> ->]|Hn].
    + rewrite bool_decide_true by lia. rewrite bool_decide_false by lia. rewrite bool_decide_true by lia. done.
    + rewrite (bool_decide_false (i = id ∧ 55 ≤ a < 55 + Z.of_nat 1)) by lia.
      destruct (bool_decide (i = id ∧ address ≤ a < address + len)); [done|].
      by rewrite bool_decide_false by lia.
Qed.

(** The value in a register of [len] bytes. *)
Definition reg_value (m : gmap (Z * Z) Z) (id address len : Z) : Z :=
  if len =? 1 then reg m id address else u16_of (reg m id address) (reg m id (address + 1)).

(** [C34] A register write lands: on a bus with the servo, [write_register] succeeds and
    [read_register] then gives the value back, also for the EEPROM registers, which the
    servo protects: these are unlocked for the write and locked again after it.  No
    other register of any servo changes. *)
Theorem register_write_lands id address value len (w : W) : served id w → length_ok len = true →
  0 ≤ address → 0 ≤ value < 2 ^ (8 * len) →
  let '(rc, w1) := write_register io_fuel id address value len w in
  let '(rc', value', w2) := read_register io_fuel id address len w1 in
  rc = SUCCESS ∧ rc' = SUCCESS ∧ value' = value ∧
  (address < 40 → reg (regs (bus w2)) id 55 = 1) ∧
  (∀ i a, ¬ (i = id ∧ address ≤ a < address + len) → ¬ (i = id ∧ a = 55 ∧ address < 40) →
     reg (regs (bus w2)) i a = reg (regs (bus w)) i a) ∧
  ft w2 = ft w ∧ ft_servos w2 = ft_servos w.
Proof.
  intros Hs Hl Ha Hv. pose proof (bus_write_register id address value len w Hs Hl) as Hw. unfold wp in Hw.
  destruct (write_register _ _ _ _ _ w) as [rc w1]. cbn [fst snd] in Hw. destruct Hw as [-> H1].
  pose proof (bus_read_register id address len w1 (regs_after_served _ _ _ _ H1 Hs) Hl) as Hr. unfold wp in Hr.
  destruct (read_register _ _ _ _ w1) as [[rc' value'] w2]. cbn [fst snd] in Hr. destruct Hr as [[= -> ->] H2].
  pose proof (regs_after_trans _ _ _ _ _ H1 H2) as H12. destruct H1 as (_ & _ & R1 & _), H12 as ((F & V & _) & _ & R2 & _).
  assert (0 < len ≤ 2) as Hlen by (unfold length_ok in Hl; lia).
  split_and!; [done|done| | | |done|done].
  - rewrite R1, !reg_written by done. rewrite !(bool_decide_true (id = id ∧ address ≤ address < address + len)) by lia.
    rewrite Z.sub_diag. rewrite <- (value_bytes_word value len Hl Hv) at 4.
    destruct (Z.eqb_spec len 1); [done|]. rewrite (bool_decide_true (id = id ∧ address ≤ address + 1 < address + len)) by lia.
    by replace (Z.to_nat (address + 1 - address)) with 1%nat by lia.
  - intros Hlt. rewrite R2, R1, reg_written by done. rewrite bool_decide_false by lia. by rewrite bool_decide_true by lia.
  - intros i a Hn1 Hn2. rewrite R2, R1, reg_written by done. by rewrite !bool_decide_false by done.
Qed.

(** Without the unlocking the servo acknowledges the write and ignores it. *)
Lemma locked_eeprom_ignores id address value len (w : W) : served id w → length_ok len = true →
  address < 40 → reg (regs (bus w)) id 55 ≠ 0 →
  wp (write_register_raw io_fuel id address value len) (λ rc w', rc = SUCCESS ∧ regs_after (regs (bus w)) w w') w.
Proof.
  intros Hs Hl Ha Hlock. eapply wp_mono; [by apply bus_write_raw|]. intros rc w' [-> Hw]. split; [done|].
  revert Hw. unfold write_regs, kFtSramStartAddr, kFtAddrLockFlag. rewrite (proj2 (Z.ltb_lt _ _)) by done.
  by rewrite (proj2 (Z.eqb_neq _ _)) by done.
Qed.

(** *** Bulk writes *)

Definition write_entries (present : gset Z) (m : gmap (Z * Z) Z) (address : Z) (entries : list (Z * Z)) : gmap (Z * Z) Z :=
  foldl (λ m '(id, value), if bool_decide (id ∈ present) then write_regs m id address (value_bytes 2 value) else m) m entries.

(** What one servo finds in a queue for it: the last entry counts. *)
Definition last_for (id : Z) (entries : list (Z * Z)) : option Z := snd <$> last (filter (λ e, e.1 = id) entries).

Lemma last_for_snoc id entries e : last_for id (entries ++ [e]) = if bool_decide (e.1 = id) then Some e.2 else last_for id entries.
Proof.
  unfold last_for. rewrite filter_app. destruct (decide (e.1 = id)) as [He|He].
  - rewrite bool_decide_true, filter_singleton_True, last_snoc by done. done.
  - rewrite bool_decide_false, filter_singleton_False, app_nil_r by done. done.
Qed.

Lemma reg_write_entries P m address entries : 40 ≤ address → ∀ i a,
  reg (write_entries P m address entries) i a =
    if bool_decide (i ∈ P ∧ address ≤ a < address + 2)
    then match last_for i entries with Some v => nth (Z.to_nat (a - address)) (value_bytes 2 v) 0 | None => reg m i a end
    else reg m i a.
Proof.
  intros Ha. unfold write_entries. induction entries as [|[id v] entries IH] using rev_ind; intros i a.
  { cbn. by destruct (bool_decide _). }
  rewrite foldl_snoc, last_for_snoc. cbn [fst snd]. destruct (bool_decide (id ∈ P)) eqn:Ep.
  - apply bool_decide_eq_true in Ep. rewrite reg_write_regs, length_value_bytes by (done || lia). change (Z.of_nat (Z.to_nat 2)) with 2.
    destruct (decide (i = id)) as [->|Hne].
    + rewrite (bool_decide_true (id = id)) by done. rewrite IH.
      destruct (decide (address ≤ a < address + 2)).
      * by rewrite !bool_decide_true by done.
      * by rewrite !bool_decide_false by lia.
    + rewrite (bool_decide_false (i = id ∧ _)) by lia. rewrite (bool_decide_false (id = i)) by done. apply IH.
  - apply bool_decide_eq_false in Ep. rewrite IH. destruct (decide (i ∈ P ∧ address ≤ a < address + 2)) as [Hd|Hd].
    + rewrite bool_decide_true by done. rewrite (bool_decide_false (id = i)); [done|]. intros ->. by destruct Hd.
    + by rewrite bool_decide_false by done.
Qed.

Lemma sync_write_params_eq address entries : Forall (λ e, 0 ≤ e.1 < 254) entries →
  sync_write_params address 2 entries =
    address :: 2 :: concat (map (λ e, e.1 :: e.2) (map (λ e, (e.1, value_bytes 2 e.2)) entries)).
Proof.
  intros Hf. unfold sync_write_params. do 3 f_equal. rewrite map_map. apply map_ext_in. intros [id v] Hin.
  rewrite Forall_forall in Hf. specialize (Hf (id, v) ltac:(by apply list_elem_of_In)). cbn in *.
  rewrite wrap_small; [done|]. unfold is_unsigned. lia.
Qed.

Lemma length_concat_entries (entries : list (Z * list Z)) : Forall (λ e, length e.2 = 2%nat) entries →
  length (concat (map (λ e, e.1 :: e.2) entries)) = (3 * length entries)%nat.
Proof.
  induction 1 as [|e entries He Hf IH]; [done|]. cbn [map concat]. rewrite length_app, IH. cbn. lia.
Qed.

Lemma foldl_write_entries b address entries :
  foldl (λ b '(id, values), if bool_decide (id ∈ present b)
                            then b <| regs := write_regs (regs b) id address values |> else b)
        b (map (λ e, (e.1, value_bytes 2 e.2)) entries) =
  b <| regs := write_entries (present b) (regs b) address entries |>.
Proof.
  unfold write_entries. revert b. induction entries as [|[id v] entries IH]; intros b; [by destruct b|].
  cbn [map foldl fst snd]. rewrite IH. destruct (bool_decide (id ∈ present b)); [|done]. done.
Qed.

Lemma bus_sync_write address entries (w : W) : 0 ≤ fd_of w → (length entries ≤ 18)%nat →
  Forall (λ e, 0 ≤ e.1 < 254) entries →
  wp (sync_write io_fuel address 2 entries)
     (λ rc w', rc = SUCCESS ∧ same_driver w w' ∧
        bus w' = (bus w) <| regs := write_entries (present (bus w)) (regs (bus w)) address entries |>) w.
Proof.
  intros Hfd Hn Hf. unfold sync_write. destruct entries as [|e es] eqn:Ee.
  { wp_step. split_and!; try done. cbn. unfold write_entries. cbn. unfold bus. by destruct (tty (serial w)). }
  rewrite <- Ee in *.
  rewrite (proj2 (Z.ltb_ge _ _)) by (unfold kFtMaxInstructionParams, kFtTxBufCapacity, kFtInstructionOverhead; lia).
  assert (Forall (λ e : Z * list Z, length e.2 = 2%nat) (map (λ e, (e.1, value_bytes 2 e.2)) entries)) as Hf2.
  { apply Forall_map, Forall_true. done. }
  pose proof (length_concat_entries _ Hf2) as Hl. rewrite length_map in Hl.
  unfold wp. rewrite sync_write_params_eq by done. rewrite bus_send by (done || (rewrite !length_cons, Hl; lia)).
  rewrite receive_instruction by (rewrite !length_cons, Hl; lia). cbn [fst snd].
  change (kFtBroadcastId =? kFtBroadcastId) with true. cbv iota. unfold obey_all.
  change (kFtInstSyncWrite =? kFtInstSyncRead) with false. change (kFtInstSyncWrite =? kFtInstSyncWrite) with true. cbv iota.
  change (Z.to_nat 2) with 2%nat. rewrite bulk_entries_params by (done || lia).
  rewrite foldl_write_entries. split_and!; done.
Qed.

Lemma reg_value_entries P m address entries id : 40 ≤ address → id ∈ P → Forall (λ e, 0 ≤ e.2 < 65536) entries →
  reg_value (write_entries P m address entries) id address 2 = default (reg_value m id address 2) (last_for id entries).
Proof.
  intros Ha Hid Hv. unfold reg_value. cbn [Z.eqb Pos.eqb]. rewrite !reg_write_entries by done.
  rewrite !bool_decide_true by (split; [done|lia]). destruct (last_for id entries) as [v|] eqn:E; [|done].
  rewrite Z.sub_diag. replace (Z.to_nat (address + 1 - address)) with 1%nat by lia.
  assert (0 ≤ v < 65536) as Hr.
  { unfold last_for in E. destruct (last _) as [e|] eqn:El; [|done]. injection E as <-.
    apply last_Some_elem_of, list_elem_of_filter in El as [_ El]. rewrite Forall_forall in Hv. by apply Hv. }
  exact (value_bytes_word v 2 eq_refl Hr).
Qed.

(** A group write does what was queued: on a bus it succeeds, the torque limit and
    the goal of every servo are the last ones queued for it, or as before when none was,
    no other register changes, and both queues are empty afterwards. *)
Theorem group_write_reaches_servos (w : W) : 0 ≤ fd_of w →
  (length (pending_goal_position_ (ft w)) ≤ 18)%nat → (length (pending_torque_limit_ (ft w)) ≤ 18)%nat →
  Forall (λ e, 0 ≤ e.1 < 254 ∧ 0 ≤ e.2 < 65536) (pending_goal_position_ (ft w)) →
  Forall (λ e, 0 ≤ e.1 < 254 ∧ 0 ≤ e.2 < 65536) (pending_torque_limit_ (ft w)) →
  let '(rc, w') := group_write_hardware_values io_fuel w in
  rc = SUCCESS ∧ pending_goal_position_ (ft w') = [] ∧ pending_torque_limit_ (ft w') = [] ∧
  (∀ id, id ∈ present (bus w) →
     reg_value (regs (bus w')) id 42 2 = default (reg_value (regs (bus w)) id 42 2) (last_for id (pending_goal_position_ (ft w))) ∧
     reg_value (regs (bus w')) id 48 2 = default (reg_value (regs (bus w)) id 48 2) (last_for id (pending_torque_limit_ (ft w)))) ∧
  (∀ id a, a ∉ [42; 43; 48; 49] → reg (regs (bus w')) id a = reg (regs (bus w)) id a).
Proof.
  intros Hfd Lg Lt [Hg1 Hg2]%Forall_and [Ht1 Ht2]%Forall_and.
  assert (wp (group_write_hardware_values io_fuel) (λ rc w', rc = SUCCESS ∧
    pending_goal_position_ (ft w') = [] ∧ pending_torque_limit_ (ft w') = [] ∧
    regs (bus w') = write_entries (present (bus w)) (write_entries (present (bus w)) (regs (bus w)) 48
      (pending_torque_limit_ (ft w))) 42 (pending_goal_position_ (ft w))) w) as Hw.
  { unfold group_write_hardware_values. do 2 wp_step. rewrite (proj2 (Z.ltb_ge _ _)) by done. wp_step.
    eapply wp_mono; [by apply bus_sync_write|]. intros rc w1 (-> & (F1 & _ & _ & D1) & B1). wp_step. unfold on_ft at 1. wp_step.
    change (negb (ok SUCCESS)) with false. cbv iota. wp_step.
    set (w1' := w1 <| ft := _ |>). eapply wp_mono; [apply (bus_sync_write _ _ w1')|].
    - change (0 ≤ fd_of w1). by rewrite D1.
    - done.
    - done.
    - intros rc w2 (-> & (F2 & _) & B2). wp_step. unfold on_ft. wp_step. wp_step. split; [done|]. cbn. rewrite F2. split_and!; [done..|].
      change (regs (bus w2) = write_entries (present (bus w)) (write_entries (present (bus w)) (regs (bus w)) 48
        (pending_torque_limit_ (ft w))) 42 (pending_goal_position_ (ft w))).
      rewrite B2. change (bus w1') with (bus w1). by rewrite B1. }
  unfold wp in Hw. destruct (group_write_hardware_values io_fuel w) as [rc w']. cbn [fst snd] in Hw.
  destruct Hw as (-> & E1 & E2 & Er). split_and!; [done..| |].
  - intros id Hid. rewrite Er. split.
    + rewrite reg_value_entries by done. f_equal. unfold reg_value. cbn [Z.eqb Pos.eqb].
      rewrite !reg_write_entries by lia. by rewrite !bool_decide_false by lia.
    + unfold reg_value at 1. cbn [Z.eqb Pos.eqb]. rewrite (reg_write_entries _ _ 42) by lia.
      rewrite (reg_write_entries _ _ 42) by lia. rewrite !bool_decide_false by lia. by apply (reg_value_entries _ _ 48).
  - intros id a Ha. rewrite Er, !reg_write_entries by lia.
    rewrite !bool_decide_false; [done|..]; intros [_ Hr]; apply Ha; rewrite !elem_of_cons; lia.
Qed.

(** *** The bulk read *)

(** Nothing but time passed. *)
Definition quiet (w w' : W) : Prop := regs_after (regs (bus w)) w w'.
Lemma quiet_trans w1 w2 w3 : quiet w1 w2 → quiet w2 w3 → quiet w1 w3.
Proof.
  intros H1 H2. unfold quiet in *. destruct H1 as (S1 & P1 & R1 & X1), H2 as (S2 & P2 & R2 & X2).
  split_and!; [by etrans|congruence..|done].
Qed.
Lemma quiet_served id w w' : quiet w w' → served id w → served id w'.
Proof. apply regs_after_served. Qed.
Lemma quiet_fd w w' : quiet w w' → fd_of w' = fd_of w.
Proof. by intros ((_ & _ & _ & E) & _). Qed.
Lemma quiet_rx w w' : quiet w w' → rx (bus w') = [].
Proof. by intros (_ & _ & _ & E). Qed.

(** A call of the line that only takes time. *)
Lemma quiet_on_line {A} (m : St FtBus A) (w : W) : rx (bus w) = [] →
  (∀ b, present (m b).2 = present b ∧ regs (m b).2 = regs b ∧ (rx b = [] → rx (m b).2 = [])) →
  wp (on_line m) (λ _ w', quiet w w') w.
Proof.
  intros Hrx Hm. unfold wp. rewrite on_line_run. cbn [fst snd]. unfold bus in *. destruct (Hm (tty (serial w))) as (? & ? & ?).
  split_and!; [done|done|done|]. by cbn; auto.
Qed.

Lemma silent_read_loop fuel fd n deadline : ∀ w : W, rx (bus w) = [] → quiet w w →
  wp (read_loop fuel fd n deadline []) (λ r w', r = [] ∧ quiet w w') w.
Proof.
  induction fuel as [|fuel IH]; intros w Hrx Hq; cbn [read_loop]; [by wp_step|].
  wp_step; [by wp_step|]. wp_step. unfold wp at 1. rewrite on_line_run. cbn [tty_read bus_tty fst snd].
  unfold bus in Hrx. rewrite Hrx, take_nil, drop_nil. match goal with |- wp _ _ ?x => set (w1 := x) end.
  assert (quiet w w1) as Q1 by (split_and!; done).
  wp_step. eapply wp_mono; [apply quiet_on_line; [done|by intros b]|]. intros t w2 Q2. pose proof (quiet_trans _ _ _ Q1 Q2) as Q12.
  wp_step; [by wp_step|]. wp_step. eapply wp_mono; [apply quiet_on_line; [by eapply quiet_rx|by intros b]|].
  intros u w3 Q3. pose proof (quiet_trans _ _ _ Q12 Q3) as Q123.
  eapply wp_mono; [apply IH; [by eapply quiet_rx|split_and!; by try apply Q3]|]. intros r w4 [-> Q4]. split; [done|].
  by eapply quiet_trans.
Qed.

Lemma quiet_refl (w : W) : rx (bus w) = [] → quiet w w.
Proof. done. Qed.

Lemma silent_read_exact n ms (w : W) : rx (bus w) = [] → wp (read_exact io_fuel n ms) (λ r w', r = [] ∧ quiet w w') w.
Proof.
  intros Hrx. unfold read_exact. do 2 wp_step. wp_step; [by wp_step|]. wp_step.
  eapply wp_mono; [apply quiet_on_line; [done|by intros b]|]. intros t w1 Q1.
  pose proof (quiet_rx _ _ Q1) as R1.
  eapply wp_mono; [apply silent_read_loop; [exact R1|by apply quiet_refl]|].
  intros r w2 [-> Q2]. split; [done|]. exact (quiet_trans _ _ _ Q1 Q2).
Qed.

Lemma silent_receive expected_id n ms (w : W) : (n ≤ 32)%nat → rx (bus w) = [] →
  wp (receive_status io_fuel expected_id n ms) (λ r w', r.1.1 = NO_RESPONSE ∧ quiet w w') w.
Proof.
  intros Hn Hrx. unfold receive_status. rewrite (proj2 (Nat.ltb_ge _ _)) by (unfold kFtMaxStatusParams; lia).
  wp_step. eapply wp_mono; [apply quiet_on_line; [done|by intros b]|]. intros t w1 Q1. pose proof (quiet_rx _ _ Q1) as R1. wp_step.
  assert (∃ k, io_fuel = S k) as [k Ek] by (exists (io_fuel - 1)%nat; lia).
  assert (∀ d, wait_for_header (P := FtBus) io_fuel io_fuel d 0 = wait_for_header io_fuel (S k) d 0) as -> by (intros; congruence).
  cbn [wait_for_header]. wp_step. unfold remaining_ms. wp_step.
  eapply wp_mono; [apply quiet_on_line; [exact R1|by intros b]|]. intros t2 w2 Q2.
  pose proof (quiet_trans _ _ _ Q1 Q2) as Q12. pose proof (quiet_rx _ _ Q2) as R2. wp_step. wp_step; [by do 2 wp_step|]. wp_step.
  eapply wp_mono; [apply silent_read_exact; exact R2|]. intros r w3 [-> Q3]. do 2 wp_step. split; [done|].
  exact (quiet_trans _ _ _ Q12 Q3).
Qed.

Lemma bus_ping_present id (w : W) : served id w → wp (ping io_fuel id) (λ rc w', rc = SUCCESS ∧ quiet w w') w.
Proof.
  intros Hs. unfold ping. rewrite (served_u8 _ _ Hs). wp_step.
  eapply wp_mono; [apply (bus_transaction id kFtInstPing [] [] (regs (bus w)))|]; [done|cbn; lia..| |].
  - intros b Eb. cbn. rewrite <- Eb. by destruct b.
  - intros r w' [-> Hr]. by wp_step.
Qed.

Lemma silent_attempts n : ∀ rc id inst params k (w : W), 0 ≤ fd_of w → id ∉ present (bus w) → 0 ≤ id < 254 →
  (length params ≤ 58)%nat → (k ≤ 32)%nat → rc ≠ SUCCESS → rx (bus w) = [] →
  wp (txrx_attempts io_fuel n rc id inst params k) (λ r w', r.1 ≠ SUCCESS ∧ quiet w w') w.
Proof.
  induction n as [|n IH]; intros rc id inst params k w Hfd Hid Hr Hp Hk Hrc Hrx; cbn [txrx_attempts]; [by wp_step|].
  wp_step. eapply wp_mono; [by apply bus_flush|]. intros u w1 L1. pose proof (line_after_fd _ _ _ _ L1) as F1.
  assert (quiet w w1) as Q1.
  { destruct L1 as [S1 B1]. split_and!; [done|by rewrite B1..]. }
  wp_step. unfold wp at 1. rewrite bus_send by (done || by rewrite F1). cbn [fst snd]. change (negb (ok SUCCESS)) with false.
  cbv iota. rewrite receive_instruction by done. rewrite (proj2 (Z.eqb_neq _ _)) by (unfold kFtBroadcastId; lia).
  destruct Q1 as (S1 & P1 & R1 & X1). rewrite bool_decide_false by (by rewrite P1). wp_step.
  match goal with |- wp _ _ ?x => set (w2 := x) end.
  assert (quiet w w2) as Q2 by (split_and!; done).
  eapply wp_mono; [apply silent_receive; [done|apply X1]|]. intros [[rc' id'] rsp] w3 [Er Q3]. cbn in Er. subst rc'.
  change (ok NO_RESPONSE) with false. cbv iota. pose proof (quiet_trans _ _ _ Q2 Q3) as Q23.
  eapply wp_mono; [apply IH; try done|].
  - by rewrite (quiet_fd _ _ Q23).
  - destruct Q23 as (_ & -> & _). done.
  - exact (quiet_rx _ _ Q23).
  - intros r w4 [Hr4 Q4]. split; [done|]. exact (quiet_trans _ _ _ Q23 Q4).
Qed.

Lemma bus_ping_absent id (w : W) : 0 ≤ fd_of w → id ∉ present (bus w) → 0 ≤ id < 254 → rx (bus w) = [] →
  wp (ping io_fuel id) (λ rc w', rc ≠ SUCCESS ∧ quiet w w') w.
Proof.
  intros Hfd Hid Hr Hrx. unfold ping. assert (u8 id = id) as -> by (apply wrap_small; unfold is_unsigned; lia).
  wp_step. eapply wp_mono; [apply silent_attempts; try done; cbn; lia|]. intros [rc rsp] w' [Hrc Q]. by wp_step.
Qed.

(** What probing found: the silent ones of these ids, and nothing else changed. *)
Definition probed (ids : list Z) (w w' : W) : Prop :=
  fd_of w' = fd_of w ∧ present (bus w') = present (bus w) ∧ regs (bus w') = regs (bus w) ∧ rx (bus w') = [] ∧
  ∃ dead, ft w' = (ft w) <| dead_servo_ids_ := dead |> ∧
    ∀ id, id ∈ dead ↔ id ∈ dead_servo_ids_ (ft w) ∨ id ∈ ids ∧ id ∉ present (bus w).

Lemma quiet_probed ids w w' : quiet w w' → (∀ x, x ∈ ids → x ∈ present (bus w) ∨ x ∈ dead_servo_ids_ (ft w)) → probed ids w w'.
Proof.
  intros ((F & _ & _ & D) & P1 & R1 & X1) Hids. split_and!; try done. exists (dead_servo_ids_ (ft w)).
  split; [by rewrite F; destruct (ft w)|]. intros x. split; [auto|]. intros [|[Hx Hn]]; [done|]. by destruct (Hids x Hx).
Qed.

Lemma bus_probe_servo id (w : W) : 0 ≤ fd_of w → 0 ≤ id < 254 → rx (bus w) = [] →
  wp (probe_servo io_fuel id) (λ _ w', probed [id] w w') w.
Proof.
  intros Hfd Hid Hrx. unfold probe_servo. do 2 wp_step. unfold is_dead.
  destruct (bool_decide (id ∈ dead_servo_ids_ (ft w))) eqn:Ed.
  { apply bool_decide_eq_true in Ed. wp_step. apply quiet_probed; [done|]. intros x ->%list_elem_of_singleton. auto. }
  destruct (decide (id ∈ present (bus w))) as [Hp|Hp].
  - wp_step. eapply wp_mono; [by apply bus_ping_present|]. intros rc w1 [-> Q1]. wp_step; [done|].
    apply quiet_probed; [done|]. intros x ->%list_elem_of_singleton. auto.
  - wp_step. eapply wp_mono; [by apply bus_ping_absent|]. intros rc w1 [Hrc Q1]. apply ok_false in Hrc. rewrite Hrc.
    cbn [negb when_]. wp_step.
    eapply wp_mono; [apply bus_flush; by rewrite (quiet_fd _ _ Q1)|]. intros u w2 [S2 B2]. unfold on_ft. wp_step.
    destruct Q1 as ((F & _ & _ & D) & P1 & R1 & X1), S2 as (F2 & _ & _ & D2).
    set (w3 := w2 <| ft := _ |>). assert (bus w3 = bus w2) as B3 by done.
    split_and!; [change (fd_of w2 = fd_of w); by rewrite D2|by rewrite B3, B2..|].
    eexists. split; [cbn; by rewrite F2, F|]. intros x. rewrite elem_of_union, elem_of_singleton, list_elem_of_singleton.
    split; [intros [->|]; auto|]. intros [|[-> _]]; auto.
Qed.

Lemma bus_probe_all ids : ∀ w : W, 0 ≤ fd_of w → Forall (λ id, 0 ≤ id < 254) ids → rx (bus w) = [] →
  wp (each_ (probe_servo io_fuel) ids) (λ _ w', probed ids w w') w.
Proof.
  induction ids as [|id ids IH]; intros w Hfd Hids Hrx; cbn [each_].
  { wp_step. apply quiet_probed; [done|]. intros x Hx. by apply elem_of_nil in Hx. }
  apply Forall_cons in Hids as [Hid Hids]. wp_step. eapply wp_mono; [by apply bus_probe_servo|].
  intros u w1 (D1 & P1 & R1 & X1 & dead1 & F1 & E1). eapply wp_mono; [apply IH; [by rewrite D1|done..]|].
  intros u2 w2 (D2 & P2 & R2 & X2 & dead2 & F2 & E2). split_and!; [congruence..|done|].
  exists dead2. split; [by rewrite F2, F1|]. intros x. rewrite E2, F1, P1. cbn. rewrite E1, list_elem_of_singleton, elem_of_cons.
  tauto.
Qed.

Definition feedback_of (w : W) (id : Z) : list Z := read_regs (regs (bus w)) id kFtAddrPresentPosition kFtFeedbackLength.
Definition data_slot (w : W) (id : Z) : nat := Z.to_nat (find_data_index (ft_registry w) id).

Definition stored (w : W) (heard : list Z) : FtDriver :=
  foldl (λ f id, store_feedback (data_slot w id) (feedback_of w id) f) (ft w) heard.

(** A servo of the bus with a slot of its own in the caches. *)
Definition registered (w : W) (id : Z) : Prop :=
  0 ≤ id < 254 ∧ 0 ≤ find_data_index (ft_registry w) id < servo_num_total_ (ft w).

Lemma stored_total (w : W) heard : servo_num_total_ (stored w heard) = servo_num_total_ (ft w).
Proof. unfold stored. induction heard as [|id heard IH] using rev_ind; [done|]. by rewrite foldl_snoc. Qed.

(** The rest of the program as before the collection, the caches as stored. *)
Definition collected (heard : list Z) (w w' : W) : Prop :=
  ft_registry w' = ft_registry w ∧ fd_of w' = fd_of w ∧ present (bus w') = present (bus w) ∧
  regs (bus w') = regs (bus w) ∧ rx (bus w') = [] ∧ ft w' = stored w heard.

Lemma foldl_agree {A B} (f g : B → A → B) l : (∀ b a, f b a = g b a) → ∀ b, foldl f b l = foldl g b l.
Proof. intros E. induction l as [|x l IH]; intros b; [done|]. cbn. by rewrite E. Qed.

Lemma bus_collect : ∀ heard n pending (w : W), 0 ≤ fd_of w → (length heard ≤ n)%nat → NoDup heard →
  rx (bus w) = concat (map (λ id, status_packet id 0 (feedback_of w id)) heard) →
  Forall (λ id, id ∈ pending ∧ registered w id) heard →
  wp (collect_feedback io_fuel n pending) (λ r w', r.2 = pending ∖ list_to_set heard ∧
    ok r.1 = bool_decide (n = length heard) ∧ collected heard w w') w.
Proof.
  induction heard as [|id heard IH]; intros n pending w Hfd Hn Hnd Hrx Hreg.
  { destruct n as [|n]; cbn [collect_feedback].
    - wp_step. split_and!; try done. cbn. set_solver.
    - wp_step. eapply wp_mono; [apply silent_receive; [unfold kFtFeedbackLength; lia|exact Hrx]|].
      intros [[rc id] fb] w' [Hrc Q]. cbn in Hrc. subst rc. change (negb (ok NO_RESPONSE)) with true. cbv iota. wp_step.
      split_and!; [cbn; set_solver|done|]. destruct Q as ((F & _ & R & D) & P1 & R1 & X1). by split_and!. }
  apply NoDup_cons in Hnd as [Hni Hnd]. apply Forall_cons in Hreg as [[Hp [Hid Hix]] Hreg].
  destruct n as [|n]; [cbn in Hn; lia|]. cbn [collect_feedback map concat] in *. wp_step.
  assert (length (feedback_of w id) = kFtFeedbackLength) as Hl by (unfold feedback_of, read_regs; by rewrite length_map, length_seq).
  rewrite <- Hl.
  eapply wp_mono; [apply (bus_receive_status kFtBroadcastId id (feedback_of w id) (concat (map (λ id, status_packet id 0 (feedback_of w id)) heard)) w Hfd)|].
  - unfold kFtHeaderByte. lia.
  - by left.
  - rewrite Hl. unfold kFtFeedbackLength. lia.
  - exact Hrx.
  - intros r w1 [-> [(F1 & V1 & R1 & D1) B1]]. change (negb (ok SUCCESS)) with false. cbv iota.
    rewrite bool_decide_true by done. cbn [negb]. wp_step. wp_step.
    rewrite R1, F1. rewrite (proj2 (Z.ltb_ge (find_data_index _ _) _)) by lia. rewrite (proj2 (Z.leb_gt _ _)) by lia. cbn [orb].
    wp_step. unfold on_ft. wp_step. set (w2 := w1 <| ft := _ |>).
    assert (ft w2 = store_feedback (data_slot w id) (feedback_of w id) (ft w)) as F2 by (cbn; by rewrite F1).
    assert (bus w2 = bus w1) as B2 by done.
    assert (∀ x, feedback_of w2 x = feedback_of w x) as Hfb by (intros; unfold feedback_of; by rewrite B2, B1).
    assert (∀ x, data_slot w2 x = data_slot w x) as Hds by (intros; unfold data_slot; cbn; by rewrite R1).
    assert (∀ l, stored w2 l = stored w (id :: l)) as Hst.
    { intros l. unfold stored. cbn [foldl]. rewrite F2. apply foldl_agree. intros f x. cbv beta. by rewrite Hfb, Hds. }
    eapply wp_mono; [apply (IH n (pending ∖ {[id]}) w2)|].
    + change (0 ≤ fd_of w1). by rewrite D1.
    + cbn in Hn. lia.
    + done.
    + rewrite B2, B1. symmetry. rewrite (map_ext _ (λ x, status_packet x 0 (feedback_of w x))); [done|].
      intros x. by rewrite Hfb.
    + rewrite Forall_forall in *. intros x Hx. destruct (Hreg x Hx) as [Hxp [Hx0 Hx1]]. split; [set_solver|].
      split; [done|]. cbn [ft_registry]. change (ft_registry w2) with (ft_registry w1). rewrite R1, F2. done.
    + intros r w3 (E1 & E2 & C). split_and!; [rewrite E1; cbn; set_solver| |].
      * rewrite E2. apply bool_decide_ext. cbn. lia.
      * destruct C as (C1 & C2 & C3 & C4 & C5 & C6). rewrite Hst in C6. split_and!; try done.
        -- rewrite C1. done.
        -- rewrite C2. change (fd_of w1 = fd_of w). by rewrite D1.
        -- rewrite C3, B2, B1. done.
        -- rewrite C4, B2, B1. done.
Qed.

(** The servos answer a bulk read in the order of its list. *)
Lemma obey_sync_read ids b address n :
  foldl (λ b id, if bool_decide (id ∈ present b) then reply id (read_regs (regs b) id address n) b else b) b ids =
  b <| rx := rx b ++ concat (map (λ id, status_packet id 0 (read_regs (regs b) id address n))
                              (filter (λ id, id ∈ present b) ids)) |>.
Proof.
  revert b. induction ids as [|id ids IH]; intros b; cbn [foldl].
  { cbn. rewrite app_nil_r. by destruct b. }
  rewrite IH. destruct (decide (id ∈ present b)) as [Hp|Hp].
  - rewrite bool_decide_true, filter_cons_True by done. cbn. by rewrite <- (assoc_L (++)).
  - rewrite bool_decide_false, filter_cons_False by done. done.
Qed.

(** ** The bulk read finds the silent servos *)

Record bulk_ready (w : W) : Prop := {
  br_fd : 0 ≤ fd_of w;
  br_wf : ft_wf (ft w);
  br_ids : NoDup (all_servo_ids_ (ft w)) ∧ (length (all_servo_ids_ (ft w)) ≤ 56)%nat;
  br_registered : Forall (registered w) (all_servo_ids_ (ft w));
  br_slots : ∀ i j, i ∈ all_servo_ids_ (ft w) → j ∈ all_servo_ids_ (ft w) → data_slot w i = data_slot w j → i = j;
}.

Lemma stored_pos (w : W) heard id : NoDup heard → (∀ x, x ∈ heard → (data_slot w x < length (pres_pos_ (ft w)))%nat) →
  (∀ i j, i ∈ heard → j ∈ heard → data_slot w i = data_slot w j → i = j) → id ∈ heard →
  pres_pos_ (stored w heard) !! data_slot w id = Some (u16 (reg_value (regs (bus w)) id 56 2)).
Proof.
  unfold stored. assert (∀ l, length (pres_pos_ (foldl (λ f id, store_feedback (data_slot w id) (feedback_of w id) f) (ft w) l))
    = length (pres_pos_ (ft w))) as Hlen.
  { intros l. induction l as [|x l IHl] using rev_ind; [done|]. rewrite foldl_snoc. cbn. by rewrite length_insert. }
  induction heard as [|x heard IH] using rev_ind; intros Hnd Hr Hinj Hin; [by apply elem_of_nil in Hin|].
  apply NoDup_app in Hnd as (Hnd & Hx & _). rewrite foldl_snoc. cbn [pres_pos_ store_feedback upd].
  destruct (decide (id = x)) as [->|Hne].
  - cbn. rewrite list_lookup_insert_eq; [|by rewrite Hlen; apply Hr; set_solver]. done.
  - cbn. rewrite list_lookup_insert_ne.
    + apply IH; [done| | |set_solver].
      * intros y Hy. apply Hr. set_solver.
      * intros i j Hi Hj. apply Hinj; set_solver.
    + intros E. apply Hne. symmetry. apply Hinj; set_solver.
Qed.

Lemma alive_sync (w : W) id : ft_wf (ft w) → id ∈ sync_read_ids_ (ft w) ↔ id ∈ all_servo_ids_ (ft w) ∧ id ∉ dead_servo_ids_ (ft w).
Proof. intros Hwf. rewrite (wf_sync _ Hwf). unfold alive_ids. rewrite list_elem_of_filter. tauto. Qed.

Definition heard_ids (w : W) : list Z := filter (λ id, id ∈ present (bus w)) (sync_read_ids_ (ft w)).

Lemma stored_keeps (w : W) heard : all_servo_ids_ (stored w heard) = all_servo_ids_ (ft w) ∧
  dead_servo_ids_ (stored w heard) = dead_servo_ids_ (ft w) ∧ sync_read_ids_ (stored w heard) = sync_read_ids_ (ft w).
Proof. unfold stored. induction heard as [|x l IHl] using rev_ind; [done|]. by rewrite foldl_snoc. Qed.

Lemma sync_ids_bounds (w : W) : bulk_ready w →
  NoDup (sync_read_ids_ (ft w)) ∧ (length (sync_read_ids_ (ft w)) ≤ 56)%nat ∧ Forall (registered w) (sync_read_ids_ (ft w)).
Proof.
  intros [Hfd Hwf [Hnd Hlen] Hreg Hslot]. rewrite (wf_sync _ Hwf). unfold alive_ids. split_and!.
  - by apply NoDup_filter.
  - pose proof (length_filter (λ id, id ∉ dead_servo_ids_ (ft w)) (all_servo_ids_ (ft w))). lia.
  - rewrite Forall_forall in *. intros x [_ Hx]%list_elem_of_filter. auto.
Qed.

(** The request leaves the answers of the servos heard on the line. *)
Lemma bus_request (w w1 : W) : bulk_ready w → line_after 0 [] w w1 →
  send_instruction io_fuel kFtBroadcastId kFtInstSyncRead
    (kFtAddrPresentPosition :: Z.of_nat kFtFeedbackLength :: map u8 (sync_read_ids_ (ft w))) w1 =
  (SUCCESS, w1 <| serial := (serial w1) <| tty :=
     (bus w) <| rx := concat (map (λ id, status_packet id 0 (feedback_of w id)) (heard_ids w)) |> |> |>).
Proof.
  intros Hr L. destruct (sync_ids_bounds w Hr) as (Hnd & Hlen & Hreg).
  assert (map u8 (sync_read_ids_ (ft w)) = sync_read_ids_ (ft w)) as ->.
  { rewrite <- map_id. apply map_ext_in. intros id Hid%list_elem_of_In. rewrite Forall_forall in Hreg.
    destruct (Hreg id Hid) as [? _]. apply wrap_small. unfold is_unsigned. lia. }
  destruct L as [(F & _ & _ & D) B]. rewrite bus_send.
  2: { pose proof (br_fd _ Hr). unfold fd_of in *. by rewrite D. }
  2: { cbn. lia. }
  do 4 f_equal. rewrite receive_instruction by (cbn; lia).
  change (kFtBroadcastId =? kFtBroadcastId) with true. cbv iota. unfold obey_all.
  change (kFtInstSyncRead =? kFtInstSyncRead) with true. cbv iota. rewrite obey_sync_read, B, Nat2Z.id.
  unfold heard_ids, feedback_of.
  replace (bus_time (bus w) + 0 * clock_step) with (bus_time (bus w)) by lia. by destruct (bus w).
Qed.

Lemma bus_classify (w : W) : 0 ≤ fd_of w → Forall (λ id, 0 ≤ id < 254) (all_servo_ids_ (ft w)) → rx (bus w) = [] →
  wp (classify_dead_servos io_fuel) (λ _ w', regs (bus w') = regs (bus w) ∧
    all_servo_ids_ (ft w') = all_servo_ids_ (ft w) ∧ pres_pos_ (ft w') = pres_pos_ (ft w) ∧
    sync_read_ids_ (ft w') = alive_ids (ft w') ∧
    ∀ id, id ∈ dead_servo_ids_ (ft w') ↔
      id ∈ dead_servo_ids_ (ft w) ∨ id ∈ all_servo_ids_ (ft w) ∧ id ∉ present (bus w)) w.
Proof.
  intros Hfd Hids Hrx. unfold classify_dead_servos. do 3 wp_step.
  eapply (wp_mono _ (λ _ w1, probed (all_servo_ids_ (ft w)) w w1)).
  - unfold when_. destruct (existsb _ _) eqn:Ex; [by apply bus_probe_all|]. wp_step.
    apply quiet_probed; [by apply quiet_refl|]. intros x Hx. right.
    destruct (decide (x ∈ dead_servo_ids_ (ft w))) as [|Hd]; [done|]. exfalso.
    assert (existsb (λ id, negb (is_dead w id)) (all_servo_ids_ (ft w)) = true); [|congruence].
    apply existsb_exists. exists x. split; [by apply list_elem_of_In|]. unfold is_dead. by rewrite bool_decide_false.
  - intros u w1 (D & P & R & X & dead & F & E). unfold on_ft. wp_step. unfold bus at 1. cbn. rewrite F. by split_and!.
Qed.

Lemma foldl_wf_length (w : W) : ft_wf (ft w) → length (pres_pos_ (ft w)) = length (all_servo_ids_ (ft w)).
Proof. intros Hwf. pose proof (wf_caches _ Hwf) as Hc. by apply Forall_cons in Hc as [Hc _]. Qed.

(** The positions after the collection, whatever classifies the rest. *)
Lemma heard_positions (w : W) : bulk_ready w → ∀ id, id ∈ heard_ids w →
  pres_pos_ (stored w (heard_ids w)) !! data_slot w id = Some (u16 (reg_value (regs (bus w)) id 56 2)).
Proof.
  intros Hr id Hid. destruct (sync_ids_bounds w Hr) as (Hnd & _ & Hreg). rewrite Forall_forall in Hreg.
  assert (∀ x, x ∈ heard_ids w → x ∈ sync_read_ids_ (ft w) ∧ x ∈ all_servo_ids_ (ft w)) as Hin.
  { intros x [_ Hx]%list_elem_of_filter. split; [done|]. by apply alive_sync in Hx as [? _]; [|apply Hr]. }
  apply stored_pos; [by apply NoDup_filter| | |done].
  - intros x [Hx _]%Hin. destruct (Hreg x Hx) as [_ Hix]. rewrite foldl_wf_length by apply Hr.
    pose proof (wf_total _ (br_wf _ Hr)) as Ht. unfold data_slot. lia.
  - intros i j [_ Hi]%Hin [_ Hj]%Hin. by apply (br_slots _ Hr).
Qed.

Lemma pending_heard (w : W) : (list_to_set (sync_read_ids_ (ft w)) : gset Z) ∖ list_to_set (heard_ids w) = ∅ ↔
  ∀ id, id ∈ sync_read_ids_ (ft w) → id ∈ present (bus w).
Proof.
  unfold heard_ids. split.
  - intros E id Hid. destruct (decide (id ∈ present (bus w))) as [|Hn]; [done|]. exfalso.
    assert (id ∈ (∅ : gset Z)) as H; [|by apply elem_of_empty in H]. rewrite <- E.
    apply elem_of_difference. rewrite !elem_of_list_to_set, list_elem_of_filter. tauto.
  - intros Hall. apply elem_of_equiv_empty_L. intros x. rewrite elem_of_difference, !elem_of_list_to_set, list_elem_of_filter.
    intros [Hx Hn]. apply Hn. auto.
Qed.

Lemma bus_bulk_read (w : W) : bulk_ready w → sync_read_ids_ (ft w) ≠ [] →
  wp (group_read_hardware_values io_fuel) (λ rc w',
    (rc = SUCCESS ∨ rc = FAIL) ∧ (rc = SUCCESS ↔ ∀ id, id ∈ sync_read_ids_ (ft w) → id ∈ present (bus w)) ∧
    regs (bus w') = regs (bus w) ∧ pres_pos_ (ft w') = pres_pos_ (stored w (heard_ids w)) ∧
    sync_read_ids_ (ft w') = alive_ids (ft w') ∧ all_servo_ids_ (ft w') = all_servo_ids_ (ft w) ∧
    ∀ id, id ∈ dead_servo_ids_ (ft w') ↔
      id ∈ dead_servo_ids_ (ft w) ∨ id ∈ all_servo_ids_ (ft w) ∧ id ∉ present (bus w)) w.
Proof.
  intros Hr Hne. destruct (sync_ids_bounds w Hr) as (Hnd & Hlen & Hreg). pose proof Hr as [Hfd Hwf [Had Hal] Har Hsl].
  unfold group_read_hardware_values. do 2 wp_step. rewrite (proj2 (Z.ltb_ge _ _)) by done.
  rewrite bool_decide_false by (intros E; apply Hne; rewrite (wf_sync _ Hwf); unfold alive_ids; by rewrite E).
  rewrite bool_decide_false by done. rewrite (proj2 (Nat.ltb_ge _ _)) by (unfold kFtMaxInstructionParams, kFtTxBufCapacity, kFtInstructionOverhead; lia).
  wp_step. eapply wp_mono; [by apply bus_flush|]. intros u w1 L1. unfold require. wp_step.
  unfold wp at 1. rewrite (bus_request w w1 Hr L1). cbn [fst snd]. change (negb (ok SUCCESS)) with false. cbv iota.
  set (w2 := w1 <| serial := _ |>). destruct L1 as [(F1 & V1 & R1 & D1) B1].
  assert (ft w2 = ft w) as F2 by exact F1. assert (ft_registry w2 = ft_registry w) as R2 by exact R1.
  assert (∀ x, feedback_of w2 x = feedback_of w x) as Hfb by done.
  wp_step. eapply wp_mono; [apply (bus_collect (heard_ids w) _ _ w2)|].
  - by change (0 ≤ fd_of w1); rewrite D1.
  - apply length_filter.
  - by apply NoDup_filter.
  - done.
  - rewrite Forall_forall in *. intros x [_ Hx]%list_elem_of_filter. split; [by apply elem_of_list_to_set|].
    unfold registered. rewrite R2, F2. by apply Hreg.
  - intros [rc pending] w3 (E1 & E2 & C1 & C2 & C3 & C4 & C5 & C6). cbn [fst snd] in E1, E2. subst pending.
    assert (ft w3 = stored w (heard_ids w)) as F3.
    { rewrite C6. unfold stored. rewrite F2. apply foldl_agree. intros f x. cbv beta. rewrite Hfb. unfold data_slot. by rewrite R2. }
    destruct (stored_keeps w (heard_ids w)) as (K1 & K2 & K3).
    assert (0 ≤ fd_of w3) as Hfd3 by (rewrite C2; change (0 ≤ fd_of w1); by rewrite D1).
    pose proof (pending_heard w) as Hpend.
    change (ok rc = bool_decide (length (sync_read_ids_ (ft w)) = length (heard_ids w))) in E2.
    destruct (decide ((list_to_set (sync_read_ids_ (ft w)) : gset Z) ∖ list_to_set (heard_ids w) = ∅)) as [Ep|Ep].
    + rewrite (bool_decide_true (_ = ∅)) by done. pose proof (proj1 Hpend Ep) as Hall.
      assert (heard_ids w = sync_read_ids_ (ft w)) as Hh by (by apply filter_every).
      rewrite E2, Hh, bool_decide_true by done. cbn [negb orb]. wp_step. unfold on_ft. do 2 wp_step.
      split; [by left|]. split; [by split|]. split; [exact C4|]. cbn. rewrite F3. unfold alive_ids. cbn.
      rewrite Hh in K1, K2, K3. rewrite Hh, K1, K2, K3.
      split_and!; [done|apply Hwf|done|]. intros id. split; [by left|]. intros [|[Hi Hni]]; [done|].
      destruct (decide (id ∈ dead_servo_ids_ (ft w))) as [|Hd]; [done|]. destruct Hni. apply Hall. by apply alive_sync.
    + rewrite (bool_decide_false (_ = ∅)), orb_true_r by done. wp_step. eapply wp_mono; [by apply bus_flush|].
      intros u2 w4 [(F4 & _ & _ & D4) B4]. wp_step. eapply wp_mono; [apply bus_classify|].
      * by rewrite D4.
      * rewrite F4, F3, K1. apply (Forall_impl _ _ _ Har). by intros x [Hx _].
      * by rewrite B4.
      * intros u3 w5 (G1 & G2 & G3 & G4 & G5). wp_step.
        split; [by right|]. split; [split; [done|]; intros Hall; by destruct Ep; apply Hpend|].
        rewrite G1, G2, G3, B4, F4, F3, K1. split; [exact C4|]. split_and!; [done..|].
        intros id. rewrite G5, F4, F3, K1, K2, B4. by cbn; rewrite C3.
Qed.

(** [C15] The bulk read hears everyone and marks exactly the silent: on a bus it succeeds
    when all servos asked are there and fails otherwise; the dead are those already dead
    and the missing ones; the next cycle asks the others only, so it succeeds; and of
    every servo heard the cached position is its position register. *)
Theorem group_read_finds_silent (w : W) : bulk_ready w → sync_read_ids_ (ft w) ≠ [] →
  let '(rc, w') := group_read_hardware_values io_fuel w in
  rc = (if decide (Forall (λ id, id ∈ present (bus w)) (sync_read_ids_ (ft w))) then SUCCESS else FAIL) ∧
  (∀ id, id ∈ dead_servo_ids_ (ft w') ↔
     id ∈ dead_servo_ids_ (ft w) ∨ id ∈ all_servo_ids_ (ft w) ∧ id ∉ present (bus w)) ∧
  (∀ id, id ∈ sync_read_ids_ (ft w') ↔
     id ∈ sync_read_ids_ (ft w) ∧ id ∈ present (bus w)) ∧
  (∀ id, id ∈ sync_read_ids_ (ft w) → id ∈ present (bus w) →
     pres_pos_ (ft w') !! data_slot w id = Some (u16 (reg_value (regs (bus w)) id 56 2))) ∧
  regs (bus w') = regs (bus w).
Proof.
  intros Hr Hne. pose proof (bus_bulk_read w Hr Hne) as H. unfold wp in H.
  destruct (group_read_hardware_values io_fuel w) as [rc w']. cbn [fst snd] in H.
  destruct H as (Hrc & Hok & Hregs & Hpos & Hsync & Hall & Hdead). split_and!; [|done| | |done].
  - rewrite <- Forall_forall in Hok. destruct (decide _) as [Hp|Hp]; [by apply Hok|]. destruct Hrc as [E|E]; [|done].
    by apply Hok in E.
  - intros id. rewrite Hsync. unfold alive_ids. rewrite list_elem_of_filter, Hdead, Hall, alive_sync by apply Hr.
    destruct (decide (id ∈ present (bus w))); tauto.
  - intros id Hid Hp. rewrite Hpos. apply heard_positions; [done|]. by apply list_elem_of_filter.
Qed.

End bus.

(** ** A bus of two servos *)

(** The bus with its bytes masked, which is what a port delivers. *)
Definition byte_bus : Tty FtBus := {|
  tty_now := tty_now; tty_sleep := tty_sleep; tty_open := tty_open; tty_tcgetattr := tty_tcgetattr;
  tty_tcsetattr := tty_tcsetattr; tty_get_modem_bits := tty_get_modem_bits; tty_set_dtr_rts := tty_set_dtr_rts;
  tty_flush := tty_flush; tty_close := tty_close;
  tty_read := λ fd n, r ← tty_read fd n; mret (match r with inl e => inl e | inr bytes => inr (map u8 bytes) end);
  tty_write := tty_write; tty_poll := tty_poll;
|}.

Lemma byte_bus_laws : @TtyLaws FtBus byte_bus.
Proof.
  split; intros fd x b; [|cbn; lia]. change (length (map u8 (take x (rx b))) ≤ x ∧ Forall is_byte (map u8 (take x (rx b))))%nat.
  rewrite length_map. split; [apply firstn_le_length|].
  apply Forall_map, Forall_true. intros y. by apply wrap_range.
Qed.

Definition two_servos : FtBus := mkFtBus {[ 1; 2 ]} ∅ [] 0.
Definition two_registry : Registry := mkRegistry {[ 1 := 0; 2 := 1 ]} {[ 1 := 1%positive; 2 := 2%positive ]}.
Definition bus_servo (id i : Z) : ServoFt := new_ServoFt ((new_Servo follower_arm None) <| id_ := id |> <| data_index_ := i |>).
Definition two_world {P} (p : P) : FtWorld P :=
  mkFtWorld {[ 1%positive := bus_servo 1 0; 2%positive := bus_servo 2 1 ]} two_registry
    (reset_driver [1; 2] new_FtDriver) (mkSerial "/dev/ttyACM0" 3 true false p).

Lemma two_wf {P} (p : P) : ft_wf (ft (two_world p)).
Proof. apply sound_reset. Qed.

(** A status packet after a byte of noise. *)
Lemma accepted_status_genuine_witness :
  let w := two_world (mkLogged (two_servos <| rx := 7 :: status_packet 1 0 [52; 18] |>) [] []) in
  let r := receive_status (H := @logged_tty _ byte_bus) 8 1 2 10 w in
  r.1.1.1 = SUCCESS ∧ length r.1.2 = 2%nat ∧
  ∃ noise error_byte, heard_of r.2 = heard_of w ++ noise ++ status_packet r.1.1.2 error_byte r.1.2.
Proof.
  intros w r. assert (r.1.1.1 = SUCCESS) as Hr by by vm_compute.
  pose proof (@accepted_status_genuine FtBus byte_bus byte_bus_laws 8 1 2 10 w) as H. fold r in H.
  destruct r as [[[rc id] ps] w']. cbn [fst snd] in *. destruct (H Hr) as (Hl & _ & _ & _ & Hh). by split_and!.
Defined.

(** A goal queued, a bulk read that misses servo 2, a flush. *)
Lemma ft_driver_books_witness :
  let w := two_world (two_servos <| present := {[ 1 ]} |>) in
  let w' := (ft_calls (λ _, 0) None 4 [CallGoalGroup (Some 1%positive) 5000; CallGroupRead; CallGroupWrite] w).2 in
  ft_wf (ft w) ∧ ft_wf (ft w') ∧ all_servo_ids_ (ft w') = [1; 2].
Proof.
  intros w w'. split; [apply two_wf|].
  destruct (ft_driver_books 4 (λ _, 0) None [CallGoalGroup (Some 1%positive) 5000; CallGroupRead; CallGroupWrite] w (two_wf _)) as [H1 H2].
  split; [exact H1|]. by destruct (H2 eq_refl).
Defined.

(** Servo 1 released, with a goal still queued for each of the two. *)
Lemma passive_leader_released_witness :
  let w0 := two_world (mkLogged two_servos [] []) in
  let w := w0 <| ft := (ft w0) <| pending_goal_position_ := [(1, 100); (2, 200)] |> |> in
  let r := ft_change_control_mode_for_leader (H := @logged_tty _ byte_bus) 8 follower_arm true 1%positive w in
  r.1 = SUCCESS ∧ answered 1 [0] r.2 ∧ (2, 200) ∈ pending_goal_position_ (ft r.2).
Proof.
  intros w0 w r. assert (r.1 = SUCCESS) as Hr by by vm_compute.
  assert (ft_servos w !! 1%positive = Some (bus_servo 1 0)) as Hs by done.
  pose proof (@passive_leader_released FtBus byte_bus byte_bus_laws 8 follower_arm 1%positive true (bus_servo 1 0) w Hs) as H.
  fold r in H. destruct r as [rc w']. cbn [fst snd] in *. destruct (H Hr) as (H1 & _ & H2).
  split_and!; [done|exact H1|]. apply (H2 (2, 200)); [done|]. cbn. right. left.
Defined.

(** The operating mode lives in EEPROM, here locked. *)
Lemma register_write_lands_witness :
  let w := two_world (two_servos <| regs := {[ (1, 55) := 1 ]} |>) in
  served 1 w ∧
  let '(rc, w1) := write_register 4 1 33 3 1 w in
  let '(r, w2) := read_register 4 1 33 1 w1 in
  rc = SUCCESS ∧ r = (SUCCESS, 3).
Proof.
  intros w. assert (served 1 w) as Hs by (split_and!; [by cbn|set_solver|done|done]). split; [exact Hs|].
  pose proof (register_write_lands 4 ltac:(lia) 1 33 3 1 w Hs eq_refl ltac:(lia) ltac:(lia)) as H.
  destruct (write_register _ _ _ _ _ w) as [rc w1]. destruct (read_register _ _ _ _ w1) as [[rc' v] w2].
  destruct H as (-> & -> & -> & _). by split.
Defined.

(** Two goals for servo 1, one for 2, and a torque limit. *)
Lemma group_write_reaches_servos_witness :
  let w0 := two_world two_servos in
  let w := w0 <| ft := (ft w0) <| pending_goal_position_ := [(1, 100); (2, 200); (1, 300)] |>
                              <| pending_torque_limit_ := [(2, 500)] |> |> in
  let '(rc, w') := group_write_hardware_values 4 w in
  rc = SUCCESS ∧ reg_value (regs (bus w')) 1 42 2 = 300 ∧ reg_value (regs (bus w')) 2 42 2 = 200 ∧
  reg_value (regs (bus w')) 2 48 2 = 500.
Proof.
  intros w0 w. pose proof (group_write_reaches_servos 4 ltac:(lia) w ltac:(by cbn) ltac:(cbn; lia) ltac:(cbn; lia)
    ltac:(repeat constructor; cbn; lia) ltac:(repeat constructor; cbn; lia)) as H.
  destruct (group_write_hardware_values 4 w) as [rc w']. destruct H as (H1 & _ & _ & H & _). split; [exact H1|].
  destruct (H 1 ltac:(set_solver)) as [-> _]. destruct (H 2 ltac:(set_solver)) as [-> ->]. by split_and!.
Defined.

(** Servo 2 has lost its cable. *)
Lemma group_read_finds_silent_witness :
  let w := two_world (two_servos <| present := {[ 1 ]} |> <| regs := {[ (1, 56) := 52; (1, 57) := 2 ]} |>) in
  bulk_ready w ∧
  let '(rc, w') := group_read_hardware_values 4 w in
  rc = FAIL ∧ 2 ∈ dead_servo_ids_ (ft w') ∧ ¬ 2 ∈ sync_read_ids_ (ft w') ∧ pres_pos_ (ft w') !! 0%nat = Some 564.
Proof.
  intros w. assert (bulk_ready w) as Hr.
  { split; [by cbn|apply two_wf|split; [|cbn; lia]|..].
    - change (NoDup [1; 2]). apply NoDup_cons. split; [set_solver|by apply NoDup_singleton].
    - change (Forall (registered w) [1; 2]). by rewrite !Forall_cons.
    - intros i j Hi Hj. change (i ∈ [1; 2]) in Hi. change (j ∈ [1; 2]) in Hj.
      rewrite !elem_of_cons in Hi, Hj. by destruct Hi as [->|[->|[]%elem_of_nil]], Hj as [->|[->|[]%elem_of_nil]]. }
  split; [exact Hr|]. pose proof (group_read_finds_silent 4 ltac:(lia) w Hr ltac:(done)) as H.
  destruct (group_read_hardware_values 4 w) as [rc w']. destruct H as (H1 & H2 & H3 & H4 & _). split_and!.
  - rewrite H1. by vm_compute.
  - apply H2. right. change (2 ∈ [1; 2] ∧ 2 ∉ ({[ 1 ]} : gset Z)). set_solver.
  - rewrite H3. change (¬ (2 ∈ [1; 2] ∧ 2 ∈ ({[ 1 ]} : gset Z))). set_solver.
  - apply (H4 1); [by left|]. change (1 ∈ ({[ 1 ]} : gset Z)). set_solver.
Defined.

(** On this bus every call returns. *)
Lemma ft_calls_return_witness :
  ∃ F w', ∀ io_fuel, (F ≤ io_fuel)%nat → ft_call (λ _, 0) None io_fuel CallGroupRead (two_world two_servos) = (tt, w').
Proof. apply (ft_calls_return (λ _, 0) None CallGroupRead (two_world two_servos)). Defined.
