(* ===== verification/Threads.v ===== *)
(** * Threads that share a state

    A thread is a sequence of atomic sections: between two of them another thread may
    run.  What one section does under a mutex is atomic; a mutex held across several
    sections is a flag of the state, and acquiring it a section that is enabled only
    while the flag is down.  [solo] runs a thread alone; [run_schedule] runs two of
    them in the order of a schedule. *)

From S2P Require Import Prelude.

(** A section: when it may run, what it does to the state, and the thread after it,
    which knows what the section saw. *)
Inductive Thread (S A : Type) : Type :=
| Ret (a : A)
| Act (enabled : S → bool) (effect : S → S) (next : S → Thread S A).
Arguments Ret {S A}.
Arguments Act {S A}.

#[export] Instance Thread_ret {S} : MRet (Thread S) := λ A a, Ret a.
#[export] Instance Thread_bind {S} : MBind (Thread S) := λ A B (k : A → Thread S B),
  fix bind (t : Thread S A) :=
    match t with
    | Ret a => k a
    | Act en effect next => Act en effect (λ s, bind (next s))
    end.

Section threads.
Context {S : Type}.

(** A section of its own. *)
Definition atomically {A} (m : St S A) : Thread S A :=
  Act (λ _, true) (λ s, snd (m s)) (λ s, Ret (fst (m s))).

(** [t] with a mutex held. *)
Definition holding {A} (held : S → bool) (set : bool → S → S) (t : Thread S A) : Thread S A :=
  Act (λ s, negb (held s)) (set true) (λ _, Ret tt);;
  a ← t;
  atomically (modify (set false));;
  Ret a.

(** Run alone, with every mutex free. *)
Fixpoint solo {A} (t : Thread S A) : St S A := λ s,
  match t with
  | Ret a => (a, s)
  | Act _ effect next => solo (next s) (effect s)
  end.

Lemma solo_ret {A} (a : A) s : solo (mret a) s = (a, s).
Proof. done. Qed.

Lemma solo_bind {A B} (t : Thread S A) (k : A → Thread S B) s :
  solo (t ≫= k) s = (a ← solo t; solo (k a)) s.
Proof.
  revert s. induction t as [a|en effect next IH]; intros s; [done|].
  change (solo (next s ≫= k) (effect s) = (a ← solo (Act en effect next); solo (k a)) s).
  rewrite IH. done.
Qed.

Lemma solo_atomically {A} (m : St S A) s : solo (atomically m) s = m s.
Proof. cbn. by destruct (m s). Qed.

Lemma wp_solo_bind {A B} (t : Thread S A) (k : A → Thread S B) Q s :
  wp (solo t) (λ a s', wp (solo (k a)) Q s') s → wp (solo (t ≫= k)) Q s.
Proof. unfold wp. rewrite solo_bind, bind_run. done. Qed.

Lemma wp_solo_atomically {A} (m : St S A) Q s : wp m Q s → wp (solo (atomically m)) Q s.
Proof. unfold wp. by rewrite solo_atomically. Qed.

Lemma wp_solo_ret {A} (a : A) (Q : A → S → Prop) s : Q a s → wp (solo (Ret a)) Q s.
Proof. done. Qed.

(** ** Two threads *)

Record Two := mkTwo { first : Thread S unit; second : Thread S unit; shared : S }.

(** The next section of a thread, if it may run. *)
Definition turn (t : Thread S unit) (s : S) : Thread S unit * S :=
  match t with
  | Act en effect next => if en s then (next s, effect s) else (t, s)
  | Ret _ => (t, s)
  end.

Definition schedule_step (c : Two) (who : bool) : Two :=
  if who then let '(t, s) := turn (second c) (shared c) in mkTwo (first c) t s
  else let '(t, s) := turn (first c) (shared c) in mkTwo t (second c) s.

Definition run_schedule (schedule : list bool) (c : Two) : Two := foldl schedule_step c schedule.

(** What every section of a thread keeps, whatever runs in between: [I] is what the
    threads keep together, [R] what each section does. *)
Section always.
Context (I : S → Prop) (R : relation S).

Fixpoint always {A} (t : Thread S A) : Prop :=
  match t with
  | Ret _ => True
  | Act en effect next => ∀ s, I s → I (effect s) ∧ R s (effect s) ∧ always (next s)
  end.

Lemma always_bind {A B} (t : Thread S A) (k : A → Thread S B) :
  always t → (∀ a, always (k a)) → always (t ≫= k).
Proof.
  intros Ht Hk. induction t as [a|en effect next IH]; [apply Hk|]. intros s HI.
  destruct (Ht s HI) as (H1 & H2 & H3). split_and!; [done|done|]. by apply IH.
Qed.

Lemma always_atomically {A} (m : St S A) : (∀ s, I s → wp m (λ _ s', I s' ∧ R s s') s) → always (atomically m).
Proof. intros H s HI. destruct (H s HI). by split_and!. Qed.

(** Knowing what the section saw. *)
Lemma always_then {A B} (m : St S A) (k : A → Thread S B) :
  (∀ s, I s → wp m (λ a s', I s' ∧ R s s' ∧ always (k a)) s) → always (a ← atomically m; k a).
Proof. intros H s HI. exact (H s HI). Qed.

Lemma always_run `{!PreOrder R} (c : Two) (schedule : list bool) :
  always (first c) → always (second c) → I (shared c) →
  let c' := run_schedule schedule c in I (shared c') ∧ R (shared c) (shared c').
Proof.
  revert c. induction schedule as [|who schedule IH]; intros c H1 H2 HI; [by split|].
  assert (∀ t, always t → let '(t', s') := turn t (shared c) in always t' ∧ I s' ∧ R (shared c) s') as Hturn.
  { intros [a|en effect next] Ht; [split_and!; (exact Ht || done || reflexivity)|].
    cbn. destruct (en (shared c)) eqn:E; [|split_and!; (exact Ht || done || reflexivity)].
    by destruct (Ht _ HI) as (? & ? & ?). }
  change (run_schedule (who :: schedule) c) with (run_schedule schedule (schedule_step c who)).
  assert (always (first (schedule_step c who)) ∧ always (second (schedule_step c who)) ∧
          I (shared (schedule_step c who)) ∧ R (shared c) (shared (schedule_step c who))) as (G1 & G2 & G3 & G4).
  { unfold schedule_step. destruct who.
    - specialize (Hturn _ H2). destruct (turn (second c) (shared c)) as [t s]. cbn. tauto.
    - specialize (Hturn _ H1). destruct (turn (first c) (shared c)) as [t s]. cbn. tauto. }
  destruct (IH _ G1 G2 G3) as [HI' HR]. split; [exact HI'|]. etrans; [exact G4|exact HR].
Qed.

Lemma always_solo `{!PreOrder R} {A} (t : Thread S A) (s : S) : always t → I s → I (solo t s).2 ∧ R s (solo t s).2.
Proof.
  revert s. induction t as [a|en effect next IH]; intros s Ht HI; [by split|].
  destruct (Ht s HI) as (H1 & H2 & H3). destruct (IH s (effect s) H3 H1) as [H4 H5]. split; [exact H4|]. etrans; [exact H2|exact H5].
Qed.

(** As [always], where a thread that last ran in [s0] knows what the sections in between
    can have done to it, that its own section was enabled, and gives a value in [Q]. *)
Fixpoint assured {A} (Q : A → S → Prop) (t : Thread S A) (s0 : S) : Prop :=
  match t with
  | Ret a => Q a s0
  | Act en effect next => ∀ s, R s0 s → I s → en s = true → I (effect s) ∧ R s (effect s) ∧ assured Q (next s) (effect s)
  end.

Lemma assured_bind {A B} (Q : B → S → Prop) (t : Thread S A) (k : A → Thread S B) s0 :
  assured (λ a s, assured Q (k a) s) t s0 → assured Q (t ≫= k) s0.
Proof.
  revert s0. induction t as [a|en effect next IH]; intros s0 Ht; [exact Ht|]. intros s HR HI He.
  destruct (Ht s HR HI He) as (H1 & H2 & H3). split_and!; [done|done|]. by apply IH.
Qed.

Lemma assured_mono {A} (Q Q' : A → S → Prop) (t : Thread S A) s0 :
  assured Q t s0 → (∀ a s, Q a s → Q' a s) → assured Q' t s0.
Proof.
  revert s0. induction t as [a|en effect next IH]; intros s0 Ht HQ; [by apply HQ|]. intros s HR HI He.
  destruct (Ht s HR HI He) as (H1 & H2 & H3). split_and!; [done|done|]. by apply IH.
Qed.

Lemma assured_atomically {A} (Q : A → S → Prop) (m : St S A) s0 :
  (∀ s, R s0 s → I s → wp m (λ a s', I s' ∧ R s s' ∧ Q a s') s) → assured Q (atomically m) s0.
Proof. intros H s HR HI _. exact (H s HR HI). Qed.

Lemma assured_ret {A} (Q : A → S → Prop) (a : A) s0 : Q a s0 → assured Q (Ret a) s0.
Proof. done. Qed.

Lemma assured_run `{!PreOrder R} (c : Two) (schedule : list bool) s1 s2 :
  assured (λ _ _, True) (first c) s1 → assured (λ _ _, True) (second c) s2 →
  R s1 (shared c) → R s2 (shared c) → I (shared c) →
  let c' := run_schedule schedule c in I (shared c') ∧ R (shared c) (shared c').
Proof.
  revert c s1 s2. induction schedule as [|who schedule IH]; intros c s1 s2 H1 H2 R1 R2 HI; [by split|].
  assert (∀ t s0, assured (λ _ _, True) t s0 → R s0 (shared c) → let '(t', s') := turn t (shared c) in
    (∃ s0', assured (λ _ _, True) t' s0' ∧ R s0' s') ∧ I s' ∧ R (shared c) s') as Hturn.
  { intros [a|en effect next] s0 Ht HR; [split_and!; [by exists s0|exact HI|reflexivity]|].
    cbn. destruct (en (shared c)) eqn:E; [|split_and!; [by exists s0|exact HI|reflexivity]].
    destruct (Ht _ HR HI E) as (G1 & G2 & G3). split_and!; [|done|done]. by exists (effect (shared c)). }
  change (run_schedule (who :: schedule) c) with (run_schedule schedule (schedule_step c who)).
  assert (∃ t1 t2, assured (λ _ _, True) (first (schedule_step c who)) t1 ∧ assured (λ _ _, True) (second (schedule_step c who)) t2 ∧
          R t1 (shared (schedule_step c who)) ∧ R t2 (shared (schedule_step c who)) ∧
          I (shared (schedule_step c who)) ∧ R (shared c) (shared (schedule_step c who))) as (t1 & t2 & G1 & G2 & G3 & G4 & G5 & G6).
  { unfold schedule_step. destruct who.
    - specialize (Hturn _ _ H2 R2). destruct (turn (second c) (shared c)) as [t s]. destruct Hturn as ((s0 & Ha & Hr) & Hi & HR).
      exists s1, s0. split_and!; try done. by etrans; [exact R1|exact HR].
    - specialize (Hturn _ _ H1 R1). destruct (turn (first c) (shared c)) as [t s]. destruct Hturn as ((s0 & Ha & Hr) & Hi & HR).
      exists s0, s2. split_and!; try done. by etrans; [exact R2|exact HR]. }
  destruct (IH _ t1 t2 G1 G2 G3 G4 G5) as [HI' HR]. split; [exact HI'|]. etrans; [exact G6|exact HR].
Qed.
End always.
End threads.
Arguments Two : clear implicits.
