(* ===== verification/DriverController.v ===== *)
(** * Whole-arm controllers (pi_driver_controller.cpp)

    Arms that are not driven servo by servo but through a vendor's controller: one
    read fetches the state of all joints, commands are queued per joint and written
    together, and a watchdog thread idles the arm when the control loop stops.

    The vendor's hooks are the class [Vendor].  The driver's operations are threads
    ([Threads]): every critical section of [command_mutex_] and [state_mutex_], every
    access of an atomic and every vendor call is a section; [safe_mutex_], which is
    held across a vendor call, is a flag. *)

From S2P Require Import Prelude.
From S2P Require Import FloatSpec.
From S2P Require Import Control.
From S2P Require Import CanBus.
From S2P Require Import Servo.
From S2P Require Import Threads.

Definition CONTROLLER_STALL_WATCHDOG_TIMEOUT_MS : Z := 1000.
Definition CONTROLLER_STALL_WATCHDOG_PERIOD_MS : Z := 100.

Inductive JointCommandMode := UNSET | POSITION | EXTERNAL_EFFORT.
#[export] Instance JointCommandMode_eq_dec : EqDecision JointCommandMode.
Proof. solve_decision. Defined.

Record JointCommand := mkJointCommand {
  jc_mode : JointCommandMode;
  jc_position : f32;
  jc_velocity_ff : f32;
  jc_external_effort : f32;
  jc_pending : bool;
}.
#[export] Instance eta_JointCommand : Eta JointCommand := λ r, mkJointCommand
  (jc_mode r) (jc_position r) (jc_velocity_ff r) (jc_external_effort r) (jc_pending r).
Definition new_JointCommand : JointCommand := mkJointCommand UNSET f0 f0 f0 false.

Record JointState := mkJointState {
  jst_position : f32;
  jst_velocity : f32;
  jst_effort : f32;
  jst_temperature : f32;
  jst_valid : bool;
}.
Definition new_JointState : JointState := mkJointState f0 f0 f0 f0 false.

(** ** The vendor's hooks, and the host's clock *)

Class Vendor (V : Type) := {
  vendor_connect : string → St V (ReturnCode * Z);      (* the joint count on success *)
  vendor_disconnect : St V ReturnCode;
  vendor_read_state : list JointState → St V (ReturnCode * list JointState);
  vendor_write_commands : list JointCommand → St V ReturnCode;
  vendor_apply_command_modes : list JointCommandMode → St V ReturnCode;
  vendor_make_safe : St V ReturnCode;
  steady_now_ms : St V Z;
  sleep_for_ms : Z → St V unit;
}.
#[export] Hint Mode Vendor ! : typeclass_instances.

(** ** State *)

Record Controller := mkController {
  controller_address : string;          (* control_port_name_ *)
  joint_count_ : Z;
  opened_ : bool;
  read_success_count_ : Z;
  commands_ : list JointCommand;
  desired_modes_ : list JointCommandMode;
  modes_dirty_ : bool;
  states_ : list JointState;
  safe_mutex_ : bool;                   (* held *)
  made_safe_ : bool;
  watchdog_joinable : bool;             (* watchdog_thread_.joinable() *)
  watchdog_alive : bool;                (* watchdog_loop has not returned *)
  watchdog_running_ : bool;
  watchdog_tripped_ : bool;
  last_interaction_ms_ : Z;
}.
#[export] Instance eta_Controller : Eta Controller := λ r, mkController
  (controller_address r) (joint_count_ r) (opened_ r) (read_success_count_ r) (commands_ r)
  (desired_modes_ r) (modes_dirty_ r) (states_ r) (safe_mutex_ r) (made_safe_ r)
  (watchdog_joinable r) (watchdog_alive r) (watchdog_running_ r) (watchdog_tripped_ r)
  (last_interaction_ms_ r).

Definition new_Controller (address : string) : Controller :=
  mkController address 0 false 0 [] [] false [] false false false false false false 0.

Record CtlWorld (V : Type) := mkCtlWorld {
  ctl : Controller;
  ctl_servos : gmap ptr Servo;          (* the ServoController objects *)
  vendor : V;
}.
Arguments mkCtlWorld {V}.
Arguments ctl {V}.
Arguments ctl_servos {V}.
Arguments vendor {V}.
#[export] Instance eta_CtlWorld V : Eta (CtlWorld V) := λ r, mkCtlWorld (ctl r) (ctl_servos r) (vendor r).

(** [require] between threads. *)
Definition when_ok {S} (m k : Thread S ReturnCode) : Thread S ReturnCode :=
  rc ← m; if negb (ok rc) then Ret rc else k.

Section controller.
Context {V : Type} `{Vendor V}.
Local Abbreviation W := (CtlWorld V).

Definition on_vendor {A} (m : St V A) : Thread W A := atomically (lift_into vendor (λ v w, w <| vendor := v |>) m).
Definition on_ctl (f : Controller → Controller) : Thread W unit := atomically (modify (λ w, w <| ctl := f (ctl w) |>)).
Definition look {A} (f : Controller → A) : Thread W A := atomically (gets (λ w, f (ctl w))).

Definition with_safe_mutex {A} (t : Thread W A) : Thread W A :=
  holding (λ w, safe_mutex_ (ctl w)) (λ b w, w <| ctl := (ctl w) <| safe_mutex_ := b |> |>) t.

Definition validate_data_index (c : Controller) (data_index : Z) : ReturnCode :=
  if (data_index <? 0) || (joint_count_ c <=? data_index) then INVALID_PARAM else SUCCESS.

Definition feed_watchdog : Thread W unit :=
  now ← on_vendor steady_now_ms;
  on_ctl (λ c, c <| last_interaction_ms_ := now |>).

(** ** Making the arm safe *)

Definition drop_commands (c : Controller) : Controller :=
  c <| desired_modes_ := map (λ _, UNSET) (desired_modes_ c) |>
    <| commands_ := map (λ _, new_JointCommand) (commands_ c) |>
    <| modes_dirty_ := false |>.

Definition make_safe : Thread W ReturnCode :=
  with_safe_mutex
    (c ← look (λ c, c);
     if made_safe_ c || negb (opened_ c) then Ret SUCCESS
     else when_ok (on_vendor vendor_make_safe)
       (on_ctl (λ c, c <| made_safe_ := true |>);;
        on_ctl drop_commands;;
        Ret SUCCESS)).

(** [join] waits for the loop to return. *)
Definition stop_watchdog : Thread W unit :=
  on_ctl (λ c, c <| watchdog_running_ := false |>);;
  joinable ← look watchdog_joinable;
  if negb joinable then Ret tt
  else
    Act (λ w : W, negb (watchdog_alive (ctl w))) (λ w : W, w <| ctl := (ctl w) <| watchdog_joinable := false |> |>)
        (λ _, Ret tt).

Definition close : Thread W ReturnCode :=
  stop_watchdog;;
  opened ← look opened_;
  if negb opened then Ret SUCCESS
  else
    make_safe;;
    rc ← on_vendor vendor_disconnect;
    on_ctl (λ c, c <| opened_ := false |>);;
    Ret rc.

(** ** Once per control cycle *)

Definition group_read_hardware_values : Thread W ReturnCode :=
  c ← look (λ c, c);
  if negb (opened_ c) then Ret NOT_INITIALIZED
  else
    '(rc, states) ← on_vendor (vendor_read_state (replicate (Z.to_nat (joint_count_ c)) new_JointState));
    if negb (ok rc) then Ret rc
    else
      on_ctl (λ c, c <| states_ := states |>);;
      on_ctl (λ c, c <| read_success_count_ := u64 (read_success_count_ c + 1) |>);;
      feed_watchdog;;
      Ret SUCCESS.

(** The queued commands, and the modes where they changed; both are taken. *)
Definition take_commands : Thread W (option (list JointCommandMode) * list JointCommand) :=
  atomically
    (w ← get_state;
     let c := ctl w in
     modify (λ w, w <| ctl := c <| modes_dirty_ := false |>
                                <| commands_ := map (λ command, command <| jc_pending := false |>) (commands_ c) |> |>);;
     mret (if modes_dirty_ c then Some (desired_modes_ c) else None, commands_ c)).

(** The arm is active after new modes: a later shutdown has to idle it again. *)
Definition apply_modes (modes : list JointCommandMode) : Thread W ReturnCode :=
  rc ← on_vendor (vendor_apply_command_modes modes);
  if negb (ok rc) then on_ctl (λ c, c <| modes_dirty_ := true |>);; Ret rc
  else with_safe_mutex (on_ctl (λ c, c <| made_safe_ := false |>));; Ret SUCCESS.

Definition group_write_hardware_values : Thread W ReturnCode :=
  opened ← look opened_;
  if negb opened then Ret NOT_INITIALIZED
  else
    tripped ← look watchdog_tripped_;
    if tripped : bool then Ret SAFE_MODE_SIG
    else
      '(modes, commands) ← take_commands;
      when_ok (match modes with Some modes => apply_modes modes | None => Ret SUCCESS end)
      (when_ok (if existsb jc_pending commands then on_vendor (vendor_write_commands commands) else Ret SUCCESS)
         (feed_watchdog;; Ret SUCCESS)).

Definition read_hardware_values (p_servo : option ptr) : Thread W ReturnCode :=
  servo ← atomically (gets (λ w, p_servo ≫= λ p, p_s ← ctl_servos w !! p; Some (p, p_s)));
  match servo with
  | None => Ret INVALID_PARAM
  | Some (p, s) =>
      when_ok (look (λ c, validate_data_index c (data_index_ s)))
        (state ← look (λ c, nth (Z.to_nat (data_index_ s)) (states_ c) new_JointState);
         if negb (jst_valid state) then Ret NO_RESPONSE
         else
           atomically (modify (λ w, w <| ctl_servos := alter (λ s : Servo,
             s <| curr_pos_abs_ := jst_position state |> <| curr_vel_ := jst_velocity state |>
               <| curr_tor_ := jst_effort state |> <| temperature_ := jst_temperature state |>) p (ctl_servos w) |>));;
           Ret SUCCESS)
  end.

(** ** Opening *)

Definition reset_controller (joint_count : Z) (c : Controller) : Controller :=
  let n := Z.to_nat joint_count in
  c <| commands_ := replicate n new_JointCommand |> <| desired_modes_ := replicate n UNSET |>
    <| modes_dirty_ := false |> <| states_ := replicate n new_JointState |>
    <| read_success_count_ := 0 |> <| made_safe_ := false |> <| watchdog_tripped_ := false |>
    <| opened_ := true |>.

Definition open : Thread W ReturnCode :=
  c ← look (λ c, c);
  if opened_ c then Ret SUCCESS
  else if String.eqb (controller_address c) "" then Ret INVALID_PARAM
  else
    '(rc, joint_count) ← on_vendor (vendor_connect (controller_address c));
    if negb (ok rc) then Ret rc
    else if joint_count <=? 0 then on_vendor vendor_disconnect;; Ret HARDWARE_FAULT
    else
      on_ctl (λ c, c <| joint_count_ := joint_count |>);;
      on_ctl (reset_controller joint_count);;
      rc ← group_read_hardware_values;
      if negb (ok rc) then close;; Ret rc else Ret SUCCESS.

(** ** Queueing *)

Definition on_valid_index (data_index : Z) (k : Thread W ReturnCode) : Thread W ReturnCode :=
  when_ok (look (λ c, validate_data_index c data_index)) k.

(** A critical section that looks at the joint's mode. *)
Definition on_slot (data_index : Z) (f : JointCommandMode → Controller → ReturnCode * Controller) : Thread W ReturnCode :=
  atomically (λ w,
    let '(rc, c) := f (nth (Z.to_nat data_index) (desired_modes_ (ctl w)) UNSET) (ctl w) in (rc, w <| ctl := c |>)).

Definition set_joint_command_mode (data_index : Z) (mode : JointCommandMode) : Thread W ReturnCode :=
  on_valid_index data_index
    (if bool_decide (mode = UNSET) then Ret INVALID_PARAM
     else on_slot data_index (λ desired c,
       if bool_decide (desired = mode) then (SUCCESS, c)
       else
         let i := Z.to_nat data_index in
         (SUCCESS, c <| desired_modes_ := <[i := mode]> (desired_modes_ c) |> <| modes_dirty_ := true |>
                     <| commands_ := <[i := new_JointCommand]> (commands_ c) |>))).

Definition queue_command (data_index : Z) (command : JointCommand) : Thread W ReturnCode :=
  on_valid_index data_index (on_slot data_index (λ desired c,
    if bool_decide (desired ≠ jc_mode command) then (INVALID_PARAM, c)
    else (SUCCESS, c <| commands_ := <[Z.to_nat data_index := command]> (commands_ c) |>))).

Definition queue_position (data_index : Z) (position velocity_ff : f32) : Thread W ReturnCode :=
  queue_command data_index (mkJointCommand POSITION position velocity_ff f0 true).

Definition queue_external_effort (data_index : Z) (external_effort : f32) : Thread W ReturnCode :=
  queue_command data_index (mkJointCommand EXTERNAL_EFFORT f0 f0 external_effort true).

(** ** The stall watchdog *)

Definition arm_comm_loss_protection : Thread W ReturnCode :=
  opened ← look opened_;
  if negb opened then Ret NOT_INITIALIZED
  else
    running ← look watchdog_running_;
    if running : bool then Ret SUCCESS
    else
      feed_watchdog;;
      on_ctl (λ c, c <| watchdog_running_ := true |>);;
      on_ctl (λ c, c <| watchdog_joinable := true |> <| watchdog_alive := true |>);;
      Ret SUCCESS.

(** One pass of the loop; whether it goes on. *)
Definition watchdog_round : Thread W bool :=
  running ← look watchdog_running_;
  if negb running then Ret false
  else
    on_vendor (sleep_for_ms CONTROLLER_STALL_WATCHDOG_PERIOD_MS);;
    running ← look watchdog_running_;
    if negb running then Ret false
    else
      now ← on_vendor steady_now_ms;
      last ← look last_interaction_ms_;
      if now - last <=? CONTROLLER_STALL_WATCHDOG_TIMEOUT_MS then Ret true
      else
        tripped ← look watchdog_tripped_;
        if tripped : bool then Ret true
        else on_ctl (λ c, c <| watchdog_tripped_ := true |>);; make_safe;; Ret true.

Fixpoint watchdog_loop (rounds : nat) : Thread W unit :=
  match rounds with
  | O => Ret tt
  | S rounds =>
      continue_ ← watchdog_round;
      if continue_ : bool then watchdog_loop rounds else on_ctl (λ c, c <| watchdog_alive := false |>)
  end.

Definition has_valid_state (c : Controller) : bool := 0 <? read_success_count_ c.
End controller.
