(* ===== verification/DriverTrossen.v ===== *)
(** * The Trossen controller (pi_driver_trossen.cpp, pi_trossen_shim.cpp)

    The shim turns the exceptions of the vendor's driver object into [false] and a
    message; the driver above it implements the hooks of [DriverController].  The
    vendor's object is the class [TrossenArm]: a call gives its value or the message
    of the exception it throws. *)

From S2P Require Import Prelude.
From S2P Require Import FloatSpec.
From S2P Require Import Control.
From S2P Require Import CanBus.
From S2P Require Import Servo.
From S2P Require Import Threads.
From S2P Require Import DriverController.

Inductive ShimMode := IDLE | SHIM_POSITION | SHIM_EXTERNAL_EFFORT.

Class TrossenArm (T : Type) := {
  arm_configure : bool → string → bool → f64 → St T (string + unit);    (* leader end effector, address *)
  arm_cleanup : St T (string + unit);
  arm_get_num_joints : T → Z;
  arm_get_all_positions : St T (string + list f64);
  arm_get_all_velocities : St T (string + list f64);
  arm_get_all_efforts : St T (string + list f64);
  arm_get_all_rotor_temperatures : St T (string + list f64);
  arm_set_arm_positions : list f64 → f64 → bool → list f64 → St T (string + unit);
  arm_set_arm_external_efforts : list f64 → f64 → bool → St T (string + unit);
  arm_set_joint_position : Z → f64 → f64 → bool → f64 → St T (string + unit);
  arm_set_joint_external_effort : Z → f64 → f64 → bool → St T (string + unit);
  arm_set_gripper_position : f64 → f64 → bool → f64 → St T (string + unit);
  arm_set_gripper_external_effort : f64 → f64 → bool → St T (string + unit);
  arm_set_joint_modes : list ShimMode → St T (string + unit);
  arm_set_all_modes : ShimMode → St T (string + unit);
  arm_steady_now_ms : St T Z;
  arm_sleep_for_ms : Z → St T unit;
}.
#[export] Hint Mode TrossenArm ! : typeclass_instances.

(** ** The shim *)

Record TrossenArmShim := mkTrossenArmShim {
  impl_ : bool;                   (* impl_ != nullptr *)
  last_error_ : string;
}.
#[export] Instance eta_TrossenArmShim : Eta TrossenArmShim := λ r, mkTrossenArmShim (impl_ r) (last_error_ r).
Definition new_TrossenArmShim : TrossenArmShim := mkTrossenArmShim false "".

(** The driver, its shim and what is behind it. *)
Record Trossen (T : Type) := mkTrossen {
  controller_model_ : string;
  is_leader_role_ : bool;
  p_arm_ : option TrossenArmShim;
  arm : T;
}.
Arguments mkTrossen {T}.
Arguments controller_model_ {T}.
Arguments is_leader_role_ {T}.
Arguments p_arm_ {T}.
Arguments arm {T}.
#[export] Instance eta_Trossen T : Eta (Trossen T) := λ r, mkTrossen
  (controller_model_ r) (is_leader_role_ r) (p_arm_ r) (arm r).

Definition TROSSEN_MODEL_WXAI_V0 : string := "wxai_v0".
Definition TROSSEN_STREAM_GOAL_TIME_S : f64 := f64_of_Z 0.
Definition TROSSEN_CONFIGURE_TIMEOUT_S : f64 := f64_of_Z 10.

Section shim.
Context {T : Type} `{TrossenArm T}.

Definition SH : Type := TrossenArmShim * T.

(** A call of the vendor's object; its exception becomes the last error. *)
Definition catching {A} (m : St T (string + A)) (failed : TrossenArmShim → TrossenArmShim) : St SH (option A) :=
  λ '(s, t), let '(r, t) := m t in
    match r with
    | inl what => (None, (failed (s <| last_error_ := what |>), t))
    | inr a => (Some a, (s, t))
    end.

Definition fail_with (what : string) : St SH bool := modify (λ '(s, t), (s <| last_error_ := what |>, t));; mret false.
Definition succeed : St SH bool := fail_with "";; mret true.

(** The shape of every call but [configure] and [cleanup]. *)
Definition shim_call {A} (name : string) (m : St T (string + A)) : St SH bool :=
  '(s, _) ← get_state;
  if negb (impl_ s) then fail_with (name ++ "() called without a configured driver")
  else
    r ← catching m id;
    match r with None => mret false | Some _ => succeed end.

Definition shim_configure (model : string) (leader_end_effector : bool) (address : string)
    (clear_error : bool) (timeout_s : f64) : St SH bool :=
  if negb (String.eqb model TROSSEN_MODEL_WXAI_V0)
  then fail_with ("unsupported Trossen controller model '" ++ model ++ "' (supported: " ++ TROSSEN_MODEL_WXAI_V0 ++ ")")
  else
    modify (λ '(s, t), (s <| impl_ := true |>, t));;
    r ← catching (arm_configure leader_end_effector address clear_error timeout_s) (λ s, s <| impl_ := false |>);
    match r with None => mret false | Some _ => succeed end.

Definition shim_cleanup : St SH bool :=
  '(s, _) ← get_state;
  if negb (impl_ s) then mret true
  else
    r ← catching arm_cleanup id;
    modify (λ '(s, t), (s <| impl_ := false |>, t));;
    match r with None => mret false | Some _ => succeed end.

Definition num_joints : St SH Z := gets (λ '(s, t), if impl_ s then arm_get_num_joints t else 0).

(** The out parameters keep what the calls before a failure gave. *)
Definition read_state : St SH (bool * (list f64 * list f64 * list f64 * list f64)) :=
  '(s, _) ← get_state;
  if negb (impl_ s) then r ← fail_with "read_state() called without a configured driver"; mret (r, ([], [], [], []))
  else
    r1 ← catching arm_get_all_positions id;
    match r1 with None => mret (false, ([], [], [], [])) | Some positions =>
    r2 ← catching arm_get_all_velocities id;
    match r2 with None => mret (false, (positions, [], [], [])) | Some velocities =>
    r3 ← catching arm_get_all_efforts id;
    match r3 with None => mret (false, (positions, velocities, [], [])) | Some efforts =>
    r4 ← catching arm_get_all_rotor_temperatures id;
    match r4 with None => mret (false, (positions, velocities, efforts, [])) | Some temperatures =>
    r ← succeed; mret (r, (positions, velocities, efforts, temperatures))
    end end end end.

Definition set_arm_positions (positions : list f64) (goal_time : f64) (blocking : bool) (velocity_ffs : list f64) : St SH bool :=
  shim_call "set_arm_positions" (arm_set_arm_positions positions goal_time blocking velocity_ffs).
Definition set_arm_external_efforts (efforts : list f64) (goal_time : f64) (blocking : bool) : St SH bool :=
  shim_call "set_arm_external_efforts" (arm_set_arm_external_efforts efforts goal_time blocking).
Definition set_joint_position (joint_index : Z) (position goal_time : f64) (blocking : bool) (velocity_ff : f64) : St SH bool :=
  shim_call "set_joint_position" (arm_set_joint_position (u8 joint_index) position goal_time blocking velocity_ff).
Definition set_joint_external_effort (joint_index : Z) (effort goal_time : f64) (blocking : bool) : St SH bool :=
  shim_call "set_joint_external_effort" (arm_set_joint_external_effort (u8 joint_index) effort goal_time blocking).
Definition set_gripper_position (position goal_time : f64) (blocking : bool) (velocity_ff : f64) : St SH bool :=
  shim_call "set_gripper_position" (arm_set_gripper_position position goal_time blocking velocity_ff).
Definition set_gripper_external_effort (effort goal_time : f64) (blocking : bool) : St SH bool :=
  shim_call "set_gripper_external_effort" (arm_set_gripper_external_effort effort goal_time blocking).
Definition set_joint_modes (modes : list ShimMode) : St SH bool :=
  shim_call "set_joint_modes" (arm_set_joint_modes modes).
Definition set_all_modes_idle : St SH bool :=
  shim_call "set_all_modes_idle" (arm_set_all_modes IDLE).
End shim.

(** ** The hooks *)

Section driver.
Context {T : Type} `{TrossenArm T}.
Local Abbreviation V := (Trossen T).

(** A call through [p_arm_]; the default where it is null. *)
Definition on_arm {A} (null : A) (m : St (@SH T) A) : St V A := λ v,
  match p_arm_ v with
  | None => (null, v)
  | Some s => let '(a, (s, t)) := m (s, arm v) in (a, v <| p_arm_ := Some s |> <| arm := t |>)
  end.

Definition drop_arm : St V unit := modify (λ v, v <| p_arm_ := None |>).

(** A shim that goes away lets its arm go; what that throws is dropped. *)
Definition destroy_shim : St V unit := λ v,
  match p_arm_ v with
  | Some s => (tt, if impl_ s then v <| arm := snd (arm_cleanup (arm v)) |> else v)
  | None => (tt, v)
  end.

Definition trossen_connect (address : string) : St V (ReturnCode * Z) :=
  destroy_shim;;
  modify (λ v, v <| p_arm_ := Some new_TrossenArmShim |>);;
  v ← get_state;
  configured ← on_arm false (shim_configure (controller_model_ v) (is_leader_role_ v) address true TROSSEN_CONFIGURE_TIMEOUT_S);
  if negb configured then drop_arm;; mret (NO_RESPONSE, 0)
  else
    joint_count ← on_arm 0 num_joints;
    mret (SUCCESS, joint_count).

Definition trossen_disconnect : St V ReturnCode :=
  v ← get_state;
  match p_arm_ v with
  | None => mret SUCCESS
  | Some _ =>
      clean ← on_arm true shim_cleanup;
      drop_arm;;
      mret (if negb clean then FAIL else SUCCESS)
  end.

Definition joint_states (positions velocities efforts temperatures : list f64) : list JointState :=
  map (λ '(p, v, e, t), mkJointState (to_f32 p) (to_f32 v) (to_f32 e) (to_f32 t) true)
      (zip (zip (zip positions velocities) efforts) temperatures).

Definition trossen_read_state (states : list JointState) : St V (ReturnCode * list JointState) :=
  v ← get_state;
  match p_arm_ v with
  | None => mret (NOT_INITIALIZED, states)
  | Some _ =>
      '(read, (positions, velocities, efforts, temperatures)) ← on_arm (false, ([], [], [], [])) read_state;
      if negb read then mret (NO_RESPONSE, states)
      else if bool_decide (Forall (λ n, n = length states)
                [length positions; length velocities; length efforts; length temperatures])
      then mret (SUCCESS, joint_states positions velocities efforts temperatures)
      else mret (HARDWARE_FAULT, states)
  end.

Definition pending_in (mode : JointCommandMode) (c : JointCommand) : bool :=
  jc_pending c && bool_decide (jc_mode c = mode).

(** One command to one joint of the arm, or to the gripper. *)
Definition stream_joint (i : nat) (c : JointCommand) : St V bool :=
  if pending_in POSITION c
  then on_arm false (set_joint_position (Z.of_nat i) (to_f64 (jc_position c)) TROSSEN_STREAM_GOAL_TIME_S false
                       (to_f64 (jc_velocity_ff c)))
  else if pending_in EXTERNAL_EFFORT c
  then on_arm false (set_joint_external_effort (Z.of_nat i) (to_f64 (jc_external_effort c)) TROSSEN_STREAM_GOAL_TIME_S false)
  else mret true.

Definition stream_gripper (c : JointCommand) : St V bool :=
  if pending_in POSITION c
  then on_arm false (set_gripper_position (to_f64 (jc_position c)) TROSSEN_STREAM_GOAL_TIME_S false (to_f64 (jc_velocity_ff c)))
  else if pending_in EXTERNAL_EFFORT c
  then on_arm false (set_gripper_external_effort (to_f64 (jc_external_effort c)) TROSSEN_STREAM_GOAL_TIME_S false)
  else mret true.

(** Joint by joint, up to the first failure. *)
Fixpoint stream_joints (i : nat) (commands : list JointCommand) : St V bool :=
  match commands with
  | [] => mret true
  | c :: commands =>
      write_ok ← stream_joint i c;
      if negb write_ok then mret false else stream_joints (S i) commands
  end.

(** The arm's joints in one transaction where all of them carry the same kind. *)
Definition stream_arm (commands : list JointCommand) : St V bool :=
  if forallb (pending_in POSITION) commands
  then on_arm false (set_arm_positions (map (λ c, to_f64 (jc_position c)) commands) TROSSEN_STREAM_GOAL_TIME_S false
                       (map (λ c, to_f64 (jc_velocity_ff c)) commands))
  else if forallb (pending_in EXTERNAL_EFFORT) commands
  then on_arm false (set_arm_external_efforts (map (λ c, to_f64 (jc_external_effort c)) commands)
                       TROSSEN_STREAM_GOAL_TIME_S false)
  else stream_joints 0 commands.

(** The last joint is the gripper; there is at least one ([open] has seen to it). *)
Definition trossen_write_commands (commands : list JointCommand) : St V ReturnCode :=
  v ← get_state;
  match p_arm_ v with
  | None => mret NOT_INITIALIZED
  | Some _ =>
      let arm_joint_count := (length commands - 1)%nat in
      write_ok ← stream_arm (take arm_joint_count commands);
      write_ok ← if negb write_ok then mret false
                 else stream_gripper (nth arm_joint_count commands new_JointCommand);
      mret (if negb write_ok then FAIL else SUCCESS)
  end.

Definition shim_mode (mode : JointCommandMode) : ShimMode :=
  match mode with
  | POSITION => SHIM_POSITION
  | EXTERNAL_EFFORT => SHIM_EXTERNAL_EFFORT
  | UNSET => IDLE
  end.

Definition trossen_apply_command_modes (modes : list JointCommandMode) : St V ReturnCode :=
  v ← get_state;
  match p_arm_ v with
  | None => mret NOT_INITIALIZED
  | Some _ =>
      applied ← on_arm false (set_joint_modes (map shim_mode modes));
      mret (if negb applied then FAIL else SUCCESS)
  end.

Definition trossen_make_safe : St V ReturnCode :=
  idle ← on_arm true set_all_modes_idle;
  mret (if negb idle then FAIL else SUCCESS).

#[export] Instance trossen_vendor : Vendor V := {|
  vendor_connect := trossen_connect;
  vendor_disconnect := trossen_disconnect;
  vendor_read_state := trossen_read_state;
  vendor_write_commands := trossen_write_commands;
  vendor_apply_command_modes := trossen_apply_command_modes;
  vendor_make_safe := trossen_make_safe;
  steady_now_ms := lift_into arm (λ t v, v <| arm := t |>) arm_steady_now_ms;
  sleep_for_ms := λ ms, lift_into arm (λ t v, v <| arm := t |>) (arm_sleep_for_ms ms);
|}.
End driver.
