(* ===== verification/DriverControllerFacts.v ===== *)
(** * Theorems on whole-arm controllers ([DriverController])

    [Recorded] keeps a record of the vendor calls.  One call at a time, a command only
    ever reaches the controller in the mode it was queued for, and the arm is idle when
    the connection is dropped.  Between threads, a trip of the stall watchdog is final
    once the control loop is between two calls, but not inside one. *)

From S2P Require Import Prelude.
From S2P Require Import FloatSpec.
From S2P Require Import Control.
From S2P Require Import CanBus.
From S2P Require Import Servo.
From S2P Require Import Threads.
From S2P Require Import DriverController.

(** ** The record of vendor calls *)

Inductive VendorCall :=
| VConnect (rc : ReturnCode) (joint_count : Z) | VDisconnect | VRead
| VWrite (commands : list JointCommand) (rc : ReturnCode) | VModes (modes : list JointCommandMode) (rc : ReturnCode)
| VSafe (rc : ReturnCode).

Record Recorded (V : Type) := mkRecorded { behind : V; calls : list VendorCall }.
Arguments mkRecorded {V}.
Arguments behind {V}.
Arguments calls {V}.
#[export] Instance eta_Recorded V : Eta (Recorded V) := λ r, mkRecorded (behind r) (calls r).

Definition recording {V A} (m : St V A) (call : A → VendorCall) : St (Recorded V) A := λ r,
  let '(a, v) := m (behind r) in (a, mkRecorded v (calls r ++ [call a])).
Definition unrecorded {V A} (m : St V A) : St (Recorded V) A := lift_into behind (λ v r, r <| behind := v |>) m.

#[export] Instance recorded_vendor {V} `{Vendor V} : Vendor (Recorded V) := {|
  vendor_connect := λ address, recording (vendor_connect address) (λ r, VConnect r.1 r.2);
  vendor_disconnect := recording vendor_disconnect (λ _, VDisconnect);
  vendor_read_state := λ states, recording (vendor_read_state states) (λ _, VRead);
  vendor_write_commands := λ commands, recording (vendor_write_commands commands) (VWrite commands);
  vendor_apply_command_modes := λ modes, recording (vendor_apply_command_modes modes) (VModes modes);
  vendor_make_safe := recording vendor_make_safe VSafe;
  steady_now_ms := unrecorded steady_now_ms;
  sleep_for_ms := λ ms, unrecorded (sleep_for_ms ms);
|}.

(** The controller after these calls: the joints it has reported, the modes in force, and
    whether it may be moving. *)
Record Arm := mkArm { arm_count : nat; arm_modes : list JointCommandMode; arm_active : bool }.
Definition idle_arm (n : nat) : Arm := mkArm n [] false.

Definition arm_step (a : Arm) (c : VendorCall) : Arm :=
  match c with
  | VConnect rc n => if ok rc then idle_arm (Z.to_nat n) else a
  | VSafe rc => if ok rc then idle_arm (arm_count a) else a
  | VModes modes rc => if ok rc then mkArm (arm_count a) modes true else a
  | VWrite _ _ => mkArm (arm_count a) (arm_modes a) true
  | VDisconnect | VRead => a
  end.
Definition arm_after (l : list VendorCall) : Arm := foldl arm_step (idle_arm 0) l.

Lemma arm_after_snoc l c : arm_after (l ++ [c]) = arm_step (arm_after l) c.
Proof. apply foldl_snoc. Qed.

(** ** What is right about a record *)

(** A command for every joint, the pending ones for joints in the command's mode. *)
Definition commands_fit (a : Arm) (commands : list JointCommand) : Prop :=
  length commands = arm_count a ∧ ∀ i c, commands !! i = Some c → jc_pending c = true → arm_modes a !! i = Some (jc_mode c) ∧ jc_mode c ≠ UNSET.

Definition call_right (l : list VendorCall) (c : VendorCall) : Prop :=
  match c with
  | VWrite commands _ => commands_fit (arm_after l) commands
  | VModes modes _ => length modes = arm_count (arm_after l)
  | VDisconnect => (∀ rc, VSafe rc ∈ l → rc = SUCCESS) → arm_active (arm_after l) = false
  | _ => True
  end.

Definition record_right (l : list VendorCall) : Prop := ∀ l1 c l2, l = l1 ++ c :: l2 → call_right l1 c.

Lemma record_right_snoc l c : record_right l → call_right l c → record_right (l ++ [c]).
Proof.
  intros Hl Hc l1 c' l2 E. destruct l2 as [|c2 l2 _] using rev_ind.
  - by apply app_inj_tail in E as [-> ->].
  - apply (Hl l1 c' l2). rewrite app_comm_cons, (assoc_L (++)) in E. by apply app_inj_tail in E as [-> _].
Qed.

(** ** The invariant between calls *)

Record Inv (opened made dirty : bool) (commands : list JointCommand) (desired : list JointCommandMode)
    (l : list VendorCall) : Prop := {
  inv_length : length commands = length desired;
  inv_count : opened = true → length desired = arm_count (arm_after l);
  inv_queue : ∀ i c m, commands !! i = Some c → desired !! i = Some m → jc_pending c = true → jc_mode c = m ∧ m ≠ UNSET;
  inv_modes : opened = true → dirty = false → ∀ i m, desired !! i = Some m → m ≠ UNSET → arm_modes (arm_after l) !! i = Some m;
  inv_safe : made = true → arm_active (arm_after l) = false;
  inv_safe_modes : made = true → dirty = false → Forall (λ m, m = UNSET) desired;
  inv_record : record_right l;
}.

Definition ctl_inv {V} (w : CtlWorld (Recorded V)) : Prop :=
  let c := ctl w in
  Inv (opened_ c) (made_safe_ c) (modes_dirty_ c) (commands_ c) (desired_modes_ c) (calls (vendor w)).

(** A call that leaves the arm as it is. *)
Lemma inv_quiet o m d cs ms l c : Inv o m d cs ms l → arm_step (arm_after l) c = arm_after l → call_right l c →
  Inv o m d cs ms (l ++ [c]).
Proof.
  intros [H1 H0 H2 H3 H4 H5 H6] E Hc. split; try done; rewrite ?arm_after_snoc, ?E; try done. by apply record_right_snoc.
Qed.

(** The arm is idle after [c], and the modes are forgotten. *)
Lemma inv_idle o m d cs ms l c : Inv o m d cs ms l → arm_step (arm_after l) c = idle_arm (arm_count (arm_after l)) → call_right l c →
  Inv o true false (map (λ _, new_JointCommand) cs) (map (λ _, UNSET) ms) (l ++ [c]).
Proof.
  intros [H1 H0 H2 H3 H4 H5 H6] E Hc. split; rewrite ?arm_after_snoc, ?E; try done.
  - by rewrite !length_map.
  - intros Ho. by rewrite length_map, H0.
  - intros i c' m'. rewrite list_lookup_fmap. destruct (cs !! i); [|done]. by intros [= <-].
  - intros _ _ i m' Hm. rewrite list_lookup_fmap in Hm. destruct (ms !! i); [|done]. by injection Hm as <-.
  - intros _ _. apply Forall_map, Forall_true. done.
  - by apply record_right_snoc.
Qed.

(** Connected: idle, and nothing is queued on a closed driver. *)
Lemma inv_connect m d cs ms l rc n : Inv false m d cs ms l → ok rc = true → Inv false m d cs ms (l ++ [VConnect rc n]).
Proof.
  intros [H1 H0 H2 H3 H4 H5 H6] E. split; rewrite ?arm_after_snoc; cbn; rewrite ?E; try done. by apply record_right_snoc.
Qed.

Lemma inv_fresh n l : record_right l → arm_count (arm_after l) = n → Inv true false false (replicate n new_JointCommand) (replicate n UNSET) l.
Proof.
  intros Hl Hn. split; try done.
  - by rewrite !length_replicate.
  - intros _. by rewrite length_replicate.
  - by intros i c m [-> _]%lookup_replicate.
  - by intros _ _ i m [-> _]%lookup_replicate.
Qed.

(** A section in the middle of symbolic execution of a thread. *)
Ltac th_step :=
  cbv beta;
  lazymatch goal with
  | |- wp (solo (_ ≫= _)) _ _ => apply wp_solo_bind
  | |- wp (solo (when_ok _ _)) _ _ => unfold when_ok; apply wp_solo_bind
  | |- wp (solo (Ret _)) _ _ => apply wp_solo_ret
  | |- wp (solo (look _)) _ _ => apply wp_solo_atomically, wp_gets
  | |- wp (solo (on_ctl _)) _ _ => apply wp_solo_atomically, wp_modify
  | |- wp (solo (atomically _)) _ _ => apply wp_solo_atomically
  | |- wp (solo (if ?b then _ else _)) _ _ => destruct b eqn:?
  | |- wp (solo (match ?x with _ => _ end)) _ _ => destruct x eqn:?
  end.

Section sequential.
Context {V : Type} `{Vendor V}.
Local Abbreviation W := (CtlWorld (Recorded V)).

Lemma wp_recording {A} (m : St V A) call Q (w : W) :
  (∀ a v, Q a (w <| vendor := mkRecorded v (calls (vendor w) ++ [call a]) |>)) →
  wp (solo (on_vendor (recording m call))) Q w.
Proof.
  intros HQ. apply wp_solo_atomically, wp_lift_into. unfold wp, recording.
  destruct (m (behind (vendor w))) as [a v]. apply HQ.
Qed.

Lemma wp_unrecorded {A} (m : St V A) Q (w : W) :
  (∀ a v, Q a (w <| vendor := (vendor w) <| behind := v |> |>)) → wp (solo (on_vendor (unrecorded m))) Q w.
Proof.
  intros HQ. apply wp_solo_atomically, wp_lift_into. apply wp_lift_into. unfold wp.
  destruct (m (behind (vendor w))) as [a v]. apply HQ.
Qed.

Lemma wp_with_safe_mutex {A} (t : Thread W A) Q (w : W) :
  wp (solo t) (λ a w', Q a (w' <| ctl := (ctl w') <| safe_mutex_ := false |> |>)) (w <| ctl := (ctl w) <| safe_mutex_ := true |> |>) →
  wp (solo (with_safe_mutex t)) Q w.
Proof. intros Ht. unfold with_safe_mutex, holding. unfold wp in *. rewrite solo_bind, bind_run. cbn [solo fst snd].
  rewrite solo_bind, bind_run. cbn [solo fst snd]. rewrite solo_bind, bind_run. exact Ht.
Qed.

Lemma feed_watchdog_inv (w : W) : ctl_inv w → wp (solo feed_watchdog) (λ _ w', ctl_inv w') w.
Proof. intros Hw. unfold feed_watchdog. th_step. apply wp_unrecorded. intros a v. th_step. exact Hw. Qed.

Lemma make_safe_inv (w : W) : ctl_inv w → wp (solo make_safe) (λ _ w', ctl_inv w' ∧ opened_ (ctl w') = opened_ (ctl w) ∧
  (opened_ (ctl w) = true → (∀ rc, VSafe rc ∈ calls (vendor w') → rc = SUCCESS) →
   arm_active (arm_after (calls (vendor w'))) = false)) w.
Proof.
  intros Hw. unfold make_safe. apply wp_with_safe_mutex. th_step. th_step. th_step.
  { th_step. split_and!; [exact Hw|done|]. intros Ho _. apply orb_true_iff in Heqb as [Hm|Hm].
    - exact (inv_safe _ _ _ _ _ _ Hw Hm).
    - cbn in Hm. by rewrite Ho in Hm. }
  th_step. apply wp_recording. intros rc v. th_step.
  - th_step. split_and!; [|done|].
    + apply (inv_quiet _ _ _ _ _ _ (VSafe rc)); [exact Hw| |done]. cbn. by destruct (ok rc).
    + intros _ Hall. specialize (Hall rc). cbn in Hall. rewrite Hall in Heqb0 by set_solver. done.
  - th_step. th_step. th_step. th_step. th_step. assert (ok rc = true) as Hok by by destruct (ok rc).
    split_and!; [|done|].
    + apply (inv_idle _ (made_safe_ (ctl w)) (modes_dirty_ (ctl w)) _ _ _ (VSafe rc)); [exact Hw| |done]. cbn. by rewrite Hok.
    + intros _ _. cbn. rewrite arm_after_snoc. cbn. by rewrite Hok.
Qed.

Lemma stop_watchdog_inv (w : W) : ctl_inv w →
  wp (solo stop_watchdog) (λ _ w', ctl_inv w' ∧ opened_ (ctl w') = opened_ (ctl w)) w.
Proof.
  intros Hw. unfold stop_watchdog. th_step. th_step. th_step. th_step. th_step; [by th_step|].
  by change (ctl_inv w ∧ opened_ (ctl w) = opened_ (ctl w)).
Qed.

Lemma close_inv (w : W) : ctl_inv w → wp (solo close) (λ _ w', ctl_inv w') w.
Proof.
  intros Hw. unfold close. th_step. eapply wp_mono; [by apply stop_watchdog_inv|]. intros u w0 [H0 _].
  th_step. th_step. th_step; [by th_step|]. apply negb_false_iff in Heqb.
  th_step. eapply wp_mono; [by apply make_safe_inv|]. intros rc w1 (H1 & Ho & Hidle). th_step.
  apply wp_recording. intros rc' v. th_step. th_step. th_step.
  change (Inv false (made_safe_ (ctl w1)) (modes_dirty_ (ctl w1)) (commands_ (ctl w1)) (desired_modes_ (ctl w1))
    (calls (vendor w1) ++ [VDisconnect])).
  apply (inv_quiet _ _ _ _ _ _ VDisconnect) in H1; [by destruct H1|done|].
  intros Hall. by apply Hidle.
Qed.

Lemma group_read_inv (w : W) : ctl_inv w →
  wp (solo group_read_hardware_values) (λ rc w', ctl_inv w' ∧ opened_ (ctl w') = opened_ (ctl w)) w.
Proof.
  intros Hw. unfold group_read_hardware_values. th_step. th_step. th_step; [by th_step|]. th_step.
  apply wp_recording. intros [rc states] v. set (w1 := w <| vendor := _ |>).
  assert (ctl_inv w1) as H1 by by apply (inv_quiet _ _ _ _ _ _ VRead).
  th_step; [by th_step|]. do 4 th_step. unfold feed_watchdog. do 2 th_step. apply wp_unrecorded. intros t v'. th_step. th_step.
  by change (ctl_inv w1 ∧ opened_ (ctl w) = opened_ (ctl w)).
Qed.

Lemma open_inv (w : W) : ctl_inv w → wp (solo open) (λ _ w', ctl_inv w') w.
Proof.
  intros Hw. unfold open. th_step. th_step. th_step; [by th_step|]. th_step; [by th_step|]. th_step.
  apply wp_recording. intros [rc n] v. cbn [fst]. set (w1 := w <| vendor := _ |>). th_step.
  { th_step. apply (inv_quiet _ _ _ _ _ _ (VConnect rc n)); [exact Hw| |done]. cbn. by destruct (ok rc). }
  assert (Inv false (made_safe_ (ctl w)) (modes_dirty_ (ctl w)) (commands_ (ctl w)) (desired_modes_ (ctl w)) (calls (vendor w1))) as H1.
  { apply inv_connect; [|by destruct (ok rc)]. unfold ctl_inv in Hw. by rewrite Heqb in Hw. }
  assert (arm_after (calls (vendor w1)) = idle_arm (Z.to_nat n)) as Hidle.
  { cbn. rewrite arm_after_snoc. cbn. by destruct (ok rc). }
  th_step.
  - th_step. apply wp_recording. intros rc' v'. th_step. rewrite <- Heqb in H1.
    apply (inv_quiet _ _ _ _ _ _ VDisconnect H1); [done|]. unfold call_right. by rewrite Hidle.
  - do 5 th_step. eapply wp_mono; [apply group_read_inv|].
    + apply (inv_fresh (Z.to_nat n) _ (inv_record _ _ _ _ _ _ H1)). by rewrite Hidle.
    + intros rc' w2 [H2 _]. th_step; [|by th_step]. th_step. eapply wp_mono; [by apply close_inv|]. intros rc2 w3 H3. by th_step.
Qed.

(** What the flush takes: nothing stays queued, and what was fits the modes asked for. *)
Lemma inv_taken o m d cs ms l d' : Inv o m d cs ms l → (d = true → d' = true) →
  Inv o m d' (map (λ command, command <| jc_pending := false |>) cs) ms l.
Proof.
  intros [H1 H0 H2 H3 H4 H5 H6] Hd. split; try done.
  - by rewrite length_map.
  - intros i c m'. rewrite list_lookup_fmap. destruct (cs !! i); [|done]. by intros [= <-].
  - intros Ho E. apply H3; [done|]. destruct d; [by rewrite Hd in E|done].
  - intros Hm E. apply H5; [done|]. destruct d; [by rewrite Hd in E|done].
Qed.

Lemma inv_fit m d cs ms l a : Inv true m d cs ms l → arm_count a = arm_count (arm_after l) → (∀ i mo, ms !! i = Some mo → mo ≠ UNSET → arm_modes a !! i = Some mo) →
  commands_fit a cs.
Proof.
  intros Hw En Ha. split; [by rewrite (inv_length _ _ _ _ _ _ Hw), En, <- (inv_count _ _ _ _ _ _ Hw)|]. intros i c Hc Hp. destruct (lookup_lt_is_Some_2 ms i) as [mo Hmo].
  { rewrite <- (inv_length _ _ _ _ _ _ Hw). by apply lookup_lt_Some in Hc. }
  destruct (inv_queue _ _ _ _ _ _ Hw i c mo Hc Hmo Hp) as [-> Hu]. split; [by apply Ha|done].
Qed.

(** The new modes are in force. *)
Lemma inv_applied m d cs ms l rc : Inv true m d cs ms l → ok rc = true →
  Inv true false false (map (λ command, command <| jc_pending := false |>) cs) ms (l ++ [VModes ms rc]).
Proof.
  intros Hw E. apply (inv_taken _ _ _ _ _ _ true) in Hw; [|done]. destruct Hw as [H1 H0 H2 H3 H4 H5 H6].
  split; rewrite ?arm_after_snoc; cbn; rewrite ?E; try done. apply record_right_snoc; [done|]. by apply H0.
Qed.

(** Commands go out in fitting modes, to an arm that is not counted as idle. *)
Lemma inv_written o d cs ms l commands rc : Inv o false d cs ms l → commands_fit (arm_after l) commands →
  Inv o false d cs ms (l ++ [VWrite commands rc]).
Proof.
  intros [H1 H0 H2 H3 H4 H5 H6] Hc. split; rewrite ?arm_after_snoc; cbn; try done. by apply record_right_snoc.
Qed.

(** While the arm is idle and no mode is asked for, nothing is queued. *)
Lemma inv_nothing_queued o cs ms l : Inv o true false cs ms l → existsb jc_pending cs = false.
Proof.
  intros Hw. apply not_true_iff_false. intros (c & Hc & Hp)%existsb_exists.
  apply list_elem_of_In, list_elem_of_lookup in Hc as [i Hi]. destruct (lookup_lt_is_Some_2 ms i) as [mo Hmo].
  { rewrite <- (inv_length _ _ _ _ _ _ Hw). by apply lookup_lt_Some in Hi. }
  destruct (inv_queue _ _ _ _ _ _ Hw i c mo Hi Hmo Hp) as [_ Hu]. apply Hu.
  pose proof (inv_safe_modes _ _ _ _ _ _ Hw eq_refl eq_refl) as Hs. rewrite Forall_forall in Hs.
  apply Hs. by eapply list_elem_of_lookup_2.
Qed.

(** The writing part of the flush. *)
Lemma flush_inv commands (w : W) : ctl_inv w →
  (existsb jc_pending commands = true → made_safe_ (ctl w) = false ∧ commands_fit (arm_after (calls (vendor w))) commands) →
  wp (solo (when_ok (if existsb jc_pending commands then on_vendor (vendor_write_commands commands) else Ret SUCCESS)
              (feed_watchdog;; Ret SUCCESS))) (λ _ w', ctl_inv w') w.
Proof.
  intros Hw Hfit. th_step. destruct (existsb jc_pending commands) eqn:E.
  - apply wp_recording. intros rc v. destruct (Hfit eq_refl) as [Hm Hc]. set (w1 := w <| vendor := _ |>).
    assert (ctl_inv w1) as H1.
    { unfold ctl_inv in *. cbn. rewrite Hm in *. by apply inv_written. }
    th_step; [by th_step|]. th_step. eapply wp_mono; [by apply feed_watchdog_inv|]. intros u w2 H2. by th_step.
  - th_step. th_step; [by th_step|]. th_step. eapply wp_mono; [by apply feed_watchdog_inv|]. intros u w2 H2. by th_step.
Qed.

Lemma group_write_inv (w : W) : ctl_inv w → wp (solo group_write_hardware_values) (λ _ w', ctl_inv w') w.
Proof.
  intros Hw. unfold group_write_hardware_values. th_step. th_step. th_step; [by th_step|]. th_step. th_step. th_step; [by th_step|].
  apply negb_false_iff in Heqb. pose proof Hw as Hw'. unfold ctl_inv in Hw'. rewrite Heqb in Hw'. th_step. unfold take_commands. th_step. wp_step. wp_step. wp_step. wp_step. wp_step.
  set (w1 := w <| ctl := _ |>). th_step. destruct (modes_dirty_ (ctl w)) eqn:Ed.
  - unfold apply_modes. th_step. apply wp_recording. intros rc v. set (w2 := w1 <| vendor := _ |>). th_step.
    + th_step. th_step. th_step. th_step; [th_step|by destruct (ok rc)].
      apply (inv_quiet _ _ _ _ _ _ (VModes (desired_modes_ (ctl w)) rc)); [|by cbn; destruct (ok rc)|by apply (inv_count _ _ _ _ _ _ Hw')].
      by apply (inv_taken _ _ (modes_dirty_ (ctl w))).
    + assert (ok rc = true) as Hok by by destruct (ok rc). th_step. apply wp_with_safe_mutex. th_step. th_step. th_step; [done|].
      apply flush_inv.
      * unfold ctl_inv. cbn. rewrite Heqb. by apply (inv_applied (made_safe_ (ctl w)) true).
      * intros _. split; [done|]. apply (inv_fit _ _ _ _ _ _ Hw').
        { cbn. rewrite arm_after_snoc. cbn. by rewrite Hok. }
        intros i mo. cbn. rewrite arm_after_snoc. cbn. by rewrite Hok.
  - th_step. th_step; [done|]. apply flush_inv.
    + apply (inv_taken _ _ false); [|done]. unfold ctl_inv in Hw. by rewrite Ed in Hw.
    + intros Hp. split.
      * apply not_true_iff_false. intros Hm. cbn in Hm. unfold ctl_inv in Hw. rewrite Ed, Hm in Hw.
        apply inv_nothing_queued in Hw. by rewrite Hw in Hp.
      * apply (inv_fit _ _ _ _ _ _ Hw'); [done|]. intros i mo. by apply (inv_modes _ _ _ _ _ _ Hw').
Qed.

Lemma on_slot_inv i f (w : W) : ctl_inv w →
  (∀ desired, let c' := (f desired (ctl w)).2 in desired = nth (Z.to_nat i) (desired_modes_ (ctl w)) UNSET →
     ctl_inv (w <| ctl := c' |>)) →
  wp (solo (on_slot i f)) (λ _ w', ctl_inv w') w.
Proof.
  intros Hw Hf. unfold on_slot. th_step. unfold wp. specialize (Hf _ eq_refl). cbn [fst snd].
  by destruct (f (nth (Z.to_nat i) (desired_modes_ (ctl w)) UNSET) (ctl w)).
Qed.

Lemma set_mode_inv i mode (w : W) : ctl_inv w → wp (solo (set_joint_command_mode i mode)) (λ _ w', ctl_inv w') w.
Proof.
  intros Hw. unfold set_joint_command_mode, on_valid_index. th_step. th_step. th_step; [by th_step|]. th_step; [by th_step|].
  apply bool_decide_eq_false in Heqb0. apply on_slot_inv; [done|]. intros desired c' Ed. subst c'. case_bool_decide as Em; [exact Hw|].
  unfold ctl_inv in Hw. destruct Hw as [H1 H0 H2 H3 H4 H5 H6]. split; try done; cbn.
  - by rewrite !length_insert.
  - by rewrite length_insert.
  - intros j c m Hc Hm. apply list_lookup_insert_Some in Hc as [(<- & <- & _)|[Hne Hc]]; [done|].
    rewrite list_lookup_insert_ne in Hm by done. by apply (H2 j).
Qed.

Lemma queue_inv i command (w : W) : jc_mode command ≠ UNSET → ctl_inv w →
  wp (solo (queue_command i command)) (λ _ w', ctl_inv w') w.
Proof.
  intros Hu Hw. unfold queue_command, on_valid_index. th_step. th_step. th_step; [by th_step|].
  apply on_slot_inv; [done|]. intros desired c' Ed. subst c'. case_bool_decide as Em; [exact Hw|].
  unfold ctl_inv in Hw. destruct Hw as [H1 H0 H2 H3 H4 H5 H6]. split; try done; cbn.
  - by rewrite length_insert.
  - intros j c m Hc Hm Hp. apply list_lookup_insert_Some in Hc as [(<- & <- & _)|[Hne Hc]]; [|by apply (H2 j)].
    rewrite Ed in Em. apply nth_lookup_Some with (d := UNSET) in Hm. rewrite Hm in Em. by subst m.
Qed.

Lemma read_values_inv p (w : W) : ctl_inv w → wp (solo (read_hardware_values p)) (λ _ w', ctl_inv w') w.
Proof.
  intros Hw. unfold read_hardware_values. th_step. th_step. wp_step. th_step; [|by th_step]. destruct p0.
  th_step. th_step. th_step; [by th_step|]. th_step. th_step. th_step; [by th_step|]. th_step. th_step. wp_step. th_step. exact Hw.
Qed.

Lemma arm_inv (w : W) : ctl_inv w → wp (solo arm_comm_loss_protection) (λ _ w', ctl_inv w') w.
Proof.
  intros Hw. unfold arm_comm_loss_protection. th_step. th_step. th_step; [by th_step|]. th_step. th_step. th_step; [by th_step|].
  th_step. eapply wp_mono; [by apply feed_watchdog_inv|]. intros u w1 H1. do 5 th_step. exact H1.
Qed.

Lemma watchdog_round_inv (w : W) : ctl_inv w → wp (solo watchdog_round) (λ _ w', ctl_inv w') w.
Proof.
  intros Hw. unfold watchdog_round. th_step. th_step. th_step; [by th_step|]. th_step. apply wp_unrecorded. intros u v.
  th_step. th_step. th_step; [by th_step|]. th_step. apply wp_unrecorded. intros now v'. th_step. th_step. th_step; [by th_step|].
  th_step. th_step. th_step; [by th_step|]. th_step. th_step. th_step. eapply wp_mono; [by apply make_safe_inv|].
  intros rc w' [H1 _]. by th_step.
Qed.
End sequential.

(** ** The calls of the driver *)

Inductive CtlCall :=
| CallOpen | CallClose | CallGroupRead | CallGroupWrite | CallRead (p : option ptr) | CallArm
| CallSetMode (i : Z) (mode : JointCommandMode) | CallQueuePosition (i : Z) (position velocity_ff : f32)
| CallQueueEffort (i : Z) (effort : f32) | CallMakeSafe
| WatchdogRound.

Definition ctl_call {V} `{Vendor V} (c : CtlCall) : Thread (CtlWorld V) unit :=
  match c with
  | CallOpen => open;; Ret tt
  | CallClose => close;; Ret tt
  | CallGroupRead => group_read_hardware_values;; Ret tt
  | CallGroupWrite => group_write_hardware_values;; Ret tt
  | CallRead p => read_hardware_values p;; Ret tt
  | CallArm => arm_comm_loss_protection;; Ret tt
  | CallSetMode i mode => set_joint_command_mode i mode;; Ret tt
  | CallQueuePosition i position velocity_ff => queue_position i position velocity_ff;; Ret tt
  | CallQueueEffort i effort => queue_external_effort i effort;; Ret tt
  | CallMakeSafe => make_safe;; Ret tt
  | WatchdogRound => watchdog_round;; Ret tt
  end.

(** One after the other. *)
Fixpoint ctl_calls {V} `{Vendor V} (cs : list CtlCall) : Thread (CtlWorld V) unit :=
  match cs with
  | [] => Ret tt
  | c :: cs => ctl_call c;; ctl_calls cs
  end.

Section histories.
Context {V : Type} `{Vendor V}.
Local Abbreviation W := (CtlWorld (Recorded V)).

Lemma ctl_call_inv c (w : W) : ctl_inv w → wp (solo (ctl_call c)) (λ _ w', ctl_inv w') w.
Proof.
  intros Hw. assert (∀ A (t : Thread W A), wp (solo t) (λ _ w', ctl_inv w') w → wp (solo (t;; Ret tt)) (λ _ w', ctl_inv w') w) as Hi.
  { intros A t Ht. th_step. eapply wp_mono; [exact Ht|]. intros a w' Hw'. by th_step. }
  destruct c; cbn [ctl_call]; apply Hi.
  - by apply open_inv.
  - by apply close_inv.
  - eapply wp_mono; [by apply group_read_inv|]. by intros ? ? [].
  - by apply group_write_inv.
  - by apply read_values_inv.
  - by apply arm_inv.
  - by apply set_mode_inv.
  - by apply queue_inv.
  - by apply queue_inv.
  - eapply wp_mono; [by apply make_safe_inv|]. by intros ? ? [].
  - by apply watchdog_round_inv.
Qed.

Lemma ctl_calls_inv cs : ∀ w : W, ctl_inv w → wp (solo (ctl_calls cs)) (λ _ w', ctl_inv w') w.
Proof.
  induction cs as [|c cs IH]; intros w Hw; cbn [ctl_calls]; [by th_step|]. th_step.
  eapply wp_mono; [by apply ctl_call_inv|]. intros u w' Hw'. by apply IH.
Qed.

Definition fresh_world (address : string) (servos : gmap ptr Servo) (v : V) : W :=
  mkCtlWorld (new_Controller address) servos (mkRecorded v []).

Lemma fresh_inv address servos (v : V) : ctl_inv (fresh_world address servos v).
Proof. split; try done. by intros l1 c [|c2 l2] E; destruct l1. Qed.

(** [C13] One call at a time, whatever the calls, their failures and the passes of the
    watchdog between them: modes and commands go out one for every joint the controller
    reported, a pending command is for a joint that is in the mode it was queued for, and
    whenever the driver drops the connection the arm is idle, unless the controller has refused to idle it. *)
Theorem controller_history_right address servos (v : V) cs :
  let w := snd (solo (ctl_calls cs) (fresh_world address servos v)) in
  ∀ l1 c l2, calls (vendor w) = l1 ++ c :: l2 →
    match c with
    | VWrite commands _ => length commands = arm_count (arm_after l1) ∧
        ∀ i command, commands !! i = Some command → jc_pending command = true →
          arm_modes (arm_after l1) !! i = Some (jc_mode command) ∧ jc_mode command ≠ UNSET
    | VModes modes _ => length modes = arm_count (arm_after l1)
    | VDisconnect => (∀ rc, VSafe rc ∈ l1 → rc = SUCCESS) → arm_active (arm_after l1) = false
    | _ => True
    end.
Proof.
  intros w. pose proof (ctl_calls_inv cs _ (fresh_inv address servos v)) as Hw.
  intros l1 c l2 E. exact (inv_record _ _ _ _ _ _ Hw l1 c l2 E).
Qed.
End histories.

(** ** The watchdog and the control loop as threads *)

(** Calls that move nothing. *)
Definition harmless (c : VendorCall) : bool := match c with VRead | VSafe _ => true | _ => false end.

Definition tripped {V} (w : CtlWorld V) : Prop := watchdog_tripped_ (ctl w) = true.
Definition only_harmless {V} (w w' : CtlWorld (Recorded V)) : Prop :=
  ∃ new, calls (vendor w') = calls (vendor w) ++ new ∧ Forall harmless new.
#[export] Instance only_harmless_preorder V : PreOrder (@only_harmless V).
Proof.
  split; [intros w; exists []; by rewrite app_nil_r|]. intros w1 w2 w3 (n1 & E1 & F1) (n2 & E2 & F2).
  exists (n1 ++ n2). by rewrite E2, E1, (assoc_L (++)), Forall_app.
Qed.

Lemma same_record {V} (w w' : CtlWorld (Recorded V)) : calls (vendor w') = calls (vendor w) → only_harmless w w'.
Proof. intros E. exists []. by rewrite app_nil_r. Qed.

Definition reconnects (c : CtlCall) : bool := match c with CallOpen | CallClose => true | _ => false end.

Section threads.
Context {V : Type} `{Vendor V}.
Local Abbreviation W := (CtlWorld (Recorded V)).
Local Abbreviation calm := (always (S := W) tripped only_harmless).

Lemma calm_look {A B} (f : Controller → A) (k : A → Thread W B) :
  (∀ w : W, tripped w → calm (k (f (ctl w)))) → calm (a ← look f; k a).
Proof. intros Hk. apply always_then. intros w Hw. apply wp_gets. split_and!; [done|reflexivity|by apply Hk]. Qed.

Lemma calm_on_ctl {B} (f : Controller → Controller) (k : unit → Thread W B) :
  (∀ c, watchdog_tripped_ c = true → watchdog_tripped_ (f c) = true) → calm (k tt) → calm (u ← on_ctl f; k u).
Proof. intros Hf Hk. apply always_then. intros w Hw. apply wp_modify. split_and!; [by apply Hf|by apply same_record|done]. Qed.

Lemma calm_recording {A B} (m : St V A) call (k : A → Thread W B) :
  (∀ a, harmless (call a)) → (∀ a, calm (k a)) → calm (a ← on_vendor (recording m call); k a).
Proof.
  intros Hc Hk. apply always_then. intros w Hw. unfold wp, lift_into, recording.
  destruct (m (behind (vendor w))) as [a v]. split_and!; [done| |apply Hk]. exists [call a]. split; [done|]. by apply Forall_singleton.
Qed.

Lemma calm_unrecorded {A B} (m : St V A) (k : A → Thread W B) :
  (∀ a, calm (k a)) → calm (a ← on_vendor (unrecorded m); k a).
Proof.
  intros Hk. apply always_then. intros w Hw. apply wp_lift_into. unfold unrecorded. apply wp_lift_into. unfold wp.
  destruct (m (behind (vendor w))) as [a v]. split_and!; [done|by apply same_record|apply Hk].
Qed.

Lemma calm_mutex {A} (t : Thread W A) : calm t → calm (with_safe_mutex t).
Proof.
  intros Ht. unfold with_safe_mutex, holding. intros w Hw. split_and!; [done|by apply same_record|].
  change (calm (a ← t; atomically (modify (λ w : W, w <| ctl := (ctl w) <| safe_mutex_ := false |> |>));; Ret a)).
  apply always_bind; [done|]. intros a. apply always_then. intros w' Hw'. apply wp_modify. split_and!; [done|by apply same_record|done].
Qed.

Lemma calm_atomically {A B} (m : St W A) (k : A → Thread W B) :
  (∀ w, tripped w → wp m (λ a w', ctl w' = ctl w ∧ vendor w' = vendor w ∧ calm (k a)) w) → calm (a ← atomically m; k a).
Proof.
  intros Hm. apply always_then. intros w Hw. eapply wp_mono; [by apply Hm|]. intros a w' (E1 & E2 & Hk).
  split_and!; [by unfold tripped; rewrite E1|apply same_record; by rewrite E2|done].
Qed.

Ltac calm_step :=
  cbv beta;
  lazymatch goal with
  | |- always _ _ (Ret _) => exact I
  | |- always _ _ (when_ok _ _) => unfold when_ok
  | |- always _ _ (look _ ≫= _) => apply calm_look; intros ? ?
  | |- always _ _ (on_ctl _ ≫= _) => apply calm_on_ctl; [done|]
  | |- always _ _ (on_vendor _ ≫= _) => first [apply calm_unrecorded; intros ?|apply calm_recording; [done|intros ?]]
  | |- always _ _ (with_safe_mutex _) => apply calm_mutex
  | |- always _ _ (_ ≫= _) => apply always_bind; [|intros ?]
  | |- always _ _ (if ?b then _ else _) => destruct b eqn:?
  | |- always _ _ (match ?x with _ => _ end) => destruct x eqn:?
  end.
Ltac calm_go := repeat calm_step; try done.

Lemma calm_feed : calm feed_watchdog.
Proof. unfold feed_watchdog. calm_step. apply always_atomically. intros w Hw. apply wp_modify. split; [done|by apply same_record]. Qed.

Lemma calm_make_safe : calm make_safe.
Proof. unfold make_safe. calm_go. Qed.

Lemma calm_group_read : calm group_read_hardware_values.
Proof. unfold group_read_hardware_values. calm_go. apply calm_feed. Qed.

(** Refused at the first look. *)
Lemma calm_group_write : calm group_write_hardware_values.
Proof.
  unfold group_write_hardware_values. do 2 calm_step; [calm_go|]. apply calm_look. intros w1 Hw1. by rewrite Hw1.
Qed.

Lemma calm_on_slot i f : (∀ m c, watchdog_tripped_ (f m c).2 = watchdog_tripped_ c) → calm (on_slot i f).
Proof.
  intros Hf. unfold on_slot. apply always_atomically. intros w Hw. unfold wp. specialize (Hf (nth (Z.to_nat i) (desired_modes_ (ctl w)) UNSET) (ctl w)).
  destruct (f _ _) as [rc c]. cbn in *. split; [by unfold tripped; cbn; rewrite Hf|by apply same_record].
Qed.

Lemma calm_set_mode i mode : calm (set_joint_command_mode i mode).
Proof.
  unfold set_joint_command_mode, on_valid_index. do 2 calm_step. calm_step; [calm_go|]. calm_step; [calm_go|].
  apply calm_on_slot. intros m c. by destruct (bool_decide (m = mode)).
Qed.

Lemma calm_queue i command : calm (queue_command i command).
Proof.
  unfold queue_command, on_valid_index. do 2 calm_step. calm_step; [calm_go|]. apply calm_on_slot. intros m c. by destruct (bool_decide (m ≠ jc_mode command)).
Qed.

Lemma calm_read_values p : calm (read_hardware_values p).
Proof.
  unfold read_hardware_values. apply calm_atomically. intros w Hw. apply wp_gets. split_and!; [done..|].
  destruct (p ≫= _) as [[q s]|]; [|calm_go]. do 2 calm_step. calm_step; [calm_go|]. calm_step. calm_step; [calm_go|].
  apply calm_atomically. intros w' Hw'. apply wp_modify. by split_and!.
Qed.

Lemma calm_arm : calm arm_comm_loss_protection.
Proof. unfold arm_comm_loss_protection. do 2 calm_step; [calm_go|]. calm_step. calm_step; [calm_go|]. calm_step; [apply calm_feed|]. calm_go. Qed.

Lemma calm_round : calm watchdog_round.
Proof. unfold watchdog_round. calm_go. apply calm_make_safe. Qed.

Lemma calm_loop rounds : calm (watchdog_loop rounds).
Proof.
  induction rounds as [|rounds IH]; cbn [watchdog_loop]; [calm_go|]. calm_step; [apply calm_round|]. calm_step; [done|].
  apply always_atomically. intros w Hw. apply wp_modify. split; [done|by apply same_record].
Qed.

Lemma calm_call c : reconnects c = false → calm (ctl_call c).
Proof.
  intros Hc. destruct c; try done; cbn [ctl_call]; (calm_step; [|done]).
  - apply calm_group_read.
  - apply calm_group_write.
  - apply calm_read_values.
  - apply calm_arm.
  - apply calm_set_mode.
  - apply calm_queue.
  - apply calm_queue.
  - apply calm_make_safe.
  - apply calm_round.
Qed.

Lemma calm_calls cs : existsb reconnects cs = false → calm (ctl_calls cs).
Proof.
  induction cs as [|c cs IH]; cbn [ctl_calls existsb]; [done|]. intros [Hc Hcs]%orb_false_iff.
  calm_step; [by apply calm_call|by apply IH].
Qed.

(** [C14] A trip of the stall watchdog is final for the calls that follow it: from there
    on, in every interleaving of any further calls of the control loop with the watchdog
    thread, no mode and no command reaches the controller until it is opened again. *)
Theorem watchdog_trip_final cs rounds schedule (w : W) : watchdog_tripped_ (ctl w) = true →
  existsb reconnects cs = false →
  let w' := shared (run_schedule schedule (mkTwo (ctl_calls cs) (watchdog_loop rounds) w)) in
  watchdog_tripped_ (ctl w') = true ∧
  ∃ new, calls (vendor w') = calls (vendor w) ++ new ∧ ∀ c, c ∈ new → c = VRead ∨ ∃ rc, c = VSafe rc.
Proof.
  intros Hw Hcs. destruct (always_run tripped only_harmless (mkTwo (ctl_calls cs) (watchdog_loop rounds) w) schedule)
    as [H1 (new & E & Hn)]; [by apply calm_calls|apply calm_loop|done|].
  split; [exact H1|]. exists new. split; [exact E|]. intros c Hc. rewrite Forall_forall in Hn. specialize (Hn c Hc).
  destruct c; try done; [by left|right; by eexists].
Qed.
End threads.

(** ** The watchdog in time *)

(** The clock does not go back, and a sleep lasts. *)
Class VendorClock (V : Type) `{Vendor V} := {
  clock : V → Z;
  clock_now : ∀ v : V, clock v ≤ (steady_now_ms v).1 ≤ clock (steady_now_ms v).2;
  clock_sleep : ∀ ms (v : V), 0 ≤ ms → clock v + ms ≤ clock (sleep_for_ms ms v).2;
}.

Section stall.
Context {V : Type} `{VendorClock V}.
Local Abbreviation W := (CtlWorld (Recorded V)).

(** Armed, the arm in use, nothing heard since [last]. *)
Record guarded (last : Z) (w : W) : Prop := {
  gu_running : watchdog_running_ (ctl w) = true;
  gu_tripped : watchdog_tripped_ (ctl w) = false;
  gu_opened : opened_ (ctl w) = true;
  gu_made : made_safe_ (ctl w) = false;
  gu_last : last_interaction_ms_ (ctl w) = last;
}.

(** Tripped by a vendor call that follows these. *)
Definition idled (before : list VendorCall) (w : W) : Prop :=
  watchdog_tripped_ (ctl w) = true ∧ ∃ rc, calls (vendor w) = before ++ [VSafe rc] ∧
    made_safe_ (ctl w) = ok rc.

Lemma wp_unrecorded_run {A} (m : St V A) Q (w : W) :
  (∀ a v, m (behind (vendor w)) = (a, v) → Q a (w <| vendor := (vendor w) <| behind := v |> |>)) →
  wp (solo (on_vendor (unrecorded m))) Q w.
Proof.
  intros HQ. apply wp_solo_atomically, wp_lift_into. apply wp_lift_into. unfold wp.
  destruct (m (behind (vendor w))) as [a v]. by apply HQ.
Qed.

Lemma make_safe_idles before (w : W) : calls (vendor w) = before → opened_ (ctl w) = true → made_safe_ (ctl w) = false →
  watchdog_tripped_ (ctl w) = true → wp (solo make_safe) (λ _ w', idled before w') w.
Proof.
  intros Hc Ho Hm Ht. unfold make_safe. apply wp_with_safe_mutex. th_step. th_step. th_step.
  { exfalso. apply orb_true_iff in Heqb as [E|E]; cbn in E; [by rewrite Hm in E|by rewrite Ho in E]. }
  th_step. apply wp_recording. intros rc v. th_step.
  - th_step. split; [exact Ht|]. exists rc. cbn. rewrite Hc. split; [done|]. rewrite Hm. by destruct (ok rc).
  - do 5 th_step. split; [exact Ht|]. exists rc. cbn. rewrite Hc. split; [done|]. by destruct (ok rc).
Qed.

(** A pass of the loop over a stalled host. *)
Lemma guarded_round last before (w : W) : guarded last w → calls (vendor w) = before →
  wp (solo watchdog_round) (λ go_on w', go_on = true ∧
    (idled before w' ∨ guarded last w' ∧ calls (vendor w') = before ∧
       clock (behind (vendor w)) + 100 ≤ clock (behind (vendor w')) ∧ clock (behind (vendor w)) ≤ last + 900)) w.
Proof.
  intros [G1 G2 G3 G4 G5] Hc. unfold watchdog_round. th_step. th_step. th_step; [by rewrite G1 in Heqb|]. th_step.
  apply wp_unrecorded_run. intros u v Ev.
  pose proof (clock_sleep CONTROLLER_STALL_WATCHDOG_PERIOD_MS (behind (vendor w)) ltac:(done)) as Hs.
  rewrite Ev in Hs. th_step. th_step. th_step; [by cbn in Heqb0; rewrite G1 in Heqb0|]. th_step.
  apply wp_unrecorded_run. intros now v' En. cbn in En. pose proof (clock_now v) as Hn. rewrite En in Hn. cbn [fst snd] in *.
  unfold CONTROLLER_STALL_WATCHDOG_PERIOD_MS in Hs. th_step. th_step. th_step.
  - th_step. split; [done|]. right. split; [done|]. split; [done|]. apply Z.leb_le in Heqb1. cbn in Heqb1. rewrite G5 in Heqb1.
    unfold CONTROLLER_STALL_WATCHDOG_TIMEOUT_MS in Heqb1. cbn. lia.
  - th_step. th_step. th_step; [by cbn in Heqb2; rewrite G2 in Heqb2|]. th_step. th_step. th_step.
    eapply wp_mono; [by apply (make_safe_idles before)|]. intros rc w3 H3. th_step. split; [done|by left].
Qed.

(** Once tripped, a pass of the loop does nothing. *)
Lemma idled_round before (w : W) : idled before w → wp (solo watchdog_round) (λ _ w', idled before w') w.
Proof.
  intros Hi. pose proof Hi as [Ht _]. unfold watchdog_round. th_step. th_step. th_step; [by th_step|]. th_step.
  apply wp_unrecorded. intros u v. th_step. th_step. th_step; [by th_step|]. th_step. apply wp_unrecorded. intros now v'.
  th_step. th_step. th_step; [by th_step|]. th_step. th_step. th_step; [by th_step|]. by cbn in Heqb2; rewrite Ht in Heqb2.
Qed.

Lemma idled_loop before rounds : ∀ w : W, idled before w → wp (solo (watchdog_loop rounds)) (λ _ w', idled before w') w.
Proof.
  induction rounds as [|rounds IH]; intros w Hw; cbn [watchdog_loop]; [by th_step|]. th_step.
  eapply wp_mono; [by apply idled_round|]. intros go_on w' Hw'. th_step; [by apply IH|]. th_step. exact Hw'.
Qed.

Lemma guarded_loop last before rounds : ∀ w : W, guarded last w → calls (vendor w) = before →
  last + 900 - clock (behind (vendor w)) < 100 * Z.of_nat rounds →
  wp (solo (watchdog_loop (S rounds))) (λ _ w', idled before w') w.
Proof.
  induction rounds as [|rounds IH]; intros w Hw Hc Hr.
  all: change (solo (watchdog_loop (S ?n))) with
    (solo (go_on ← watchdog_round; if go_on : bool then watchdog_loop n else on_ctl (λ c, c <| watchdog_alive := false |>)) : St W unit).
  all: apply wp_solo_bind; eapply wp_mono; [by apply (guarded_round last before)|].
  all: intros go_on w' [-> [Hi|(Hg & Hc' & H1 & H2)]]; cbv beta iota.
  - exact Hi.
  - lia.
  - by apply idled_loop.
  - apply IH; [done|done|]. lia.
Qed.

(** [C16] A control loop that stalls is noticed: the watchdog, armed over an open arm that
    is in use, idles it within eleven passes of its loop (about 1.1 s) after the last
    interaction, and does nothing more to it; if the controller obeys, the arm is idle. *)
Theorem stalled_arm_idled rounds (w : W) : (11 ≤ rounds)%nat →
  watchdog_running_ (ctl w) = true → watchdog_tripped_ (ctl w) = false →
  opened_ (ctl w) = true → made_safe_ (ctl w) = false → last_interaction_ms_ (ctl w) ≤ clock (behind (vendor w)) →
  let w' := (solo (watchdog_loop rounds) w).2 in
  watchdog_tripped_ (ctl w') = true ∧
  ∃ rc, calls (vendor w') = calls (vendor w) ++ [VSafe rc] ∧
    (rc = SUCCESS → made_safe_ (ctl w') = true ∧ arm_active (arm_after (calls (vendor w'))) = false).
Proof.
  intros Hr G1 G2 G3 G4 Hl. destruct rounds as [|rounds]; [lia|]. intros w'.
  assert (wp (solo (watchdog_loop (S rounds))) (λ _ w', idled (calls (vendor w)) w') w) as Hi.
  { apply (guarded_loop (last_interaction_ms_ (ctl w))); [by split|done|]. lia. }
  destruct Hi as [Ht (rc & E & Em)].
  split; [exact Ht|]. exists rc. split; [exact E|]. intros ->. split; [exact Em|]. unfold w'. by rewrite E, arm_after_snoc.
Qed.
End stall.

(** ** A controller that obeys, and the race *)

Record SimController := mkSimController { sim_clock : Z; sim_joints : list JointState }.

#[export] Instance sim_vendor : Vendor SimController := {|
  vendor_connect := λ _ s, ((SUCCESS, Z.of_nat (length (sim_joints s))), s);
  vendor_disconnect := mret SUCCESS;
  vendor_read_state := λ _ s, ((SUCCESS, sim_joints s), s);
  vendor_write_commands := λ _, mret SUCCESS;
  vendor_apply_command_modes := λ _, mret SUCCESS;
  vendor_make_safe := mret SUCCESS;
  steady_now_ms := λ s, (sim_clock s, s);
  sleep_for_ms := λ ms s, (tt, mkSimController (sim_clock s + ms) (sim_joints s));
|}.

Lemma sim_now (s : SimController) : sim_clock s ≤ (steady_now_ms s).1 ≤ sim_clock (steady_now_ms s).2.
Proof. cbn. lia. Qed.
Lemma sim_sleep ms (s : SimController) : 0 ≤ ms → sim_clock s + ms ≤ sim_clock (sleep_for_ms ms s).2.
Proof. cbn. lia. Qed.
#[export] Instance sim_vendor_clock : VendorClock SimController :=
  {| clock := sim_clock; clock_now := sim_now; clock_sleep := sim_sleep |}.

Definition one_joint : SimController := mkSimController 0 [mkJointState f0 f0 f0 f0 true].
Definition one_joint_world : CtlWorld (Recorded SimController) := fresh_world "10.0.0.2" ∅ one_joint.

(** An open arm that holds a position, under guard. *)
Definition start_calls : list CtlCall := [CallOpen; CallArm; CallSetMode 0 POSITION; CallQueuePosition 0 f0 f0].
Definition moving_calls : list CtlCall := start_calls ++ [CallGroupWrite].
Definition moving_world : CtlWorld (Recorded SimController) := (solo (ctl_calls moving_calls) one_joint_world).2.

Definition hold_command : JointCommand := mkJointCommand POSITION f0 f0 f0 true.

Lemma controller_history_right_witness :
  let w := snd (solo (ctl_calls (moving_calls ++ [CallClose])) one_joint_world) in
  calls (vendor w) = [VConnect SUCCESS 1; VRead; VModes [POSITION] SUCCESS] ++ VWrite [hold_command] SUCCESS :: [VSafe SUCCESS; VDisconnect] ∧
  arm_modes (arm_after [VConnect SUCCESS 1; VRead; VModes [POSITION] SUCCESS]) !! 0%nat = Some POSITION.
Proof.
  intros w. assert (calls (vendor w) = [VConnect SUCCESS 1; VRead; VModes [POSITION] SUCCESS] ++ VWrite [hold_command] SUCCESS :: [VSafe SUCCESS; VDisconnect])
    as E by by vm_compute.
  split; [exact E|].
  destruct (controller_history_right "10.0.0.2" ∅ one_joint (moving_calls ++ [CallClose]) _ _ _ E) as [_ Hf].
  by apply (Hf 0%nat hold_command).
Defined.

Definition tripped_world : CtlWorld (Recorded SimController) := (solo (watchdog_loop 11) moving_world).2.

(** After the trip the loop wakes up and writes on. *)
Lemma watchdog_trip_final_witness :
  let cs := [CallSetMode 0 POSITION; CallQueuePosition 0 f0 f0; CallGroupWrite; CallGroupRead] in
  let schedule := replicate 12 false ++ replicate 5 true ++ replicate 20 false in
  let c := run_schedule schedule (mkTwo (ctl_calls cs) (watchdog_loop 3) tripped_world) in
  watchdog_tripped_ (ctl tripped_world) = true ∧
  ∃ new, calls (vendor (shared c)) = calls (vendor tripped_world) ++ new ∧ ∀ call, call ∈ new → call = VRead ∨ ∃ rc, call = VSafe rc.
Proof.
  intros cs schedule c. assert (watchdog_tripped_ (ctl tripped_world) = true) as Ht by by vm_compute. split; [exact Ht|].
  apply (watchdog_trip_final cs 3 schedule tripped_world Ht eq_refl).
Defined.

Lemma stalled_arm_idled_witness :
  let w' := (solo (watchdog_loop 11) moving_world).2 in
  arm_active (arm_after (calls (vendor moving_world))) = true ∧ watchdog_tripped_ (ctl w') = true ∧
  ∃ rc, calls (vendor w') = calls (vendor moving_world) ++ [VSafe rc].
Proof.
  intros w'. split; [by vm_compute|].
  pose proof (stalled_arm_idled 11 moving_world (le_n _) eq_refl eq_refl eq_refl eq_refl) as Hs.
  destruct Hs as (H1 & rc & H2 & _); [by vm_compute|].
  split; [exact H1|]. by exists rc.
Defined.

(** Inside a flush a trip is not final: the loop has passed its test of the flag and
    taken modes and commands; the watchdog trips and idles the arm; the flush goes on and
    sets the modes and sends the command.  The flag stays, so the watchdog does not look
    at the arm again, and the arm stays active. *)
Definition flush_interrupted : Two (CtlWorld (Recorded SimController)) :=
  run_schedule (replicate 3 false ++ replicate 120 true ++ replicate 20 false)
    (mkTwo (ctl_call CallGroupWrite) (watchdog_loop 12) (solo (ctl_calls start_calls) one_joint_world).2).

Lemma watchdog_trip_races :
  let w := shared flush_interrupted in
  calls (vendor w) = [VConnect SUCCESS 1; VRead; VSafe SUCCESS; VModes [POSITION] SUCCESS; VWrite [hold_command] SUCCESS] ∧
  watchdog_tripped_ (ctl w) = true ∧ arm_active (arm_after (calls (vendor w))) = true ∧
  (solo watchdog_round w).1 = true ∧ calls (vendor (solo watchdog_round w).2) = calls (vendor w).
Proof. vm_compute. by split_and!. Qed.
