(* ===== verification/ControllerInvariant.v ===== *)
(** * Invariants of the vendor's side of a whole-arm controller

    A property of the vendor's state that every hook keeps holds throughout, whatever
    the driver calls and in whatever order its threads run. *)

From S2P Require Import Prelude.
From S2P Require Import FloatSpec.
From S2P Require Import Control.
From S2P Require Import CanBus.
From S2P Require Import Servo.
From S2P Require Import Threads.
From S2P Require Import DriverController.
From S2P Require Import DriverControllerFacts.

Section kept.
Context {V : Type} `{Vendor V} (I : V → Prop).

Definition keeps {A} (m : St V A) : Prop := ∀ v, I v → wp m (λ _ v', I v') v.

(** Every hook keeps [I]. *)
Record HooksKeep : Prop := {
  keep_connect : ∀ address, keeps (vendor_connect address);
  keep_disconnect : keeps vendor_disconnect;
  keep_read : ∀ states, keeps (vendor_read_state states);
  keep_write : ∀ commands, keeps (vendor_write_commands commands);
  keep_modes : ∀ modes, keeps (vendor_apply_command_modes modes);
  keep_safe : keeps vendor_make_safe;
  keep_now : keeps steady_now_ms;
  keep_sleep : ∀ ms, keeps (sleep_for_ms ms);
}.

Definition vendor_in (w : CtlWorld V) : Prop := I (vendor w).
Local Abbreviation kept := (always vendor_in (λ _ _, True)).

Lemma kept_on_vendor {A} (m : St V A) : keeps m → kept (on_vendor m).
Proof.
  intros Hm. apply always_atomically. intros w Hw. unfold wp, lift_into. specialize (Hm _ Hw). unfold wp in Hm.
  by destruct (m (vendor w)).
Qed.

Lemma kept_atomically {A} (m : St (CtlWorld V) A) : (∀ w, vendor (m w).2 = vendor w) → kept (atomically m).
Proof. intros Hm. apply always_atomically. intros w Hw. split; [|done]. unfold vendor_in. by rewrite Hm. Qed.

Lemma kept_holding {A} (t : Thread (CtlWorld V) A) : kept t → kept (with_safe_mutex t).
Proof.
  intros Ht. unfold with_safe_mutex, holding. intros w Hw. split_and!; [done..|].
  change (kept (a ← t; atomically (modify (λ w : CtlWorld V, w <| ctl := (ctl w) <| safe_mutex_ := false |> |>));; Ret a)).
  apply always_bind; [done|]. intros a. apply always_bind; [by apply kept_atomically|done].
Qed.

Hypothesis hooks : HooksKeep.

Ltac kept_step :=
  cbv beta;
  lazymatch goal with
  | |- always _ _ (Ret _) => exact Logic.I
  | |- always _ _ (with_safe_mutex _) => apply kept_holding
  | |- always _ _ (on_vendor _) => apply kept_on_vendor; first [apply keep_connect|apply keep_disconnect|apply keep_read
      |apply keep_write|apply keep_modes|apply keep_safe|apply keep_now|apply keep_sleep]; exact hooks
  | |- always _ _ (_ ≫= _) => apply always_bind; [|intros ?]
  | |- always _ _ (if ?b then _ else _) => destruct b
  | |- always _ _ (match ?x with _ => _ end) => destruct x
  | |- always _ _ (on_slot _ _) => apply kept_atomically; intros ?; cbn; by destruct (_ : ReturnCode * Controller)
  | |- always _ _ (when_ok _ _) => unfold when_ok
  | |- always _ _ (atomically _) => by apply kept_atomically
  | |- always _ _ (look _) => by apply kept_atomically
  | |- always _ _ (on_ctl _) => by apply kept_atomically
  end.
Ltac kept_go := repeat kept_step.

Lemma kept_make_safe : kept make_safe.
Proof. unfold make_safe. kept_go. Qed.
Lemma kept_feed : kept feed_watchdog.
Proof. unfold feed_watchdog. kept_go. Qed.
Lemma kept_close : kept close.
Proof.
  unfold close, stop_watchdog. kept_step.
  - kept_go. intros w Hw. by split_and!.
  - kept_step; [kept_go|]. kept_step; [kept_go|]. kept_step; [apply kept_make_safe|]. kept_go.
Qed.
Lemma kept_group_read : kept group_read_hardware_values.
Proof. unfold group_read_hardware_values. kept_go. all: apply kept_feed. Qed.
Lemma kept_on_slot i f : kept (on_slot i f).
Proof.
  apply kept_atomically. intros w. by destruct (f (nth (Z.to_nat i) (desired_modes_ (ctl w)) UNSET) (ctl w)).
Qed.

Lemma kept_open : kept open.
Proof.
  unfold open. kept_step; [kept_go|]. kept_step; [done|]. kept_step; [done|]. kept_step; [kept_go|].
  kept_step. kept_step; [done|]. kept_step; [kept_go|]. do 2 (kept_step; [kept_go|]).
  kept_step; [apply kept_group_read|]. kept_step; [|done]. kept_step; [apply kept_close|done].
Qed.
Lemma kept_group_write : kept group_write_hardware_values.
Proof. unfold group_write_hardware_values, apply_modes, take_commands. kept_go. all: apply kept_feed. Qed.
Lemma kept_round : kept watchdog_round.
Proof. unfold watchdog_round. kept_go. all: apply kept_make_safe. Qed.

Lemma kept_call c : kept (ctl_call c).
Proof.
  destruct c; cbn [ctl_call]; (kept_step; [|done]).
  - apply kept_open.
  - apply kept_close.
  - apply kept_group_read.
  - apply kept_group_write.
  - unfold read_hardware_values. kept_go.
  - unfold arm_comm_loss_protection. kept_go. all: apply kept_feed.
  - unfold set_joint_command_mode, on_valid_index. kept_go. all: apply kept_on_slot.
  - unfold queue_position, queue_command, on_valid_index. kept_go. all: apply kept_on_slot.
  - unfold queue_external_effort, queue_command, on_valid_index. kept_go. all: apply kept_on_slot.
  - apply kept_make_safe.
  - apply kept_round.
Qed.

Lemma kept_calls cs : kept (ctl_calls cs).
Proof. induction cs as [|c cs IH]; [done|]. cbn [ctl_calls]. kept_step; [apply kept_call|apply IH]. Qed.

Lemma kept_loop rounds : kept (watchdog_loop rounds).
Proof.
  induction rounds as [|rounds IH]; [done|]. cbn [watchdog_loop]. kept_step; [apply kept_round|]. kept_step; [apply IH|]. kept_go.
Qed.

Lemma calls_keep cs (w : CtlWorld V) : I (vendor w) → I (vendor (solo (ctl_calls cs) w).2).
Proof.
  intros Hw. assert (PreOrder (λ _ _ : CtlWorld V, True)) as Hp by by split.
  exact (proj1 (always_solo vendor_in (λ _ _, True) _ w (kept_calls cs) Hw)).
Qed.

Lemma threads_keep cs rounds schedule (w : CtlWorld V) : I (vendor w) →
  I (vendor (shared (run_schedule schedule (mkTwo (ctl_calls cs) (watchdog_loop rounds) w)))).
Proof.
  intros Hw. assert (PreOrder (λ _ _ : CtlWorld V, True)) as Hp by by split.
  exact (proj1 (always_run vendor_in (λ _ _, True) (mkTwo (ctl_calls cs) (watchdog_loop rounds) w) schedule
    (kept_calls cs) (kept_loop rounds) Hw)).
Qed.
End kept.

(** ** Through the record *)

Section recorded.
Context {V : Type} `{Vendor V} (I : list VendorCall → V → Prop).

Definition recorded_in (r : Recorded V) : Prop := I (calls r) (behind r).

Lemma keeps_recording {A} (m : St V A) call :
  (∀ l v, I l v → wp m (λ a v', I (l ++ [call a]) v') v) → keeps recorded_in (recording m call).
Proof.
  intros Hm r Hr. specialize (Hm _ _ Hr). unfold wp in *. unfold recording. by destruct (m (behind r)).
Qed.
Lemma keeps_unrecorded {A} (m : St V A) : (∀ l v, I l v → wp m (λ _ v', I l v') v) → keeps recorded_in (unrecorded m).
Proof.
  intros Hm r Hr. specialize (Hm _ _ Hr). unfold wp in *. unfold unrecorded, lift_into. by destruct (m (behind r)).
Qed.
End recorded.
