(* ===== verification/ServoController.v ===== *)
(** * Joints of a whole-arm controller (pi_servo_controller.cpp)

    A servo without a bus of its own: its calls go to the queues of [DriverController].
    They run in the control loop, one at a time, so a driver call is its [solo] run. *)

From S2P Require Import Prelude.
From S2P Require Import FloatSpec.
From S2P Require Import Control.
From S2P Require Import CanBus.
From S2P Require Import Servo.
From S2P Require Import Joint.
From S2P Require Import ServoConfig.
From S2P Require Import Threads.
From S2P Require Import DriverController.

Definition val_servo_model_trossen_wxai := "Trossen WXAI Joint".

(** Only the base part is meaningful for this family. *)
Definition g_servo_controller_param : ServoDmParam := mkServoDmParam f0 f0 f0 f0 f0 f0 f0 f0 f0 f0
  (mkServoParam (to_f32 DEFAULT_TOLERABLE_POS_DIFFERENCE_RAD) (to_f32 MAX_POS_DIFFERENCE_RAD)
     (to_f32 DEFAULT_VELOCITY_THRESHOLD_RAD_SEC)).

(** ** Configuration *)

Section config.
Context {J : Type} `{JsonReader J} (this : ptr) (has_driver : bool).

Definition ServoController_init_config_model (servo_config : J) : St SR ReturnCode :=
  modify (λ '(s, r), (s <| p_servo_param_ := Some g_servo_controller_param |>, r));;
  require (init_config_model this servo_config (mret SUCCESS))
    ('(s, _) ← get_state;
     if negb (String.eqb (servo_model_ s) val_servo_model_trossen_wxai) then mret NOT_SUPPORTED
     else
       modify (λ '(s, r), (s <| type_ := CONTROLLER_JOINT |>, r));;
       mret (if negb has_driver then INVALID_PARAM else SUCCESS)).
End config.

(** ** Operations *)

Section servo.
Context {V : Type} `{Vendor V} (d : Device) (has_driver : bool) (this : ptr).
Local Abbreviation W := (CtlWorld V).

Definition this_servo (w : W) : Servo := default (new_Servo d None) (ctl_servos w !! this).
Definition set_this (s : Servo) (w : W) : W := w <| ctl_servos := <[this := s]> (ctl_servos w) |>.

(** A call of [p_driver_controller_] for this servo's slot. *)
Definition on_driver (call : Z → Thread W ReturnCode) : St W ReturnCode :=
  if negb has_driver then mret NOT_INITIALIZED
  else s ← gets this_servo; solo (call (data_index_ s)).

Definition request_mode (mode : JointCommandMode) : St W ReturnCode :=
  if negb has_driver then mret NOT_INITIALIZED
  else if is_read_only_ d then mret SUCCESS
  else on_driver (λ i, set_joint_command_mode i mode).

(** The controller holds the pose in this mode. *)
Definition ctl_start_hardware : St W ReturnCode := request_mode POSITION.

(** The first joint that parks idles the arm, the others find it idle. *)
Definition ctl_park_safely : St W ReturnCode :=
  s ← gets this_servo;
  if parked_ s then mret SUCCESS
  else if is_read_only_ d then mret SUCCESS
  else
    require (on_driver (λ _, make_safe))
      (modify (λ w, set_this ((this_servo w) <| parked_ := true |>) w);; mret SUCCESS).

Definition ctl_verify_position_fresh : St W ReturnCode :=
  if negb has_driver then mret NOT_INITIALIZED
  else valid ← gets (λ w, has_valid_state (ctl w)); mret (if negb valid then NO_RESPONSE else SUCCESS).

Definition ctl_move_with (target_pos target_vel target_tor : f32) : St W ReturnCode :=
  s ← gets this_servo;
  let target_pos_absolute := get_pos_rad_absolute_of s (clipping target_pos (pos_min_rel_ s) (pos_max_rel_ s)) in
  let velocity_ff := (target_vel * f32_of_Z (dir_invert_ s))%f32 in
  on_driver (λ i, queue_position i target_pos_absolute velocity_ff).

Definition ctl_move (target_pos : f32) : St W ReturnCode := ctl_move_with target_pos f0 f0.

Definition ctl_apply_torque (torque : f32) : St W ReturnCode :=
  s ← gets this_servo;
  on_driver (λ i, queue_external_effort i (torque * f32_of_Z (dir_invert_ s))%f32).

(** Damping is the controller's. *)
Definition ctl_apply_torque_with_damping (torque : f32) : St W ReturnCode := ctl_apply_torque torque.

Definition ctl_change_control_mode_for_leader : St W ReturnCode := request_mode EXTERNAL_EFFORT.
Definition ctl_change_control_mode_for_follower : St W ReturnCode := request_mode POSITION.

Definition ctl_read_hardware_values : St W ReturnCode :=
  Servo_read_hardware_values this_servo set_this d
    (if has_driver then Some (solo (read_hardware_values (Some this))) else None).
End servo.

(** ** The servos of a joint *)

Definition controller_joint_servos {V} `{Vendor V} (d : Device) (has_driver : bool) : JointServos (CtlWorld V) := {|
  js_servo := this_servo d;
  js_update := λ p f w, set_this p (f (this_servo d p w)) w;
  js_effective_pos_kp := λ p w, pos_kp_ (this_servo d p w);
  js_read_hardware_values := ctl_read_hardware_values d has_driver;
  js_park_safely := ctl_park_safely d has_driver;
  js_start_hardware := ctl_start_hardware d has_driver;
  js_verify_position_fresh := λ _, ctl_verify_position_fresh has_driver;
  js_verify_operational := λ _, mret SUCCESS;
  js_change_control_mode_for_leader := ctl_change_control_mode_for_leader d has_driver;
  js_change_control_mode_for_follower := ctl_change_control_mode_for_follower d has_driver;
  js_move := ctl_move d has_driver;
  js_move_with := ctl_move_with d has_driver;
  js_apply_torque := ctl_apply_torque d has_driver;
  js_apply_torque_with_damping := ctl_apply_torque_with_damping d has_driver;
  js_frame_age_ms := λ _, mret (-1);
  js_mit_codec_report := λ _ _, None;
|}.
