(* ===== verification/TrossenFacts.v ===== *)
(** * Theorems on the Trossen controller ([DriverTrossen], [ServoController])

    [StrictArm] is a controller that throws on a vector of the wrong size, a joint that
    does not exist and a command that does not fit the joint's mode.  The driver's
    transactions do to it what the commands say joint by joint, and in no history of
    calls does it have a reason to throw. *)

From S2P Require Import Prelude.
From S2P Require Import FloatSpec.
From S2P Require Import Control.
From S2P Require Import CanBus.
From S2P Require Import Servo.
From S2P Require Import Threads.
From S2P Require Import DriverController.
From S2P Require Import DriverControllerFacts.
From S2P Require Import ControllerInvariant.
From S2P Require Import DriverTrossen.

#[export] Instance ShimMode_eq_dec : EqDecision ShimMode.
Proof. solve_decision. Defined.

(** ** A strict arm *)

Inductive Target := Untouched | AtPosition (position velocity_ff : f64) | WithEffort (effort : f64).

Record StrictArm := mkStrictArm {
  sa_joints : nat;                (* arm and gripper *)
  sa_modes : list ShimMode;
  sa_targets : list Target;
  sa_clock : Z;
  sa_refused : bool;              (* it has thrown *)
}.
#[export] Instance eta_StrictArm : Eta StrictArm := λ r, mkStrictArm
  (sa_joints r) (sa_modes r) (sa_targets r) (sa_clock r) (sa_refused r).

(** It throws unless the test holds. *)
Definition strictly (test : StrictArm → bool) (f : StrictArm → StrictArm) : St StrictArm (string + unit) := λ t,
  if test t then (inr tt, f t) else (inl "refused", t <| sa_refused := true |>).

Definition all_in (mode : ShimMode) (n : nat) (t : StrictArm) : bool :=
  bool_decide (take n (sa_modes t) = replicate n mode).
Definition arm_joints (t : StrictArm) : nat := (sa_joints t - 1)%nat.

Definition set_joint (mode : ShimMode) (i : nat) (target : Target) : St StrictArm (string + unit) :=
  strictly (λ t, bool_decide (sa_modes t !! i = Some mode)) (λ t, t <| sa_targets := <[i := target]> (sa_targets t) |>).

Definition set_arm (mode : ShimMode) (targets : list Target) : St StrictArm (string + unit) :=
  strictly (λ t, (length targets =? arm_joints t)%nat && all_in mode (arm_joints t) t)
    (λ t, t <| sa_targets := targets ++ drop (length targets) (sa_targets t) |>).

Definition zeros (t : StrictArm) : list f64 := replicate (sa_joints t) f0.

#[export] Instance strict_arm : TrossenArm StrictArm := {|
  arm_configure := λ _ _ _ _, strictly (λ _, true) (λ t, t <| sa_modes := replicate (sa_joints t) IDLE |>);
  arm_cleanup := strictly (λ _, true) id;
  arm_get_num_joints := λ t, Z.of_nat (sa_joints t);
  arm_get_all_positions := λ t, (inr (zeros t), t);
  arm_get_all_velocities := λ t, (inr (zeros t), t);
  arm_get_all_efforts := λ t, (inr (zeros t), t);
  arm_get_all_rotor_temperatures := λ t, (inr (zeros t), t);
  arm_set_arm_positions := λ positions _ _ velocity_ffs, λ t,
    if (length velocity_ffs =? length positions)%nat
    then set_arm SHIM_POSITION (zip_with AtPosition positions velocity_ffs) t
    else strictly (λ _, false) id t;
  arm_set_arm_external_efforts := λ efforts _ _, set_arm SHIM_EXTERNAL_EFFORT (map WithEffort efforts);
  arm_set_joint_position := λ i position _ _ velocity_ff, set_joint SHIM_POSITION (Z.to_nat i) (AtPosition position velocity_ff);
  arm_set_joint_external_effort := λ i effort _ _, set_joint SHIM_EXTERNAL_EFFORT (Z.to_nat i) (WithEffort effort);
  arm_set_gripper_position := λ position _ _ velocity_ff, λ t,
    set_joint SHIM_POSITION (arm_joints t) (AtPosition position velocity_ff) t;
  arm_set_gripper_external_effort := λ effort _ _, λ t, set_joint SHIM_EXTERNAL_EFFORT (arm_joints t) (WithEffort effort) t;
  arm_set_joint_modes := λ modes,
    strictly (λ t, (length modes =? sa_joints t)%nat) (λ t, t <| sa_modes := modes |>);
  arm_set_all_modes := λ mode, strictly (λ _, true) (λ t, t <| sa_modes := replicate (sa_joints t) mode |>);
  arm_steady_now_ms := λ t, (sa_clock t, t);
  arm_sleep_for_ms := λ ms t, (tt, t <| sa_clock := sa_clock t + ms |>);
|}.

(** ** The commands joint by joint *)

Definition target_of (c : JointCommand) (old : Target) : Target :=
  if pending_in POSITION c then AtPosition (to_f64 (jc_position c)) (to_f64 (jc_velocity_ff c))
  else if pending_in EXTERNAL_EFFORT c then WithEffort (to_f64 (jc_external_effort c))
  else old.

(** The commands [cs] are for the joints from [i] on. *)
Definition after_commands (i : nat) (cs : list JointCommand) (targets : list Target) : list Target :=
  imap (λ j t, if (i <=? j)%nat then from_option (λ c, target_of c t) t (cs !! (j - i)%nat) else t) targets.

Lemma after_commands_lookup i cs targets j :
  after_commands i cs targets !! j =
    (λ t, if (i <=? j)%nat then from_option (λ c, target_of c t) t (cs !! (j - i)%nat) else t) <$> targets !! j.
Proof. unfold after_commands. apply list_lookup_imap. Qed.

Lemma after_no_commands i targets : after_commands i [] targets = targets.
Proof.
  apply list_eq. intros j. rewrite after_commands_lookup. destruct (targets !! j); [|done]. cbn. by destruct (i <=? j)%nat.
Qed.

Lemma after_cons_commands i c cs targets :
  after_commands i (c :: cs) targets = after_commands (S i) cs (alter (target_of c) i targets).
Proof.
  apply list_eq. intros j. rewrite !after_commands_lookup. destruct (decide (i = j)) as [<-|Hne].
  - rewrite list_lookup_alter_eq, Nat.leb_refl, Nat.sub_diag, (proj2 (Nat.leb_gt (S i) i)) by lia.
    by destruct (targets !! i).
  - rewrite list_lookup_alter_ne by done. destruct (Nat.leb_spec i j).
    + rewrite (proj2 (Nat.leb_le (S i) j)) by lia. replace (j - i)%nat with (S (j - S i)) by lia. done.
    + by rewrite (proj2 (Nat.leb_gt (S i) j)) by lia.
Qed.

Lemma after_snoc_commands cs c targets : after_commands 0 (cs ++ [c]) targets = after_commands (length cs) [c] (after_commands 0 cs targets).
Proof.
  apply list_eq. intros j. rewrite !after_commands_lookup. cbn [Nat.leb]. rewrite Nat.sub_0_r.
  destruct (targets !! j) as [t|]; [|done]. cbn. f_equal. destruct (Nat.leb_spec (length cs) j).
  - rewrite lookup_app_r, (lookup_ge_None_2 cs j) by lia. done.
  - by rewrite lookup_app_l by lia.
Qed.

(** ** One transaction *)

Local Abbreviation V := (Trossen StrictArm).

Definition configured (v : V) : Prop := ∃ s, p_arm_ v = Some s ∧ impl_ s = true.

Lemma wp_arm_call null name (m : St StrictArm (string + unit)) t' (v : V) : configured v → m (arm v) = (inr tt, t') →
  wp (on_arm null (shim_call name m)) (λ b v', b = true ∧ configured v' ∧ arm v' = t') v.
Proof.
  intros (s & Es & Hs) Em. unfold wp, on_arm. rewrite Es. unfold shim_call. rewrite bind_run. cbn [get_state fst snd].
  rewrite Hs. cbn [negb]. rewrite bind_run. unfold catching. rewrite Em. cbn. split_and!; [done| |done]. by eexists.
Qed.

(** A pending command is for a joint in its mode. *)
Definition fits_at (modes : list ShimMode) (i : nat) (c : JointCommand) : Prop :=
  jc_pending c = true → jc_mode c ≠ UNSET → modes !! i = Some (shim_mode (jc_mode c)).

Lemma pending_in_mode m c : pending_in m c = true → jc_pending c = true ∧ jc_mode c = m.
Proof. intros [H1 H2]%andb_true_iff. by apply bool_decide_eq_true in H2. Qed.

Lemma alter_const {A} (f : A → A) x i (l : list A) : (∀ y, f y = x) → alter f i l = <[i := x]> l.
Proof.
  intros Hf. apply list_eq. intros j. destruct (decide (i = j)) as [<-|Hne].
  - rewrite list_lookup_alter_eq. destruct (l !! i) eqn:E; cbn.
    + rewrite list_lookup_insert_eq by (by eapply lookup_lt_Some). by rewrite Hf.
    + symmetry. apply lookup_ge_None_2. rewrite length_insert. by apply lookup_ge_None.
  - by rewrite list_lookup_alter_ne, list_lookup_insert_ne by done.
Qed.

Lemma alter_same {A} (f : A → A) i (l : list A) : (∀ y, f y = y) → alter f i l = l.
Proof.
  intros Hf. apply list_eq. intros j. destruct (decide (i = j)) as [<-|Hne]; [|by rewrite list_lookup_alter_ne].
  rewrite list_lookup_alter_eq. destruct (l !! i); [|done]. cbn. by rewrite Hf.
Qed.

Lemma set_joint_accepts mode i target t : sa_modes t !! i = Some mode →
  set_joint mode i target t = (inr tt, t <| sa_targets := <[i := target]> (sa_targets t) |>).
Proof. intros E. unfold set_joint, strictly. by rewrite E, bool_decide_true. Qed.

Definition retargeted (i : nat) (cs : list JointCommand) (t : StrictArm) : StrictArm :=
  t <| sa_targets := after_commands i cs (sa_targets t) |>.

Lemma retargeted_one i c t target : (∀ old, target_of c old = target) →
  retargeted i [c] t = t <| sa_targets := <[i := target]> (sa_targets t) |>.
Proof.
  intros Ht. unfold retargeted. rewrite after_cons_commands, after_no_commands, (alter_const _ target) by done. done.
Qed.

Lemma retargeted_none i c t : (∀ old, target_of c old = old) → retargeted i [c] t = t.
Proof.
  intros Ht. unfold retargeted. rewrite after_cons_commands, after_no_commands, alter_same by done. by destruct t.
Qed.

Lemma target_of_position c : pending_in POSITION c = true →
  ∀ old, target_of c old = AtPosition (to_f64 (jc_position c)) (to_f64 (jc_velocity_ff c)).
Proof. intros E old. unfold target_of. by rewrite E. Qed.
Lemma target_of_effort c : pending_in POSITION c = false → pending_in EXTERNAL_EFFORT c = true →
  ∀ old, target_of c old = WithEffort (to_f64 (jc_external_effort c)).
Proof. intros E1 E2 old. unfold target_of. by rewrite E1, E2. Qed.
Lemma target_of_neither c : pending_in POSITION c = false → pending_in EXTERNAL_EFFORT c = false → ∀ old, target_of c old = old.
Proof. intros E1 E2 old. unfold target_of. by rewrite E1, E2. Qed.

(** The arm took it and nothing else changed. *)
Definition took (t' : StrictArm) (b : bool) (v' : V) : Prop := b = true ∧ configured v' ∧ arm v' = t'.

Lemma stream_joint_takes i c (v : V) : configured v → (i < 256)%nat → fits_at (sa_modes (arm v)) i c →
  wp (stream_joint i c) (took (retargeted i [c] (arm v))) v.
Proof.
  intros Hv Hi Hf. unfold stream_joint. assert (Z.to_nat (u8 (Z.of_nat i)) = i) as Ei.
  { rewrite wrap_small; [apply Nat2Z.id|]. unfold is_unsigned. lia. }
  destruct (pending_in POSITION c) eqn:E1.
  { destruct (pending_in_mode _ _ E1) as [Hp Hm]. apply wp_arm_call; [done|]. cbn [arm_set_joint_position strict_arm].
    rewrite Ei, set_joint_accepts; [|rewrite Hf by (done || by rewrite Hm); by rewrite Hm].
    by rewrite (retargeted_one i c _ _ (target_of_position c E1)). }
  destruct (pending_in EXTERNAL_EFFORT c) eqn:E2.
  { destruct (pending_in_mode _ _ E2) as [Hp Hm]. apply wp_arm_call; [done|]. cbn [arm_set_joint_external_effort strict_arm].
    rewrite Ei, set_joint_accepts; [|rewrite Hf by (done || by rewrite Hm); by rewrite Hm].
    by rewrite (retargeted_one i c _ _ (target_of_effort c E1 E2)). }
  wp_step. rewrite (retargeted_none i c _ (target_of_neither c E1 E2)). by split_and!.
Qed.

Lemma stream_gripper_takes c (v : V) : configured v → fits_at (sa_modes (arm v)) (arm_joints (arm v)) c →
  wp (stream_gripper c) (took (retargeted (arm_joints (arm v)) [c] (arm v))) v.
Proof.
  intros Hv Hf. unfold stream_gripper. destruct (pending_in POSITION c) eqn:E1.
  { destruct (pending_in_mode _ _ E1) as [Hp Hm]. apply wp_arm_call; [done|]. cbn [arm_set_gripper_position strict_arm].
    rewrite set_joint_accepts; [|rewrite Hf by (done || by rewrite Hm); by rewrite Hm].
    by rewrite (retargeted_one _ c _ _ (target_of_position c E1)). }
  destruct (pending_in EXTERNAL_EFFORT c) eqn:E2.
  { destruct (pending_in_mode _ _ E2) as [Hp Hm]. apply wp_arm_call; [done|]. cbn [arm_set_gripper_external_effort strict_arm].
    rewrite set_joint_accepts; [|rewrite Hf by (done || by rewrite Hm); by rewrite Hm].
    by rewrite (retargeted_one _ c _ _ (target_of_effort c E1 E2)). }
  wp_step. rewrite (retargeted_none _ c _ (target_of_neither c E1 E2)). by split_and!.
Qed.

Lemma stream_joints_take cs : ∀ i (v : V), configured v → (i + length cs ≤ 256)%nat →
  (∀ k c, cs !! k = Some c → fits_at (sa_modes (arm v)) (i + k) c) →
  wp (stream_joints i cs) (took (retargeted i cs (arm v))) v.
Proof.
  induction cs as [|c cs IH]; intros i v Hv Hi Hf; cbn [stream_joints].
  { wp_step. split_and!; [done..|]. unfold retargeted. rewrite after_no_commands. by destruct (arm v). }
  cbn [length] in Hi. wp_step. eapply wp_mono; [apply stream_joint_takes; [done|lia|]|].
  { replace i with (i + 0)%nat by lia. by apply Hf. }
  intros b v1 (-> & Hv1 & E1). cbn [negb]. eapply wp_mono; [apply (IH (S i)); [done|lia|]|].
  - intros k c' Hk. rewrite E1. replace (S i + k)%nat with (i + S k)%nat by lia. by apply Hf.
  - intros b v2 (H1 & H2 & H3). split_and!; [done..|]. rewrite H3, E1. unfold retargeted. cbn.
    rewrite (after_cons_commands i c cs), (after_cons_commands i c []), after_no_commands. done.
Qed.

(** The arm has its sizes right. *)
Definition well_sized (t : StrictArm) : Prop :=
  (0 < sa_joints t ≤ 256)%nat ∧ length (sa_modes t) = sa_joints t ∧ length (sa_targets t) = sa_joints t.

Lemma all_in_mode mode cs t : well_sized t → length cs = arm_joints t → mode ≠ UNSET → forallb (pending_in mode) cs = true →
  (∀ k c, cs !! k = Some c → fits_at (sa_modes t) k c) → all_in (shim_mode mode) (arm_joints t) t = true.
Proof.
  intros (Hj & Hm & _) Hl Hu Hall Hf. apply bool_decide_eq_true, list_eq_same_length with (n := arm_joints t).
  - by rewrite length_replicate.
  - rewrite length_take, Hm. unfold arm_joints. lia.
  - intros k x y Hk Hx Hy. apply lookup_replicate in Hy as [-> _]. apply lookup_take_Some in Hx as [Hx _].
    destruct (lookup_lt_is_Some_2 cs k) as [c Hc]; [lia|]. rewrite forallb_forall in Hall.
    assert (pending_in mode c = true) as Hp by (apply Hall, list_elem_of_In; by eapply list_elem_of_lookup_2).
    apply pending_in_mode in Hp as [Hp Hmo]. specialize (Hf k c Hc Hp). rewrite Hmo in Hf.
    rewrite Hf in Hx by done. by injection Hx.
Qed.

Lemma set_arm_takes mode (f : JointCommand → Target) cs t : well_sized t → length cs = arm_joints t →
  all_in mode (arm_joints t) t = true → (∀ c, c ∈ cs → ∀ old, target_of c old = f c) →
  set_arm mode (map f cs) t = (inr tt, retargeted 0 cs t).
Proof.
  intros (Hj & Hm & Ht) Hl Hall Hf. unfold set_arm, strictly. rewrite length_map, Hl, Nat.eqb_refl, Hall. cbn [andb].
  unfold retargeted. assert (map f cs ++ drop (arm_joints t) (sa_targets t) = after_commands 0 cs (sa_targets t)) as ->; [|done].
  apply list_eq. intros j. rewrite after_commands_lookup. cbn [Nat.leb]. rewrite Nat.sub_0_r.
  unfold arm_joints in *. destruct (decide (j < length cs)%nat) as [Hlt|Hge].
  - destruct (lookup_lt_is_Some_2 cs j Hlt) as [c Hc]. destruct (lookup_lt_is_Some_2 (sa_targets t) j) as [old Ho]; [lia|].
    rewrite lookup_app_l by (rewrite length_map; lia). rewrite list_lookup_fmap, Hc, Ho. cbn.
    rewrite (Hf c); [done|]. by eapply list_elem_of_lookup_2.
  - rewrite lookup_app_r by (rewrite length_map; lia). rewrite length_map, lookup_drop, (lookup_ge_None_2 cs j) by lia.
    replace (sa_joints t - 1 + (j - length cs))%nat with j by lia. by destruct (sa_targets t !! j).
Qed.

Lemma zip_with_map {A B C D} (f : B → C → D) (g : A → B) (h : A → C) l : zip_with f (map g l) (map h l) = map (λ x, f (g x) (h x)) l.
Proof. induction l as [|x l IH]; [done|]. cbn. by rewrite IH. Qed.

(** All joints at once or one by one, the arm ends the same. *)
Lemma stream_arm_takes cs (v : V) : configured v → well_sized (arm v) → length cs = arm_joints (arm v) →
  (∀ k c, cs !! k = Some c → fits_at (sa_modes (arm v)) k c) →
  wp (stream_arm cs) (took (retargeted 0 cs (arm v))) v.
Proof.
  intros Hv Hw Hl Hf. pose proof Hw as (Hj & _). unfold stream_arm. destruct (forallb (pending_in POSITION) cs) eqn:E1.
  { pose proof E1 as E. rewrite forallb_forall in E. apply wp_arm_call; [done|]. cbn [arm_set_arm_positions strict_arm].
    rewrite !length_map, Nat.eqb_refl, zip_with_map. apply set_arm_takes; [done|done|by apply (all_in_mode POSITION cs)|].
    intros c Hc%list_elem_of_In. by apply target_of_position, E. }
  destruct (forallb (pending_in EXTERNAL_EFFORT) cs) eqn:E2.
  { pose proof E2 as E. rewrite forallb_forall in E. apply wp_arm_call; [done|]. cbn [arm_set_arm_external_efforts strict_arm].
    rewrite map_map. apply set_arm_takes; [done|done|by apply (all_in_mode EXTERNAL_EFFORT cs)|].
    intros c Hc%list_elem_of_In. specialize (E c Hc). apply target_of_effort; [|done].
    apply pending_in_mode in E as [Hp Hm]. unfold pending_in. by rewrite Hp, Hm. }
  apply stream_joints_take; [done|unfold arm_joints in *; lia|]. intros k c Hk. by apply Hf.
Qed.

(** The whole flush. *)
Lemma write_takes commands (v : V) : configured v → well_sized (arm v) → length commands = sa_joints (arm v) →
  (∀ i c, commands !! i = Some c → fits_at (sa_modes (arm v)) i c) →
  wp (trossen_write_commands commands) (λ rc v', rc = SUCCESS ∧ configured v' ∧ arm v' = retargeted 0 commands (arm v)) v.
Proof.
  intros Hv Hw Hl Hf. pose proof Hw as (Hj & Hm & Ht). set (n := (length commands - 1)%nat).
  unfold trossen_write_commands. do 2 wp_step. destruct Hv as (s & Es & Hs). rewrite Es. fold n. wp_step.
  destruct (lookup_lt_is_Some_2 commands n) as [g Hg]; [unfold n; lia|].
  assert (commands = take n commands ++ [g]) as Ec.
  { rewrite <- (take_drop n commands) at 1. f_equal. by apply drop_S in Hg as ->; rewrite drop_ge by (unfold n; lia). }
  eapply wp_mono; [apply stream_arm_takes; [by exists s|done|rewrite length_take; unfold arm_joints, n; lia|]|].
  { intros k c [Hk _]%lookup_take_Some Hp Hu. by apply Hf. }
  intros b v1 (-> & Hv1 & E1). cbn [negb]. wp_step. rewrite (nth_lookup_Some _ _ new_JointCommand _ Hg).
  eapply wp_mono; [apply stream_gripper_takes; [done|]|].
  { rewrite E1. cbn. unfold arm_joints. cbn. rewrite <- Hl. intros Hp Hu. by apply Hf. }
  intros b v2 (-> & Hv2 & E2). wp_step. split_and!; [done..|]. rewrite E2, E1. unfold retargeted. cbn.
  replace (after_commands 0 commands (sa_targets (arm v))) with (after_commands 0 (take n commands ++ [g]) (sa_targets (arm v)))
    by (by rewrite <- Ec).
  rewrite after_snoc_commands, length_take. unfold arm_joints. cbn.
  replace (sa_joints (arm v) - 1)%nat with (n `min` length commands)%nat by (unfold n; lia). done.
Qed.

(** [C17] A flush reaches the joints: on a configured arm whose modes fit the commands,
    writing them succeeds, whether it goes out as one transaction for the arm or joint by
    joint, and every joint with a pending command has the target that command names, the
    other joints the one they had. *)
Theorem write_reaches_joints commands (v : V) : configured v → well_sized (arm v) → length commands = sa_joints (arm v) →
  (∀ i c, commands !! i = Some c → jc_pending c = true → jc_mode c ≠ UNSET →
     sa_modes (arm v) !! i = Some (shim_mode (jc_mode c))) →
  let '(rc, v') := vendor_write_commands commands v in
  rc = SUCCESS ∧ configured v' ∧ sa_modes (arm v') = sa_modes (arm v) ∧ length (sa_targets (arm v')) = sa_joints (arm v) ∧
  ∀ i c old, commands !! i = Some c → sa_targets (arm v) !! i = Some old →
    sa_targets (arm v') !! i = Some
      (if jc_pending c then
         match jc_mode c with
         | POSITION => AtPosition (to_f64 (jc_position c)) (to_f64 (jc_velocity_ff c))
         | EXTERNAL_EFFORT => WithEffort (to_f64 (jc_external_effort c))
         | UNSET => old
         end
       else old).
Proof.
  intros Hv Hw Hl Hf. pose proof Hw as (Hj & Hm & Ht).
  pose proof (write_takes commands v Hv Hw Hl Hf) as Hrun.
  cbn [vendor_write_commands trossen_vendor]. unfold wp in Hrun. destruct (trossen_write_commands commands v) as [rc v'].
  cbn [fst snd] in Hrun. destruct Hrun as (-> & Hv' & E). split_and!; [done|done|by rewrite E|..].
  - rewrite E. unfold retargeted. cbn. unfold after_commands. by rewrite length_imap.
  - intros i c old Hc Ho. rewrite E. unfold retargeted. cbn. rewrite after_commands_lookup, Ho. cbn [Nat.leb]. rewrite Nat.sub_0_r, Hc.
    cbn. f_equal. unfold target_of, pending_in. destruct (jc_pending c); [|done]. by destruct (jc_mode c).
Qed.

(** ** In a history of calls *)

(** The arm after the calls [l], as its driver sees it: it has thrown at nothing, and
    while the driver is connected its modes are those asked for. *)
Record agrees (n : nat) (l : list VendorCall) (v : V) : Prop := {
  ag_joints : sa_joints (arm v) = n;
  ag_sized : well_sized (arm v);
  ag_refused : sa_refused (arm v) = false;
  ag_connected : ∀ s, p_arm_ v = Some s → impl_ s = true ∧ arm_count (arm_after l) = n ∧
    ∀ i m, arm_modes (arm_after l) !! i = Some m → sa_modes (arm v) !! i = Some (shim_mode m);
}.

Definition agrees_when_right (n : nat) (l : list VendorCall) (v : V) : Prop := record_right l → agrees n l v.

Lemma right_snoc_inv l c : record_right (l ++ [c]) → record_right l ∧ call_right l c.
Proof.
  intros Hr. split; [|by apply (Hr l c [])]. intros l1 c' l2 ->. apply (Hr l1 c' (l2 ++ [c])). by rewrite <- (assoc_L (++)).
Qed.

Lemma keeps_agrees {A} n (m : St V A) call :
  (∀ l v, agrees n l v → (∃ a, call_right l (call a)) → wp m (λ a v', agrees n (l ++ [call a]) v') v) →
  keeps (recorded_in (agrees_when_right n)) (recording m call).
Proof.
  intros Hm. apply keeps_recording. intros l v Hv. unfold wp. intros [Hl Hc]%right_snoc_inv.
  apply (Hm l v); [by apply Hv|by eexists].
Qed.

(** A hook that leaves the arm's joints, sizes and temper as they are. *)
Lemma agrees_after n l c (v v' : V) : agrees n l v → sa_joints (arm v') = sa_joints (arm v) →
  length (sa_modes (arm v')) = sa_joints (arm v) → length (sa_targets (arm v')) = sa_joints (arm v) →
  sa_refused (arm v') = sa_refused (arm v) →
  (∀ s, p_arm_ v' = Some s → impl_ s = true ∧ arm_count (arm_after (l ++ [c])) = n ∧
     ∀ i m, arm_modes (arm_after (l ++ [c])) !! i = Some m → sa_modes (arm v') !! i = Some (shim_mode m)) →
  agrees n (l ++ [c]) v'.
Proof.
  intros [H1 (H2 & H3 & H4) H5 H6] E1 E2 E3 E4 Hs. split; [by rewrite E1| |by rewrite E4|done].
  unfold well_sized. by rewrite E1, E2, E3.
Qed.

Lemma agrees_configured n l v s : agrees n l v → p_arm_ v = Some s → configured v.
Proof. intros Ha Es. exists s. by destruct (ag_connected _ _ _ Ha s Es). Qed.

(** A run of the shim. *)
Lemma wp_on_arm {A} (null : A) (m : St (@SH StrictArm) A) Q (v : V) s : p_arm_ v = Some s →
  wp m (λ a st, Q a (v <| p_arm_ := Some st.1 |> <| arm := st.2 |>)) (s, arm v) → wp (on_arm null m) Q v.
Proof. intros Es. unfold wp, on_arm. rewrite Es. by destruct (m (s, arm v)) as [a [s' t']]. Qed.

Lemma connect_agrees n l address v : agrees n l v →
  wp (trossen_connect address) (λ r v', agrees n (l ++ [VConnect r.1 r.2]) v') v.
Proof.
  intros Ha. pose proof (ag_sized _ _ _ Ha) as (Hj & Hm & Ht). pose proof (ag_joints _ _ _ Ha) as Hn.
  unfold trossen_connect. wp_step. eapply (wp_mono _ (λ _ v', v' = v)).
  { unfold wp, destroy_shim. destruct v as [model leader [[[] err]|] []]; done. }
  intros u v1 ->. do 5 wp_step. cbv beta. eapply wp_on_arm; [done|]. cbn [controller_model_ is_leader_role_ arm].
  unfold shim_configure. destruct (String.eqb _ TROSSEN_MODEL_WXAI_V0); cbn [negb].
  - assert (∀ v' : V, v' = v <| p_arm_ := Some (mkTrossenArmShim true "") |> <| arm := (arm v) <| sa_modes := replicate (sa_joints (arm v)) IDLE |> |> →
      agrees n (l ++ [VConnect SUCCESS (Z.of_nat (sa_joints (arm v)))]) v') as Hc; [|by apply Hc].
    intros v' ->. apply (agrees_after _ _ _ _ _ Ha); cbn; [done|by rewrite length_replicate|done|done|]. intros s [= <-].
    rewrite arm_after_snoc. cbn. by rewrite Nat2Z.id.
  - unfold wp. by apply (agrees_after _ _ _ _ _ Ha).
Qed.

Lemma disconnect_agrees n l v : agrees n l v → wp trossen_disconnect (λ _ v', agrees n (l ++ [VDisconnect]) v') v.
Proof.
  intros Ha. pose proof (ag_sized _ _ _ Ha) as (Hj & Hm & Ht). unfold trossen_disconnect. do 2 wp_step.
  destruct (p_arm_ v) as [s|] eqn:Es; [|wp_step; apply (agrees_after _ _ _ _ _ Ha); [done..|by rewrite Es]].
  destruct (ag_connected _ _ _ Ha s Es) as (Hs & _). destruct s as [impl err]. cbn in Hs. subst impl.
  wp_step. eapply wp_on_arm; [done|]. by apply (agrees_after _ _ _ _ _ Ha).
Qed.

Lemma read_agrees n l states v : agrees n l v → wp (trossen_read_state states) (λ _ v', agrees n (l ++ [VRead]) v') v.
Proof.
  intros Ha. pose proof (ag_sized _ _ _ Ha) as (Hj & Hm & Ht). unfold trossen_read_state. do 2 wp_step.
  destruct (p_arm_ v) as [s|] eqn:Es; [|wp_step; apply (agrees_after _ _ _ _ _ Ha); [done..|by rewrite Es]].
  destruct (ag_connected _ _ _ Ha s Es) as (Hs & Hc & Hmo). destruct s as [impl err]. cbn in Hs. subst impl.
  wp_step. eapply wp_on_arm; [done|].
  assert (agrees n (l ++ [VRead]) (v <| p_arm_ := Some (mkTrossenArmShim true "") |> <| arm := arm v |>)) as Hv.
  { apply (agrees_after _ _ _ _ _ Ha); [done..|]. intros s [= <-]. by rewrite arm_after_snoc. }
  change (wp read_state ?Q ?p) with (Q (true, (zeros (arm v), zeros (arm v), zeros (arm v), zeros (arm v))) (mkTrossenArmShim true "", arm v)).
  cbn [fst snd negb]. wp_step; intros; wp_step; exact Hv.
Qed.

Lemma write_agrees n l commands v : agrees n l v → commands_fit (arm_after l) commands →
  wp (trossen_write_commands commands) (λ rc v', agrees n (l ++ [VWrite commands rc]) v') v.
Proof.
  intros Ha [Hl Hf]. destruct (p_arm_ v) as [s|] eqn:Es.
  - destruct (ag_connected _ _ _ Ha s Es) as (Hs & Hn & Hmo). pose proof (ag_sized _ _ _ Ha) as Hw.
    eapply wp_mono; [apply write_takes; [by exists s|done|by rewrite Hl, Hn, (ag_joints _ _ _ Ha)|]|].
    { intros i c Hc Hp _. apply Hmo. by destruct (Hf i c Hc Hp). }
    intros rc v' (_ & (s' & Es' & Hs') & E). destruct Hw as (_ & Hm & Ht).
    apply (agrees_after _ _ _ _ _ Ha); rewrite ?E; try done.
    + cbn. unfold after_commands. by rewrite length_imap.
    + intros s2 Es2. rewrite Es' in Es2. injection Es2 as <-. by rewrite arm_after_snoc.
  - unfold wp, trossen_write_commands. rewrite bind_run. cbn. rewrite Es. cbn.
    pose proof (ag_sized _ _ _ Ha) as (_ & Hm & Ht). apply (agrees_after _ _ _ _ _ Ha); [done..|]. by rewrite Es.
Qed.

Lemma modes_agrees n l modes v : agrees n l v → length modes = arm_count (arm_after l) →
  wp (trossen_apply_command_modes modes) (λ rc v', agrees n (l ++ [VModes modes rc]) v') v.
Proof.
  intros Ha Hl. pose proof (ag_sized _ _ _ Ha) as (Hj & Hm & Ht). pose proof (ag_joints _ _ _ Ha) as Hn.
  destruct (p_arm_ v) as [s|] eqn:Es.
  - destruct (ag_connected _ _ _ Ha s Es) as (Hs & Hc & Hmo). unfold trossen_apply_command_modes. do 2 wp_step. rewrite Es. wp_step.
    eapply wp_mono; [apply (wp_arm_call _ _ _ ((arm v) <| sa_modes := map shim_mode modes |>)); [by exists s|]|].
    { cbn. unfold strictly. by rewrite length_map, Hl, Hc, Hn, Nat.eqb_refl. }
    intros b v' (-> & (s' & Es' & Hs') & E). wp_step. apply (agrees_after _ _ _ _ _ Ha); rewrite ?E; try done.
    + cbn. by rewrite length_map, Hl, Hc.
    + intros s2 Es2. rewrite Es' in Es2. injection Es2 as <-. rewrite arm_after_snoc. cbn. split_and!; [done..|].
      intros i m Hi. change (modes !! i = Some m) in Hi. by rewrite list_lookup_fmap, Hi.
  - unfold wp, trossen_apply_command_modes. rewrite bind_run. cbn. rewrite Es. cbn.
    apply (agrees_after _ _ _ _ _ Ha); [done..|]. by rewrite Es.
Qed.

Lemma safe_agrees n l v : agrees n l v → wp trossen_make_safe (λ rc v', agrees n (l ++ [VSafe rc]) v') v.
Proof.
  intros Ha. pose proof (ag_sized _ _ _ Ha) as (Hj & Hm & Ht). unfold trossen_make_safe. wp_step.
  destruct (p_arm_ v) as [s|] eqn:Es.
  - destruct (ag_connected _ _ _ Ha s Es) as (Hs & Hc & Hmo).
    eapply wp_mono; [by apply (wp_arm_call _ _ _ ((arm v) <| sa_modes := replicate (sa_joints (arm v)) IDLE |>)); [exists s|]|].
    intros b v' (-> & (s' & Es' & Hs') & E). wp_step. apply (agrees_after _ _ _ _ _ Ha); rewrite ?E; try done.
    + cbn. by rewrite length_replicate.
    + intros s2 Es2. rewrite Es' in Es2. injection Es2 as <-. by rewrite arm_after_snoc.
  - unfold wp, on_arm. rewrite Es. cbn. apply (agrees_after _ _ _ _ _ Ha); [done..|]. by rewrite Es.
Qed.

Lemma clock_agrees n l (v : V) t : agrees n l v → agrees n l (v <| arm := (arm v) <| sa_clock := t |> |>).
Proof. intros [H1 H2 H3 H4]. by split. Qed.

Lemma strict_hooks n : HooksKeep (recorded_in (agrees_when_right n)).
Proof.
  split.
  - intros address. apply keeps_agrees. intros l v Ha _. by apply connect_agrees.
  - apply keeps_agrees. intros l v Ha _. by apply disconnect_agrees.
  - intros states. apply keeps_agrees. intros l v Ha _. by apply read_agrees.
  - intros commands. apply keeps_agrees. intros l v Ha [rc Hc]. by apply write_agrees.
  - intros modes. apply keeps_agrees. intros l v Ha [rc Hc]. by apply modes_agrees.
  - apply keeps_agrees. intros l v Ha _. by apply safe_agrees.
  - apply keeps_unrecorded. intros l v Hv Hl. destruct v. by apply Hv.
  - intros ms. apply keeps_unrecorded. intros l v Hv Hl. by apply clock_agrees, Hv.
Qed.

(** [C12] The driver gives the controller no reason to throw: from a fresh driver over an
    arm of up to 256 joints that refuses every vector of the wrong size, every joint that
    does not exist and every command that does not fit its joint's mode, no sequence of
    calls, the watchdog's passes between them included, makes it refuse one. *)
Theorem arm_never_refuses address servos (v : V) cs : well_sized (arm v) → sa_refused (arm v) = false → p_arm_ v = None →
  let w := (solo (ctl_calls cs) (fresh_world address servos v)).2 in
  sa_refused (arm (behind (vendor w))) = false.
Proof.
  intros Hw Hr Hp w. assert (agrees_when_right (sa_joints (arm v)) [] v) as Hv.
  { intros _. split; [done|done|done|]. by rewrite Hp. }
  pose proof (calls_keep _ (strict_hooks (sa_joints (arm v))) cs (fresh_world address servos v) Hv) as Ha.
  apply (ag_refused _ _ _ (Ha (inv_record _ _ _ _ _ _ (ctl_calls_inv cs _ (fresh_inv address servos v))))).
Qed.

(** ** A two-joint arm *)

Definition two_joint_arm : StrictArm := mkStrictArm 2 [IDLE; IDLE] [Untouched; Untouched] 0 false.
Definition two_joint_driver : V := mkTrossen TROSSEN_MODEL_WXAI_V0 false None two_joint_arm.
Definition mixed_driver : V := mkTrossen TROSSEN_MODEL_WXAI_V0 false (Some (mkTrossenArmShim true ""))
  (mkStrictArm 2 [SHIM_POSITION; SHIM_EXTERNAL_EFFORT] [Untouched; Untouched] 0 false).

Lemma write_reaches_joints_witness :
  let commands := [mkJointCommand POSITION f1 f0 f0 true; mkJointCommand EXTERNAL_EFFORT f0 f0 f1 true] in
  let '(rc, v') := vendor_write_commands commands mixed_driver in
  rc = SUCCESS ∧ sa_targets (arm v') !! 0%nat = Some (AtPosition (to_f64 f1) (to_f64 f0)) ∧
  sa_targets (arm v') !! 1%nat = Some (WithEffort (to_f64 f1)).
Proof.
  intros commands.
  assert (∀ i c, commands !! i = Some c → jc_pending c = true → jc_mode c ≠ UNSET →
    sa_modes (arm mixed_driver) !! i = Some (shim_mode (jc_mode c))) as Hf.
  { intros [|[|i]] c E _ _; [by injection E as <-..|]. by destruct i. }
  pose proof (write_reaches_joints commands mixed_driver (ex_intro _ _ (conj eq_refl eq_refl))
    ltac:(unfold well_sized; cbn; lia) eq_refl Hf) as Hw.
  destruct (vendor_write_commands commands mixed_driver) as [rc v']. destruct Hw as (H1 & _ & _ & _ & H2).
  split_and!; [exact H1|exact (H2 0%nat _ Untouched eq_refl eq_refl)|exact (H2 1%nat _ Untouched eq_refl eq_refl)].
Defined.

(** Open, hold a position, change a joint's mode, stall, go on, close. *)
Definition busy_calls : list CtlCall :=
  [CallOpen; CallArm; CallSetMode 0 POSITION; CallSetMode 1 EXTERNAL_EFFORT; CallQueuePosition 0 f1 f0; CallGroupWrite;
   CallSetMode 0 EXTERNAL_EFFORT; CallQueueEffort 0 f1; CallGroupWrite] ++ replicate 12 WatchdogRound ++
  [CallQueueEffort 0 f1; CallGroupWrite; CallClose].

Lemma arm_never_refuses_witness :
  let w := (solo (ctl_calls busy_calls) (fresh_world "10.0.0.2" ∅ two_joint_driver)).2 in
  sa_refused (arm (behind (vendor w))) = false.
Proof.
  exact (arm_never_refuses "10.0.0.2" ∅ two_joint_driver busy_calls
    (conj (conj (le_S _ _ (le_n _)) (proj1 (Nat.leb_le 2 256) eq_refl)) (conj eq_refl eq_refl)) eq_refl eq_refl).
Defined.

(** The run of the witness does reach the joint. *)
Lemma busy_calls_run : let w := (solo (ctl_calls busy_calls) (fresh_world "10.0.0.2" ∅ two_joint_driver)).2 in
  sa_targets (arm (behind (vendor w))) = [WithEffort (to_f64 f1); Untouched].
Proof. by vm_compute. Qed.
