(* ===== verification/MotionGenerator.v ===== *)
(** * The reset motion of the FR3 (ResetMotionGenerator of pi_driver_fr3.cpp)

    A joint motion from where the arm is to the reset pose, all joints arriving
    together: velocity ramps up, stays and ramps down.  All arithmetic is in [double];
    [std::pow], whose rounding the language leaves open, is a parameter. *)

From S2P Require Import Prelude.
From S2P Require Import FloatSpec.
From S2P Require Import FR3Controller.

#[local] Open Scope Z_scope.

Definition dsqrt : f64 → f64 := SFsqrt prec64 emax64.

(** What libfranka tells the control callbacks ([franka::RobotState]). *)
Record RobotState := mkRobotState {
  rs_q : list f64;
  rs_dq : list f64;
  rs_q_d : list f64;
  rs_tau_J : list f64;
  rs_tau_J_d : list f64;
  rs_O_T_EE : list f64;
  rs_delbow_c : list f64;
}.

Record ResetMotionGenerator := mkResetMotionGenerator {
  goal_ : list f64;
  start_ : list f64;
  delta_ : list f64;
  max_velocity_sync_ : list f64;
  first_sync_ : list f64;
  second_sync_ : list f64;
  finish_sync_ : list f64;
  first_position_ : list f64;
  time_ : f64;
  settle_time_ : f64;
  generator_initialized_ : bool;
  max_velocity_ : list f64;
  max_start_acceleration_ : list f64;
  max_goal_acceleration_ : list f64;
}.
#[export] Instance eta_ResetMotionGenerator : Eta ResetMotionGenerator := λ r, mkResetMotionGenerator
  (goal_ r) (start_ r) (delta_ r) (max_velocity_sync_ r) (first_sync_ r) (second_sync_ r)
  (finish_sync_ r) (first_position_ r) (time_ r) (settle_time_ r) (generator_initialized_ r)
  (max_velocity_ r) (max_start_acceleration_ r) (max_goal_acceleration_ r).

Definition joints : list nat := seq 0 n_joints.
Definition no_joints : list f64 := replicate n_joints f0.

Definition new_ResetMotionGenerator (speed_factor : f64) (goal : list f64) : ResetMotionGenerator :=
  let scaled l := map (λ x, (x * speed_factor)%f64) l in
  mkResetMotionGenerator goal no_joints no_joints no_joints no_joints no_joints no_joints no_joints
    f0 f0 false
    (scaled (map dz [2; 2; 2; 2] ++ replicate 3 (lit64 5 2)))
    (scaled (replicate n_joints (dz 5))) (scaled (replicate n_joints (dz 5))).

Section generator.
Context (std_pow : f64 → f64 → f64) (g : ResetMotionGenerator).

Definition sign_of (x : f64) : f64 := dz (if x <?. f0 then -1 else if x >?. f0 then 1 else 0).

(** One joint at [time]: where it should be relative to its start, and whether it has arrived. *)
Definition desired_value (time : f64) (i : nat) : f64 * bool :=
  let delta := at_ (delta_ g) i in
  let first := at_ (first_sync_ g) i in
  let second := at_ (second_sync_ g) i in
  let finish := at_ (finish_sync_ g) i in
  let velocity := at_ (max_velocity_sync_ g) i in
  let sign := sign_of delta in
  let constant_duration := (second - first)%f64 in
  let goal_ramp_duration := (finish - second)%f64 in
  if SFabs delta <?. lit64 1 1000000 then (f0, true)
  else if time <?. first then
    ((- velocity * sign / std_pow first (dz 3) * (lit64 1 2 * time - first) * std_pow time (dz 3))%f64, false)
  else if time <?. second then
    ((at_ (first_position_ g) i + (time - first) * velocity * sign)%f64, false)
  else if time <?. finish then
    ((delta + lit64 1 2 *
        (dz 1 / std_pow goal_ramp_duration (dz 3) *
           (time - first - dz 2 * goal_ramp_duration - constant_duration) *
           std_pow (time - first - constant_duration) (dz 3) +
         (dz 2 * time - dz 2 * first - goal_ramp_duration - dz 2 * constant_duration)) *
        velocity * sign)%f64, false)
  else (delta, true).

(** All joints, and whether all have arrived. *)
Definition desired_values (time : f64) : list f64 * bool :=
  (map (λ i, fst (desired_value time i)) joints, forallb (λ i, snd (desired_value time i)) joints).

(** The time a joint takes on its own, zero where it does not move. *)
Definition own_finish (i : nat) : f64 :=
  let delta := at_ (delta_ g) i in
  let velocity := at_ (max_velocity_ g) i in
  let a_start := at_ (max_start_acceleration_ g) i in
  let a_goal := at_ (max_goal_acceleration_ g) i in
  if SFabs delta <=?. lit64 1 1000000 then f0
  else
    let threshold := (lit64 3 4 * std_pow velocity (dz 2) / a_start + lit64 3 4 * std_pow velocity (dz 2) / a_goal)%f64 in
    let reachable :=
      if SFabs delta <?. threshold
      then dsqrt (dz 4 / dz 3 * delta * sign_of delta * a_start * a_goal / (a_start + a_goal))%f64
      else velocity in
    let first := (lit64 3 2 * reachable / a_start)%f64 in
    let goal_ramp := (lit64 3 2 * reachable / a_goal)%f64 in
    (first / dz 2 + goal_ramp / dz 2 + SFabs delta / reachable)%f64.

Definition max_element (l : list f64) : f64 :=
  match l with [] => f0 | x :: l => foldl fmax_ x l end.

(** The slower motion that arrives at [finish]: velocity, the two inner switching times,
    the end and the position after the first ramp. *)
Definition synchronized (finish : f64) (i : nat) : f64 * f64 * f64 * f64 * f64 :=
  let delta := at_ (delta_ g) i in
  let a_start := at_ (max_start_acceleration_ g) i in
  let a_goal := at_ (max_goal_acceleration_ g) i in
  let sign := dz (if delta <?. f0 then -1 else 1) in
  let a := (lit64 3 4 * (a_goal + a_start))%f64 in
  let b := (- finish * a_goal * a_start)%f64 in
  let c := (SFabs delta * a_goal * a_start)%f64 in
  let velocity := ((- b - dsqrt (fmax_ f0 (b * b - dz 4 * a * c))) / (dz 2 * a))%f64 in
  let first := (lit64 3 2 * velocity / a_start)%f64 in
  let goal_ramp := (lit64 3 2 * velocity / a_goal)%f64 in
  let finish_sync := (first / dz 2 + goal_ramp / dz 2 + SFabs (delta / velocity))%f64 in
  (velocity, first, (finish_sync - goal_ramp)%f64, finish_sync, (velocity * sign * lit64 1 2 * first)%f64).

Definition synchronize : ResetMotionGenerator :=
  let finish := max_element (map own_finish joints) in
  let update (pick : f64 * f64 * f64 * f64 * f64 → f64) (l : list f64) :=
    map (λ i, if SFabs (at_ (delta_ g) i) <=?. lit64 1 1000000 then at_ l i else pick (synchronized finish i)) joints in
  g <| max_velocity_sync_ := update (λ '(v, _, _, _, _), v) (max_velocity_sync_ g) |>
    <| first_sync_ := update (λ '(_, f, _, _, _), f) (first_sync_ g) |>
    <| second_sync_ := update (λ '(_, _, s, _, _), s) (second_sync_ g) |>
    <| finish_sync_ := update (λ '(_, _, _, f, _), f) (finish_sync_ g) |>
    <| first_position_ := update (λ '(_, _, _, _, p), p) (first_position_ g) |>.
End generator.

(** The largest distance from the goal. *)
Definition goal_error (goal q : list f64) : f64 :=
  foldl (λ e i, fmax_ e (SFabs (at_ q i - at_ goal i)%f64)) f0 joints.

(** One control cycle: the positions to command and whether the motion is over. *)
Definition motion_cycle (std_pow : f64 → f64 → f64) (state : RobotState) (period : f64)
    : St ResetMotionGenerator (list f64 * bool) := λ g,
  if negb (generator_initialized_ g) then
    let g := g <| start_ := rs_q_d state |>
               <| delta_ := map (λ i, (at_ (goal_ g) i - at_ (rs_q_d state) i)%f64) joints |> in
    let g := synchronize std_pow g <| generator_initialized_ := true |> in
    ((start_ g, false), g)
  else
    let g := g <| time_ := (time_ g + period)%f64 |> in
    let '(delta_desired, trajectory_finished) := desired_values std_pow g (time_ g) in
    if trajectory_finished then
      let g := g <| settle_time_ := (settle_time_ g + period)%f64 |> in
      ((goal_ g, (goal_error (goal_ g) (rs_q state) <?. lit64 1 100) || (settle_time_ g >?. dz 4)), g)
    else
      ((map (λ i, (at_ (start_ g) i + at_ delta_desired i)%f64) joints, false), g).
