(* ===== verification/DriverFr3.v ===== *)
(** * The FR3 driver (pi_driver_fr3.cpp)

    A thread of the driver runs libfranka's control loop, which calls back once per
    cycle for the torques ([cycle]); the control node's thread leaves targets and hold
    requests for it.  Both are threads of [Threads]; the mutexes [state_mutex_] and
    [pending_controller_mutex_], which the control thread only tries to take, are flags
    of the state, [controller_lifecycle_mutex_] guards single sections.

    libfranka and [std::thread] are the class [Franka]; [None] is an exception.  The
    text of an exception is only logged and is left out. *)

From S2P Require Import Prelude.
From S2P Require Import FloatSpec.
From S2P Require Import Control.
From S2P Require Import Threads.
From S2P Require Import FR3Controller.
From S2P Require Import MotionGenerator.

#[local] Open Scope Z_scope.

Class Franka (R : Type) := {
  robot_connect : string → St R (option unit);                    (* franka::Robot(address, kIgnore) *)
  robot_release : St R unit;                                      (* ~Robot() *)
  robot_set_collision_behavior : list (list f64) → St R (option unit);
  robot_read_once : St R (option RobotState);
  robot_automatic_error_recovery : St R (option unit);
  robot_load_model : St R (option unit);
  robot_stop : St R (option unit);
  (* Robot::control(): the next call of the callback, or what ends the motion; and its answer *)
  robot_next_cycle : St R (option (RobotState * f64));
  robot_command_torques : list f64 → bool → St R unit;
  robot_command_positions : list f64 → bool → St R unit;
  model_coriolis : R → RobotState → list f64;
  model_flange_jacobian : R → RobotState → list f64;
  model_end_effector_jacobian : R → RobotState → list f64;
  create_thread : St R (option unit);                             (* std::thread(...) *)
  monotonic_ns : St R Z;
  std_pow : f64 → f64 → f64;
}.
#[export] Hint Mode Franka ! : typeclass_instances.

(** ** State *)

Record FR3DriverState := mkFR3DriverState {
  st_sequence : Z;
  st_monotonic_ns : Z;
  st_q : list f64;
  st_dq : list f64;
  st_torque : list f64;
  st_commanded_q : list f64;
  st_valid : bool;
  st_faulted : bool;
}.
#[export] Instance eta_FR3DriverState : Eta FR3DriverState := λ r, mkFR3DriverState
  (st_sequence r) (st_monotonic_ns r) (st_q r) (st_dq r) (st_torque r) (st_commanded_q r) (st_valid r) (st_faulted r).

Record DriverFR3 := mkDriverFR3 {
  fr3_address : string;
  robot : bool;                         (* impl_->robot != nullptr *)
  state_mutex_ : bool;                  (* held *)
  pending_controller_mutex_ : bool;     (* held *)
  state_ : FR3DriverState;
  fr3_limits_ : FR3ControllerLimits;
  controller_ : FR3Controller;
  pending_target_ : list f64;
  reset_pose_ : list f64;
  target_pending_ : bool;
  hold_pending_ : bool;
  thread_joinable : bool;               (* thread_.joinable() *)
  thread_begun : bool;                  (* run_controller has been entered *)
  thread_alive : bool;                  (* run_controller has not returned *)
  running_ : bool;
  stop_requested_ : bool;
  controller_started_ : bool;
  controller_exited_ : bool;
}.
#[export] Instance eta_DriverFR3 : Eta DriverFR3 := λ r, mkDriverFR3
  (fr3_address r) (robot r) (state_mutex_ r) (pending_controller_mutex_ r) (state_ r) (fr3_limits_ r)
  (controller_ r) (pending_target_ r) (reset_pose_ r) (target_pending_ r) (hold_pending_ r)
  (thread_joinable r) (thread_begun r) (thread_alive r) (running_ r) (stop_requested_ r)
  (controller_started_ r) (controller_exited_ r).

Definition new_DriverFR3 (address : string) (reset_pose : list f64) : DriverFR3 := mkDriverFR3
  address false false false
  (mkFR3DriverState 0 0 no_joints no_joints no_joints no_joints false false)
  default_limits (new_FR3Controller default_gains default_limits) no_joints reset_pose false false
  false false false false false false true.

Record Fr3World (R : Type) := mkFr3World { fr3 : DriverFR3; franka : R }.
Arguments mkFr3World {R}.
Arguments fr3 {R}.
Arguments franka {R}.
#[export] Instance eta_Fr3World R : Eta (Fr3World R) := λ r, mkFr3World (fr3 r) (franka r).

(** Go on unless [m] throws. *)
Definition or_throw {S A B} (m : Thread S (option A)) (k : A → Thread S (option B)) : Thread S (option B) :=
  r ← m; match r with Some a => k a | None => Ret None end.

Section driver.
Context {R : Type} `{Franka R}.
Local Abbreviation W := (Fr3World R).

Definition on_franka {A} (m : St R A) : Thread W A := atomically (lift_into franka (λ r w, w <| franka := r |>) m).
Definition on_fr3 (f : DriverFR3 → DriverFR3) : Thread W unit := atomically (modify (λ w, w <| fr3 := f (fr3 w) |>)).
Definition look {A} (f : DriverFR3 → A) : Thread W A := atomically (gets (λ w, f (fr3 w))).

(** *** The two mutexes: [std::lock_guard], and [std::unique_lock] with [std::try_to_lock] *)

Definition set_state_mutex (b : bool) (w : W) : W := w <| fr3 := (fr3 w) <| state_mutex_ := b |> |>.
Definition set_pending_mutex (b : bool) (w : W) : W := w <| fr3 := (fr3 w) <| pending_controller_mutex_ := b |> |>.

Definition with_state_mutex {A} : Thread W A → Thread W A := holding (λ w, state_mutex_ (fr3 w)) set_state_mutex.
Definition with_pending_mutex {A} : Thread W A → Thread W A := holding (λ w, pending_controller_mutex_ (fr3 w)) set_pending_mutex.

Definition trying (held : W → bool) (set : bool → W → W) (t : Thread W unit) : Thread W unit :=
  owns_lock ← atomically (λ w, if held w then (false, w) else (true, set true w));
  if negb owns_lock then Ret tt else t;; atomically (modify (set false)).

Definition state : Thread W FR3DriverState := with_state_mutex (look state_).

(** ** Targets *)

Definition target_in_limits (l : FR3ControllerLimits) (target : list f64) : bool :=
  forallb (λ i, isfinite (at_ target i) && negb (at_ target i <?. at_ (joint_lower l) i) &&
                negb (at_ target i >?. at_ (joint_upper l) i)) joints.

Definition fr3_set_target (target : list f64) : Thread W ReturnCode :=
  limits ← look fr3_limits_;
  if negb (target_in_limits limits target) then Ret INVALID_PARAM
  else
    with_pending_mutex
      (on_fr3 (λ d, d <| pending_target_ := target |> <| target_pending_ := true |> <| hold_pending_ := false |>));;
    Ret SUCCESS.

Definition fr3_hold : Thread W ReturnCode :=
  s ← state;
  if negb (st_valid s) then Ret NOT_INITIALIZED
  else
    with_pending_mutex (on_fr3 (λ d, d <| hold_pending_ := true |> <| target_pending_ := false |>));;
    Ret SUCCESS.

(** ** The control thread *)

Definition apply_pending_command : Thread W unit :=
  trying (λ w, pending_controller_mutex_ (fr3 w)) set_pending_mutex
    (d ← look (λ d, d);
     if hold_pending_ d then
       measured ← with_state_mutex (look (λ d, st_q (state_ d)));
       on_fr3 (λ d, d <| controller_ := hold measured (controller_ d) |> <| hold_pending_ := false |>)
     else if target_pending_ d then
       on_fr3 (λ d', d' <| controller_ := set_target (pending_target_ d) (controller_ d') |> <| target_pending_ := false |>)
     else Ret tt).

Definition controller_input (r : R) (robot_state : RobotState) : FR3ControllerInput := mkInput
  (rs_q robot_state) (rs_dq robot_state) (model_coriolis r robot_state)
  (model_flange_jacobian r robot_state) (model_end_effector_jacobian r robot_state)
  (map (at_ (rs_O_T_EE robot_state)) [12; 13; 14]%nat) (at_ (rs_delbow_c robot_state) 0).

Definition publish_state (robot_state : RobotState) : Thread W unit :=
  trying (λ w, state_mutex_ (fr3 w)) set_state_mutex
    (now ← on_franka monotonic_ns;
     on_fr3 (λ d, d <| state_ := mkFR3DriverState (u64 (st_sequence (state_ d) + 1)) now
       (rs_q robot_state) (rs_dq robot_state) (rs_tau_J robot_state) (commanded_position (controller_ d)) true false |>)).

(** The callback: the torques, and whether they end the motion. *)
Definition cycle (robot_state : RobotState) : Thread W (option (list f64 * bool)) :=
  on_fr3 (λ d, d <| controller_started_ := true |>);;
  stop ← look stop_requested_;
  if stop : bool then Ret (Some (rs_tau_J_d robot_state, true))
  else
    input ← atomically (gets (λ w, controller_input (franka w) robot_state));
    apply_pending_command;;
    torque ← atomically (lift_into (λ w, controller_ (fr3 w)) (λ c w, w <| fr3 := (fr3 w) <| controller_ := c |> |>) (compute input));
    match torque with
    | None => Ret None
    | Some torque => publish_state robot_state;; stop ← look stop_requested_; Ret (Some (torque, stop))
    end.

(** [Robot::control]: cycles until the callback, which has a state [G] of its own, ends the
    motion or something throws ([Some None]).  [None]: still going on after [fuel] cycles. *)
Fixpoint control {G} (fuel : nat) (callback : RobotState → f64 → G → Thread W (option (list f64 * bool) * G))
    (command : list f64 → bool → St R unit) (g : G) : Thread W (option (option unit)) :=
  match fuel with
  | O => Ret None
  | S fuel =>
      next ← on_franka robot_next_cycle;
      match next with
      | None => Ret (Some None)
      | Some (robot_state, period) =>
          '(answer, g) ← callback robot_state period g;
          match answer with
          | None => Ret (Some None)
          | Some (values, finished) =>
              on_franka (command values finished);;
              if finished : bool then Ret (Some (Some tt)) else control fuel callback command g
          end
      end
  end.

(** What the thread does when [control] is over; [thrown] if by an exception. *)
Definition conclude_controller (thrown : bool) : Thread W unit :=
  (if thrown
   then with_state_mutex (on_fr3 (λ d, if stop_requested_ d then d else d <| state_ := (state_ d) <| st_faulted := true |> |>))
   else Ret tt);;
  on_fr3 (λ d, d <| running_ := false |>);;
  on_fr3 (λ d, d <| controller_exited_ := true |>);;
  on_fr3 (λ d, d <| thread_alive := false |>).

Definition run_controller (fuel : nat) : Thread W unit :=
  model ← on_franka robot_load_model;
  match model with
  | None => conclude_controller true
  | Some _ =>
      stop ← look stop_requested_;
      if stop : bool then on_fr3 (λ d, d <| running_ := false |>);; conclude_controller false
      else
        r ← control fuel (λ robot_state _ _, answer ← cycle robot_state; Ret (answer, tt)) robot_command_torques tt;
        match r with
        | None => Ret tt
        | Some o => conclude_controller (match o with None => true | Some _ => false end)
        end
  end.

(** The control thread of the process: every time [thread_] is started, a run. *)
Fixpoint control_thread (runs : nat) (fuel : nat) : Thread W unit :=
  match runs with
  | O => Ret tt
  | S runs =>
      Act (λ w : W, thread_alive (fr3 w) && negb (thread_begun (fr3 w)))
          (λ w : W, w <| fr3 := (fr3 w) <| thread_begun := true |> |>)
          (λ _, run_controller fuel;; control_thread runs fuel)
  end.

(** ** Starting and stopping *)

Definition start_controller : Thread W (option ReturnCode) :=
  on_fr3 (λ d, d <| controller_started_ := false |> <| controller_exited_ := false |>);;
  on_fr3 (λ d, d <| stop_requested_ := false |>);;
  on_fr3 (λ d, d <| running_ := true |>);;
  created ← on_franka create_thread;
  match created with
  | None =>
      on_fr3 (λ d, d <| running_ := false |>);;
      on_fr3 (λ d, d <| controller_exited_ := true |>);;
      Ret None
  | Some _ =>
      on_fr3 (λ d, d <| thread_joinable := true |> <| thread_begun := false |> <| thread_alive := true |>);;
      (* wait for the first cycle or the end *)
      started ← (Act (λ w, controller_started_ (fr3 w) || controller_exited_ (fr3 w)) (λ w, w)
                   (λ w, Ret (controller_started_ (fr3 w))) : Thread W bool);
      joinable ← look thread_joinable;
      (if negb started && joinable
       then Act (λ w : W, negb (thread_alive (fr3 w))) (λ w : W, w <| fr3 := (fr3 w) <| thread_joinable := false |> |>) (λ _, Ret tt)
       else Ret tt);;
      Ret (Some (if started : bool then SUCCESS else FAIL))
  end.

Definition reset_robot : Thread W unit :=
  connected ← look robot;
  if connected : bool then on_franka robot_release;; on_fr3 (λ d, d <| robot := false |>) else Ret tt.

Definition close : Thread W ReturnCode :=
  on_fr3 (λ d, d <| running_ := false |>);;
  on_fr3 (λ d, d <| stop_requested_ := true |>);;
  d ← look (λ d, d);
  (if robot d && thread_joinable d then on_franka robot_stop;; Ret tt else Ret tt);;
  (if thread_joinable d
   then Act (λ w : W, negb (thread_alive (fr3 w))) (λ w : W, w <| fr3 := (fr3 w) <| thread_joinable := false |> |>) (λ _, Ret tt)
   else Ret tt);;
  reset_robot;;
  Ret SUCCESS.

(** The new robot is there before the old one goes. *)
Definition connect : Thread W (option unit) :=
  address ← look fr3_address;
  or_throw (on_franka (robot_connect address))
    (λ _, old ← look robot;
       (if old : bool then on_franka robot_release else Ret tt);;
       on_fr3 (λ d, d <| robot := true |>);; Ret (Some tt)).

Definition collision_behavior : list (list f64) :=
  replicate 4 (replicate 7 (dz 40)) ++ replicate 4 (replicate 6 (dz 40)).

Definition initialize_controller_state : Thread W (option unit) :=
  or_throw (on_franka robot_read_once) (λ initial,
    with_pending_mutex
      (on_fr3 (λ d, d <| controller_ := hold (rs_q initial) (controller_ d) |>
                      <| target_pending_ := false |> <| hold_pending_ := false |>));;
    with_state_mutex
      (on_fr3 (λ d, d <| state_ := (state_ d) <| st_q := rs_q initial |> <| st_dq := rs_dq initial |>
        <| st_torque := rs_tau_J initial |> <| st_commanded_q := rs_q initial |>
        <| st_valid := true |> <| st_faulted := false |> |>));;
    Ret (Some tt)).

(** The controller of a robot that is where it should be. *)
Definition restart_controller : Thread W (option ReturnCode) :=
  or_throw initialize_controller_state (λ _,
  or_throw start_controller (λ result,
    (if negb (ok result) then reset_robot else Ret tt);;
    Ret (Some result))).

Definition open : Thread W ReturnCode :=
  r ← or_throw connect (λ _,
      or_throw (on_franka (robot_set_collision_behavior collision_behavior)) (λ _, restart_controller));
  Ret (default FAIL r).

(** [move_to_ready]; [None]: the arm is still moving after [fuel] cycles. *)
Definition move_to_ready (fuel : nat) : Thread W (option ReturnCode) :=
  close;;
  r ← or_throw connect (λ _,
      or_throw (on_franka robot_automatic_error_recovery) (λ _,
      on_franka (robot_set_collision_behavior collision_behavior)));
  match r with
  | None => Ret (Some HARDWARE_FAULT)
  | Some _ =>
      pose ← look reset_pose_;
      motion ← control fuel (λ robot_state period g,
          let '(answer, g) := motion_cycle (std_pow (R := R)) robot_state period g in Ret (Some answer, g))
        robot_command_positions (new_ResetMotionGenerator (lit64 2 10) pose);
      match motion with
      | None => Ret None
      | Some None => Ret (Some HARDWARE_FAULT)
      | Some (Some _) =>
          result ← restart_controller;
          Ret (Some (match result with Some SUCCESS => SUCCESS | _ => HARDWARE_FAULT end))
      end
  end.
End driver.
