(* ===== verification/MotionFacts.v ===== *)
(** * The reset motion ends ([MotionGenerator])

    Control cycles are at least one millisecond long.  Counting them in 1024ths of a
    second, which doubles represent exactly, bounds the generator's clocks from below
    whatever is rounded on the way. *)

From S2P Require Import Prelude.
From S2P Require Import FloatSpec.
From S2P Require Import Rounding.
From S2P Require Import SumBounds.
From S2P Require Import Monotone.
From S2P Require Import FR3Controller.
From S2P Require Import MotionGenerator.

#[local] Open Scope Z_scope.

Local Abbreviation valid64 := (valid_binary prec64 emax64).
Local Abbreviation grid64 := (grid prec64 emax64).

(** [n / 1024] as a double. *)
Definition ticks (n : Z) : f64 :=
  match n * 2 ^ (53 - Zdigits2 n) with Zpos m => S754_finite false m (Zdigits2 n - 63) | _ => f0 end.

Lemma ticks_spec n : 0 ≤ n < 2 ^ 53 → isfinite (ticks n) = true ∧ valid64 (ticks n) = true ∧ grid64 (ticks n) = n * 2 ^ 1064.
Proof.
  intros Hn. destruct (decide (n = 0)) as [->|]; [by vm_compute|].
  pose proof (Zdigits2_bounds n ltac:(lia)) as Hb. pose proof (Zdigits2_pos n ltac:(lia)) as Hp.
  pose proof (Zdigits2_le_pow n 53 ltac:(lia) ltac:(lia) ltac:(lia)) as Hd. unfold ticks. set (d := Zdigits2 n) in *.
  assert (0 < 2 ^ (53 - d)) as Hpow by (apply Z.pow_pos_nonneg; lia).
  destruct (n * 2 ^ (53 - d)) as [|m|m] eqn:Em; [nia| |nia]. split; [done|].
  assert (Zdigits2 (Zpos m) = 53) as Hm.
  { apply Zdigits2_unique; [lia|]. rewrite <- Em. replace (2 ^ (53 - 1)) with (2 ^ (d - 1) * 2 ^ (53 - d)) by (rewrite <- Z.pow_add_r by lia; f_equal; lia).
    replace (2 ^ 53) with (2 ^ d * 2 ^ (53 - d)) by (rewrite <- Z.pow_add_r by lia; f_equal; lia).
    split; [apply Z.mul_le_mono_nonneg_r|apply Z.mul_lt_mono_pos_r]; lia. }
  split.
  - apply bounded_spec; [done..|]. rewrite Hm. unfold SpecFloat.fexp, SpecFloat.emin, prec64, emax64. lia.
  - cbn [grid cond_Zopp]. rewrite <- Em. change (emin prec64 emax64) with (-1074). rewrite <- Z.mul_assoc, <- Z.pow_add_r by lia.
    f_equal. f_equal. lia.
Qed.

(** A period of at least a millisecond. *)
Definition period_ok (p : f64) : Prop := valid64 p = true ∧ isfinite p = true ∧ lit64 1 1000 <=?. p = true.

(** At least [n / 1024] seconds, perhaps overflowed. *)
Definition at_least (n : Z) (x : f64) : Prop := valid64 x = true ∧ ticks n <=?. x = true.

Lemma ticks_mono n m : 0 ≤ n ≤ m → m < 2 ^ 53 → ticks n <=?. ticks m = true.
Proof.
  intros Hn Hm. destruct (ticks_spec n) as (F1 & V1 & G1); [lia|]. destruct (ticks_spec m) as (F2 & V2 & G2); [lia|].
  apply (grid_leb prec64 emax64); [done..|]. rewrite G1, G2. nia.
Qed.

Lemma period_tick p : period_ok p → 2 ^ 1064 ≤ grid64 p.
Proof.
  intros (V & F & Hle). destruct (ticks_spec 1) as (F1 & V1 & G1); [lia|].
  rewrite Z.mul_1_l in G1. rewrite <- G1. apply grid_le; [done..|]. eapply SFleb_trans; [|exact Hle]. by vm_compute.
Qed.

Lemma at_least_finite n x : 0 ≤ n < 2 ^ 53 → at_least n x → isfinite x = true ∨ x = S754_infinity false.
Proof.
  intros Hn [V Hle]. destruct (ticks_spec n Hn) as (F & Vn & G). destruct x as [|[]| |]; try (by left); [|by right|].
  - exfalso. by destruct (ticks n) as [|[]| |[]].
  - exfalso. by destruct (ticks n) as [|[]| |[]].
Qed.

Lemma tick_on n x p : 0 ≤ n → n + 1 < 2 ^ 53 → at_least n x → period_ok p → at_least (n + 1) (x + p)%f64.
Proof.
  intros H0 Hn Hx Hp. pose proof (period_tick p Hp) as Hg. destruct Hp as (Vp & Fp & Hle).
  destruct (ticks_spec n) as (F & V & G); [lia|]. destruct (ticks_spec (n + 1)) as (F' & V' & G'); [lia|].
  destruct (at_least_finite n x) as [Fx| ->]; [lia|done| |].
  - destruct Hx as [Vx Hx]. split; [by apply (SFadd_valid prec64 emax64)|].
    apply (SFadd_side prec64 emax64); [done..|]. rewrite G'.
    pose proof (grid_le prec64 emax64 ltac:(done) ltac:(done) _ _ F Fx V Vx Hx) as Hgx. rewrite G in Hgx. lia.
  - assert ((S754_infinity false + p)%f64 = S754_infinity false) as ->.
    { clear -Fp. by destruct p. }
    split; [done|]. by destruct (ticks (n + 1)) as [|[]| |[]].
Qed.

Lemma at_least_mono n m x : 0 ≤ n ≤ m → m < 2 ^ 53 → at_least m x → at_least n x.
Proof. intros Hn Hm [V Hle]. split; [done|]. eapply SFleb_trans; [by apply ticks_mono|done]. Qed.

(** Not above [b]: [false] for a NaN too, as the code compares. *)
Lemma not_before b x time : b <=?. time = true → b <?. x = false → time <?. x = false.
Proof.
  intros Hb Hx. destruct (is_nan x) eqn:En; [by destruct x; rewrite ?SFltb_nan_r|]. destruct (SFleb_not_nan _ _ Hb) as [Nb Nt].
  rewrite SFltb_nleb by done. apply negb_false_iff. eapply SFleb_trans; [|exact Hb]. by apply SFltb_false_leb.
Qed.

Lemma above a b x : a <?. b = true → b <=?. x = true → a <?. x = true.
Proof.
  intros Ha Hb. destruct (SFleb_not_nan _ _ Hb) as [Nb Nx]. assert (is_nan a = false) as Na by (by destruct a, b).
  apply SFltb_key in Ha; [|done..]. apply SFleb_key in Hb; [|done..]. apply SFltb_key; [done..|]. unfold key_le in *. lia.
Qed.

(** ** The motion *)

Section motion.
Context (std_pow : f64 → f64 → f64).

Fixpoint run_motion (inputs : list (RobotState * f64)) (g : ResetMotionGenerator) : list (list f64 * bool) :=
  match inputs with
  | [] => []
  | (state, period) :: inputs =>
      let '(out, g) := motion_cycle std_pow state period g in out :: run_motion inputs g
  end.

(** The motion of every joint is over after a minute. *)
Definition within_a_minute (g : ResetMotionGenerator) : Prop :=
  ∀ i, (i < n_joints)%nat → Forall (λ x, dz 60 <?. x = false) [at_ (first_sync_ g) i; at_ (second_sync_ g) i; at_ (finish_sync_ g) i].

Definition minute_check (g : ResetMotionGenerator) : bool :=
  forallb (λ i, forallb (λ x, negb (dz 60 <?. x)) [at_ (first_sync_ g) i; at_ (second_sync_ g) i; at_ (finish_sync_ g) i]) joints.

Lemma minute_checked g : minute_check g = true → within_a_minute g.
Proof.
  intros Hg i Hi. unfold minute_check in Hg. rewrite forallb_forall in Hg. specialize (Hg i (proj2 (in_seq _ _ _) (conj (Nat.le_0_l i) Hi))).
  rewrite forallb_forall in Hg. apply List.Forall_forall. intros x Hx. by apply negb_true_iff, Hg.
Qed.

Lemma arrived_after g time : within_a_minute g → dz 60 <=?. time = true → (desired_values std_pow g time).2 = true.
Proof.
  intros Hg Ht. cbn [desired_values snd]. apply forallb_forall. intros i Hi%in_seq.
  pose proof (Hg i ltac:(unfold n_joints in *; lia)) as Hall. rewrite !Forall_cons in Hall. destruct Hall as (H1 & H2 & H3 & _).
  unfold desired_value. destruct (SFabs _ <?. _); [done|].
  by rewrite (not_before _ _ _ Ht H1), (not_before _ _ _ Ht H2), (not_before _ _ _ Ht H3).
Qed.

(** What a cycle after the first does to the clocks, and what it answers. *)
Lemma motion_cycle_clocks state period g : generator_initialized_ g = true →
  let '((positions, finished), g') := motion_cycle std_pow state period g in
  generator_initialized_ g' = true ∧ goal_ g' = goal_ g ∧ first_sync_ g' = first_sync_ g ∧ second_sync_ g' = second_sync_ g ∧
  finish_sync_ g' = finish_sync_ g ∧ time_ g' = (time_ g + period)%f64 ∧
  (finished = true → positions = goal_ g) ∧
  if (desired_values std_pow g (time_ g')).2
  then positions = goal_ g ∧ settle_time_ g' = (settle_time_ g + period)%f64 ∧ (settle_time_ g' >?. dz 4 = true → finished = true)
  else settle_time_ g' = settle_time_ g.
Proof.
  intros Hg. unfold motion_cycle. rewrite Hg. cbn [negb].
  change (desired_values std_pow (g <| time_ := (time_ g + period)%f64 |>)) with (desired_values std_pow g).
  change (time_ (g <| time_ := (time_ g + period)%f64 |>)) with (time_ g + period)%f64.
  destruct (desired_values std_pow g (time_ g + period)%f64) as [desired []] eqn:Ed; cbn -[desired_values].
  - rewrite Ed. cbn [snd]. split_and!; [done..|]. intros ->. by rewrite orb_true_r.
  - rewrite Ed. by split_and!.
Qed.

Lemma motion_finishes inputs : ∀ n m g, generator_initialized_ g = true → within_a_minute g →
  Forall (λ i, period_ok i.2) inputs → 0 ≤ n → 0 ≤ m ≤ 4096 → at_least n (time_ g) → at_least m (settle_time_ g) →
  n + Z.of_nat (length inputs) < 2 ^ 53 → Z.max 0 (61440 - n) + (4097 - m) ≤ Z.of_nat (length inputs) →
  ∃ k, run_motion inputs g !! k = Some (goal_ g, true).
Proof.
  induction inputs as [|[s p] inputs IH]; intros n m g Hi Hg Hp Hn Hm Ht Hs Hlen Hc; cbn [length] in *; [lia|].
  apply Forall_cons in Hp as [Hp Hps]. pose proof (motion_cycle_clocks s p g Hi) as Hcycle. cbn [run_motion].
  destruct (motion_cycle std_pow s p g) as [[positions finished] g'].
  destruct Hcycle as (C1 & C2 & C3 & C4 & C5 & C6 & C7 & C8). cbn [snd] in Hp.
  pose proof (tick_on n _ p Hn ltac:(lia) Ht Hp) as Ht'. rewrite <- C6 in Ht'.
  destruct finished; [exists 0%nat; by rewrite (C7 eq_refl)|].
  assert (within_a_minute g') as Hg' by (intros i Hlt; rewrite C3, C4, C5; by apply Hg).
  rewrite <- C2. destruct ((desired_values std_pow g (time_ g')).2) eqn:Ea.
  - destruct C8 as (_ & C9 & C10). pose proof (tick_on m _ p ltac:(lia) ltac:(lia) Hs Hp) as Hs'. rewrite <- C9 in Hs'.
    assert (m + 1 ≤ 4096) as Hm'.
    { apply Z.nlt_ge. intros Hlt. assert (m + 1 = 4097) as Em by lia. rewrite Em in Hs'. destruct Hs' as [_ Hs'].
      assert (settle_time_ g' >?. dz 4 = true) as E by (eapply above; [|exact Hs']; by vm_compute). by apply C10 in E. }
    destruct (IH (n + 1) (m + 1) g') as [k Hk]; [done..|lia|lia|done|done|lia|lia|]. by exists (S k).
  - assert (n + 1 < 61440) as Hn'.
    { apply Z.nle_gt. intros Hge. rewrite (arrived_after g) in Ea; [done|done|]. destruct (at_least_mono 61440 (n + 1) (time_ g') ltac:(lia) ltac:(lia) Ht') as [_ Hle].
      eapply SFleb_trans; [|exact Hle]. by vm_compute. }
    destruct (IH (n + 1) m g') as [k Hk]; [done..|lia|lia|done|by rewrite C8|lia|lia|]. by exists (S k).
Qed.

(** [C25] The reset motion ends: if no joint's profile is longer than a minute and no
    cycle shorter than a millisecond, the generator ends the motion within 65537 cycles
    after the first, which commands the pose the arm is commanded already, and what it
    commands last is the reset pose. *)
Theorem reset_motion_ends speed_factor goal s p inputs :
  let '((first, over), g) := motion_cycle std_pow s p (new_ResetMotionGenerator speed_factor goal) in
  first = rs_q_d s ∧ over = false ∧
  (within_a_minute g → Forall (λ i, period_ok i.2) inputs → 65537 ≤ Z.of_nat (length inputs) < 2 ^ 52 →
   ∃ k, run_motion inputs g !! k = Some (goal, true)).
Proof.
  destruct (motion_cycle _ s p _) as [[first over] g] eqn:E. cbn in E. injection E as <- <- Eg.
  split_and!; [done|done|]. intros Hg Hp Hlen.
  destruct (motion_finishes inputs 0 0 g) as [k Hk]; [by subst g|done|done|lia|lia|by subst g|by subst g|lia|lia|].
  exists k. by subst g.
Qed.
End motion.

(** *** A move of up to a quarter turn *)

Definition cube_or_square (x n : f64) : f64 := if n =?. dz 3 then (x * x * x)%f64 else (x * x)%f64.

Definition pose_a : list f64 := dc <$> [0; 0; 0; -100; 0; 200; 0].
Definition pose_b : list f64 := dc <$> [150; -30; 40; -200; 10; 200; -150].
Definition resting_at (q : list f64) : RobotState :=
  mkRobotState q no_joints q no_joints no_joints (replicate 16 f0) [f0; f0].

Definition many_cycles : list (RobotState * f64) := replicate (Z.to_nat 70000) (resting_at pose_a, lit64 1 1000).

Lemma reset_motion_ends_witness :
  let '((_, _), g) := motion_cycle cube_or_square (resting_at pose_a) (lit64 1 1000) (new_ResetMotionGenerator (lit64 2 10) pose_b) in
  ∃ k, run_motion cube_or_square many_cycles g !! k = Some (pose_b, true).
Proof.
  pose proof (reset_motion_ends cube_or_square (lit64 2 10) pose_b (resting_at pose_a) (lit64 1 1000) many_cycles) as Hr.
  destruct (motion_cycle _ _ _ _) as [[first over] g] eqn:E. destruct Hr as (_ & _ & Hr).
  assert (g = (motion_cycle cube_or_square (resting_at pose_a) (lit64 1 1000) (new_ResetMotionGenerator (lit64 2 10) pose_b)).2) as -> by by rewrite E.
  apply Hr.
  - apply minute_checked. vm_compute. reflexivity.
  - apply Forall_forall. intros x Hx. apply elem_of_replicate_inv in Hx as ->. split_and!; vm_compute; reflexivity.
  - unfold many_cycles. rewrite length_replicate, Z2Nat.id; lia.
Defined.
