(* ===== verification/Fr3Facts.v ===== *)
(** * Theorems on the FR3 driver ([DriverFr3], [MotionGenerator])

    [Traced] keeps a trace of what libfranka reported and was commanded.  In every
    interleaving of the driver's callers with the control thread, torques are within the
    limits and an active target is one that was checked.  Of several requests the newest
    accepted one is what the control law gets. *)

From S2P Require Import Prelude.
From S2P Require Import FloatSpec.
From S2P Require Import Control.
From S2P Require Import Threads.
From S2P Require Import FR3Controller.
From S2P Require Import MotionGenerator.
From S2P Require Import DriverFr3.

#[local] Open Scope Z_scope.

(** ** The trace *)

Inductive Fr3Event := Cycled (robot_state : RobotState) | Commanded (torques : list f64) (finished : bool).

Record Traced (R : Type) := mkTraced { inner : R; trace : list Fr3Event }.
Arguments mkTraced {R}.
Arguments inner {R}.
Arguments trace {R}.

Definition quietly {R A} (m : St R A) : St (Traced R) A := λ t, let '(a, r) := m (inner t) in (a, mkTraced r (trace t)).
Definition tracing {R A} (m : St R A) (event : A → list Fr3Event) : St (Traced R) A := λ t,
  let '(a, r) := m (inner t) in (a, mkTraced r (trace t ++ event a)).

#[export] Instance traced_franka {R} `{Franka R} : Franka (Traced R) := {|
  robot_connect := λ address, quietly (robot_connect address);
  robot_release := quietly robot_release;
  robot_set_collision_behavior := λ limits, quietly (robot_set_collision_behavior limits);
  robot_read_once := quietly robot_read_once;
  robot_automatic_error_recovery := quietly robot_automatic_error_recovery;
  robot_load_model := quietly robot_load_model;
  robot_stop := quietly robot_stop;
  robot_next_cycle := tracing robot_next_cycle (λ next, match next with Some (s, _) => [Cycled s] | None => [] end);
  robot_command_torques := λ torques finished, tracing (robot_command_torques torques finished) (λ _, [Commanded torques finished]);
  robot_command_positions := λ positions finished, quietly (robot_command_positions positions finished);
  model_coriolis := λ t, model_coriolis (inner t);
  model_flange_jacobian := λ t, model_flange_jacobian (inner t);
  model_end_effector_jacobian := λ t, model_end_effector_jacobian (inner t);
  create_thread := quietly create_thread;
  monotonic_ns := quietly monotonic_ns;
  std_pow := std_pow (R := R);
|}.

(** libfranka's vectors of joint values have seven entries. *)
Class FrankaLaws (R : Type) `{Franka R} := {
  coriolis_length : ∀ (r : R) s, length (model_coriolis r s) = n_joints;
}.

(** ** What is right about a trace *)

(** No torque above the limit of its joint. *)
Definition within_torque_limits (torques : list f64) : Prop := ∀ j, (j < n_joints)%nat →
  let limit := at_ (limit_torque default_limits) j in
  is_nan (at_ torques j) = true ∨ in_range (SFopp limit) limit (at_ torques j).

(** A last command may repeat what the robot says it is commanded already. *)
Definition command_right (l : list Fr3Event) (torques : list f64) (finished : bool) : Prop :=
  within_torque_limits torques ∨ finished = true ∧ ∃ s, Cycled s ∈ l ∧ torques = rs_tau_J_d s.

Definition trace_right (l : list Fr3Event) : Prop := ∀ torques finished, Commanded torques finished ∈ l → command_right l torques finished.

Definition checked_target (target : list f64) : Prop := target_in_limits default_limits target = true.

Record fr3_inv {R} (w : Fr3World (Traced R)) : Prop := {
  fi_driver_limits : fr3_limits_ (fr3 w) = default_limits;
  fi_limits : limits_ (controller_ (fr3 w)) = default_limits;
  fi_pending : target_pending_ (fr3 w) = true → checked_target (pending_target_ (fr3 w));
  fi_active : position_command_active_ (controller_ (fr3 w)) = true → checked_target (target_position_ (controller_ (fr3 w)));
  fi_trace : trace_right (trace (franka w));
}.

Definition trace_grows {R} (w w' : Fr3World (Traced R)) : Prop := trace (franka w) `prefix_of` trace (franka w').
#[export] Instance trace_grows_preorder R : PreOrder (@trace_grows R).
Proof. split; [intros w; unfold trace_grows; reflexivity|]. intros w1 w2 w3. unfold trace_grows. apply transitivity. Qed.

Lemma same_trace {R} (w w' : Fr3World (Traced R)) : trace (franka w') = trace (franka w) → trace_grows w w'.
Proof. unfold trace_grows. by intros ->. Qed.
#[local] Hint Extern 0 (trace_grows _ _) => apply same_trace; reflexivity : core.

Lemma command_right_grows l l' torques finished : l `prefix_of` l' → command_right l torques finished → command_right l' torques finished.
Proof.
  intros [k ->] [H|(H & s & Hs & E)]; [by left|]. right. split; [done|]. exists s. split; [|done]. apply elem_of_app. by left.
Qed.

Lemma trace_right_snoc l e : trace_right l → match e with Commanded torques finished => command_right l torques finished | Cycled _ => True end →
  trace_right (l ++ [e]).
Proof.
  intros Hl He torques finished [H|H%list_elem_of_singleton]%elem_of_app.
  - apply (command_right_grows l); [by apply prefix_app_r|by apply Hl].
  - subst e. apply (command_right_grows l); [by apply prefix_app_r|exact He].
Qed.

Lemma default_torque_limits_ordered j : (j < n_joints)%nat →
  SFopp (at_ (limit_torque default_limits) j) <=?. at_ (limit_torque default_limits) j = true.
Proof. intros Hj. unfold n_joints in Hj. do 7 (destruct j as [|j]; [by vm_compute|]). lia. Qed.

(** ** In every interleaving *)

Section interleaved.
Context {R : Type} `{FrankaLaws R}.
Local Abbreviation W := (Fr3World (Traced R)).
Local Abbreviation sure := (assured (S := W) fr3_inv trace_grows).

(** Keeps the invariant and the trace. *)
Definition fine {A} (t : Thread W A) : Prop := ∀ s0, sure (λ _ w, trace_grows s0 w) t s0.

Lemma fine_ret {A} (a : A) : fine (Ret a).
Proof. intros s0. cbn. reflexivity. Qed.

Lemma sure_fine {A} (t : Thread W A) (Q : A → W → Prop) s0 : fine t → (∀ a w, trace_grows s0 w → Q a w) → sure Q t s0.
Proof. intros Ht HQ. eapply assured_mono; [apply Ht|]. intros a w Hw. by apply HQ. Qed.

Lemma fine_bind {A B} (t : Thread W A) (k : A → Thread W B) : fine t → (∀ a, fine (k a)) → fine (t ≫= k).
Proof.
  intros Ht Hk s0. apply assured_bind. apply sure_fine; [done|]. intros a w Hw. apply sure_fine; [apply Hk|].
  intros b w' Hw'. by etrans.
Qed.

Lemma fine_gets {A} (f : W → A) : fine (atomically (gets f)).
Proof. intros s0. apply assured_atomically. intros w HR HI. apply wp_gets. by split_and!. Qed.

Lemma fine_on_fr3 f : (∀ w : W, fr3_inv w → fr3_inv (w <| fr3 := f (fr3 w) |>)) → fine (on_fr3 f).
Proof. intros Hf s0. apply assured_atomically. intros w HR HI. apply wp_modify. split_and!; [by apply Hf|by apply same_trace|exact HR]. Qed.

Lemma fine_quietly {A} (m : St R A) : fine (on_franka (quietly m)).
Proof.
  intros s0. apply assured_atomically. intros w HR HI. unfold wp, lift_into, quietly. destruct (m (inner (franka w))) as [a r].
  destruct HI. by split_and!.
Qed.

Lemma fine_act {A} en (effect : W → W) (next : W → Thread W A) :
  (∀ w, fr3_inv w → fr3_inv (effect w) ∧ trace (franka (effect w)) = trace (franka w)) → (∀ w, fine (next w)) → fine (Act en effect next).
Proof.
  intros He Hn s0 w HR HI _. destruct (He w HI) as [H1 H2]. assert (trace_grows w (effect w)) as Hg by (unfold trace_grows; by rewrite H2).
  split_and!; [done|done|]. apply sure_fine; [apply Hn|]. intros a w' Hw'. etrans; [exact HR|]. by etrans.
Qed.

Lemma fine_state_mutex {A} (t : Thread W A) : fine t → fine (with_state_mutex t).
Proof.
  intros Ht. unfold with_state_mutex, holding. apply fine_act; [by intros w []|]. intros w.
  change (fine (a ← t; atomically (modify (set_state_mutex false : W → W));; Ret a)).
  apply fine_bind; [done|]. intros a. apply (fine_bind (on_fr3 (λ d, d <| state_mutex_ := false |>))); [|intros; apply fine_ret].
  apply fine_on_fr3. by intros w' [].
Qed.
Lemma fine_pending_mutex {A} (t : Thread W A) : fine t → fine (with_pending_mutex t).
Proof.
  intros Ht. unfold with_pending_mutex, holding. apply fine_act; [by intros w []|]. intros w.
  change (fine (a ← t; atomically (modify (set_pending_mutex false : W → W));; Ret a)).
  apply fine_bind; [done|]. intros a. apply (fine_bind (on_fr3 (λ d, d <| pending_controller_mutex_ := false |>))); [|intros; apply fine_ret].
  apply fine_on_fr3. by intros w' [].
Qed.

Lemma fine_trying held set (t : Thread W unit) :
  (∀ b w, fr3_inv w → fr3_inv (set b w) ∧ trace (franka (set b w)) = trace (franka w)) → fine t → fine (trying held set t).
Proof.
  intros Hs Ht. unfold trying. apply fine_bind.
  - intros s0. apply assured_atomically. intros w HR HI. unfold wp. destruct (held w); cbn; [by split_and!|].
    destruct (Hs true w HI) as [H1 H2]. unfold trace_grows. rewrite H2. by split_and!.
  - intros [|]; cbn [negb]; [|apply fine_ret]. apply fine_bind; [done|]. intros _ s0. apply assured_atomically. intros w HR HI.
    apply wp_modify. destruct (Hs false w HI) as [H1 H2]. unfold trace_grows. rewrite H2. by split_and!.
Qed.

Ltac fine_step :=
  cbv beta;
  lazymatch goal with
  | |- fine (Ret _) => apply fine_ret
  | |- fine (or_throw _ _) => unfold or_throw
  | |- fine (_ ≫= _) => apply fine_bind; [|intros ?]
  | |- fine (if ?b then _ else _) => destruct b
  | |- fine (match ?x with _ => _ end) => destruct x
  | |- fine (with_state_mutex _) => apply fine_state_mutex
  | |- fine (with_pending_mutex _) => apply fine_pending_mutex
  | |- fine (look _) => apply fine_gets
  | |- fine (atomically (gets _)) => apply fine_gets
  | |- fine (on_fr3 _) => apply fine_on_fr3; first [by intros ? []|intros w []; by split]
  | |- fine (on_franka _) => apply fine_quietly
  | |- fine (Act _ _ _) => apply fine_act; [by intros ? []|intros ?]
  end.
Ltac fine_go := repeat fine_step.

Lemma fine_state : fine state.
Proof. unfold state. fine_go. Qed.

Lemma fine_set_target target : fine (fr3_set_target target).
Proof.
  unfold fr3_set_target. intros s0. apply assured_bind, assured_atomically. intros w HR HI. apply wp_gets.
  split_and!; [done|reflexivity|]. rewrite (fi_driver_limits _ HI). apply sure_fine; [|by intros _ w' ?; etrans].
  destruct (target_in_limits default_limits target) eqn:E; cbn [negb]; [|fine_go].
  fine_step; [|fine_go]. fine_step. apply fine_on_fr3. intros w' []. by split.
Qed.

Lemma fine_hold : fine fr3_hold.
Proof. unfold fr3_hold. fine_step; [apply fine_state|]. fine_go. Qed.

Lemma fine_apply : fine apply_pending_command.
Proof.
  unfold apply_pending_command. apply fine_trying; [by intros b w []|]. intros s0.
  apply assured_bind, assured_atomically. intros w HR HI. apply wp_gets. split_and!; [done|reflexivity|].
  apply sure_fine; [|by intros _ w' ?; etrans]. destruct (hold_pending_ (fr3 w)); [fine_go|].
  destruct (target_pending_ (fr3 w)) eqn:Et; [|fine_go]. apply fine_on_fr3. intros w' []. split; try done.
  intros _. by apply (fi_pending _ HI).
Qed.

Lemma fine_publish s : fine (publish_state s).
Proof. unfold publish_state. apply fine_trying; [by intros b w []|]. fine_go. Qed.
(** *** The torques of a cycle *)

Lemma compute_keeps input (c : FR3Controller) : limits_ (compute input c).2 = limits_ c ∧
  (position_command_active_ (compute input c).2 = true → position_command_active_ c = true ∧ target_position_ (compute input c).2 = target_position_ c).
Proof. unfold compute. cbn [snd]. destruct (initialized_ c) eqn:E; cbn; by rewrite ?E. Qed.

Definition answer_right (answer : option (list f64 * bool)) (w : W) : Prop :=
  match answer with Some (torques, finished) => command_right (trace (franka w)) torques finished | None => True end.

Lemma sure_compute s (w0 : W) (r : R) :
  sure (λ torque w, trace_grows w0 w ∧ match torque with Some torque => within_torque_limits torque | None => True end)
    (atomically (lift_into (λ w, controller_ (fr3 w)) (λ c w, w <| fr3 := (fr3 w) <| controller_ := c |> |>)
       (compute (mkInput (rs_q s) (rs_dq s) (model_coriolis r s) (model_flange_jacobian r s) (model_end_effector_jacobian r s)
                   (map (at_ (rs_O_T_EE s)) [12; 13; 14]%nat) (at_ (rs_delbow_c s) 0))))) w0.
Proof.
  apply assured_atomically. intros w HR HI. set (input := mkInput _ _ _ _ _ _ _).
  pose proof (compute_keeps input (controller_ (fr3 w))) as [Hl Ha].
  pose proof (compute_checks (controller_ (fr3 w)) input) as Hc. unfold wp, lift_into.
  destruct (compute input (controller_ (fr3 w))) as [torque c]. cbn [fst snd] in *. split_and!.
  - destruct HI as [H1 H2 H3 H4 H5]. split; cbn; try done; [by rewrite Hl|]. intros E. destruct (Ha E) as [E1 ->]. by apply H4.
  - by apply same_trace.
  - exact HR.
  - destruct torque as [torque|]; [|done]. intros j Hj. rewrite (fi_limits _ HI) in Hc.
    destruct (Hc torque) as (_ & _ & Hj'); [apply coriolis_length|by apply default_torque_limits_ordered|done|].
    by destruct (Hj' j Hj) as (_ & _ & ?).
Qed.

Lemma sure_cycle s (w0 : W) : Cycled s ∈ trace (franka w0) → sure (λ answer w, trace_grows w0 w ∧ answer_right answer w) (cycle s) w0.
Proof.
  intros Hs. unfold cycle. apply assured_bind. apply sure_fine; [apply fine_on_fr3; by intros w []|]. intros _ w1 G1.
  apply assured_bind. apply sure_fine; [apply fine_gets|]. intros stop w2 G2. destruct stop.
  { apply assured_ret. split; [by etrans|]. right. split; [done|]. exists s. split; [|done].
    apply (elem_of_prefix (trace (franka w0))); [done|]. by etrans. }
  apply assured_bind. apply (assured_mono _ _ (λ input w, trace_grows w2 w ∧ ∃ r : R, input = mkInput (rs_q s) (rs_dq s) (model_coriolis r s)
    (model_flange_jacobian r s) (model_end_effector_jacobian r s) (map (at_ (rs_O_T_EE s)) [12; 13; 14]%nat) (at_ (rs_delbow_c s) 0))).
  { apply assured_atomically. intros w HR HI. apply wp_gets. split_and!; [done|by apply same_trace|done|by eexists]. }
  intros input w3 (G3 & r & ->). apply assured_bind. apply sure_fine; [apply fine_apply|]. intros _ w4 G4.
  apply assured_bind. eapply assured_mono; [apply sure_compute|]. intros [torque|] w5 [G5 Ht].
  - apply assured_bind. apply sure_fine; [apply fine_publish|]. intros _ w6 G6.
    apply assured_bind. apply sure_fine; [apply fine_gets|]. intros stop' w7 G7. apply assured_ret. split; [|by left].
    by repeat (etrans; [eassumption|]).
  - apply assured_ret. split; [|done]. by repeat (etrans; [eassumption|]).
Qed.

Lemma fine_control fuel : fine (control fuel (λ s _ _, answer ← cycle s; Ret (answer, tt)) robot_command_torques tt).
Proof.
  induction fuel as [|fuel IH]; cbn [control]; [apply fine_ret|]. intros s0. apply assured_bind.
  apply (assured_mono _ _ (λ next w, trace_grows s0 w ∧ match next with Some (s, _) => Cycled s ∈ trace (franka w) | None => True end)).
  { apply assured_atomically. intros w HR HI. cbn [robot_next_cycle traced_franka]. unfold wp, lift_into, tracing.
    destruct (robot_next_cycle (inner (franka w))) as [[[s period]|] r]; cbn.
    - split_and!; [|by eexists|by etrans; [exact HR|eexists]|apply elem_of_app; right; by apply list_elem_of_singleton].
      destruct HI as [H1 H2 H3 H4 H5]. split; try done. by apply trace_right_snoc.
    - rewrite app_nil_r. destruct HI. by split_and!. }
  intros [[s period]|] w1 [G1 Hs]; [|exact G1]. apply assured_bind, assured_bind. eapply assured_mono; [by apply sure_cycle|].
  intros answer w2 [G2 Ha]. apply assured_ret. destruct answer as [[torques finished]|]; [|apply assured_ret; by etrans].
  apply assured_bind. apply (assured_mono _ _ (λ _ w, trace_grows w2 w)).
  { apply assured_atomically. intros w HR HI. cbn [robot_command_torques traced_franka]. unfold wp, lift_into, tracing.
    destruct (robot_command_torques torques finished (inner (franka w))) as [u r]; cbn.
    split_and!; [|by eexists|by etrans; [exact HR|eexists]].
    destruct HI as [H1 H2 H3 H4 H5]. split; try done. apply trace_right_snoc; [done|]. by eapply command_right_grows. }
  intros _ w3 G3. assert (trace_grows s0 w3) as G by by repeat (etrans; [eassumption|]).
  destruct finished; [exact G|]. apply sure_fine; [apply IH|]. intros o w4 G4. by etrans.
Qed.
Lemma fine_conclude thrown : fine (conclude_controller thrown).
Proof. unfold conclude_controller. fine_go. apply fine_on_fr3. intros w []. by destruct (stop_requested_ (fr3 w)). Qed.

Lemma fine_run fuel : fine (run_controller fuel).
Proof.
  unfold run_controller. fine_step; [fine_go|]. fine_step; [|apply fine_conclude]. fine_step; [fine_go|]. fine_step.
  - fine_step; [fine_go|apply fine_conclude].
  - fine_step; [apply fine_control|]. fine_step; [apply fine_conclude|fine_go].
Qed.

Lemma fine_thread runs fuel : fine (control_thread runs fuel).
Proof.
  induction runs as [|runs IH]; cbn [control_thread]; [fine_go|]. fine_step. fine_step; [apply fine_run|exact IH].
Qed.

(** *** The callers *)

Lemma fine_start : fine start_controller.
Proof. unfold start_controller. fine_go. Qed.
Lemma fine_reset : fine reset_robot.
Proof. unfold reset_robot. fine_go. Qed.
Lemma fine_close : fine close.
Proof. unfold close. do 3 (fine_step; [fine_go|]). do 2 (fine_step; [fine_go|]). fine_step; [apply fine_reset|fine_go]. Qed.
Lemma fine_connect : fine connect.
Proof. unfold connect. fine_go. Qed.
Lemma fine_initialize : fine initialize_controller_state.
Proof. unfold initialize_controller_state. fine_go. Qed.
Lemma fine_restart : fine restart_controller.
Proof.
  unfold restart_controller. do 2 fine_step; [apply fine_initialize|]. fine_step; [|fine_go].
  fine_step; [apply fine_start|]. fine_step; [|fine_go]. fine_step; [|fine_go]. fine_step; [apply fine_reset|fine_go].
Qed.
Lemma fine_open : fine open.
Proof.
  unfold open. fine_step; [|fine_go]. do 2 fine_step; [apply fine_connect|]. fine_step; [|fine_go].
  fine_step; [fine_go|]. fine_step; [apply fine_restart|fine_go].
Qed.

Lemma fine_positions fuel : ∀ g, fine (control fuel (λ robot_state period g,
  let '(answer, g) := motion_cycle (std_pow (R := Traced R)) robot_state period g in Ret (Some answer, g)) robot_command_positions g).
Proof.
  induction fuel as [|fuel IH]; intros g; cbn [control]; [fine_go|]. fine_step.
  { intros s0. apply assured_atomically. intros w HR HI. cbn [robot_next_cycle traced_franka]. unfold wp, lift_into, tracing.
    destruct (robot_next_cycle (inner (franka w))) as [[[s period]|] r]; cbn.
    - split_and!; [|by eexists|by etrans; [exact HR|eexists]]. destruct HI as [H1 H2 H3 H4 H5]. split; try done. by apply trace_right_snoc.
    - rewrite app_nil_r. destruct HI. by split_and!. }
  fine_step; [|fine_go]. destruct p as [s period]. destruct (motion_cycle _ s period g) as [answer g'].
  fine_step; [fine_go|]. destruct a as [[[positions finished]|] g'']; [|fine_go]. fine_step; [fine_go|]. fine_step; [fine_go|apply IH].
Qed.

Lemma fine_move fuel : fine (move_to_ready fuel).
Proof.
  unfold move_to_ready. fine_step; [apply fine_close|]. fine_step.
  - do 2 fine_step; [apply fine_connect|]. fine_go.
  - fine_step; [|fine_go]. fine_step; [fine_go|]. fine_step; [apply fine_positions|]. fine_step; [|fine_go]. fine_step; [|fine_go].
    fine_step; [apply fine_restart|]. fine_go.
Qed.
End interleaved.

(** ** The calls of the driver *)

Inductive Fr3Call :=
| CallOpen | CallClose | CallState | CallHold | CallSetTarget (target : list f64) | CallMoveToReady (fuel : nat).

Definition fr3_call {R} `{Franka R} (c : Fr3Call) : Thread (Fr3World R) unit :=
  match c with
  | CallOpen => open;; Ret tt
  | CallClose => close;; Ret tt
  | CallState => state;; Ret tt
  | CallHold => fr3_hold;; Ret tt
  | CallSetTarget target => fr3_set_target target;; Ret tt
  | CallMoveToReady fuel => move_to_ready fuel;; Ret tt
  end.

Fixpoint fr3_calls {R} `{Franka R} (cs : list Fr3Call) : Thread (Fr3World R) unit :=
  match cs with
  | [] => Ret tt
  | c :: cs => fr3_call c;; fr3_calls cs
  end.

Section histories.
Context {R : Type} `{FrankaLaws R}.

Lemma fine_calls cs : fine (R := R) (fr3_calls cs).
Proof.
  induction cs as [|c cs IH]; cbn [fr3_calls]; [apply fine_ret|]. apply fine_bind; [|intros _; exact IH].
  destruct c; cbn [fr3_call]; (apply fine_bind; [|intros; apply fine_ret]).
  - apply fine_open.
  - apply fine_close.
  - apply fine_state.
  - apply fine_hold.
  - apply fine_set_target.
  - apply fine_move.
Qed.

Definition fresh_fr3 (address : string) (reset_pose : list f64) (r : R) : Fr3World (Traced R) :=
  mkFr3World (new_DriverFR3 address reset_pose) (mkTraced r []).

Lemma fresh_fr3_inv address reset_pose r : fr3_inv (fresh_fr3 address reset_pose r).
Proof. split; try done. intros torques finished Hin. by apply not_elem_of_nil in Hin. Qed.

(** [C11] Whatever the driver's callers do, however their calls interleave with the
    control thread and wherever libfranka throws: every torque vector commanded is within
    the torque limits of the joints (or NaN where the law gave NaN), except that the last
    vector of a stopped motion may repeat what the robot reported as commanded; and
    while the control law follows a target, the target is finite and within the joint
    limits. *)
Theorem commanded_torques_limited address reset_pose (r : R) cs runs fuel schedule :
  let w := shared (run_schedule schedule (mkTwo (fr3_calls cs) (control_thread runs fuel) (fresh_fr3 address reset_pose r))) in
  (∀ torques finished, Commanded torques finished ∈ trace (franka w) →
     (∀ j, (j < n_joints)%nat → let limit := at_ (limit_torque default_limits) j in
        is_nan (at_ torques j) = true ∨ in_range (SFopp limit) limit (at_ torques j)) ∨
     finished = true ∧ ∃ s, Cycled s ∈ trace (franka w) ∧ torques = rs_tau_J_d s) ∧
  (position_command_active_ (controller_ (fr3 w)) = true →
     target_in_limits default_limits (target_position_ (controller_ (fr3 w))) = true).
Proof.
  intros w. destruct (assured_run fr3_inv trace_grows (mkTwo (fr3_calls cs) (control_thread runs fuel) (fresh_fr3 address reset_pose r))
    schedule (fresh_fr3 address reset_pose r) (fresh_fr3 address reset_pose r)) as [Hw _].
  - eapply assured_mono; [apply fine_calls|done].
  - eapply assured_mono; [apply fine_thread|done].
  - reflexivity.
  - reflexivity.
  - apply fresh_fr3_inv.
  - split; [apply (fi_trace _ Hw)|apply (fi_active _ Hw)].
Qed.
End histories.

(** ** Requests *)

Inductive Fr3Request := RequestTarget (target : list f64) | RequestHold.

Section requests.
Context {R : Type} `{Franka R}.
Local Abbreviation W := (Fr3World R).

Definition fr3_request (r : Fr3Request) : Thread W unit :=
  match r with
  | RequestTarget target => fr3_set_target target;; Ret tt
  | RequestHold => fr3_hold;; Ret tt
  end.

Fixpoint fr3_requests (rs : list Fr3Request) : Thread W unit :=
  match rs with
  | [] => Ret tt
  | r :: rs => fr3_request r;; fr3_requests rs
  end.

(** The driver accepts a target within the limits, and a hold once it knows where the arm is. *)
Definition accepts (d : DriverFR3) (r : Fr3Request) : bool :=
  match r with RequestTarget target => target_in_limits (fr3_limits_ d) target | RequestHold => st_valid (state_ d) end.

Definition left_behind (d : DriverFR3) (r : Fr3Request) : DriverFR3 :=
  if negb (accepts d r) then d
  else match r with
       | RequestTarget target => d <| pending_target_ := target |> <| target_pending_ := true |> <| hold_pending_ := false |>
       | RequestHold => d <| hold_pending_ := true |> <| target_pending_ := false |>
       end.

Definition unlocked (d : DriverFR3) : Prop := state_mutex_ d = false ∧ pending_controller_mutex_ d = false.

Lemma run_request r (w : W) : unlocked (fr3 w) → (solo (fr3_request r) w).2 = w <| fr3 := left_behind (fr3 w) r |>.
Proof.
  intros [H1 H2]. destruct w as [d x]. cbn in *. destruct d; cbn in *; subst. destruct r as [target|]; unfold left_behind; cbn -[target_in_limits].
  - unfold fr3_set_target. cbn -[target_in_limits]. by destruct (target_in_limits fr3_limits_ target).
  - by destruct (st_valid state_).
Qed.

Lemma left_unlocked d r : unlocked d → unlocked (left_behind d r).
Proof. unfold left_behind. by destruct (accepts d r), r. Qed.

Lemma run_requests rs : ∀ w : W, unlocked (fr3 w) →
  (solo (fr3_requests rs) w).2 = w <| fr3 := foldl left_behind (fr3 w) rs |> ∧ unlocked (foldl left_behind (fr3 w) rs).
Proof.
  induction rs as [|r rs IH]; intros w Hw; [by destruct w|]. cbn [fr3_requests foldl]. rewrite solo_bind, bind_run.
  rewrite run_request by done. destruct w as [d x]. apply (IH (mkFr3World (left_behind d r) x)). by apply left_unlocked.
Qed.

(** What is pending after some requests. *)
Definition pending_is (d0 d : DriverFR3) (newest : option Fr3Request) : Prop :=
  controller_ d = controller_ d0 ∧ state_ d = state_ d0 ∧ fr3_limits_ d = fr3_limits_ d0 ∧
  match newest with
  | Some (RequestTarget target) => target_pending_ d = true ∧ hold_pending_ d = false ∧ pending_target_ d = target
  | Some RequestHold => target_pending_ d = false ∧ hold_pending_ d = true
  | None => target_pending_ d = false ∧ hold_pending_ d = false
  end.

Lemma pending_after d rs : target_pending_ d = false → hold_pending_ d = false →
  pending_is d (foldl left_behind d rs) (last (List.filter (accepts d) rs)).
Proof.
  intros Ht Hh. induction rs as [|r rs IH] using rev_ind; [by split_and!|].
  rewrite foldl_snoc, List.filter_app. set (d1 := foldl left_behind d rs) in *. destruct IH as (H1 & H2 & H3 & H4).
  assert (accepts d1 r = accepts d r) as E by (destruct r; cbn; by rewrite ?H2, ?H3). unfold left_behind. rewrite E. cbn [List.filter].
  destruct (accepts d r); cbn [negb].
  - rewrite last_snoc. destruct r; by split_and!.
  - rewrite app_nil_r. by split_and!.
Qed.

Definition applied (c : FR3Controller) (measured : list f64) (newest : option Fr3Request) : FR3Controller :=
  match newest with
  | Some (RequestTarget target) => set_target target c
  | Some RequestHold => hold measured c
  | None => c
  end.

Lemma run_apply d0 (w : W) newest : unlocked (fr3 w) → pending_is d0 (fr3 w) newest →
  let d := fr3 (solo apply_pending_command w).2 in
  controller_ d = applied (controller_ d0) (st_q (state_ d0)) newest ∧ target_pending_ d = false ∧ hold_pending_ d = false.
Proof.
  intros [U1 U2] (H1 & H2 & _ & H4). destruct w as [d x]. cbn [fr3] in *. destruct d; cbn in *; subst.
  destruct newest as [[target|]|].
  - by destruct H4 as (-> & -> & ->).
  - by destruct H4 as (-> & ->).
  - by destruct H4 as (-> & ->).
Qed.

(** [C24] The hand-over to the control thread keeps the newest request and no other: after
    any targets and holds, some refused, the cycle that takes the pending command gives
    the control law the last one that was accepted, a hold with the position measured
    last, and leaves nothing behind. *)
Theorem newest_request_applied rs (w : W) :
  state_mutex_ (fr3 w) = false → pending_controller_mutex_ (fr3 w) = false →
  target_pending_ (fr3 w) = false → hold_pending_ (fr3 w) = false →
  let d := fr3 (solo (fr3_requests rs;; apply_pending_command) w).2 in
  controller_ d =
    match last (List.filter (accepts (fr3 w)) rs) with
    | Some (RequestTarget target) => set_target target (controller_ (fr3 w))
    | Some RequestHold => hold (st_q (state_ (fr3 w))) (controller_ (fr3 w))
    | None => controller_ (fr3 w)
    end ∧ target_pending_ d = false ∧ hold_pending_ d = false.
Proof.
  intros H1 H2 H3 H4 d. destruct (run_requests rs w) as [E Hu]; [by split|].
  pose proof (pending_after (fr3 w) rs H3 H4) as Hp. unfold d. rewrite solo_bind, bind_run, E.
  destruct w as [d0 x]. exact (run_apply d0 (mkFr3World (foldl left_behind d0 rs) x) _ Hu Hp).
Qed.
End requests.

(** ** A robot to run on *)

Record SimFranka := mkSimFranka { sim_cycles : list RobotState; sim_pose : RobotState; sim_ns : Z }.

Definition sim_ok : St SimFranka (option unit) := mret (Some tt).
Definition cube_or_square (x n : f64) : f64 := if n =?. dz 3 then (x * x * x)%f64 else (x * x)%f64.

#[export] Instance sim_franka : Franka SimFranka := {|
  robot_connect := λ _, sim_ok;
  robot_release := mret tt;
  robot_set_collision_behavior := λ _, sim_ok;
  robot_read_once := λ r, (Some (sim_pose r), r);
  robot_automatic_error_recovery := sim_ok;
  robot_load_model := sim_ok;
  robot_stop := sim_ok;
  robot_next_cycle := λ r,
    match sim_cycles r with
    | [] => (None, r)
    | s :: cycles => (Some (s, lit64 1 1000), mkSimFranka cycles s (sim_ns r + 1000000))
    end;
  robot_command_torques := λ _ _, mret tt;
  robot_command_positions := λ _ _, mret tt;
  model_coriolis := λ _ _, no_joints;
  model_flange_jacobian := λ _ _, replicate 42 f0;
  model_end_effector_jacobian := λ _ _, replicate 42 f0;
  create_thread := sim_ok;
  monotonic_ns := λ r, (sim_ns r, r);
  std_pow := cube_or_square;
|}.

Lemma sim_coriolis_length (r : SimFranka) s : length (model_coriolis r s) = n_joints.
Proof. done. Qed.
#[export] Instance sim_franka_laws : FrankaLaws SimFranka := {| coriolis_length := sim_coriolis_length |}.

Definition arm_pose : list f64 := dc <$> [0; 0; 0; -100; 0; 200; 0].
Definition near_pose : list f64 := dc <$> [5; 0; 0; -100; 0; 200; 0].
Definition resting : RobotState := mkRobotState arm_pose no_joints arm_pose no_joints no_joints (replicate 16 f0) [f0; f0].
Definition sim_robot : SimFranka := mkSimFranka (replicate 5 resting) resting 0.

(** Open, ask for a target, hold; the control thread runs from time to time. *)
Definition busy_calls : list Fr3Call := [CallOpen; CallSetTarget near_pose; CallState; CallHold; CallClose].
Definition busy_schedule : list bool :=
  replicate 30 false ++ replicate 40 true ++ replicate 20 false ++ replicate 100 true ++ replicate 60 false.
Local Abbreviation busy_world :=
  (shared (run_schedule busy_schedule (mkTwo (fr3_calls busy_calls) (control_thread 2 9) (fresh_fr3 "192.168.1.2" arm_pose sim_robot)))).

Definition is_command (e : Fr3Event) : bool := match e with Commanded _ _ => true | Cycled _ => false end.

Lemma commanded_torques_limited_witness :
  position_command_active_ (controller_ (fr3 busy_world)) = true ∧
  target_in_limits default_limits (target_position_ (controller_ (fr3 busy_world))) = true ∧
  ∀ torques finished, Commanded torques finished ∈ trace (franka busy_world) →
    (∀ j, (j < n_joints)%nat → let limit := at_ (limit_torque default_limits) j in
       is_nan (at_ torques j) = true ∨ in_range (SFopp limit) limit (at_ torques j)) ∨
    finished = true ∧ ∃ s, Cycled s ∈ trace (franka busy_world) ∧ torques = rs_tau_J_d s.
Proof.
  destruct (commanded_torques_limited "192.168.1.2" arm_pose sim_robot busy_calls 2 9 busy_schedule) as [H1 H2].
  assert (position_command_active_ (controller_ (fr3 busy_world)) = true) as Ha by (vm_compute; reflexivity).
  split; [exact Ha|]. split; [exact (H2 Ha)|exact H1].
Defined.

Lemma busy_world_commands : length (List.filter is_command (trace (franka busy_world))) = 5%nat ∧
  position_command_active_ (controller_ (fr3 busy_world)) = true.
Proof. vm_compute. by split. Qed.

(** Two targets, one refused, then a hold: the hold counts; without it the first target would. *)
Definition opened_fr3 : DriverFR3 := (new_DriverFR3 "192.168.1.2" arm_pose)
  <| state_ := mkFR3DriverState 1 0 arm_pose no_joints no_joints arm_pose true false |>.

Lemma newest_request_applied_witness :
  let requests := [RequestTarget near_pose; RequestTarget no_joints; RequestHold] in
  let d := fr3 (solo (fr3_requests requests;; apply_pending_command) (mkFr3World opened_fr3 sim_robot)).2 in
  controller_ d = hold arm_pose (controller_ opened_fr3) ∧ accepts opened_fr3 (RequestTarget near_pose) = true ∧
  accepts opened_fr3 (RequestTarget no_joints) = false ∧ target_pending_ d = false.
Proof.
  intros requests d. destruct (newest_request_applied requests (mkFr3World opened_fr3 sim_robot) eq_refl eq_refl eq_refl eq_refl) as (H1 & H2 & _).
  split_and!; [exact H1|by vm_compute..|exact H2].
Defined.
