(* ===== verification/DeviceFr3.v ===== *)
(** * The FR3 arm (pi_device_fr3.cpp, include/pi_device_fr3.hpp)

    A device without joints and servos of its own: targets go to the FR3 driver, which
    runs its controller in a thread, and to a Robotiq gripper, if there is one.  Both,
    with the clock and the topic, are the class [Fr3DeviceWorld]; what their threads do
    in the meantime shows in what [fw_driver_state] and [fw_gripper_state] give.

    A loop that waits for a state or a deadline takes the fuel [poll_fuel];
    [Fr3DeviceFacts.fr3_waits_end] says how much is enough. *)

From S2P Require Import Prelude.
From S2P Require Import FloatSpec.
From S2P Require Import Control.
From S2P Require Import CanBus.
From S2P Require Import Servo.
From S2P Require Import Joint.
From S2P Require Import Device.
From S2P Require Import JointOwner.
From S2P Require Robotiq.
From S2P Require Import FR3Controller.
From S2P Require Import MotionGenerator.
From S2P Require Import DriverFr3.

#[local] Open Scope Z_scope.

Class Fr3DeviceWorld (X : Type) := {
  fw_device_world :: DeviceWorld X;
  (* driver_fr3_ *)
  fw_driver_state : St X FR3DriverState;
  fw_driver_set_target : list f64 → St X ReturnCode;
  fw_driver_hold : St X ReturnCode;
  fw_driver_move_to_ready : St X ReturnCode;
  (* robotiq_ *)
  fw_gripper_start : St X bool;
  fw_gripper_stop : St X unit;
  fw_gripper_activate : St X bool;
  fw_gripper_state : St X Robotiq.RobotiqState;
  fw_gripper_set_target : f32 → f32 → f32 → St X unit;
  fw_gripper_hold : St X unit;
}.
#[export] Hint Mode Fr3DeviceWorld ! : typeclass_instances.

Record DeviceFR3 (X : Type) := mkDeviceFR3 {
  fr3_base : DeviceBase;
  fr3_world : X;
  driver_fr3_ : bool;                  (* driver_fr3_ != nullptr *)
  robotiq_ : bool;                     (* robotiq_ != nullptr *)
  robotiq_default_speed_ : f32;
  robotiq_default_force_ : f32;
}.
Arguments mkDeviceFR3 {X}.
Arguments fr3_base {X}.
Arguments fr3_world {X}.
Arguments driver_fr3_ {X}.
Arguments robotiq_ {X}.
Arguments robotiq_default_speed_ {X}.
Arguments robotiq_default_force_ {X}.
#[export] Instance eta_DeviceFR3 X : Eta (DeviceFR3 X) := λ r, mkDeviceFR3
  (fr3_base r) (fr3_world r) (driver_fr3_ r) (robotiq_ r) (robotiq_default_speed_ r) (robotiq_default_force_ r).

#[export] Instance fr3_device X : HasDevice (DeviceFR3 X) := {|
  base := fr3_base;
  update_base := λ f d, d <| fr3_base := f (fr3_base d) |>;
|}.

Section device.
Context {X : Type} `{Fr3DeviceWorld X} (poll_fuel : nat).
Local Abbreviation D := (DeviceFR3 X).

Definition in_world {A} (m : St X A) : St D A := lift_into fr3_world (λ x d, d <| fr3_world := x |>) m.
Definition steady_now : St D Z := in_world dw_now.
Definition seconds (n : Z) : Z := n * 1000000000.
Definition gripper_state : St D Robotiq.RobotiqState := in_world fw_gripper_state.

Definition dof_total_ (d : D) : Z := if robotiq_ d then 8 else 7.

(** [while (!condition && now < deadline) sleep(5 ms);] *)
Fixpoint wait_until (fuel : nat) (condition : St D bool) (deadline : Z) : St D unit :=
  match fuel with
  | O => mret tt
  | S fuel =>
      c ← condition;
      if c : bool then mret tt
      else
        t ← steady_now;
        if negb (t <? deadline) then mret tt
        else in_world (dw_usleep 5000);; wait_until fuel condition deadline
  end.

Definition driver_valid : St D bool := s ← in_world fw_driver_state; mret (st_valid s).
Definition gripper_connected : St D bool := s ← gripper_state; mret (Robotiq.connected s).

Definition hold_driver : St D unit := in_world fw_driver_hold;; mret tt.
Definition hold_gripper : St D unit := d ← get_state; when_ (robotiq_ d) (in_world fw_gripper_hold).

(** ** Commands and observations *)

(** The seven joint targets, if they are numbers. *)
Definition arm_target (msg : MsgJoints) : option (list f64) :=
  let values := map msg_pos (take 7 msg) in
  if forallb isfinite values then Some (map to_f64 values) else None.

Definition gripper_ready (position : f32) (gripper : Robotiq.RobotiqState) : ReturnCode :=
  if negb (isfinite position) || (position <?. f0) || (position >?. f1) then INVALID_PARAM
  else if negb (Robotiq.connected gripper) then NO_RESPONSE
  else if negb (Robotiq.activated gripper) || Robotiq.has_operational_fault gripper then HARDWARE_FAULT
  else SUCCESS.

Definition msg_gripper (msg : MsgJoints) : f32 := from_option msg_pos f0 (msg !! 7%nat).

Definition fr3_apply_action (msg : MsgJoints) : St D ReturnCode :=
  d ← get_state;
  if negb (Z.of_nat (length msg) =? dof_total_ d) then mret INVALID_PARAM
  else match arm_target msg with
  | None => mret INVALID_PARAM
  | Some target =>
      require (if robotiq_ d then gripper ← gripper_state; mret (gripper_ready (msg_gripper msg) gripper) else mret SUCCESS)
        (result ← in_world (fw_driver_set_target target);
         when_ (ok result && robotiq_ d)
           (in_world (fw_gripper_set_target (msg_gripper msg) (robotiq_default_speed_ d) (robotiq_default_force_ d)));;
         mret result)
  end.

Definition frame_age_ms (now monotonic_ns : Z) : f32 :=
  if monotonic_ns <=? now then (f32_of_Z (now - monotonic_ns) / f32_of_Z 1000000)%f32 else (- f1)%f32.

Definition joint_infos (state : FR3DriverState) (age_ms : f32) : MsgJoints :=
  map (λ i, mkDataJoint (to_f32 (at_ (st_q state) i)) (to_f32 (at_ (st_dq state) i)) (to_f32 (at_ (st_torque state) i)) f0 f0 age_ms) joints.

Definition gripper_info (gripper : Robotiq.RobotiqState) : DataJoint :=
  mkDataJoint (Robotiq.position gripper) (Robotiq.velocity gripper) (Robotiq.effort gripper) f0 (Robotiq.current gripper) (- f1)%f32.

(** [msg] is what the message held before. *)
Definition fr3_get_observation (msg : MsgJoints) : St D (ReturnCode * MsgJoints) :=
  state ← in_world fw_driver_state;
  if negb (st_valid state) then mret (NOT_INITIALIZED, msg)
  else
    now ← steady_now;
    d ← get_state;
    let msg := msg ++ joint_infos state (frame_age_ms now (st_monotonic_ns state)) in
    if negb (robotiq_ d) then mret (SUCCESS, msg)
    else
      gripper ← gripper_state;
      mret (if negb (Robotiq.connected gripper) then NO_RESPONSE else SUCCESS, msg ++ [gripper_info gripper]).

Definition fr3_process_follower_msg (msg : MsgJoints) : St D ReturnCode := fr3_apply_action msg.

Definition fr3_read_hardware_values : St D ReturnCode :=
  d ← get_state;
  state ← in_world fw_driver_state;
  if st_faulted state then mret HARDWARE_FAULT
  else if negb (st_valid state) then mret NOT_INITIALIZED
  else if negb (robotiq_ d) then mret SUCCESS
  else
    gripper ← gripper_state;
    mret (if negb (Robotiq.connected gripper) then NO_RESPONSE
          else if Robotiq.has_operational_fault gripper then HARDWARE_FAULT else SUCCESS).

(** ** The ready move *)

(** Both stop where they are. *)
Definition stop_and_hold (rc : ReturnCode) : St D ReturnCode := hold_driver;; hold_gripper;; mret rc.

(** Polls until the gripper is open. *)
Fixpoint await_open (fuel : nat) (deadline : Z) : St D ReturnCode :=
  match fuel with
  | O => stop_and_hold HARDWARE_FAULT
  | S fuel =>
      t ← steady_now;
      if negb (t <? deadline) then stop_and_hold HARDWARE_FAULT
      else
        gripper ← gripper_state;
        if negb (Robotiq.connected gripper) then stop_and_hold NO_RESPONSE
        else if Robotiq.has_operational_fault gripper then stop_and_hold HARDWARE_FAULT
        else if Robotiq.activated gripper && (Robotiq.position gripper >=?. lit32 98 100)
        then on_base (set_ready true);; mret SUCCESS
        else in_world (dw_usleep 5000);; await_open fuel deadline
  end.

Definition activate_gripper : St D bool :=
  gripper ← gripper_state;
  if Robotiq.activated gripper then mret true else in_world fw_gripper_activate.

Definition fr3_move_to_ready_position : St D ReturnCode :=
  d ← get_state;
  require (in_world fw_driver_move_to_ready)
    (if negb (robotiq_ d) then on_base (set_ready true);; mret SUCCESS
     else
       active ← activate_gripper;
       if negb active then hold_driver;; mret HARDWARE_FAULT
       else
         in_world (fw_gripper_set_target f1 (robotiq_default_speed_ d) (robotiq_default_force_ d));;
         t ← steady_now;
         await_open poll_fuel (t + seconds 5)).

Definition fr3_reset_ready_state : St D unit := on_base (set_ready false).
Definition fr3_clear_command_buffers : St D unit := d ← get_state; when_ (driver_fr3_ d) hold_driver;; hold_gripper.
Definition fr3_runtime_hold : St D ReturnCode := Device_runtime_hold fr3_clear_command_buffers.
Definition fr3_get_ready_move_completion_ratio : St D f32 := d ← get_base; mret (if ready d then f1 else f0).
Definition fr3_set_control_mode (target_role : Role) (intent : ControlModeIntent) : St D ReturnCode :=
  mret (if bool_decide (target_role = FOLLOWER) then SUCCESS else NOT_SUPPORTED).
Definition fr3_park_safely : St D ReturnCode := fr3_clear_command_buffers;; mret SUCCESS.
Definition fr3_get_servo_ids : ReturnCode * list Z := (SUCCESS, []).

(** ** The arm as a device; [fr3_topic_step] is [p_topic_->step()] *)

Context (fr3_topic_step : St D ReturnCode).

#[export] Instance fr3_object : DeviceObject D := {|
  clock_now := steady_now;
  Device.park_safely := fr3_park_safely;
  Device.read_hardware_values := fr3_read_hardware_values;
  write_hardware_values := mret SUCCESS;
  move_to_ready_position := fr3_move_to_ready_position;
  operate_as_leader := mret NOT_SUPPORTED;
  operate_as_follower := mret SUCCESS;
  get_observation := fr3_get_observation [];
  set_control_mode := fr3_set_control_mode;
  get_ready_move_completion_ratio := fr3_get_ready_move_completion_ratio;
  reset_ready_state_for_move_to_ready := fr3_reset_ready_state;
  clear_command_buffers_for_move_to_ready := fr3_clear_command_buffers;
  runtime_hold := fr3_runtime_hold;
  set_runtime_force_feedback := Device_set_runtime_force_feedback fr3_set_control_mode;
  driver_open := λ baud_rate, in_world (dw_driver_open baud_rate);
  driver_close := in_world dw_driver_close;
  driver_arm_comm_loss_protection := in_world dw_driver_arm_comm_loss_protection;
  topic_is_running := λ d, dw_topic_is_running (fr3_world d);
  topic_publish_joints := λ msg, in_world (dw_topic_publish_joints msg);
  topic_publish_info := λ msg, in_world (dw_topic_publish_info msg);
  topic_step := fr3_topic_step;
  topic_sleep := in_world dw_topic_sleep;
  topic_stop := in_world dw_topic_stop;
  topic_set_pause_leader_command_listening := λ pause, in_world (dw_topic_set_pause_leader_command_listening pause);
|}.

(** ** Start and stop *)

Definition start_gripper : St D ReturnCode :=
  d ← get_state;
  if negb (robotiq_ d) then mret SUCCESS
  else
    started ← in_world fw_gripper_start;
    if negb started then mret NO_RESPONSE
    else
      t ← steady_now;
      wait_until poll_fuel gripper_connected (t + seconds 2);;
      connected ← gripper_connected;
      mret (if negb connected then NO_RESPONSE else SUCCESS).

Definition fr3_start (baud_rate : Z) : St D ReturnCode :=
  require (Device_start baud_rate)
    (t ← steady_now;
     wait_until poll_fuel driver_valid (t + seconds 3);;
     valid ← driver_valid;
     if negb valid then mret NO_RESPONSE
     else
       require start_gripper
         (d ← get_base;
          when_ (cla_dont_go_to_home_pos (cla_ d)) (hold_driver;; on_base (set_ready true));;
          mret SUCCESS)).

Definition fr3_stop : St D ReturnCode :=
  d ← get_state;
  result ← Device_stop;
  when_ (robotiq_ d) (in_world fw_gripper_stop);;
  mret result.
End device.
