(* ===== verification/Fr3DeviceFacts.v ===== *)
(** * Theorems on the FR3 arm ([DeviceFr3])

    [Watched] records what the device asks of its arm and its gripper.  A command reaches
    both or neither; a ready move that fails over the gripper leaves the arm holding, and it
    ends. *)

From S2P Require Import Prelude.
From S2P Require Import FloatSpec.
From S2P Require Import Control.
From S2P Require Import CanBus.
From S2P Require Import Servo.
From S2P Require Import Joint.
From S2P Require Import Device.
From S2P Require Import JointOwner.
From S2P Require Robotiq.
From S2P Require Import FR3Controller.
From S2P Require Import MotionGenerator.
From S2P Require Import Threads.
From S2P Require Import DriverFr3.
From S2P Require Import Fr3Facts.
From S2P Require Import DeviceFr3.

#[local] Open Scope Z_scope.

(** ** What is asked *)

Inductive Asked :=
| ArmTarget (target : list f64) (rc : ReturnCode) | ArmHold | ArmReady (rc : ReturnCode)
| GripperTarget (position speed force : f32) | GripperHold | GripperActivate (done : bool) | GripperSeen (state : Robotiq.RobotiqState).

Record Watched (X : Type) := mkWatched { under : X; asked : list Asked }.
Arguments mkWatched {X}.
Arguments under {X}.
Arguments asked {X}.
#[export] Instance eta_Watched X : Eta (Watched X) := λ r, mkWatched (under r) (asked r).

Definition unwatched {X A} (m : St X A) : St (Watched X) A := λ x, let '(a, u) := m (under x) in (a, mkWatched u (asked x)).
Definition watched {X A} (m : St X A) (event : A → Asked) : St (Watched X) A := λ x,
  let '(a, u) := m (under x) in (a, mkWatched u (asked x ++ [event a])).

#[export] Instance watched_device_world {X} `{DeviceWorld X} : DeviceWorld (Watched X) := {|
  dw_set_device := λ d x, mkWatched (dw_set_device d (under x)) (asked x);
  dw_now := unwatched dw_now;
  dw_usleep := λ us, unwatched (dw_usleep us);
  dw_group_read_hardware_values := unwatched dw_group_read_hardware_values;
  dw_group_write_hardware_values := unwatched dw_group_write_hardware_values;
  dw_driver_open := λ baud_rate, unwatched (dw_driver_open baud_rate);
  dw_driver_close := unwatched dw_driver_close;
  dw_driver_arm_comm_loss_protection := unwatched dw_driver_arm_comm_loss_protection;
  dw_has_algo := λ x, dw_has_algo (under x);
  dw_topic_is_running := λ x, dw_topic_is_running (under x);
  dw_topic_publish_joints := λ msg, unwatched (dw_topic_publish_joints msg);
  dw_topic_publish_info := λ msg, unwatched (dw_topic_publish_info msg);
  dw_topic_sleep := unwatched dw_topic_sleep;
  dw_topic_stop := unwatched dw_topic_stop;
  dw_topic_set_pause_leader_command_listening := λ pause, unwatched (dw_topic_set_pause_leader_command_listening pause);
|}.

#[export] Instance watched_world {X} `{Fr3DeviceWorld X} : Fr3DeviceWorld (Watched X) := {|
  fw_driver_state := unwatched fw_driver_state;
  fw_driver_set_target := λ target, watched (fw_driver_set_target target) (ArmTarget target);
  fw_driver_hold := watched fw_driver_hold (λ _, ArmHold);
  fw_driver_move_to_ready := watched fw_driver_move_to_ready ArmReady;
  fw_gripper_start := unwatched fw_gripper_start;
  fw_gripper_stop := unwatched fw_gripper_stop;
  fw_gripper_activate := watched fw_gripper_activate GripperActivate;
  fw_gripper_state := watched fw_gripper_state GripperSeen;
  fw_gripper_set_target := λ position speed force, watched (fw_gripper_set_target position speed force) (λ _, GripperTarget position speed force);
  fw_gripper_hold := watched fw_gripper_hold (λ _, GripperHold);
|}.

Section facts.
Context {X : Type} `{Fr3DeviceWorld X} (poll_fuel : nat).
Local Abbreviation D := (DeviceFR3 (Watched X)).

Definition log (d : D) : list Asked := asked (fr3_world d).

(** Only the world changed, and its log by [l]. *)
Definition logged (l : list Asked) (d d' : D) : Prop :=
  log d' = log d ++ l ∧ fr3_base d' = fr3_base d ∧ robotiq_ d' = robotiq_ d ∧
  robotiq_default_speed_ d' = robotiq_default_speed_ d ∧ robotiq_default_force_ d' = robotiq_default_force_ d.

Lemma logged_nil d : logged [] d d.
Proof. split_and!; try done. by rewrite app_nil_r. Qed.
Lemma logged_app l1 l2 d1 d2 d3 : logged l1 d1 d2 → logged l2 d2 d3 → logged (l1 ++ l2) d1 d3.
Proof.
  intros (H1 & H2 & H3 & H4 & H5) (G1 & G2 & G3 & G4 & G5). split_and!; [|congruence..]. by rewrite G1, H1, (assoc_L (++)).
Qed.

Lemma wp_unwatched {A} (m : St X A) Q (d : D) : (∀ a d', logged [] d d' → Q a d') → wp (in_world (unwatched m)) Q d.
Proof.
  intros HQ. unfold wp, in_world, lift_into, unwatched. destruct (m (under (fr3_world d))) as [a x]. apply HQ.
  split_and!; try done. unfold log. cbn. by rewrite app_nil_r.
Qed.
Lemma wp_watched {A} (m : St X A) event Q (d : D) : (∀ a d', logged [event a] d d' → Q a d') → wp (in_world (watched m event)) Q d.
Proof.
  intros HQ. unfold wp, in_world, lift_into, watched. destruct (m (under (fr3_world d))) as [a x]. apply HQ. by split_and!.
Qed.

Lemma wp_gripper_state Q (d : D) : (∀ g d', logged [GripperSeen g] d d' → Q g d') → wp gripper_state Q d.
Proof. apply wp_watched. Qed.

Definition healthy (g : Robotiq.RobotiqState) : bool :=
  Robotiq.connected g && Robotiq.activated g && negb (Robotiq.has_operational_fault g).

Lemma gripper_ready_ok position g : ok (gripper_ready position g) = true →
  isfinite position = true ∧ in_range f0 f1 position ∧ healthy g = true.
Proof.
  unfold gripper_ready, healthy. destruct (negb (isfinite position) || _ || _) eqn:E; [done|].
  rewrite !orb_false_iff, negb_false_iff in E. destruct E as [[Ef E0] E1].
  destruct (Robotiq.connected g); [|done]. destruct (Robotiq.activated g); [|done]. destruct (Robotiq.has_operational_fault g); [done|].
  intros _. split_and!; [done| |done]. assert (is_nan position = false) by by destruct position.
  split; by apply SFltb_false_leb.
Qed.

(** What a refused command leaves in the log. *)
Definition refused (rc : ReturnCode) (e : Asked) : Prop := (∃ g, e = GripperSeen g) ∨ ∃ target, e = ArmTarget target rc.

(** The targets of the arm. *)
Definition arm_values (msg : MsgJoints) : list f64 := map (λ j, to_f64 (msg_pos j)) (take 7 msg).

(** [C22] A command is taken whole or not at all.  If it succeeds it had a number for
    every joint and, with a gripper, an opening between 0 and 1 for one that was connected,
    activated and healthy; the arm got the seven targets and the gripper its opening.
    Otherwise the gripper got nothing, and the arm at most a target its driver refused. *)
Theorem apply_action_whole msg (d : D) :
  let '(rc, d') := fr3_apply_action msg d in
  if ok rc then
    Z.of_nat (length msg) = dof_total_ d ∧ forallb isfinite (map msg_pos (take 7 msg)) = true ∧
    if robotiq_ d then
      isfinite (msg_gripper msg) = true ∧ in_range f0 f1 (msg_gripper msg) ∧
      ∃ g, healthy g = true ∧
        log d' = log d ++ [GripperSeen g; ArmTarget (arm_values msg) SUCCESS;
                           GripperTarget (msg_gripper msg) (robotiq_default_speed_ d) (robotiq_default_force_ d)]
    else log d' = log d ++ [ArmTarget (arm_values msg) SUCCESS]
  else ∃ l, log d' = log d ++ l ∧ Forall (refused rc) l.
Proof.
  apply (wp_let (fr3_apply_action msg)). unfold fr3_apply_action. do 2 wp_step.
  assert (∃ l, log d = log d ++ l ∧ Forall (refused INVALID_PARAM) l) as Hnone by (exists []; by rewrite app_nil_r).
  wp_step; [wp_step; exact Hnone|]. apply negb_false_iff, Z.eqb_eq in H0.
  unfold arm_target. destruct (forallb isfinite _) eqn:Ef; [|wp_step; exact Hnone]. apply wp_require.
  assert (∀ d1 l, logged l d d1 → Forall (λ e, ∃ g, e = GripperSeen g) l →
    wp (result ← in_world (fw_driver_set_target (map to_f64 (map msg_pos (take 7 msg))));
        when_ (ok result && robotiq_ d) (in_world (fw_gripper_set_target (msg_gripper msg) (robotiq_default_speed_ d) (robotiq_default_force_ d)));;
        mret result)
      (λ rc d', if ok rc then log d' = log d ++ l ++ [ArmTarget (arm_values msg) SUCCESS] ++
           (if robotiq_ d then [GripperTarget (msg_gripper msg) (robotiq_default_speed_ d) (robotiq_default_force_ d)] else [])
         else ∃ l, log d' = log d ++ l ∧ Forall (refused rc) l) d1) as Hsend.
  { intros d1 l Hl Hseen. wp_step. apply wp_watched. intros rc d2 H2. wp_step. rewrite map_map in H2.
    pose proof (logged_app _ _ _ _ _ Hl H2) as H12. apply wp_when; intros Hb.
    - apply andb_true_iff in Hb as [Hok Hr]. apply wp_watched. intros u d3 H3. wp_step.
      pose proof (logged_app _ _ _ _ _ H12 H3) as [E _]. rewrite Hok, Hr, E. destruct rc; try done. by rewrite <- (assoc_L (++)).
    - wp_step. destruct H12 as [E _]. destruct (ok rc) eqn:Hok.
      + cbn in Hb. rewrite Hb, E, app_nil_r. by destruct rc.
      + exists (l ++ [ArmTarget (arm_values msg) rc]). split; [exact E|]. apply Forall_app. split.
        * eapply Forall_impl; [exact Hseen|]. intros e [g ->]. left. by exists g.
        * apply Forall_singleton. right. by eexists. }
  destruct (robotiq_ d) eqn:Er.
  - wp_step. apply wp_gripper_state. intros g d1 H1. wp_step. destruct (ok (gripper_ready (msg_gripper msg) g)) eqn:Eg.
    + eapply wp_mono; [apply (Hsend d1 _ H1); apply Forall_singleton; by eexists|]. intros rc d' Hd'. cbv beta in *.
      destruct (ok rc); [|exact Hd']. apply gripper_ready_ok in Eg as (G1 & G2 & G3). split_and!; [done..|]. by exists g.
    + destruct H1 as [E _]. exists [GripperSeen g]. split; [exact E|]. apply Forall_singleton. left. by exists g.
  - wp_step. cbn [ok]. change (ok SUCCESS) with true. cbv iota. eapply wp_mono; [apply (Hsend d [] (logged_nil d)); constructor|].
    intros rc d' Hd'. cbv beta in *. by destruct (ok rc).
Qed.

(** ** The ready move *)

Definition open_gripper (g : Robotiq.RobotiqState) : Prop := healthy g = true ∧ lit32 98 100 <=?. Robotiq.position g = true.

(** How a poll for the open gripper ends. *)
Definition await_outcome (rc : ReturnCode) (d d' : D) : Prop :=
  ∃ l, log d' = log d ++ l ∧
    if ok rc then ready (fr3_base d') = true ∧ ∃ l0 g, l = l0 ++ [GripperSeen g] ∧ open_gripper g
    else ∃ l0, l = l0 ++ [ArmHold; GripperHold].

Lemma logged_trans l (d1 d2 d3 : D) rc : logged l d1 d2 → await_outcome rc d2 d3 → await_outcome rc d1 d3.
Proof.
  intros [E1 _] (l2 & E2 & Hl). exists (l ++ l2). split; [by rewrite E2, E1, (assoc_L (++))|]. destruct (ok rc).
  - destruct Hl as (Hr & l0 & g & -> & Hg). split; [done|]. exists (l ++ l0), g. by rewrite (assoc_L (++)).
  - destruct Hl as (l0 & ->). exists (l ++ l0). by rewrite (assoc_L (++)).
Qed.

Lemma stop_and_hold_outcome rc (d : D) : ok rc = false → robotiq_ d = true → wp (stop_and_hold rc) (λ rc' d', rc' = rc ∧ await_outcome rc d d') d.
Proof.
  intros Hrc Hr. unfold stop_and_hold, hold_driver, hold_gripper. do 2 wp_step. apply wp_watched. intros u d1 H1. do 5 wp_step.
  destruct H1 as (E1 & B1 & R1 & _).
  - apply wp_watched. intros u' d2 (E2 & _). wp_step. split; [done|]. exists [ArmHold; GripperHold]. rewrite Hrc, E2, E1, <- (assoc_L (++)).
    split; [done|]. by exists [].
  - destruct H1 as (E1 & B1 & R1 & _). congruence.
Qed.

Lemma await_open_outcome fuel deadline : ∀ d : D, robotiq_ d = true →
  wp (await_open fuel deadline) (λ rc d', await_outcome rc d d') d.
Proof.
  assert (∀ rc (d0 d : D) l, ok rc = false → robotiq_ d0 = true → logged l d0 d → wp (stop_and_hold rc) (λ rc d', await_outcome rc d0 d') d) as Hup.
  { intros rc d0 d l Hrc Hr Hl. eapply wp_mono; [apply stop_and_hold_outcome; [done|]|].
    - destruct Hl as (_ & _ & -> & _). exact Hr.
    - intros rc' d' [-> Ho]. by eapply logged_trans. }
  induction fuel as [|fuel IH]; intros d Hr; cbn [await_open]; [apply (Hup _ d d []); [done..|apply logged_nil]|].
  wp_step. apply wp_unwatched. intros t d1 H1. wp_step; [by apply (Hup _ d d1 [])|].
  wp_step. apply wp_gripper_state. intros g d2 H2. pose proof (logged_app _ _ _ _ _ H1 H2) as H12. cbn [app] in H12.
  wp_step; [by apply (Hup _ d d2 [GripperSeen g])|]. wp_step; [by apply (Hup _ d d2 [GripperSeen g])|]. wp_step.
  - unfold on_base. do 3 wp_step. destruct H12 as (E & _). exists [GripperSeen g]. split; [exact E|]. cbn [ok]. change (ok SUCCESS) with true. cbv iota.
    split; [done|]. exists [], g. split; [done|]. unfold open_gripper, healthy.
    match goal with He : Robotiq.activated g && _ = true |- _ => apply andb_true_iff in He as [-> ->] end.
    match goal with He : negb (Robotiq.connected g) = false |- _ => apply negb_false_iff in He; rewrite He end.
    match goal with He : Robotiq.has_operational_fault g = false |- _ => by rewrite He end.
  - wp_step. apply wp_unwatched. intros u d3 Hd3. pose proof (logged_app _ _ _ _ _ H12 Hd3) as H13.
    eapply wp_mono; [apply IH|].
    + destruct H13 as (_ & _ & -> & _). exact Hr.
    + intros rc d' Ho. by eapply logged_trans.
Qed.

(** [C23] How a ready move ends, with everything it asks for.  If it succeeds the arm's move
    did, the device is ready, and a gripper was last seen connected, activated, healthy and
    open.  If it fails: the driver's own ready move failed, whose code is returned and after
    which nothing more is asked, so the arm may have moved part of the way and the device
    holds nothing; or the arm arrived and the last requests are the holds of the arm and
    the gripper; or the arm arrived and the gripper could not be activated, then it is sent
    no target, only the arm is held, and the code is HARDWARE_FAULT. *)
Theorem ready_move_outcomes (d : D) :
  let '(rc, d') := fr3_move_to_ready_position poll_fuel d in
  ∃ l, log d' = log d ++ l ∧
    if ok rc then
      ready (fr3_base d') = true ∧ ArmReady SUCCESS ∈ l ∧
      (robotiq_ d = true → ∃ l0 g, l = l0 ++ [GripperSeen g] ∧
         Robotiq.connected g = true ∧ Robotiq.activated g = true ∧ Robotiq.has_operational_fault g = false ∧
         lit32 98 100 <=?. Robotiq.position g = true)
    else
      l = [ArmReady rc] ∨ (∃ l0, l = ArmReady SUCCESS :: l0 ++ [ArmHold; GripperHold]) ∨
      rc = HARDWARE_FAULT ∧ ∃ g, Robotiq.activated g = false ∧
        l = [ArmReady SUCCESS; GripperSeen g; GripperActivate false; ArmHold].
Proof.
  apply (wp_let (fr3_move_to_ready_position poll_fuel)). unfold fr3_move_to_ready_position. do 2 wp_step. apply wp_require.
  apply wp_watched. intros rc d1 H1. destruct (ok rc) eqn:Hok; [|].
  2: { destruct H1 as [E _]. exists [ArmReady rc]. split; [exact E|]. by left. }
  assert (rc = SUCCESS) as -> by by destruct rc. destruct (robotiq_ d) eqn:Er; cbn [negb].
  2: { unfold on_base. do 3 wp_step. destruct H1 as [E _]. exists [ArmReady SUCCESS]. split; [exact E|].
       change (ok SUCCESS) with true. cbv iota. split_and!; [done|by apply list_elem_of_singleton|done]. }
  assert (robotiq_ d1 = true) as Er1 by (destruct H1 as (_ & _ & -> & _); exact Er).
  wp_step. unfold activate_gripper. wp_step. apply wp_gripper_state. intros g d2 H2. pose proof (logged_app _ _ _ _ _ H1 H2) as H12.
  assert (∀ active d3 l, logged l d2 d3 → (active = false → Robotiq.activated g = false ∧ l = [GripperActivate false]) →
    wp (if negb active then hold_driver;; mret HARDWARE_FAULT
        else in_world (fw_gripper_set_target f1 (robotiq_default_speed_ d) (robotiq_default_force_ d));;
             t ← steady_now; await_open poll_fuel (t + seconds 5))
      (λ rc d', ∃ l, log d' = log d ++ l ∧
         if ok rc then ready (fr3_base d') = true ∧ ArmReady SUCCESS ∈ l ∧
           (true = true → ∃ l0 g, l = l0 ++ [GripperSeen g] ∧
              Robotiq.connected g = true ∧ Robotiq.activated g = true ∧ Robotiq.has_operational_fault g = false ∧
              lit32 98 100 <=?. Robotiq.position g = true)
         else l = [ArmReady rc] ∨ (∃ l0, l = ArmReady SUCCESS :: l0 ++ [ArmHold; GripperHold]) ∨
           rc = HARDWARE_FAULT ∧ ∃ g, Robotiq.activated g = false ∧
             l = [ArmReady SUCCESS; GripperSeen g; GripperActivate false; ArmHold]) d3) as Hgo.
  { intros active d3 l Hl Hall. pose proof (logged_app _ _ _ _ _ H12 Hl) as H13. wp_step.
    - unfold hold_driver. do 2 wp_step. apply wp_watched. intros u d4 H4. do 2 wp_step.
      destruct (logged_app _ _ _ _ _ H13 H4) as [E _]. destruct Hall as [Hg ->]; [by apply negb_true_iff|].
      eexists. split; [exact E|]. right. right. split; [done|]. by exists g.
    - wp_step. apply wp_watched. intros u d4 H4. wp_step. apply wp_unwatched. intros t d5 H5.
      pose proof (logged_app _ _ _ _ _ (logged_app _ _ _ _ _ H13 H4) H5) as H15.
      eapply wp_mono; [apply await_open_outcome|].
      { destruct H15 as (_ & _ & -> & _). exact Er. }
      intros rc d' (l' & E' & Ho). destruct H15 as (E & _). eexists. rewrite E', E, <- (assoc_L (++)). split; [reflexivity|].
      destruct (ok rc).
      + destruct Ho as (Hready & l0 & g' & -> & Hh & Hp). split_and!; [done|by left|]. intros _. eexists _, g'.
        rewrite (assoc_L (++)). split; [reflexivity|]. unfold healthy in Hh. rewrite !andb_true_iff, negb_true_iff in Hh. tauto.
      + destruct Ho as (l0 & ->). right. left. eexists. by rewrite (assoc_L (++)). }
  wp_step; intros.
  - wp_step. by apply (Hgo true d2 []); [apply logged_nil|].
  - apply wp_watched. intros active d3 H3'. by apply (Hgo active d3 _ H3'); intros ->.
Qed.

(** ** The polls end *)
End facts.

(** Sleeping takes its time, and no clock goes back. *)
Class Fr3Clock (X : Type) `{Fr3DeviceWorld X} := {
  fw_clock : X → Z;
  fw_now : ∀ x : X, fw_clock x ≤ (dw_now x).1 ≤ fw_clock (dw_now x).2;
  fw_sleep : ∀ us (x : X), 0 ≤ us → fw_clock x + 1000 * us ≤ fw_clock (dw_usleep us x).2;
  fw_gripper_clock : ∀ x : X, fw_clock x ≤ fw_clock (fw_gripper_state x).2;
  fw_driver_clock : ∀ x : X, fw_clock x ≤ fw_clock (fw_driver_state x).2;
}.

Section clock.
Context {X : Type} `{Fr3Clock X}.
Local Abbreviation D := (DeviceFR3 X).

Definition dev_clock (d : D) : Z := fw_clock (fr3_world d).

(** A poll of the clock: after the deadline it says so. *)
Lemma steady_now_clock (d : D) : wp steady_now (λ t d', dev_clock d ≤ t ≤ dev_clock d') d.
Proof.
  unfold wp, steady_now, in_world, lift_into, dev_clock. pose proof (fw_now (fr3_world d)) as Hn.
  by destruct (dw_now (fr3_world d)).
Qed.

Lemma gripper_state_clock (d : D) : dev_clock d ≤ dev_clock (gripper_state d).2.
Proof.
  unfold gripper_state, in_world, lift_into, dev_clock. pose proof (fw_gripper_clock (fr3_world d)) as Hg.
  by destruct (fw_gripper_state (fr3_world d)).
Qed.
Lemma sleep_clock us (d : D) : 0 ≤ us → dev_clock d + 1000 * us ≤ dev_clock (in_world (dw_usleep us) d).2.
Proof.
  intros Hu. unfold in_world, lift_into, dev_clock. pose proof (fw_sleep us (fr3_world d) Hu) as Hs.
  by destruct (dw_usleep us (fr3_world d)).
Qed.

(** One poll, where what follows does not depend on the fuel. *)
Lemma await_open_step f f' deadline (d : D) :
  (∀ d', dev_clock d < deadline → dev_clock d + 5000000 ≤ dev_clock d' → await_open f deadline d' = await_open f' deadline d') →
  await_open (S f) deadline d = await_open (S f') deadline d.
Proof.
  intros Hf. cbn [await_open]. rewrite !(bind_run steady_now). destruct (steady_now_clock d) as [Ht Hd].
  destruct (steady_now d) as [t d1]. cbn [fst snd] in *. destruct (t <? deadline) eqn:E; cbn [negb]; [|done]. apply Z.ltb_lt in E.
  rewrite !(bind_run gripper_state). pose proof (gripper_state_clock d1) as Hg. destruct (gripper_state d1) as [g d2]. cbn [fst snd] in *.
  destruct (negb (Robotiq.connected g)); [done|]. destruct (Robotiq.has_operational_fault g); [done|].
  destruct (Robotiq.activated g && _); [done|]. rewrite !(bind_run (in_world (dw_usleep 5000))).
  pose proof (sleep_clock 5000 d2 ltac:(lia)) as Hs. destruct (in_world (dw_usleep 5000) d2) as [u d3]. cbn [fst snd] in *. apply Hf; lia.
Qed.

(** Enough fuel: one poll more than the five-millisecond steps to the deadline. *)
Lemma await_open_fuel k extra deadline : ∀ d : D, deadline - dev_clock d ≤ 5000000 * Z.of_nat k →
  await_open (S k + extra) deadline d = await_open (S k) deadline d.
Proof.
  induction k as [|k IH]; intros d Hk; apply await_open_step; intros d' Hlt Hd'; [lia|]. apply IH. lia.
Qed.

Lemma wait_until_step f f' condition deadline (d : D) : (∀ d, dev_clock d ≤ dev_clock (condition d).2) →
  (∀ d', dev_clock d < deadline → dev_clock d + 5000000 ≤ dev_clock d' → wait_until f condition deadline d' = wait_until f' condition deadline d') →
  wait_until (S f) condition deadline d = wait_until (S f') condition deadline d.
Proof.
  intros Hc Hf. cbn [wait_until]. rewrite !(bind_run condition). pose proof (Hc d) as Hd. destruct (condition d) as [[] d1]; [done|].
  cbn [fst snd] in *. rewrite !(bind_run steady_now). destruct (steady_now_clock d1) as [Ht Hd1]. destruct (steady_now d1) as [t d2].
  cbn [fst snd] in *. destruct (t <? deadline) eqn:E; cbn [negb]; [|done]. apply Z.ltb_lt in E. rewrite !(bind_run (in_world (dw_usleep 5000))).
  pose proof (sleep_clock 5000 d2 ltac:(lia)) as Hs. destruct (in_world (dw_usleep 5000) d2) as [u d3]. cbn [fst snd] in *. apply Hf; lia.
Qed.

Lemma wait_until_ends condition k extra deadline : (∀ d, dev_clock d ≤ dev_clock (condition d).2) →
  ∀ d : D, deadline - dev_clock d ≤ 5000000 * Z.of_nat k →
  wait_until (S k + extra) condition deadline d = wait_until (S k) condition deadline d.
Proof.
  intros Hc. induction k as [|k IH]; intros d Hk; apply wait_until_step; try done; intros d' Hlt Hd'; [lia|]. apply IH. lia.
Qed.

Lemma driver_valid_clock (d : D) : dev_clock d ≤ dev_clock (driver_valid d).2.
Proof.
  unfold driver_valid. rewrite bind_run. unfold in_world, lift_into, dev_clock. pose proof (fw_driver_clock (fr3_world d)) as Hg.
  by destruct (fw_driver_state (fr3_world d)).
Qed.
Lemma gripper_connected_clock (d : D) : dev_clock d ≤ dev_clock (gripper_connected d).2.
Proof. unfold gripper_connected. rewrite bind_run. apply gripper_state_clock. Qed.

(** A wait that starts now. *)
Lemma from_now {A} (m m' : Z → St D A) (d : D) :
  (∀ t d', t ≤ dev_clock d' → m t d' = m' t d') → (t ← steady_now; m t) d = (t ← steady_now; m' t) d.
Proof.
  intros Hm. rewrite !bind_run. destruct (steady_now_clock d) as [_ Ht]. destruct (steady_now d) as [t d']. by apply Hm.
Qed.

Lemma bind_same {S A B} (m : St S A) (k k' : A → St S B) s : (∀ a s, k a s = k' a s) → (m ≫= k) s = (m ≫= k') s.
Proof. intros Hk. rewrite !bind_run. apply Hk. Qed.

Lemma require_same {S} (m k k' : St S ReturnCode) s : (∀ s, k s = k' s) → require m k s = require m k' s.
Proof. intros Hk. unfold require. apply bind_same. intros rc s'. by destruct (ok rc). Qed.

(** Two amounts of fuel between which the waits do not tell. *)
Section same_fuel.
Context (n n' : nat)
  (Hopen : ∀ t (d : D), t ≤ dev_clock d → await_open n (t + seconds 5) d = await_open n' (t + seconds 5) d)
  (Harm : ∀ t (d : D), t ≤ dev_clock d → wait_until n driver_valid (t + seconds 3) d = wait_until n' driver_valid (t + seconds 3) d)
  (Hgripper : ∀ t (d : D), t ≤ dev_clock d → wait_until n gripper_connected (t + seconds 2) d = wait_until n' gripper_connected (t + seconds 2) d).

Lemma move_same_fuel (d : D) : fr3_move_to_ready_position n d = fr3_move_to_ready_position n' d.
Proof.
  unfold fr3_move_to_ready_position. apply bind_same. intros d0 d1. apply require_same. intros d2.
  destruct (robotiq_ d0); cbn [negb]; [|reflexivity]. apply bind_same. intros active d3. destruct active; cbn [negb]; [|reflexivity].
  apply bind_same. intros u d4. apply from_now. intros t d5 Ht. by apply Hopen.
Qed.

Lemma start_gripper_same_fuel (d : D) : start_gripper n d = start_gripper n' d.
Proof.
  unfold start_gripper. apply bind_same. intros d4 d5. destruct (robotiq_ d4); cbn [negb]; [|reflexivity]. apply bind_same. intros started d6.
  destruct started; cbn [negb]; [|reflexivity]. apply from_now. intros t' d7 Ht'.
  by rewrite !(bind_run (wait_until _ _ _)), Hgripper.
Qed.

Lemma start_same_fuel topic_step baud_rate (d : D) : fr3_start n topic_step baud_rate d = fr3_start n' topic_step baud_rate d.
Proof.
  unfold fr3_start. apply require_same. intros d1. apply from_now. intros t d2 Ht.
  rewrite !(bind_run (wait_until _ _ _)), Harm by done.
  apply bind_same. intros valid d3. destruct valid; cbn [negb]; [|reflexivity].
  unfold require. rewrite !(bind_run (start_gripper _)). by rewrite start_gripper_same_fuel.
Qed.
End same_fuel.

(** The waits of the FR3 arm end at their deadlines: on a clock that does not go
    back and sleeps that last, 1001 polls are enough for a ready move and for a start, and
    more fuel changes nothing. *)
Theorem fr3_waits_end extra baud_rate topic_step (d : D) :
  fr3_move_to_ready_position (S 1000 + extra) d = fr3_move_to_ready_position (S 1000) d ∧
  fr3_start (S 1000 + extra) topic_step baud_rate d = fr3_start (S 1000) topic_step baud_rate d.
Proof.
  assert (∀ t (d : D) s, t ≤ dev_clock d → s ≤ 5 → t + seconds s - dev_clock d ≤ 5000000 * Z.of_nat 1000) as Hd by (unfold seconds; intros; lia).
  split; [apply move_same_fuel|apply start_same_fuel]; intros t d' Ht.
  - by apply await_open_fuel, Hd.
  - apply wait_until_ends; [apply driver_valid_clock|by apply Hd].
  - apply wait_until_ends; [apply gripper_connected_clock|by apply Hd].
Qed.
End clock.

(** ** The FR3 driver and a gripper as the device's parts

    The driver's requests run alone and its ready move succeeds; the gripper is where it
    was sent once the device has slept. *)

Record SimParts := mkSimParts { sp_driver : Fr3World SimFranka; sp_gripper : Robotiq.RobotiqState; sp_time : Z }.
#[export] Instance eta_SimParts : Eta SimParts := λ r, mkSimParts (sp_driver r) (sp_gripper r) (sp_time r).

Definition on_driver {A} (t : Thread (Fr3World SimFranka) A) : St SimParts A :=
  lift_into sp_driver (λ d p, p <| sp_driver := d |>) (solo t).
Definition sp_ok : St SimParts ReturnCode := mret SUCCESS.

Definition gripper_at (position target : f32) (g : Robotiq.RobotiqState) : Robotiq.RobotiqState :=
  Robotiq.mkRobotiqState (Robotiq.connected g) (Robotiq.activated g) (Robotiq.ever_activated g) false
    position f0 f0 f0 target (Robotiq.fault g).

#[export] Instance sim_parts_device_world : DeviceWorld SimParts := {|
  dw_set_device := λ _ p, p;
  dw_now := λ p, (sp_time p, p);
  dw_usleep := λ us p, (tt, p <| sp_time := sp_time p + 1000 * us |>
    <| sp_gripper := gripper_at (Robotiq.target (sp_gripper p)) (Robotiq.target (sp_gripper p)) (sp_gripper p) |>);
  dw_group_read_hardware_values := sp_ok;
  dw_group_write_hardware_values := sp_ok;
  dw_driver_open := λ _, on_driver open;
  dw_driver_close := on_driver close;
  dw_driver_arm_comm_loss_protection := sp_ok;
  dw_has_algo := λ _, false;
  dw_topic_is_running := λ _, true;
  dw_topic_publish_joints := λ _, sp_ok;
  dw_topic_publish_info := λ _, sp_ok;
  dw_topic_sleep := sp_ok;
  dw_topic_stop := sp_ok;
  dw_topic_set_pause_leader_command_listening := λ _, mret tt;
|}.

#[export] Instance sim_parts : Fr3DeviceWorld SimParts := {|
  fw_driver_state := on_driver state;
  fw_driver_set_target := λ target, on_driver (fr3_set_target target);
  fw_driver_hold := on_driver fr3_hold;
  fw_driver_move_to_ready := sp_ok;
  fw_gripper_start := mret true;
  fw_gripper_stop := mret tt;
  fw_gripper_activate := mret true;
  fw_gripper_state := λ p, (sp_gripper p, p);
  fw_gripper_set_target := λ position _ _, modify (λ p, p <| sp_gripper := gripper_at (Robotiq.position (sp_gripper p)) position (sp_gripper p) |>);
  fw_gripper_hold := modify (λ p, p <| sp_gripper := gripper_at (Robotiq.position (sp_gripper p)) (Robotiq.position (sp_gripper p)) (sp_gripper p) |>);
|}.

Lemma sp_now (p : SimParts) : sp_time p ≤ (dw_now p).1 ≤ sp_time (dw_now p).2.
Proof. cbn. lia. Qed.
Lemma sp_sleep us (p : SimParts) : 0 ≤ us → sp_time p + 1000 * us ≤ sp_time (dw_usleep us p).2.
Proof. cbn. lia. Qed.
Lemma sp_gripper_clock (p : SimParts) : sp_time p ≤ sp_time (fw_gripper_state p).2.
Proof. cbn. lia. Qed.
Lemma sp_driver_clock (p : SimParts) : sp_time p ≤ sp_time (fw_driver_state p).2.
Proof. cbn. unfold on_driver, lift_into. destruct (solo state (sp_driver p)). cbn. lia. Qed.
#[export] Instance sim_parts_clock : Fr3Clock SimParts := {|
  fw_clock := sp_time; fw_now := sp_now; fw_sleep := sp_sleep; fw_gripper_clock := sp_gripper_clock; fw_driver_clock := sp_driver_clock;
|}.

(** A gripper that is connected and activated. *)
Definition sim_gripper : Robotiq.RobotiqState := Robotiq.mkRobotiqState true true true false f0 f0 f0 f0 f0 0.
Definition fr3_command_line : CommandLine := mkCommandLine 100 f1 f1 0 false.
Definition sim_fr3 : DeviceFR3 SimParts := mkDeviceFR3
  (new_DeviceBase follower_arm fr3_command_line PARALLEL)
  (mkSimParts (mkFr3World opened_fr3 (mkSimFranka (replicate 9 resting) resting 0)) sim_gripper 0) true true f1 f1.

Lemma fr3_waits_end_witness : let d := sim_fr3 in
  fr3_move_to_ready_position (S 1000 + 500) d = fr3_move_to_ready_position (S 1000) d ∧
  fr3_start (S 1000 + 500) (mret SUCCESS) 0 d = fr3_start (S 1000) (mret SUCCESS) 0 d.
Proof. exact (fr3_waits_end 500 0 (mret SUCCESS) sim_fr3). Defined.

(** A ready move that opens the gripper, a command, and one that is refused. *)
Definition wide_open : DataJoint := mkDataJoint (lit32 1 2) f0 f0 f0 f0 f0.
Definition near_msg : MsgJoints := map (λ x, mkDataJoint (to_f32 x) f0 f0 f0 f0 f0) near_pose ++ [wide_open].

Lemma sim_fr3_runs :
  let '(rc1, d1) := fr3_move_to_ready_position 1001 sim_fr3 in
  let '(rc2, d2) := fr3_apply_action near_msg d1 in
  let '(rc3, d3) := fr3_apply_action (take 7 near_msg ++ [mkDataJoint (f32_of_Z 2) f0 f0 f0 f0 f0]) d2 in
  rc1 = SUCCESS ∧ ready (fr3_base d1) = true ∧ rc2 = SUCCESS ∧
  target_pending_ (fr3 (sp_driver (fr3_world d2))) = true ∧ Robotiq.target (sp_gripper (fr3_world d2)) = lit32 1 2 ∧
  rc3 = INVALID_PARAM ∧ fr3_world d3 = fr3_world d2.
Proof. vm_compute. by split_and!. Qed.

(** The three failures: an arm whose driver gives up, a gripper that is lost under way, and
    one that cannot be activated. *)
Record FailingParts := mkFailingParts { fp_parts : SimParts; fp_arm : ReturnCode; fp_activates : bool }.
#[export] Instance eta_FailingParts : Eta FailingParts := λ r, mkFailingParts (fp_parts r) (fp_arm r) (fp_activates r).
Definition on_parts {A} (m : St SimParts A) : St FailingParts A := lift_into fp_parts (λ p f, f <| fp_parts := p |>) m.

#[export] Instance failing_device_world : DeviceWorld FailingParts := {|
  dw_set_device := λ _ p, p;
  dw_now := on_parts dw_now;
  dw_usleep := λ us, on_parts (dw_usleep us);
  dw_group_read_hardware_values := on_parts sp_ok;
  dw_group_write_hardware_values := on_parts sp_ok;
  dw_driver_open := λ baud_rate, on_parts (dw_driver_open baud_rate);
  dw_driver_close := on_parts dw_driver_close;
  dw_driver_arm_comm_loss_protection := on_parts sp_ok;
  dw_has_algo := λ _, false;
  dw_topic_is_running := λ _, true;
  dw_topic_publish_joints := λ _, on_parts sp_ok;
  dw_topic_publish_info := λ _, on_parts sp_ok;
  dw_topic_sleep := on_parts sp_ok;
  dw_topic_stop := on_parts sp_ok;
  dw_topic_set_pause_leader_command_listening := λ _, mret tt;
|}.

#[export] Instance failing_parts : Fr3DeviceWorld FailingParts := {|
  fw_driver_state := on_parts fw_driver_state;
  fw_driver_set_target := λ target, on_parts (fw_driver_set_target target);
  fw_driver_hold := on_parts fw_driver_hold;
  fw_driver_move_to_ready := gets fp_arm;
  fw_gripper_start := mret true;
  fw_gripper_stop := mret tt;
  fw_gripper_activate := gets fp_activates;
  fw_gripper_state := on_parts fw_gripper_state;
  fw_gripper_set_target := λ position speed force, on_parts (fw_gripper_set_target position speed force);
  fw_gripper_hold := on_parts fw_gripper_hold;
|}.

Definition failing_fr3 (arm : ReturnCode) (activates : bool) (g : Robotiq.RobotiqState) : DeviceFR3 (Watched FailingParts) := mkDeviceFR3
  (new_DeviceBase follower_arm fr3_command_line PARALLEL)
  (mkWatched (mkFailingParts ((fr3_world sim_fr3) <| sp_gripper := g |>) arm activates) []) true true f1 f1.
Definition unplugged_gripper : Robotiq.RobotiqState := Robotiq.mkRobotiqState false true true false f0 f0 f0 f0 f0 0.
Definition unactivated_gripper : Robotiq.RobotiqState := Robotiq.mkRobotiqState true false false false f0 f0 f0 f0 f0 0.

Lemma failing_fr3_runs :
  let '(rc1, d1) := fr3_move_to_ready_position 1001 (failing_fr3 NO_RESPONSE true sim_gripper) in
  let '(rc2, d2) := fr3_move_to_ready_position 1001 (failing_fr3 SUCCESS true unplugged_gripper) in
  let '(rc3, d3) := fr3_move_to_ready_position 1001 (failing_fr3 SUCCESS false unactivated_gripper) in
  rc1 = NO_RESPONSE ∧ log d1 = [ArmReady NO_RESPONSE] ∧
  rc2 = NO_RESPONSE ∧ drop 4 (log d2) = [ArmHold; GripperHold] ∧
  rc3 = HARDWARE_FAULT ∧ log d3 = [ArmReady SUCCESS; GripperSeen unactivated_gripper; GripperActivate false; ArmHold].
Proof. vm_compute. by split_and!. Qed.
