(* ===== verification/TextNumber.v ===== *)
(** * Numbers in text (std::stof, std::stod, std::getline)

    What the program uses of the language's library to read comma-separated numbers:
    [strtof] and [strtod] in the C locale with the longest prefix that is a number, the
    exceptions of [std::stof] and [std::stod], and [std::getline] with a delimiter.

    Whether a result too small for the format sets ERANGE is left to the
    implementation: [underflow_is_error]. *)

From Stdlib Require Import Ascii.
From S2P Require Import Prelude.
From S2P Require Import FloatSpec.

#[local] Open Scope Z_scope.

(** ** Characters *)

Definition char_code (c : ascii) : Z := Z.of_N (N_of_ascii c).
Definition isspace (c : ascii) : bool := (char_code c =? 32) || ((9 <=? char_code c) && (char_code c <=? 13)).
Definition is_char (c d : ascii) : bool := Ascii.eqb c d.

Definition dec_digit (c : ascii) : option Z :=
  let n := char_code c - 48 in if (0 <=? n) && (n <=? 9) then Some n else None.
Definition hex_digit (c : ascii) : option Z :=
  let n := char_code c in
  if (97 <=? n) && (n <=? 102) then Some (n - 87)
  else if (65 <=? n) && (n <=? 70) then Some (n - 55) else dec_digit c.

(** The digits at the front: their value, their number and what follows. *)
Fixpoint digits (digit : ascii → option Z) (radix value : Z) (count : nat) (s : list ascii) : Z * nat * list ascii :=
  match s with
  | c :: rest =>
      match digit c with
      | Some d => digits digit radix (value * radix + d) (S count) rest
      | None => (value, count, s)
      end
  | [] => (value, count, s)
  end.

(** The front of [s] is [word], whatever the case of its letters. *)
Definition to_lower (c : ascii) : ascii :=
  let n := N_of_ascii c in if (65 <=? n)%N && (n <=? 90)%N then ascii_of_N (n + 32) else c.
Fixpoint strip_word (word s : list ascii) : option (list ascii) :=
  match word, s with
  | [], _ => Some s
  | w :: word, c :: s => if is_char w (to_lower c) then strip_word word s else None
  | _, [] => None
  end.
Definition word (s : string) : list ascii := String.list_ascii_of_string s.

(** ** The subject sequence *)

Inductive Subject :=
| SubjectFinite (mantissa radix exponent : Z)       (* mantissa * radix ^ exponent *)
| SubjectInfinity
| SubjectNan.

(** Digits with an optional point: the mantissa, how many digits follow the point, what
    follows; nothing without any digit. *)
Definition mantissa (digit : ascii → option Z) (radix : Z) (s : list ascii) : option (Z * Z * list ascii) :=
  let '(whole, n, rest) := digits digit radix 0 0 s in
  match rest with
  | c :: after_point =>
      if is_char c "." then
        let '(value, m, rest) := digits digit radix whole 0 after_point in
        if (n + m =? 0)%nat then None else Some (value, Z.of_nat m, rest)
      else if (n =? 0)%nat then None else Some (whole, 0, rest)
  | [] => if (n =? 0)%nat then None else Some (whole, 0, rest)
  end.

(** [mark], a sign and digits, or nothing. *)
Definition exponent_part (mark : ascii) (s : list ascii) : Z * list ascii :=
  match s with
  | c :: rest =>
      if is_char (to_lower c) mark then
        let '(negative, unsigned) :=
          match rest with
          | d :: rest' => if is_char d "-" then (true, rest') else if is_char d "+" then (false, rest') else (false, rest)
          | [] => (false, rest)
          end in
        let '(value, n, rest') := digits dec_digit 10 0 0 unsigned in
        if (n =? 0)%nat then (0, s) else ((if negative then - value else value), rest')
      else (0, s)
  | [] => (0, s)
  end.

(** [nan] with an optional sequence in parentheses. *)
Fixpoint nan_sequence (s : list ascii) : option (list ascii) :=
  match s with
  | c :: rest =>
      if is_char c ")" then Some rest
      else if bool_decide (is_Some (hex_digit c)) || ((97 <=? char_code (to_lower c)) && (char_code (to_lower c) <=? 122)) || is_char c "_"
      then nan_sequence rest else None
  | [] => None
  end.

Definition decimal_subject (s : list ascii) : option (Subject * list ascii) :=
  '(value, fraction, rest) ← mantissa dec_digit 10 s;
  let '(e, rest) := exponent_part "e" rest in
  Some (SubjectFinite value 10 (e - fraction), rest).

Definition hex_subject (s : list ascii) : option (Subject * list ascii) :=
  '(value, fraction, rest) ← mantissa hex_digit 16 s;
  let '(e, rest) := exponent_part "p" rest in
  Some (SubjectFinite value 2 (e - 4 * fraction), rest).

Definition subject (s : list ascii) : option (Subject * list ascii) :=
  match strip_word (word "infinity") s, strip_word (word "inf") s, strip_word (word "nan") s with
  | Some rest, _, _ => Some (SubjectInfinity, rest)
  | _, Some rest, _ => Some (SubjectInfinity, rest)
  | _, _, Some rest =>
      Some (SubjectNan, match rest with
                        | c :: rest' => if is_char c "(" then default rest (nan_sequence rest') else rest
                        | [] => rest
                        end)
  | _, _, _ =>
      match strip_word (word "0x") s with
      | Some rest => match hex_subject rest with Some r => Some r | None => decimal_subject s end
      | None => decimal_subject s
      end
  end.

(** ** Conversion *)

Inductive StoResult := StoInvalidArgument | StoOutOfRange | StoValue (value : spec_float) (consumed : nat).

Section conversion.
Context (prec emax : Z) (underflow_is_error : list ascii → bool).

(** [mantissa * radix ^ exponent], correctly rounded: one rounding of the exact quotient. *)
Definition round_number (negative : bool) (mantissa radix exponent : Z) : spec_float :=
  match mantissa with
  | Zpos m =>
      if 0 <=? exponent then binary_round prec emax negative (m * Z.to_pos (radix ^ exponent)) 0
      else SFdiv prec emax (S754_finite negative m 0) (S754_finite false (Z.to_pos (radix ^ (- exponent))) 0)
  | _ => S754_zero negative
  end.

Definition is_subnormal_or_zero (x : spec_float) : bool :=
  match x with S754_zero _ => true | S754_finite _ m e => Zpos (digits2_pos m) <? prec | _ => false end.

Fixpoint skip_spaces (s : list ascii) : list ascii :=
  match s with c :: rest => if isspace c then skip_spaces rest else s | [] => [] end.

(** [std::stof] (24, 128) and [std::stod] (53, 1024). *)
Definition sto (s : list ascii) : StoResult :=
  let start := skip_spaces s in
  let '(negative, unsigned) :=
    match start with
    | c :: rest => if is_char c "-" then (true, rest) else if is_char c "+" then (false, rest) else (false, start)
    | [] => (false, start)
    end in
  match subject unsigned with
  | None => StoInvalidArgument
  | Some (number, rest) =>
      let consumed := (length s - length rest)%nat in
      match number with
      | SubjectInfinity => StoValue (S754_infinity negative) consumed
      | SubjectNan => StoValue S754_nan consumed
      | SubjectFinite m radix e =>
          let value := round_number negative m radix e in
          if negb (isfinite value) then StoOutOfRange
          else if negb (m =? 0) && is_subnormal_or_zero value && underflow_is_error s then StoOutOfRange
          else StoValue value consumed
      end
  end.
End conversion.

Definition stof (underflow_is_error : list ascii → bool) : list ascii → StoResult := sto prec32 emax32 underflow_is_error.
Definition stod (underflow_is_error : list ascii → bool) : list ascii → StoResult := sto prec64 emax64 underflow_is_error.

(** ** Lines *)

(** The items that [while (std::getline(stream, item, ','))] goes through: an empty one
    at the very end is not delivered.  [item] is the current one, latest character first. *)
Fixpoint getlines_from (delimiter : ascii) (item : list ascii) (s : list ascii) : list (list ascii) :=
  match s with
  | c :: rest =>
      if is_char c delimiter then rev item :: getlines_from delimiter [] rest
      else getlines_from delimiter (c :: item) rest
  | [] => match item with [] => [] | _ => [rev item] end
  end.
Definition getlines (delimiter : ascii) (s : list ascii) : list (list ascii) := getlines_from delimiter [] s.

Example stof_examples :
  let f := stof (λ _, true) in
  f (word "0.8") = StoValue (lit32 8 10) 3 ∧ f (word " -1.5e1x") = StoValue (f32_of_Z (-15)) 7 ∧
  f (word "0x1p-1") = StoValue (lit32 1 2) 6 ∧ f (word "abc") = StoInvalidArgument ∧
  f (word "1e39") = StoOutOfRange ∧ f (word "inf,0") = StoValue (S754_infinity false) 3 ∧
  f (word "nan(1)") = StoValue S754_nan 6 ∧ f (word "") = StoInvalidArgument.
Proof. by vm_compute. Qed.

Example getline_examples :
  getlines "," (word "0.8,,1") = [word "0.8"; []; word "1"] ∧ getlines "," (word "a,") = [word "a"] ∧
  getlines "," [] = [].
Proof. by vm_compute. Qed.
