(* ===== verification/Exceptions.v ===== *)
(** * Computations that may throw or end the process

    Starting the program calls code that throws ([std::invalid_argument], ZMQ and JSON
    errors) or calls [exit].  [Exc S A] is a computation of [St] whose outcome is one of
    the three; the state is kept in all of them.  The kind of exception is left out: the
    program treats them alike. *)

From S2P Require Import Prelude.
From S2P Require Import Control.

Inductive Outcome (A : Type) := Done (a : A) | Thrown | Exited (code : Z).
Arguments Done {A}.
Arguments Thrown {A}.
Arguments Exited {A}.

Definition Exc (S A : Type) : Type := S → Outcome A * S.

#[export] Instance Exc_ret {S} : MRet (Exc S) := λ A a s, (Done a, s).
#[export] Instance Exc_bind {S} : MBind (Exc S) := λ A B (k : A → Exc S B) m s,
  match m s with
  | (Done a, s') => k a s'
  | (Thrown, s') => (Thrown, s')
  | (Exited code, s') => (Exited code, s')
  end.

Section exc.
Context {S : Type}.

Definition throw {A} : Exc S A := λ s, (Thrown, s).
Definition exit_with {A} (code : Z) : Exc S A := λ s, (Exited code, s).
Definition lift {A} (m : St S A) : Exc S A := λ s, let '(a, s') := m s in (Done a, s').
(** [None] is an exception. *)
Definition may_throw {A} (m : St S (option A)) : Exc S A := λ s,
  match m s with (Some a, s') => (Done a, s') | (None, s') => (Thrown, s') end.

(** [if (rc != SUCCESS) return rc]. *)
Definition or_return (m : Exc S ReturnCode) (k : Exc S ReturnCode) : Exc S ReturnCode :=
  rc ← m; if negb (ok rc) then mret rc else k.

(** Total correctness: [Q] of the outcome and the state after. *)
Definition ends {A} (m : Exc S A) (Q : Outcome A → S → Prop) (s : S) : Prop := Q (fst (m s)) (snd (m s)).

Lemma ends_ret {A} (a : A) (Q : Outcome A → S → Prop) s : Q (Done a) s → ends (mret a) Q s.
Proof. done. Qed.

Lemma ends_bind {A B} (m : Exc S A) (k : A → Exc S B) (Q : Outcome B → S → Prop) s :
  ends m (λ o s', match o with
                  | Done a => ends (k a) Q s'
                  | Thrown => Q Thrown s'
                  | Exited code => Q (Exited code) s'
                  end) s →
  ends (m ≫= k) Q s.
Proof. unfold ends, mbind, Exc_bind. by destruct (m s) as [[a| |code] s']. Qed.

Lemma ends_lift {A} (m : St S A) (Q : Outcome A → S → Prop) s : wp m (λ a s', Q (Done a) s') s → ends (lift m) Q s.
Proof. unfold ends, wp, lift. by destruct (m s). Qed.

Lemma ends_throw {A} (Q : Outcome A → S → Prop) s : Q Thrown s → ends throw Q s.
Proof. done. Qed.

Lemma ends_exit {A} code (Q : Outcome A → S → Prop) s : Q (Exited code) s → ends (exit_with code) Q s.
Proof. done. Qed.

Lemma ends_may_throw {A} (m : St S (option A)) (Q : Outcome A → S → Prop) s :
  wp m (λ o s', match o with Some a => Q (Done a) s' | None => Q Thrown s' end) s → ends (may_throw m) Q s.
Proof. unfold ends, wp, may_throw. by destruct (m s) as [[a|] s']. Qed.

Lemma ends_mono {A} (m : Exc S A) (Q Q' : Outcome A → S → Prop) s :
  ends m Q s → (∀ o s', Q o s' → Q' o s') → ends m Q' s.
Proof. intros H HQ. by apply HQ. Qed.

Lemma ends_if {A} (b : bool) (m1 m2 : Exc S A) Q s :
  (b = true → ends m1 Q s) → (b = false → ends m2 Q s) → ends (if b then m1 else m2) Q s.
Proof. destruct b; auto. Qed.
End exc.

(** A computation on a component of a larger state. *)
Definition exc_into {S T A} (proj : S → T) (inj : T → S → S) (m : Exc T A) : Exc S A :=
  λ s, let '(o, t) := m (proj s) in (o, inj t s).

Lemma ends_into {S T A} (proj : S → T) (inj : T → S → S) (m : Exc T A) (Q : Outcome A → S → Prop) s :
  ends m (λ o t, Q o (inj t s)) (proj s) → ends (exc_into proj inj m) Q s.
Proof. unfold ends, exc_into. by destruct (m (proj s)). Qed.

Lemma ends_or_return {S} (m k : Exc S ReturnCode) (Q : Outcome ReturnCode → S → Prop) s :
  ends m (λ o s', match o with
                  | Done rc => if ok rc then ends k Q s' else Q (Done rc) s'
                  | Thrown => Q Thrown s'
                  | Exited code => Q (Exited code) s'
                  end) s →
  ends (or_return m k) Q s.
Proof.
  intros Hm. unfold or_return. apply ends_bind. eapply ends_mono; [exact Hm|].
  intros [rc| |code] s' H; [|done..]. by destruct (ok rc).
Qed.

(** One step of symbolic execution. *)
Ltac ends_step :=
  lazymatch goal with
  | |- ends (_ ≫= _) _ _ => apply ends_bind
  | |- ends (or_return _ _) _ _ => apply ends_or_return
  | |- ends (mret _) _ _ => apply ends_ret
  | |- ends (lift _) _ _ => apply ends_lift
  | |- ends throw _ _ => apply ends_throw
  | |- ends (exit_with _) _ _ => apply ends_exit
  | |- ends (may_throw _) _ _ => apply ends_may_throw
  | |- ends (exc_into _ _ _) _ _ => apply ends_into
  | |- ends (if _ then _ else _) _ _ => apply ends_if; intros ?
  end.
