(* ===== verification/CommandLine.v ===== *)
(** * The command line (src/pi_command_line_args.cpp, include/pi_command_line_args.hpp)

    The constructor of [CommandLineArgs] reads the options one by one; a value that
    cannot be worked with ends the process with code 2.  Boost's option parser is a
    parameter: given the options and the words of the command line it fails with a
    [po::error] ([None]) or gives the map of values; [conforms] is what its documentation
    says of that map.  [CommandLineArgsFacts] has the theorems. *)

From S2P Require Import Prelude.
From S2P Require Import FloatSpec.
From S2P Require Import Control.
From S2P Require Import Device.
From S2P Require Import Exceptions.
From S2P Require Import TextNumber.
From Stdlib Require Import Ascii.

#[local] Open Scope string_scope.
#[local] Open Scope Z_scope.

(** ** [parse_torq_rescale_csv] *)

Section csv.
Context (underflow_is_error : list Ascii.ascii → bool).

(** A token that is a number that can be used: trailing spaces are fine. *)
Definition torq_rescale_value (token : list Ascii.ascii) : option f32 :=
  match stof underflow_is_error token with
  | StoValue value consumed =>
      match skip_spaces (drop consumed token) with
      | [] => if negb (isfinite value) || (value <?. f0) then None else Some value
      | _ => None
      end
  | _ => None
  end.

Fixpoint torq_rescale_loop (values : list f32) (tokens : list (list Ascii.ascii)) : list f32 :=
  match tokens with
  | [] => values
  | token :: tokens =>
      match torq_rescale_value token with
      | Some value => torq_rescale_loop (values ++ [value]) tokens
      | None => []
      end
  end.

Definition parse_torq_rescale_csv (csv : string) : list f32 := torq_rescale_loop [] (getlines ","%char (word csv)).
End csv.

(** ** The options *)

Inductive OptionKind :=
| OptString (default_value : option string)
| OptInt (default_value : option Z)
| OptFloat (default_value : option f32)
| OptSwitch.                                        (* po::bool_switch()->default_value(false) *)
Inductive OptionValue := ValString (s : string) | ValInt (z : Z) | ValFloat (x : f32) | ValBool (b : bool).

Definition OPT_EFFECTOR_MAX_POS_DEFAULT : f32 := f32_of_Z (-9999).
Definition OPT_EFFECTOR_MIN_POS_DEFAULT : f32 := f32_of_Z 9999.
Definition OPT_DISTANCE_TO_TORQUE_DEFAULT : f32 := f32_of_Z 2.
Definition OPT_EFFECTOR_KD_DEFAULT : f32 := to_f32 (lit64 1 10).
Definition OPT_FOLLOWER_GRAVITY_COMPENSATION_DEFAULT : string := "config".
Definition OPT_PLANING_TYPE_DEFAULT : string := "config".
Definition OPT_DEFAULT_NONE : string := "None".
Definition OPT_TOPIC_TYPE_UNDEFINED : string := "undefined".
Definition OPT_EFFECTOR_CONTROL_MODE_UNDEFINED : string := "undefined".
Definition MOVE_TO_READY_VEL_RAD_S_NORMAL : f32 := lit32 30 100.
Definition MOVE_TO_READY_VEL_RAD_S_ERROR : f32 := lit32 20 100.
Definition DEVICE_EMERGENCY_TIMEOUT_MS_DEFAULT : Z := 2000.
Definition INFO_LEVEL_MAX : Z := 3.                  (* InfoLevel::FREQUENT_3 *)

Definition device_options : list (string * OptionKind) := [
  ("device_type", OptString (Some "arms"));
  ("device_model", OptString None);
  ("device_id", OptString None);
  ("logical_name", OptString None);
  ("role", OptString None);
  ("control_port", OptString None);
  ("control_frequency", OptInt None);
  ("effector_model", OptString (Some ""));
  ("effector_id", OptString (Some "01"));
  ("topic_joint", OptString (Some "joint_info"));
  ("topic_joystick", OptString (Some OPT_DEFAULT_NONE));
  ("info_groups", OptString (Some ""));
  ("info_level", OptInt (Some 0));
  ("baud_rate", OptInt (Some 3000000));
  ("dof_arm", OptInt (Some 6));
  ("servo_num_arm", OptInt (Some 6));
  ("dof_effector", OptInt (Some 1));
  ("servo_num_effector", OptInt (Some 1));
  ("init_joints_sequential", OptSwitch);
  ("msg_type", OptString (Some "joint_info"));
  ("joystick_num_channel", OptInt (Some 5));
  ("joystick_num_button", OptInt (Some 5));
  ("topic_type", OptString (Some OPT_TOPIC_TYPE_UNDEFINED));
  ("algo_type", OptString (Some "undefined"));
  ("dont_go_to_home_pos", OptSwitch);
  ("leader_gravity_compensation", OptSwitch);
  ("effector_max_pos", OptFloat (Some OPT_EFFECTOR_MAX_POS_DEFAULT));
  ("effector_min_pos", OptFloat (Some OPT_EFFECTOR_MIN_POS_DEFAULT));
  ("distance_to_torque", OptFloat (Some OPT_DISTANCE_TO_TORQUE_DEFAULT));
  ("effector_control_mode", OptString (Some OPT_EFFECTOR_CONTROL_MODE_UNDEFINED));
  ("effector_kd", OptFloat (Some OPT_EFFECTOR_KD_DEFAULT))].

Definition session_options : list (string * OptionKind) := [
  ("safety_feature_off", OptSwitch);
  ("safety_torque_mode", OptSwitch);
  ("planning_type", OptString (Some OPT_PLANING_TYPE_DEFAULT));
  ("follower_gravity_compensation", OptString (Some OPT_FOLLOWER_GRAVITY_COMPENSATION_DEFAULT));
  ("torq_rescale", OptString (Some ""));
  ("force_feedback", OptFloat (Some f0));
  ("topic_state", OptString (Some ""));
  ("topic_live_command", OptString (Some ""));
  ("topic_direct_command", OptString (Some ""));
  ("topic_lifecycle", OptString (Some ""));
  ("topic_status", OptString (Some ""));
  ("paired_follower_state_topic", OptString (Some ""));
  ("arm_model_config", OptString (Some ""));
  ("arm_instance_config", OptString (Some ""));
  ("effector_model_config", OptString (Some ""));
  ("effector_instance_config", OptString (Some ""));
  ("urdf_path", OptString (Some ""));
  ("parent_liveness_fd", OptInt (Some (-1)));
  ("fr3_address", OptString (Some ""));
  ("fr3_reset_pose", OptString (Some "0,-0.785398,0,-2.356194,0,1.570796,0.785398"));
  ("robotiq_transport", OptString (Some ""));
  ("robotiq_endpoint", OptString (Some ""));
  ("robotiq_port", OptInt (Some 502));
  ("robotiq_baud_rate", OptInt (Some 115200));
  ("robotiq_slave_id", OptInt (Some 9));
  ("robotiq_poll_frequency", OptInt (Some 50));
  ("robotiq_timeout_ms", OptInt (Some 200));
  ("robotiq_min_position_raw", OptInt (Some 3));
  ("robotiq_max_position_raw", OptInt (Some 230));
  ("robotiq_default_speed", OptFloat (Some f1));
  ("robotiq_default_force", OptFloat (Some f1));
  ("move_to_ready_vel_rad_s_normal", OptFloat (Some MOVE_TO_READY_VEL_RAD_S_NORMAL));
  ("move_to_ready_vel_rad_s_error", OptFloat (Some MOVE_TO_READY_VEL_RAD_S_ERROR));
  ("emergency_shutdown_timeout_ms", OptInt (Some DEVICE_EMERGENCY_TIMEOUT_MS_DEFAULT))].

Definition allowed_options : list (string * OptionKind) := device_options ++ session_options.

Definition variables_map : Type := gmap string OptionValue.

(** What Boost promises of the map it gives: a value has the declared type, and an
    option with a default is always there. *)
Definition has_kind (k : OptionKind) (v : option OptionValue) : bool :=
  match k, v with
  | OptString _, Some (ValString _) | OptInt _, Some (ValInt _) | OptFloat _, Some (ValFloat _) | OptSwitch, Some (ValBool _) => true
  | OptString None, None | OptInt None, None | OptFloat None, None => true
  | _, _ => false
  end.
Definition conforms (vm : variables_map) : Prop := Forall (λ '(name, k), has_kind k (vm !! name) = true) allowed_options.

(** ** The object *)

Inductive DeviceConfigType := CONFIG_ARM | CONFIG_EFFECTOR.
#[export] Instance DeviceConfigType_eq_dec : EqDecision DeviceConfigType.
Proof. solve_decision. Defined.

Record CommandLineArgs := mkCommandLineArgs {
  arg_device_type : string;
  arg_device_config_type : DeviceConfigType;
  arg_device_model : string;
  arg_device_id : string;
  arg_logical_name : string;
  arg_role : Role;
  arg_control_frequency : Z;
  arg_effector_model : string;
  arg_effector_id : string;
  arg_topic_joint : string;
  arg_topic_joystick : string;
  arg_info_groups : string;
  arg_control_port_name : string;
  arg_baud_rate : Z;
  arg_info_level : Z;
  arg_dof_arm : Z;
  arg_servo_num_arm : Z;
  arg_dof_effector : Z;
  arg_servo_num_effector : Z;
  arg_init_joints_sequential : bool;
  arg_moving_mode : MovingMode;
  arg_msg_type_str : string;
  arg_msg_type : MsgType;
  arg_joystick_num_channels : Z;
  arg_joystick_num_buttons : Z;
  arg_topic_type : string;
  arg_algo_type : string;
  arg_dont_go_to_home_pos : bool;
  arg_leader_gravity_compensation : bool;
  arg_effector_max_pos : f32;
  arg_effector_min_pos : f32;
  arg_distance_to_torque : f32;
  arg_effector_control_mode : string;
  arg_effector_kd : f32;
  arg_safety_feature_off : bool;
  arg_safety_torque_mode : bool;
  arg_planning_type : string;
  arg_follower_gravity_compensation_override : string;
  arg_torq_rescale_override : list f32;
  arg_force_feedback : f32;
  arg_topic_state : string;
  arg_topic_live_command : string;
  arg_topic_direct_command : string;
  arg_topic_lifecycle : string;
  arg_topic_status : string;
  arg_paired_follower_state_topic : string;
  arg_arm_model_config : string;
  arg_arm_instance_config : string;
  arg_effector_model_config : string;
  arg_effector_instance_config : string;
  arg_urdf_path : string;
  arg_parent_liveness_fd : Z;
  arg_fr3_address : string;
  arg_fr3_reset_pose : string;
  arg_robotiq_transport : string;
  arg_robotiq_endpoint : string;
  arg_robotiq_port : Z;
  arg_robotiq_baud_rate : Z;
  arg_robotiq_slave_id : Z;
  arg_robotiq_poll_frequency : Z;
  arg_robotiq_timeout_ms : Z;
  arg_robotiq_min_position_raw : Z;
  arg_robotiq_max_position_raw : Z;
  arg_robotiq_default_speed : f32;
  arg_robotiq_default_force : f32;
  arg_move_to_ready_vel_rad_s_normal : f32;
  arg_move_to_ready_vel_rad_s_error : f32;
  arg_emergency_shutdown_timeout_ms : Z;
}.
#[export] Instance eta_CommandLineArgs : Eta CommandLineArgs := λ r, mkCommandLineArgs
  (arg_device_type r) (arg_device_config_type r) (arg_device_model r) (arg_device_id r) (arg_logical_name r)
  (arg_role r) (arg_control_frequency r) (arg_effector_model r) (arg_effector_id r) (arg_topic_joint r)
  (arg_topic_joystick r) (arg_info_groups r) (arg_control_port_name r) (arg_baud_rate r) (arg_info_level r)
  (arg_dof_arm r) (arg_servo_num_arm r) (arg_dof_effector r) (arg_servo_num_effector r)
  (arg_init_joints_sequential r) (arg_moving_mode r) (arg_msg_type_str r) (arg_msg_type r)
  (arg_joystick_num_channels r) (arg_joystick_num_buttons r) (arg_topic_type r) (arg_algo_type r)
  (arg_dont_go_to_home_pos r) (arg_leader_gravity_compensation r) (arg_effector_max_pos r)
  (arg_effector_min_pos r) (arg_distance_to_torque r) (arg_effector_control_mode r) (arg_effector_kd r)
  (arg_safety_feature_off r) (arg_safety_torque_mode r) (arg_planning_type r)
  (arg_follower_gravity_compensation_override r) (arg_torq_rescale_override r) (arg_force_feedback r)
  (arg_topic_state r) (arg_topic_live_command r) (arg_topic_direct_command r) (arg_topic_lifecycle r)
  (arg_topic_status r) (arg_paired_follower_state_topic r) (arg_arm_model_config r)
  (arg_arm_instance_config r) (arg_effector_model_config r) (arg_effector_instance_config r) (arg_urdf_path r)
  (arg_parent_liveness_fd r) (arg_fr3_address r) (arg_fr3_reset_pose r) (arg_robotiq_transport r)
  (arg_robotiq_endpoint r) (arg_robotiq_port r) (arg_robotiq_baud_rate r) (arg_robotiq_slave_id r)
  (arg_robotiq_poll_frequency r) (arg_robotiq_timeout_ms r) (arg_robotiq_min_position_raw r)
  (arg_robotiq_max_position_raw r) (arg_robotiq_default_speed r) (arg_robotiq_default_force r)
  (arg_move_to_ready_vel_rad_s_normal r) (arg_move_to_ready_vel_rad_s_error r)
  (arg_emergency_shutdown_timeout_ms r).

(** The members before the constructor; those without an initialiser are zero here. *)
Definition uninitialized_args : CommandLineArgs := mkCommandLineArgs
  "" CONFIG_ARM "" "" "" LEADER 0 "" "" "" "" "" "" 0 0 0 0 0 0 false MOVING_INVALID "" MSG_INVALID 0 0 "" ""
  false false f0 f0 f0 "" f0 false false "" "config" [] f0 "" "" "" "" "" "" "" "" "" "" "" (-1) "" "" "" ""
  502 115200 9 50 200 3 230 f1 f1 f0 f0 0.

(** ** The constructor *)

Definition as_string (v : OptionValue) : option string := match v with ValString s => Some s | _ => None end.
Definition as_int (v : OptionValue) : option Z := match v with ValInt z => Some z | _ => None end.
Definition as_float (v : OptionValue) : option f32 := match v with ValFloat x => Some x | _ => None end.
Definition as_bool (v : OptionValue) : option bool := match v with ValBool b => Some b | _ => None end.

Section constructor.
Context (underflow_is_error : list Ascii.ascii → bool) (vm : variables_map).
Local Abbreviation C := CommandLineArgs.

Definition set_arg (f : C → C) : Exc C unit := lift (modify f).

(** [if (vm.count(name)) field = vm[name].as<T>(); else exit(2)]. *)
Definition required {T} (as_ : OptionValue → option T) (name : string) (assign : T → C → C) : Exc C unit :=
  match vm !! name with
  | None => exit_with 2
  | Some v => match as_ v with Some x => set_arg (assign x) | None => throw end
  end.
(** [field = vm[name].as<T>()]. *)
Definition given {T} (as_ : OptionValue → option T) (name : string) (assign : T → C → C) : Exc C unit :=
  match vm !! name ≫= as_ with Some x => set_arg (assign x) | None => throw end.

Definition exit_if (b : C → bool) : Exc C unit := c ← lift get_state; if b c then exit_with 2 else mret tt.

(** A role that is neither is reported, and the device is a leader. *)
Definition role_of (arg_role : string) : Role := if String.eqb arg_role "follower" then FOLLOWER else LEADER.

Definition read_device : Exc C unit :=
  required as_string "role" (λ v c, c <| arg_role := role_of v |>);;
  required as_string "device_type" (λ v c, c <| arg_device_type := v |>);;
  exit_if (λ c, negb (String.eqb (arg_device_type c) "arms"));;
  set_arg (λ c, c <| arg_device_config_type := CONFIG_ARM |>);;
  required as_string "device_model" (λ v c, c <| arg_device_model := v |>);;
  required as_string "device_id" (λ v c, c <| arg_device_id := v |>);;
  required as_string "logical_name" (λ v c, c <| arg_logical_name := v |>);;
  required as_string "effector_model" (λ v c, c <| arg_effector_model := v |>);;
  required as_string "effector_id" (λ v c, c <| arg_effector_id := v |>);;
  required as_string "topic_joint" (λ v c, c <| arg_topic_joint := v |>);;
  required as_string "topic_joystick" (λ v c, c <| arg_topic_joystick := v |>);;
  required as_int "control_frequency" (λ v c, c <| arg_control_frequency := v |>);;
  c ← lift get_state;
  (if bool_decide (vm !! "control_port" = None) && String.eqb (arg_device_model c) "FR3"
   then set_arg (λ c, c <| arg_control_port_name := "" |>)
   else required as_string "control_port" (λ v c, c <| arg_control_port_name := v |>)).

Definition read_session : Exc C unit :=
  required as_int "info_level" (λ v c, c <| arg_info_level := v |>);;
  exit_if (λ c, INFO_LEVEL_MAX <? arg_info_level c);;
  required as_string "info_groups" (λ v c, c <| arg_info_groups := v |>);;
  required as_int "baud_rate" (λ v c, c <| arg_baud_rate := v |>);;
  required as_int "dof_arm" (λ v c, c <| arg_dof_arm := v |>);;
  required as_int "dof_effector" (λ v c, c <| arg_dof_effector := v |>);;
  required as_int "servo_num_arm" (λ v c, c <| arg_servo_num_arm := v |>);;
  required as_int "servo_num_effector" (λ v c, c <| arg_servo_num_effector := v |>);;
  required as_bool "init_joints_sequential" (λ v c, c <| arg_init_joints_sequential := v |>);;
  set_arg (λ c, c <| arg_moving_mode := if arg_init_joints_sequential c then SEQUENTIAL else PARALLEL |>);;
  required as_string "msg_type" (λ v c, c <| arg_msg_type_str := v |>);;
  exit_if (λ c, negb (String.eqb (arg_msg_type_str c) "joint_info"));;
  set_arg (λ c, c <| arg_msg_type := JOINT_INFO |>);;
  required as_int "joystick_num_channel" (λ v c, c <| arg_joystick_num_channels := v |>);;
  required as_int "joystick_num_button" (λ v c, c <| arg_joystick_num_buttons := v |>);;
  required as_string "topic_type" (λ v c, c <| arg_topic_type := v |>);;
  exit_if (λ c, negb (String.eqb (arg_topic_type c) "ZMQ"));;
  required as_string "algo_type" (λ v c, c <| arg_algo_type := v |>);;
  required as_bool "dont_go_to_home_pos" (λ v c, c <| arg_dont_go_to_home_pos := v |>);;
  required as_bool "leader_gravity_compensation" (λ v c, c <| arg_leader_gravity_compensation := v |>).

Definition read_control : Exc C unit :=
  required as_float "effector_max_pos" (λ v c, c <| arg_effector_max_pos := v |>);;
  required as_float "effector_min_pos" (λ v c, c <| arg_effector_min_pos := v |>);;
  required as_float "distance_to_torque" (λ v c, c <| arg_distance_to_torque := v |>);;
  required as_string "effector_control_mode" (λ v c, c <| arg_effector_control_mode := v |>);;
  required as_float "effector_kd" (λ v c, c <| arg_effector_kd := v |>);;
  required as_bool "safety_feature_off" (λ v c, c <| arg_safety_feature_off := v |>);;
  required as_bool "safety_torque_mode" (λ v c, c <| arg_safety_torque_mode := v |>);;
  required as_string "planning_type" (λ v c, c <| arg_planning_type := v |>);;
  required as_string "follower_gravity_compensation" (λ v c, c <| arg_follower_gravity_compensation_override := v |>);;
  exit_if (λ c, let v := arg_follower_gravity_compensation_override c in
    negb (String.eqb v OPT_FOLLOWER_GRAVITY_COMPENSATION_DEFAULT) && negb (String.eqb v "true") && negb (String.eqb v "false"));;
  match vm !! "torq_rescale" with
  | None => mret tt
  | Some v =>
      match as_string v with
      | None => throw
      | Some csv =>
          if String.eqb csv "" then mret tt
          else
            set_arg (λ c, c <| arg_torq_rescale_override := parse_torq_rescale_csv underflow_is_error csv |>);;
            exit_if (λ c, match arg_torq_rescale_override c with [] => true | _ => false end)
      end
  end;;
  required as_float "force_feedback" (λ v c, c <| arg_force_feedback := v |>).

Definition read_explicit : Exc C unit :=
  given as_string "topic_state" (λ v c, c <| arg_topic_state := v |>);;
  given as_string "topic_live_command" (λ v c, c <| arg_topic_live_command := v |>);;
  given as_string "topic_direct_command" (λ v c, c <| arg_topic_direct_command := v |>);;
  given as_string "topic_lifecycle" (λ v c, c <| arg_topic_lifecycle := v |>);;
  given as_string "topic_status" (λ v c, c <| arg_topic_status := v |>);;
  given as_string "paired_follower_state_topic" (λ v c, c <| arg_paired_follower_state_topic := v |>);;
  given as_string "arm_model_config" (λ v c, c <| arg_arm_model_config := v |>);;
  given as_string "arm_instance_config" (λ v c, c <| arg_arm_instance_config := v |>);;
  given as_string "effector_model_config" (λ v c, c <| arg_effector_model_config := v |>);;
  given as_string "effector_instance_config" (λ v c, c <| arg_effector_instance_config := v |>);;
  given as_string "urdf_path" (λ v c, c <| arg_urdf_path := v |>);;
  given as_int "parent_liveness_fd" (λ v c, c <| arg_parent_liveness_fd := v |>);;
  exit_if (λ c, arg_parent_liveness_fd c <? -1);;
  given as_string "fr3_address" (λ v c, c <| arg_fr3_address := v |>);;
  given as_string "fr3_reset_pose" (λ v c, c <| arg_fr3_reset_pose := v |>);;
  given as_string "robotiq_transport" (λ v c, c <| arg_robotiq_transport := v |>);;
  given as_string "robotiq_endpoint" (λ v c, c <| arg_robotiq_endpoint := v |>);;
  given as_int "robotiq_port" (λ v c, c <| arg_robotiq_port := v |>);;
  given as_int "robotiq_baud_rate" (λ v c, c <| arg_robotiq_baud_rate := v |>);;
  given as_int "robotiq_slave_id" (λ v c, c <| arg_robotiq_slave_id := v |>);;
  given as_int "robotiq_poll_frequency" (λ v c, c <| arg_robotiq_poll_frequency := v |>);;
  given as_int "robotiq_timeout_ms" (λ v c, c <| arg_robotiq_timeout_ms := v |>);;
  given as_int "robotiq_min_position_raw" (λ v c, c <| arg_robotiq_min_position_raw := v |>);;
  given as_int "robotiq_max_position_raw" (λ v c, c <| arg_robotiq_max_position_raw := v |>);;
  given as_float "robotiq_default_speed" (λ v c, c <| arg_robotiq_default_speed := v |>);;
  given as_float "robotiq_default_force" (λ v c, c <| arg_robotiq_default_force := v |>).

Definition is_empty (s : string) : bool := String.eqb s "".

Definition topics_missing (c : C) : bool :=
  is_empty (arg_topic_state c) || is_empty (arg_topic_live_command c) || is_empty (arg_topic_direct_command c) ||
  is_empty (arg_topic_lifecycle c) || is_empty (arg_topic_status c).
Definition is_fr3 (c : C) : bool := String.eqb (arg_device_model c) "FR3".
Definition configs_missing (c : C) : bool :=
  is_empty (arg_arm_model_config c) || is_empty (arg_arm_instance_config c) || (negb (is_fr3 c) && is_empty (arg_urdf_path c)).
Definition effector_configs_missing (c : C) : bool :=
  negb (is_empty (arg_effector_model c)) && (is_empty (arg_effector_model_config c) || is_empty (arg_effector_instance_config c)).
Definition fr3_unusable (c : C) : bool := negb (bool_decide (arg_role c = FOLLOWER)) || is_empty (arg_fr3_address c).
Definition robotiq_endpoint_bad (c : C) : bool :=
  (negb (String.eqb (arg_robotiq_transport c) "rtu") && negb (String.eqb (arg_robotiq_transport c) "tcp")) ||
  is_empty (arg_robotiq_endpoint c).
Definition not_a_fraction (x : f32) : bool := negb (isfinite x) || (x <?. f0) || (x >?. f1).
Definition robotiq_parameters_bad (c : C) : bool :=
  (arg_robotiq_port c <? 1) || (65535 <? arg_robotiq_port c) || (arg_robotiq_baud_rate c <=? 0) ||
  (arg_robotiq_slave_id c <? 0) || (247 <? arg_robotiq_slave_id c) || (arg_robotiq_poll_frequency c <=? 0) ||
  (arg_robotiq_timeout_ms c <=? 0) || (arg_robotiq_min_position_raw c <? 0) ||
  (255 <? arg_robotiq_max_position_raw c) || (arg_robotiq_max_position_raw c <=? arg_robotiq_min_position_raw c) ||
  not_a_fraction (arg_robotiq_default_speed c) || not_a_fraction (arg_robotiq_default_force c).

Definition check_combination : Exc C unit :=
  set_arg (λ c, if is_empty (arg_topic_live_command c) then c else c <| arg_topic_joint := arg_topic_live_command c |>);;
  exit_if (λ c, negb (bool_decide (arg_device_config_type c = CONFIG_ARM)));;
  exit_if topics_missing;;
  exit_if configs_missing;;
  exit_if effector_configs_missing;;
  exit_if (λ c, is_fr3 c && fr3_unusable c);;
  exit_if (λ c, is_fr3 c && negb (is_empty (arg_robotiq_transport c)) && robotiq_endpoint_bad c);;
  exit_if (λ c, is_fr3 c && negb (is_empty (arg_robotiq_transport c)) && robotiq_parameters_bad c).

Definition read_ready_move : Exc C unit :=
  given as_float "move_to_ready_vel_rad_s_normal" (λ v c, c <| arg_move_to_ready_vel_rad_s_normal := v |>);;
  exit_if (λ c, arg_move_to_ready_vel_rad_s_normal c <=?. f0);;
  given as_float "move_to_ready_vel_rad_s_error" (λ v c, c <| arg_move_to_ready_vel_rad_s_error := v |>);;
  exit_if (λ c, arg_move_to_ready_vel_rad_s_error c <=?. f0);;
  exit_if (λ c, arg_move_to_ready_vel_rad_s_error c >?. arg_move_to_ready_vel_rad_s_normal c);;
  given as_int "emergency_shutdown_timeout_ms" (λ v c, c <| arg_emergency_shutdown_timeout_ms := v |>);;
  exit_if (λ c, arg_emergency_shutdown_timeout_ms c <=? 0).

Definition read_arguments : Exc C unit :=
  read_device;; read_session;; read_control;; read_explicit;; check_combination;; read_ready_move.
End constructor.

(** [CommandLineArgs::CommandLineArgs(argc, argv)]. *)
Definition command_line_args (underflow_is_error : list Ascii.ascii → bool)
    (parse_command_line : list (string * OptionKind) → list string → option variables_map) (argv : list string)
    : Outcome CommandLineArgs :=
  match parse_command_line allowed_options argv with
  | None => Exited 2
  | Some vm =>
      match read_arguments underflow_is_error vm uninitialized_args with
      | (Done _, c) => Done c
      | (Thrown, _) => Thrown
      | (Exited code, _) => Exited code
      end
  end.
