(* ===== verification/CommandLineFacts.v ===== *)
(** * Theorems on the command line

    What accepted arguments look like, whatever the user typed; and the rescale list,
    which is taken whole or not at all. *)

From Stdlib Require Import Ascii.
From S2P Require Import Prelude.
From S2P Require Import FloatSpec.
From S2P Require Import Control.
From S2P Require Import Device.
From S2P Require Import Exceptions.
From S2P Require Import TextNumber.
From S2P Require Import CommandLine.

#[local] Open Scope string_scope.
#[local] Open Scope Z_scope.

(** ** Comma-separated lists *)

(** The items with a comma between any two. *)
Fixpoint join (delimiter : ascii) (items : list (list ascii)) : list ascii :=
  match items with
  | [] => []
  | [item] => item
  | item :: items => item ++ delimiter :: join delimiter items
  end.

Lemma getlines_item delimiter item s acc : delimiter ∉ item →
  getlines_from delimiter acc (item ++ s) = getlines_from delimiter (rev item ++ acc) s.
Proof. 
  revert acc. induction item as [|c item IH]; intros acc Hd; [done|].
  cbn [app getlines_from]. unfold is_char at 1.
  destruct (Ascii.eqb_spec c delimiter) as [->|Hc]; [by destruct Hd; left|].
  rewrite IH by (intros Hin; apply Hd; by right). cbn [rev]. by rewrite <- app_assoc.
Qed.

Lemma getlines_join delimiter items : Forall (λ item, delimiter ∉ item) items →
  last items ≠ Some [] → getlines delimiter (join delimiter items) = items.
Proof. 
  unfold getlines. induction items as [|item items IH]; intros Hd Hlast; [done|].
  apply Forall_cons in Hd as [Hd Hds]. destruct items as [|item' items].
  - cbn [join]. pose proof (getlines_item delimiter item [] [] Hd) as E. rewrite !app_nil_r in E. rewrite E. cbn [getlines_from].
    destruct (rev item) as [|c r] eqn:Er.
    + apply (f_equal (@rev ascii)) in Er. rewrite rev_involutive in Er. by subst.
    + by rewrite <- Er, rev_involutive.
  - change (join delimiter (item :: item' :: items)) with (item ++ delimiter :: join delimiter (item' :: items))%list.
    rewrite getlines_item by done. cbn [getlines_from]. unfold is_char at 1.
    rewrite Ascii.eqb_refl. f_equal; [by rewrite app_nil_r, rev_involutive|]. by apply IH.
Qed.

Section csv.
Context (underflow_is_error : list ascii → bool).
Local Abbreviation value_of := (torq_rescale_value underflow_is_error).

Lemma torq_rescale_loop_mapM tokens : ∀ values,
  torq_rescale_loop underflow_is_error values tokens = from_option (app values) [] (mapM value_of tokens).
Proof. 
  induction tokens as [|token tokens IH]; intros values; cbn [torq_rescale_loop mapM]; [symmetry; apply app_nil_r|].
  destruct (value_of token) as [v|]; [|done]. rewrite IH. cbn. destruct (mapM _ tokens) as [vs|]; [|done]. cbn.
  by rewrite <- app_assoc.
Qed.

Lemma torq_rescale_value_good token v : value_of token = Some v → isfinite v = true ∧ (v <?. f0) = false.
Proof. 
  unfold torq_rescale_value. destruct (stof _ token) as [| |x n]; [done..|].
  destruct (skip_spaces _); [|done]. destruct (negb (isfinite x) || (x <?. f0)) eqn:E; [done|].
  apply orb_false_iff in E as [E1 E2]. intros [= <-]. by apply negb_false_iff in E1.
Qed.

Lemma torq_rescale_values tokens vs : mapM value_of tokens = Some vs →
  length vs = length tokens ∧ Forall (λ v, isfinite v = true ∧ (v <?. f0) = false) vs.
Proof. 
  intros H%mapM_Some. split; [symmetry; by eapply Forall2_length|].
  eapply Forall2_Forall_r; [exact H|]. apply Forall_forall. intros token _ v Hv. by apply torq_rescale_value_good in Hv.
Qed.

(** The list of rescales is taken whole or not at all: of tokens without commas,
    joined by commas, the parser gives every token's value in order, one each, finite and
    not negative, or, if one of them is no such number, nothing. *)
Theorem torq_rescale_whole (tokens : list string) : Forall (λ t, ","%char ∉ word t) tokens → last tokens ≠ Some "" →
  let values := parse_torq_rescale_csv underflow_is_error (String.string_of_list_ascii (join "," (word <$> tokens))) in
  (∃ vs, mapM (value_of ∘ word) tokens = Some vs ∧ values = vs ∧ length vs = length tokens ∧
     Forall (λ v, isfinite v = true ∧ (v <?. f0) = false) vs) ∨
  (mapM (value_of ∘ word) tokens = None ∧ values = []).
Proof. 
  intros Hd Hlast values. subst values. unfold parse_torq_rescale_csv, word at 1.
  rewrite String.list_ascii_of_string_of_list_ascii, getlines_join; [|by apply Forall_fmap|].
  - rewrite torq_rescale_loop_mapM.
    assert (mapM value_of (word <$> tokens) = mapM (value_of ∘ word) tokens) as ->.
    { clear. induction tokens as [|t ts IH]; [done|]. cbn. destruct (value_of (word t)); [|done]. cbn. by rewrite IH. }
    destruct (mapM (value_of ∘ word) tokens) as [vs|] eqn:E; [|by right]. left. exists vs. split_and!; [done|done|..].
    + apply mapM_Some, Forall2_length in E. done.
    + apply mapM_Some in E. eapply Forall2_Forall_r; [exact E|]. apply Forall_forall. intros t _ v Hv.
      by apply torq_rescale_value_good in Hv.
  - rewrite fmap_last. destruct (last tokens) as [t|] eqn:E; [|done]. cbn. intros [= Ht].
    apply Hlast. rewrite <- (String.string_of_list_ascii_of_string t). unfold word in Ht. by rewrite Ht.
Qed.
End csv.

(** ** The constructor *)

Section constructor.
Context (underflow_is_error : list ascii → bool) (vm : variables_map) (Hvm : conforms vm).
Local Abbreviation C := CommandLineArgs.

(** What [as_] reads of an option of the kind. *)
Definition reads {T} (k : OptionKind) (as_ : OptionValue → option T) : Prop :=
  ∀ v, has_kind k (Some v) = true → is_Some (as_ v).
Definition optional (k : OptionKind) : bool := has_kind k None.

Lemma reads_string d : reads (OptString d) as_string.
Proof. intros [] H; try (by destruct d); by eexists. Qed.
Lemma reads_int d : reads (OptInt d) as_int.
Proof. intros [] H; try (by destruct d); by eexists. Qed.
Lemma reads_float d : reads (OptFloat d) as_float.
Proof. intros [] H; try (by destruct d); by eexists. Qed.
Lemma reads_bool : reads OptSwitch as_bool.
Proof. intros [] H; try done; by eexists. Qed.

Lemma option_value name k : (name, k) ∈ allowed_options → has_kind k (vm !! name) = true.
Proof. intros Hin. unfold conforms in Hvm. rewrite Forall_forall in Hvm. exact (Hvm _ Hin). Qed.

Lemma ends_required {T} k (as_ : OptionValue → option T) name assign Q c :
  (name, k) ∈ allowed_options → reads k as_ → (∀ x, Q (Done tt) (assign x c)) → Q (Exited 2) c →
  ends (required vm as_ name assign) Q c.
Proof. 
  intros Hin Hr HQ HE. unfold required. pose proof (option_value name k Hin) as Hk.
  destruct (vm !! name) as [v|]; [|done]. destruct (Hr v Hk) as [x ->]. apply HQ.
Qed.

Lemma ends_given {T} k (as_ : OptionValue → option T) name assign Q c :
  (name, k) ∈ allowed_options → reads k as_ → optional k = false → (∀ x, Q (Done tt) (assign x c)) →
  ends (given vm as_ name assign) Q c.
Proof. 
  intros Hin Hr Ho HQ. unfold given. pose proof (option_value name k Hin) as Hk. unfold optional in Ho.
  destruct (vm !! name) as [v|]; [|congruence]. destruct (Hr v Hk) as [x E]. cbn. rewrite E. apply HQ.
Qed.

Lemma ends_exit_if b (Q : Outcome unit → C → Prop) (c : C) : Q (Exited 2) c → (b c = false → Q (Done tt) c) → ends (exit_if b) Q c.
Proof. 
  intros HE HQ. unfold exit_if. apply ends_bind, ends_lift. apply wp_get_state.
  destruct (b c); [exact HE|]. by apply ends_ret, HQ.
Qed.

(** Done with [P], or ended with code 2. *)
Definition done_or_2 {A} (P : C → Prop) (o : Outcome A) (c : C) : Prop :=
  match o with Done _ => P c | Exited code => code = 2 | Thrown => False end.

Lemma stage (m k : Exc C unit) P Q c : ends m (done_or_2 P) c → (∀ c, P c → ends k (done_or_2 Q) c) →
  ends (m;; k) (done_or_2 Q) c.
Proof. 
  intros Hm Hk. apply ends_bind. eapply ends_mono; [exact Hm|]. intros [[]| |code] c' Hc; [by apply Hk|done|exact Hc].
Qed.
End constructor.

(** Find an option in the list. *)
Ltac listed := unfold allowed_options, device_options, session_options; cbn [app]; repeat first [apply list_elem_of_here | apply list_elem_of_further].
Create HintDb options.
#[export] Hint Resolve reads_string reads_int reads_float reads_bool : options.

(** The object is kept in the form of its constructor. *)
Ltac flatten :=
  lazymatch goal with
  | |- ends ?m ?Q ?c => let c' := eval cbn in c in change (ends m Q c')
  | |- wp ?m ?Q ?c => let c' := eval cbn in c in change (wp m Q c')
  | |- done_or_2 ?P ?o ?c => let c' := eval cbn in c in change (done_or_2 P o c')
  | |- _ => idtac
  end.

(** One call of the constructor. *)
Ltac read_step :=
  lazymatch goal with
  | |- ends (_ ≫= _) _ _ => apply ends_bind
  | |- ends (required _ _ _ _) _ _ => eapply ends_required; [eassumption|listed|auto with options|intros ?|reflexivity]
  | |- ends (given _ _ _ _) _ _ => eapply ends_given; [eassumption|listed|auto with options|reflexivity|intros ?]
  | |- ends (exit_if _) _ _ => let H := fresh "Hexit" in apply ends_exit_if; [reflexivity|intros H; cbn in H]
  | |- ends (set_arg _) _ _ => apply ends_lift, wp_modify
  | |- ends (lift get_state) _ _ => apply ends_lift, wp_get_state
  | |- ends (mret _) _ _ => apply ends_ret
  | |- ends (if ?b then _ else _) _ _ => destruct b eqn:?
  end; cbv beta iota; flatten.

Section stages.
Context (underflow_is_error : list ascii → bool) (vm : variables_map) (Hvm : conforms vm).
Local Abbreviation C := CommandLineArgs.

(** What holds of the object after each part of the constructor. *)
Definition device_ok (c : C) : Prop := arg_device_config_type c = CONFIG_ARM ∧ arg_device_type c = "arms".
Definition no_rescales (c : C) : Prop := arg_torq_rescale_override c = [].
Definition session_ok (c : C) : Prop :=
  device_ok c ∧ arg_msg_type c = JOINT_INFO ∧ arg_topic_type c = "ZMQ" ∧ arg_info_level c ≤ 3.
Definition control_ok (c : C) : Prop :=
  session_ok c ∧ arg_follower_gravity_compensation_override c ∈ ["config"; "true"; "false"] ∧
  Forall (λ v, isfinite v = true ∧ (v <?. f0) = false) (arg_torq_rescale_override c).
Definition explicit_ok (c : C) : Prop := control_ok c ∧ -1 ≤ arg_parent_liveness_fd c.

(** An FR3 follows, has an address, and a gripper that can be talked to. *)
Definition fraction (x : f32) : Prop := isfinite x = true ∧ (x <?. f0) = false ∧ (x >?. f1) = false.
Definition robotiq_ok (c : C) : Prop :=
  arg_robotiq_transport c ∈ ["rtu"; "tcp"] ∧ arg_robotiq_endpoint c ≠ "" ∧ 1 ≤ arg_robotiq_port c ≤ 65535 ∧
  0 < arg_robotiq_baud_rate c ∧ 0 ≤ arg_robotiq_slave_id c ≤ 247 ∧ 0 < arg_robotiq_poll_frequency c ∧
  0 < arg_robotiq_timeout_ms c ∧
  0 ≤ arg_robotiq_min_position_raw c < arg_robotiq_max_position_raw c ∧ arg_robotiq_max_position_raw c ≤ 255 ∧
  fraction (arg_robotiq_default_speed c) ∧ fraction (arg_robotiq_default_force c).
Definition combination_ok (c : C) : Prop :=
  explicit_ok c ∧
  Forall (λ name, name ≠ "") [arg_topic_state c; arg_topic_live_command c; arg_topic_direct_command c;
    arg_topic_lifecycle c; arg_topic_status c; arg_arm_model_config c; arg_arm_instance_config c] ∧
  arg_topic_joint c = arg_topic_live_command c ∧
  (arg_device_model c = "FR3" ∨ arg_urdf_path c ≠ "") ∧
  (arg_effector_model c = "" ∨ arg_effector_model_config c ≠ "" ∧ arg_effector_instance_config c ≠ "") ∧
  (arg_device_model c = "FR3" → arg_role c = FOLLOWER ∧ arg_fr3_address c ≠ "" ∧
     (arg_robotiq_transport c = "" ∨ robotiq_ok c)).
Definition ready_move_ok (c : C) : Prop :=
  (arg_move_to_ready_vel_rad_s_normal c <=?. f0) = false ∧ (arg_move_to_ready_vel_rad_s_error c <=?. f0) = false ∧
  (arg_move_to_ready_vel_rad_s_error c >?. arg_move_to_ready_vel_rad_s_normal c) = false ∧
  0 < arg_emergency_shutdown_timeout_ms c.

Lemma negb_eqb_false s t : negb (String.eqb s t) = false → s = t.
Proof. intros H%negb_false_iff. by apply String.eqb_eq. Qed.
Lemma not_empty s : is_empty s = false → s ≠ "".
Proof. intros H ->. done. Qed.
Lemma empty s : is_empty s = true → s = "".
Proof. apply String.eqb_eq. Qed.

Lemma read_device_ends c : no_rescales c → ends (read_device vm) (done_or_2 (λ c, device_ok c ∧ no_rescales c)) c.
Proof.
  destruct c. intros Ht. unfold read_device. repeat read_step.
  all: split; [split; [reflexivity|by apply negb_eqb_false]|exact Ht].
Qed.

Lemma read_session_ends c : device_ok c ∧ no_rescales c → ends (read_session vm) (done_or_2 (λ c, session_ok c ∧ no_rescales c)) c.
Proof.
  destruct c. intros [Hc Ht]. unfold read_session. repeat read_step.
  split; [split_and!; [exact Hc|reflexivity|by apply negb_eqb_false|by apply Z.ltb_ge]|exact Ht].
Qed.

Lemma override_ok s : negb (String.eqb s OPT_FOLLOWER_GRAVITY_COMPENSATION_DEFAULT) && negb (String.eqb s "true") && negb (String.eqb s "false") = false →
  s ∈ ["config"; "true"; "false"].
Proof.
  intros H. repeat (apply andb_false_iff in H as [H|H]); apply negb_eqb_false in H; subst; unfold OPT_FOLLOWER_GRAVITY_COMPENSATION_DEFAULT; set_solver.
Qed.

Lemma parsed_rescales csv : Forall (λ v, isfinite v = true ∧ (v <?. f0) = false) (parse_torq_rescale_csv underflow_is_error csv).
Proof.
  unfold parse_torq_rescale_csv. rewrite torq_rescale_loop_mapM. destruct (mapM _ _) as [vs|] eqn:E; [|constructor].
  by apply torq_rescale_values in E as [_ E].
Qed.

Lemma read_control_ends c : session_ok c ∧ no_rescales c → ends (read_control underflow_is_error vm) (done_or_2 control_ok) c.
Proof.
  destruct c. intros [Hc Ht]. unfold no_rescales in Ht. cbn in Ht. unfold read_control. repeat read_step.
  match goal with |- context [vm !! ?n] => assert (has_kind (OptString (Some "")) (vm !! n) = true) as Hk by (apply option_value; [done|listed]) end.
  destruct (vm !! "torq_rescale") as [[csv| | |]|]; try done. cbn [as_string]. destruct (String.eqb csv "").
  - repeat read_step. split_and!; [exact Hc|by apply override_ok|subst; constructor].
  - repeat read_step. split_and!; [exact Hc|by apply override_ok|apply parsed_rescales].
Qed.

Lemma read_explicit_ends c : control_ok c → ends (read_explicit vm) (done_or_2 explicit_ok) c.
Proof.
  destruct c. intros Hc. unfold read_explicit. repeat read_step.
  split; [exact Hc|by apply Z.ltb_ge].
Qed.

Lemma robotiq_checked c : robotiq_endpoint_bad c = false → robotiq_parameters_bad c = false → robotiq_ok c.
Proof.
  unfold robotiq_endpoint_bad, robotiq_parameters_bad, not_a_fraction. intros H1 H2.
  repeat match goal with
         | H : _ || _ = false |- _ => apply orb_false_iff in H as [? ?]
         | H : negb _ = false |- _ => apply negb_false_iff in H
         end.
  unfold robotiq_ok, fraction. split_and!; try done; try lia; [|by apply not_empty].
  match goal with H : _ && _ = false |- _ => apply andb_false_iff in H as [H|H]; apply negb_eqb_false in H; rewrite H end; set_solver.
Qed.

Lemma check_combination_ends c : explicit_ok c → ends check_combination (done_or_2 combination_ok) c.
Proof.
  intros Hc. unfold check_combination. apply ends_bind, ends_lift, wp_modify.
  set (c' := if is_empty _ then _ else _).
  assert (explicit_ok c' ∧ (arg_topic_live_command c' ≠ "" → arg_topic_joint c' = arg_topic_live_command c')) as [Hc' Hj].
  { subst c'. destruct (is_empty (arg_topic_live_command c)) eqn:E; [|by destruct c].
    split; [done|]. by apply empty in E. }
  clearbody c'. clear c Hc.
  do 6 (apply ends_bind, ends_exit_if; [reflexivity|intros ?]).
  apply ends_exit_if; [reflexivity|intros ?].
  unfold topics_missing, configs_missing, effector_configs_missing, fr3_unusable in *.
  repeat match goal with H : _ || _ = false |- _ => apply orb_false_iff in H as [? ?] end.
  assert (is_fr3 c' = true → arg_device_model c' = "FR3") as Hfr3 by apply String.eqb_eq.
  assert (arg_device_model c' = "FR3" → is_fr3 c' = true) as Hfr3' by apply String.eqb_eq.
  assert (arg_topic_live_command c' ≠ "") as Hlive by by apply not_empty.
  split_and!; [exact Hc'|repeat constructor; by apply not_empty|by apply Hj|..].
  - destruct (is_fr3 c'); [left; by apply Hfr3|right; by apply not_empty].
  - destruct (is_empty (arg_effector_model c')) eqn:E; [left; by apply empty|right].
    repeat match goal with H : _ && _ = false |- _ => cbn in H; apply orb_false_iff in H as [? ?] end.
    split; by apply not_empty.
  - intros Hm. rewrite (Hfr3' Hm) in *.
    match goal with H : _ && (_ || _) = false |- _ => cbn in H; apply orb_false_iff in H as [Hrole ?] end.
    apply negb_false_iff, bool_decide_eq_true in Hrole. split_and!; [done|by apply not_empty|].
    destruct (is_empty (arg_robotiq_transport c')) eqn:E; [left; by apply empty|right; by apply robotiq_checked].
Qed.

Lemma read_ready_move_ends c : combination_ok c →
  ends (read_ready_move vm) (done_or_2 (λ c, combination_ok c ∧ ready_move_ok c)) c.
Proof.
  destruct c. intros Hc. unfold read_ready_move. repeat read_step.
  split; [exact Hc|]. split_and!; [done..|by apply Z.leb_gt].
Qed.

Lemma read_arguments_ends : ends (read_arguments underflow_is_error vm) (done_or_2 (λ c, combination_ok c ∧ ready_move_ok c)) uninitialized_args.
Proof.
  unfold read_arguments.
  eapply stage; [by apply read_device_ends|intros c1 H1].
  eapply stage; [by apply read_session_ends|intros c2 H2].
  eapply stage; [by apply read_control_ends|intros c3 H3].
  eapply stage; [by apply read_explicit_ends|intros c4 H4].
  eapply stage; [by apply check_combination_ends|intros c5 H5]. by apply read_ready_move_ends.
Qed.
End stages.

(** [C18] Whatever words the process is started with, reading them never throws: it
    ends with code 2, or gives arguments the rest of the program can work with.  The arm
    is one, the topic ZMQ; all five topics and both configuration files are named, for
    the effector too if there is one; rescales are finite and not negative; an FR3
    follows, has an address and, with a gripper, a transport with port, rates and raw
    positions in range; neither ready-move speed is at most zero, and recovery is not the faster. *)
Theorem accepted_arguments_valid underflow_is_error parse_command_line argv :
  (∀ vm, parse_command_line allowed_options argv = Some vm → conforms vm) →
  match command_line_args underflow_is_error parse_command_line argv with
  | Done c => combination_ok c ∧ ready_move_ok c
  | Exited code => code = 2
  | Thrown => False
  end.
Proof.
  intros Hp. unfold command_line_args. destruct (parse_command_line allowed_options argv) as [vm|] eqn:E; [|done].
  pose proof (read_arguments_ends underflow_is_error vm (Hp vm eq_refl)) as H. unfold ends in H.
  by destruct (read_arguments underflow_is_error vm uninitialized_args) as [[[]| |code] c].
Qed.

(** ** Command lines *)

(** What the parser gives for a command line that sets [given] and leaves the rest. *)
Definition default_value (k : OptionKind) : option OptionValue :=
  match k with
  | OptString d => ValString <$> d
  | OptInt d => ValInt <$> d
  | OptFloat d => ValFloat <$> d
  | OptSwitch => Some (ValBool false)
  end.
Definition parsed_map (set : list (string * OptionValue)) : variables_map :=
  list_to_map set ∪ list_to_map (omap (λ '(name, k), pair name <$> default_value k) allowed_options).

Definition fr3_command_line : list (string * OptionValue) := [
  ("role", ValString "follower"); ("device_model", ValString "FR3"); ("device_id", ValString "01");
  ("logical_name", ValString "left"); ("control_frequency", ValInt 100); ("topic_type", ValString "ZMQ");
  ("topic_state", ValString "s"); ("topic_live_command", ValString "l"); ("topic_direct_command", ValString "d");
  ("topic_lifecycle", ValString "c"); ("topic_status", ValString "t"); ("arm_model_config", ValString "fr3.json");
  ("arm_instance_config", ValString "fr3_01.json"); ("fr3_address", ValString "192.168.1.2");
  ("robotiq_transport", ValString "rtu"); ("robotiq_endpoint", ValString "/dev/ttyUSB0")].
Definition given_map (set : list (string * OptionValue)) : list (string * OptionKind) → list string → option variables_map :=
  λ _ _, Some (parsed_map set).

Definition conformsb (vm : variables_map) : bool := forallb (λ '(name, k), has_kind k (vm !! name)) allowed_options.
Lemma conformsb_conforms vm : conformsb vm = true → conforms vm.
Proof. intros H. unfold conformsb in H. rewrite forallb_forall in H. unfold conforms. apply Forall_forall. intros [name k] Hin. apply (H (name, k)). by apply list_elem_of_In. Qed.

Definition arguments_of (set : list (string * OptionValue)) : Outcome CommandLineArgs := command_line_args (λ _, true) (given_map set) [].

Lemma accepted_arguments_valid_witness :
  match arguments_of fr3_command_line with
  | Done c => (combination_ok c ∧ ready_move_ok c) ∧ arg_topic_joint c = "l" ∧ arg_robotiq_port c = 502
  | _ => False
  end.
Proof.
  pose proof (accepted_arguments_valid (λ _, true) (given_map fr3_command_line) []) as H.
  assert (∀ vm, given_map fr3_command_line allowed_options [] = Some vm → conforms vm) as Hc.
  { intros vm [= <-]. apply conformsb_conforms. vm_compute. reflexivity. }
  specialize (H Hc). unfold arguments_of.
  assert (match arguments_of fr3_command_line with
          | Done c => arg_topic_joint c = "l" ∧ arg_robotiq_port c = 502 | _ => False end) as Hv by (vm_compute; split; reflexivity).
  unfold arguments_of in Hv. destruct (command_line_args _ _ _); [exact (conj H Hv)|destruct Hv..].
Defined.

(** A role that is neither makes the process a leader. *)
Lemma unknown_role_leads : match arguments_of (("role", ValString "folower") :: ("device_model", ValString "YAM") ::
    ("control_port", ValString "can0") :: ("urdf_path", ValString "yam.urdf") :: tail (tail fr3_command_line)) with
  | Done c => arg_role c = LEADER
  | _ => False
  end.
Proof. by vm_compute. Qed.

(** A speed that is no number passes the checks. *)
Lemma nan_speed_passes : match arguments_of (("move_to_ready_vel_rad_s_normal", ValFloat S754_nan) :: fr3_command_line) with
  | Done c => arg_move_to_ready_vel_rad_s_normal c = S754_nan
  | _ => False
  end.
Proof. by vm_compute. Qed.

Lemma torq_rescale_whole_witness :
  parse_torq_rescale_csv (λ _, true) "0.8,1.5 ,0" = [lit32 8 10; lit32 15 10; f0] ∧
  parse_torq_rescale_csv (λ _, true) "0.8,,1.5" = [].
Proof.
  split.
  - destruct (torq_rescale_whole (λ _, true) ["0.8"; "1.5 "; "0"]) as [(vs & E & H & _)|[E _]].
    + repeat constructor; apply (bool_decide_unpack _); vm_compute; reflexivity.
    + done.
    + vm_compute in E. injection E as <-. vm_compute in H |- *. exact H.
    + by vm_compute in E.
  - destruct (torq_rescale_whole (λ _, true) ["0.8"; ""; "1.5"]) as [(vs & E & _)|[_ H]].
    + repeat constructor; apply (bool_decide_unpack _); vm_compute; reflexivity.
    + done.
    + by vm_compute in E.
    + exact H.
Defined.
