(* ===== verification/DeviceConfig.v ===== *)
(** * Configuration files (src/pi_device_config.cpp, include/pi_device_config.hpp)

    A [DeviceConfig] is the JSON document [values_] of a file.  The JSON library is the
    class [JsonDocument] over [JsonReader] ([ServoConfig]): elements, assignment and the
    conversions that throw; [Json] at the end is a plain JSON value that the witnesses
    use.  The file system is the parameter [read_file]: no file ([None]), a file that is
    no JSON ([Some None]) or its document. *)

From S2P Require Import Prelude.
From S2P Require Import FloatSpec.
From S2P Require Import Control.
From S2P Require Import CanBus.
From S2P Require Import Servo.
From S2P Require Import ServoConfig.
From S2P Require Import Exceptions.
From S2P Require Import CommandLine.

#[local] Open Scope string_scope.
#[local] Open Scope Z_scope.

Class JsonDocument (J : Type) `{JsonReader J} := {
  json_null : J;
  json_at : J → string → J;                     (* the field of an object that contains it *)
  json_elements : J → list J;                   (* what a loop goes through: elements, field values, the value itself *)
  json_is_array : J → bool;
  json_is_boolean : J → bool;
  json_is_true : J → bool;                      (* get<bool>() of a boolean *)
  json_of_bool : bool → J;
  json_with_elements : J → list J → J;          (* the same array or object with other elements *)
  json_assign : J → string → J → option J;      (* operator[] and =; None throws *)
  json_to_int16 : J → option Z;                 (* conversions of an element; None throws *)
  json_to_float : J → option f32;
}.
#[export] Hint Mode JsonDocument ! - : typeclass_instances.

(** ** Field names and values *)

Definition CURRENT_CONFIG_VERSION := "1.3.1".
Definition fn_config_version := "config_version".
Definition fn_device_model := "device_model".
Definition fn_spring_effect := "spring_effect".
Definition fn_gravity_compensation := "gravity_compensation".
Definition fn_follower_gravity_compensation := "follower_gravity_compensation".
Definition fn_read_only := "read_only".
Definition fn_device_type := "device_type".
Definition val_device_type_arm := "arm".
Definition val_device_type_effector := "effector".
Definition fn_arm_type := "arm_type".
Definition val_arm_type_can := "can".
Definition val_arm_type_controller := "controller".
Definition val_arm_type_serial := "serial".
Definition val_arm_type_fr3 := "fr3".
Definition fn_effector_type := "effector_type".
Definition val_effector_type_can := "can".
Definition val_effector_type_controller := "controller".
Definition val_effector_type_serial := "serial".
Definition val_effector_type_none := "None".
Definition fn_effector_control_mode := "control_mode".
Definition val_effector_control_mode_torque := "torque".
Definition val_effector_control_mode_position := "position".
Definition fn_effector_dist_to_torque_const := "dist_to_torque_const".
Definition fn_effector_grip_spring_offset := "grip_spring_offset".
Definition fn_effector_open_at_min := "open_at_min".
Definition fn_topic_type := "topic_type".
Definition val_topic_type_zmq := "ZMQ".
Definition fn_driver_type := "driver_type".
Definition val_driver_type_can := "CAN".
Definition val_driver_type_can_encoder := "CAN_ENCODER".
Definition val_driver_type_trossen := "TROSSEN_ETHERNET".
Definition val_driver_type_ft := "FEETECH".
Definition val_driver_type_fr3 := "FR3".
Definition fn_controller_model := "controller_model".
Definition fn_algo_type := "algo_type".
Definition val_algo_type_algo := "Algo".
Definition val_algo_type_pinocchio := "Pinocchio".
Definition val_algo_type_none := "None".
Definition fn_base_rpy := "base_rpy".
Definition fn_planning_type := "planning_type".
Definition val_planning_type_none := "None".
Definition fn_joint_init_sequence := "joint_init_sequence".
Definition fn_joints := "joints".
Definition fn_servos := "servos".

Section config.
Context {J : Type} `{JsonDocument J}.

(** [get_field_value] into a local: both of its failures are INVALID_PARAM. *)
Definition field {T} (get : J → string → option T) (json_data : J) (field_name : string) : option T :=
  if json_contains json_data field_name then get json_data field_name else None.

(** ** The cascade of [open_at_min] *)

Definition cascade_servo (top_open_at_min : bool) (servo : J) : option J :=
  if json_contains servo fn_effector_open_at_min then Some servo
  else json_assign servo fn_effector_open_at_min (json_of_bool top_open_at_min).

Definition cascade_joint (top_open_at_min : bool) (joint : J) : option J :=
  if negb (json_contains joint fn_servos) || negb (json_is_array (json_at joint fn_servos)) then Some joint
  else
    servos ← mapM (cascade_servo top_open_at_min) (json_elements (json_at joint fn_servos));
    json_assign joint fn_servos (json_with_elements (json_at joint fn_servos) servos).

Definition cascade_effector_open_at_min_to_servos (values : J) : option J :=
  if negb (json_contains values fn_effector_open_at_min) then Some values
  else
    let top_value := json_at values fn_effector_open_at_min in
    if negb (json_is_boolean top_value) then Some values
    else if negb (json_contains values fn_joints) || negb (json_is_array (json_at values fn_joints)) then Some values
    else
      joints ← mapM (cascade_joint (json_is_true top_value)) (json_elements (json_at values fn_joints));
      json_assign values fn_joints (json_with_elements (json_at values fn_joints) joints).

(** ** Loading *)

Context (read_file : string → option (option J)).

Definition init_config (file_path : string) : St J ReturnCode := λ values,
  match read_file file_path with
  | None => (NOT_FOUND, values)
  | Some None => (INVALID_PARAM, values)
  | Some (Some values) =>
      (match field json_get_string values fn_config_version with
       | None => NOT_FOUND
       | Some config_version => if String.eqb config_version CURRENT_CONFIG_VERSION then SUCCESS else NOT_SUPPORTED
       end, values)
  end.

Definition DeviceConfig_init_config_model (cla : CommandLineArgs) : St J ReturnCode :=
  if bool_decide (arg_device_config_type cla = CONFIG_ARM) && negb (is_empty (arg_arm_model_config cla))
  then init_config (arg_arm_model_config cla)
  else if bool_decide (arg_device_config_type cla = CONFIG_EFFECTOR) && negb (is_empty (arg_effector_model_config cla))
  then init_config (arg_effector_model_config cla)
  else mret INVALID_PARAM.

Definition DeviceConfig_init_config_individual (cla : CommandLineArgs) : Exc J ReturnCode :=
  if bool_decide (arg_device_config_type cla = CONFIG_ARM) && negb (is_empty (arg_arm_instance_config cla))
  then lift (init_config (arg_arm_instance_config cla))
  else if bool_decide (arg_device_config_type cla = CONFIG_EFFECTOR) && negb (is_empty (arg_effector_instance_config cla))
  then
    return_code ← lift (init_config (arg_effector_instance_config cla));
    (if ok return_code then may_throw (λ values, match cascade_effector_open_at_min_to_servos values with
                                                 | Some values' => (Some tt, values')
                                                 | None => (None, values)
                                                 end)
     else mret tt);;
    mret return_code
  else mret INVALID_PARAM.
End config.

(** ** JSON values *)

Inductive Json :=
| JNull
| JBool (b : bool)
| JInt (z : Z)
| JFloat (x : f64)
| JString (s : string)
| JArray (elements : list Json)
| JObject (fields : list (string * Json)).

Fixpoint lookup_field (fields : list (string * Json)) (name : string) : option Json :=
  match fields with
  | [] => None
  | (n, v) :: fields => if String.eqb n name then Some v else lookup_field fields name
  end.
Fixpoint assign_field (fields : list (string * Json)) (name : string) (v : Json) : list (string * Json) :=
  match fields with
  | [] => [(name, v)]
  | (n, w) :: fields => if String.eqb n name then (n, v) :: fields else (n, w) :: assign_field fields name v
  end.
Definition json_field (j : Json) (name : string) : option Json :=
  match j with JObject fields => lookup_field fields name | _ => None end.

Definition json_int (j : Json) : option Z := match j with JInt z => Some z | _ => None end.
Definition json_number (j : Json) : option f32 :=
  match j with JInt z => Some (f32_of_Z z) | JFloat x => Some (to_f32 x) | _ => None end.

#[export] Instance plain_reader : JsonReader Json := {|
  json_contains := λ j name, match json_field j name with Some _ => true | None => false end;
  json_get_int := λ j name, json_field j name ≫= json_int;
  json_get_float := λ j name, json_field j name ≫= json_number;
  json_get_bool := λ j name, match json_field j name with Some (JBool b) => Some b | _ => None end;
  json_get_string := λ j name, match json_field j name with Some (JString s) => Some s | _ => None end;
|}.
#[export] Instance plain_document : JsonDocument Json := {|
  json_null := JNull;
  json_at := λ j name, default JNull (json_field j name);
  json_elements := λ j, match j with JNull => [] | JArray l => l | JObject fields => snd <$> fields | _ => [j] end;
  json_is_array := λ j, match j with JArray _ => true | _ => false end;
  json_is_boolean := λ j, match j with JBool _ => true | _ => false end;
  json_is_true := λ j, match j with JBool b => b | _ => false end;
  json_of_bool := JBool;
  json_with_elements := λ j l, match j with JArray _ => JArray l | JObject fields => JObject (zip (fst <$> fields) l) | _ => j end;
  json_assign := λ j name v, match j with
                             | JNull => Some (JObject [(name, v)])
                             | JObject fields => Some (JObject (assign_field fields name v))
                             | _ => None
                             end;
  json_to_int16 := λ j, swrap 16 <$> json_int j;
  json_to_float := json_number;
|}.

(** The repository's own example of the cascade. *)
Example cascade_example :
  let values joints := JObject [("config_version", JString "1.3.1"); ("open_at_min", JBool true); ("joints", JArray joints)] in
  let servo id := [("servo_id", JInt id)] in
  cascade_effector_open_at_min_to_servos (values [
    JObject [("servos", JArray [JObject (servo 1); JObject (servo 2 ++ [("open_at_min", JBool false)])])];
    JObject [("servos", JArray [JObject (servo 3)])]]) =
  Some (values [
    JObject [("servos", JArray [JObject (servo 1 ++ [("open_at_min", JBool true)]); JObject (servo 2 ++ [("open_at_min", JBool false)])])];
    JObject [("servos", JArray [JObject (servo 3 ++ [("open_at_min", JBool true)])])]]).
Proof. reflexivity. Qed.
