(* ===== verification/JointFactory.v ===== *)
(** * Making joints and their servos (Servo::new_servos and init_config_individual of
    src/pi_servo.cpp, Joint::new_joints of src/pi_joint.cpp)

    Objects are made into local vectors and handed over at the end; on every early return
    the vectors go, and with them what they own ([drop_servos], [drop_joints]).  The
    servo classes are the interface [ServoFactory]: construction, the two configuration
    passes and destruction, dispatched on the class.  [ServoFactoryLaws] says which
    servos exist and which of them the registry names; the theorems on lifetimes are
    proved against it ([JointFactoryFacts]). *)

From S2P Require Import Prelude.
From S2P Require Import FloatSpec.
From S2P Require Import Control.
From S2P Require Import CanBus.
From S2P Require Import Servo.
From S2P Require Import ServoConfig.
From S2P Require Import ServoDm.
From S2P Require Import Joint.
From S2P Require Import ServoController.
From S2P Require Import SerialPort.
From S2P Require Import ServoFt.
From S2P Require Import Exceptions.
From S2P Require Import CommandLine.
From S2P Require Import DeviceConfig.

#[local] Open Scope string_scope.
#[local] Open Scope Z_scope.

Inductive ServoClass := CLASS_DM | CLASS_PASSIVE_ENCODER | CLASS_CONTROLLER | CLASS_FT.

Class ServoFactory (X J : Type) := {
  sf_create : ServoClass → St X ptr;                           (* std::make_unique<...> *)
  sf_init_config_model : ptr → J → St X ReturnCode;
  sf_init_config_individual : ptr → J → St X ReturnCode;
  sf_destroy : ptr → St X unit;                                (* ~Servo: Driver::unregister_servo *)
}.
#[export] Hint Mode ServoFactory ! - : typeclass_instances.

Definition val_servo_model_can_passive_encoder := "CAN Passive Encoder".

Definition servo_class (servo_model : string) : option ServoClass :=
  if String.eqb servo_model val_servo_model_dm_4340 || String.eqb servo_model val_servo_model_dm_4310 ||
     String.eqb servo_model val_servo_model_encos_A4310 || String.eqb servo_model val_servo_model_arx_encoder
  then Some CLASS_DM
  else if String.eqb servo_model val_servo_model_can_passive_encoder then Some CLASS_PASSIVE_ENCODER
  else if String.eqb servo_model val_servo_model_trossen_wxai then Some CLASS_CONTROLLER
  else if String.eqb servo_model val_servo_model_ft_sts3215 then Some CLASS_FT
  else None.

Section factory.
Context {X J : Type} `{JointServos X} `{JsonDocument J} `{!ServoFactory X J} (undefined_servo : Servo) (has_driver : bool).

(** ** Servos *)

Definition drop_servos (ps : list ptr) : St X unit := each_ sf_destroy ps.

(** [m] went wrong: what was made goes, and [rc] is returned. *)
Definition drop_and_return {T} (ps : list ptr) (rc : ReturnCode) : St X (ReturnCode * list T) :=
  drop_servos ps;; mret (rc, []).

(** The loop of [new_servos]; [made] is the local vector. *)
Fixpoint create_servos (servo_configs : list J) (made : list ptr) : St X (ReturnCode * list ptr) :=
  match servo_configs with
  | [] => mret (SUCCESS, made)
  | servo_config :: servo_configs =>
      match field json_get_string servo_config fn_servo_model with
      | None => drop_and_return made INVALID_PARAM
      | Some servo_model =>
          match servo_class servo_model with
          | None => drop_and_return made NOT_SUPPORTED
          | Some c =>
              p_servo ← sf_create c;
              return_code ← sf_init_config_model p_servo servo_config;
              if negb (ok return_code) then drop_and_return (p_servo :: made) return_code
              else create_servos servo_configs (made ++ [p_servo])
          end
      end
  end.

Definition new_servos (joint_config : J) : St X (ReturnCode * list ptr) :=
  if negb has_driver then mret (NOT_INITIALIZED, [])
  else if negb (json_contains joint_config fn_servos) then mret (INVALID_PARAM, [])
  else
    match json_elements (json_at joint_config fn_servos) with
    | [] => mret (INVALID_PARAM, [])
    | servo_configs => create_servos servo_configs []
    end.

(** [Servo::init_config_individual] of a joint's servos. *)
Definition servos_init_config_individual (joint_config : J) (servos : list ptr) : St X ReturnCode :=
  if negb (json_contains joint_config fn_servos) then mret INVALID_PARAM
  else
    let servo_config_list := json_elements (json_at joint_config fn_servos) in
    if negb (bool_decide (length servo_config_list = length servos)) then mret INVALID_PARAM
    else each (λ '(p_servo, servo_config), sf_init_config_individual p_servo servo_config) (zip servos servo_config_list).

(** ** Joints *)

Definition drop_joints (joints : list Joint) : St X unit := each_ (λ j, drop_servos (servos_ j)) joints.

Definition drop_joints_and_return (joints : list Joint) (rc : ReturnCode) : St X (ReturnCode * list Joint) :=
  drop_joints joints;; mret (rc, []).

(** The first loop of [new_joints]: the model configuration. *)
Fixpoint create_joints (joint_configs : list J) (made : list Joint) : St X (ReturnCode * list Joint) :=
  match joint_configs with
  | [] => mret (SUCCESS, made)
  | joint_config :: joint_configs =>
      let '(return_code, p_joint) := Joint.init_config_model joint_config (new_Joint []) in
      if negb (ok return_code) then drop_joints_and_return made return_code
      else
        '(return_code, servos) ← new_servos joint_config;
        if negb (ok return_code) then drop_joints_and_return made return_code
        else create_joints joint_configs (made ++ [p_joint <| servos_ := servos |>])
  end.

(** One joint of the second loop: the individual configuration. *)
Definition configure_joint (joint_config_individual : J) (p_joint : Joint) : St X (ReturnCode * Joint) :=
  let '(return_code, p_joint) := Joint.init_config_individual joint_config_individual p_joint in
  if negb (ok return_code) then mret (return_code, p_joint)
  else
    return_code ← servos_init_config_individual joint_config_individual (servos_ p_joint);
    if negb (ok return_code) then mret (return_code, p_joint)
    else w ← get_state; mret (validate_normalized_position_range undefined_servo (mkJointWorld p_joint w), p_joint).

(** [configured] are the joints before [joint_it], [rest] those from it on. *)
Fixpoint configure_joints (joint_configs : list J) (configured rest : list Joint) : St X (ReturnCode * list Joint) :=
  match joint_configs, rest with
  | [], [] => mret (SUCCESS, configured)
  | [], _ :: _ | _ :: _, [] => drop_joints_and_return (configured ++ rest) INVALID_PARAM
  | joint_config :: joint_configs, p_joint :: rest =>
      '(return_code, p_joint) ← configure_joint joint_config p_joint;
      if negb (ok return_code) then drop_joints_and_return (configured ++ p_joint :: rest) return_code
      else configure_joints joint_configs (configured ++ [p_joint]) rest
  end.

Definition new_joints (config_model config_individual : J) : St X (ReturnCode * list Joint) :=
  if negb (json_contains config_model fn_joints) then mret (INVALID_PARAM, [])
  else
    match json_elements (json_at config_model fn_joints) with
    | [] => mret (INVALID_PARAM, [])
    | joint_config_list =>
        '(return_code, made) ← create_joints joint_config_list [];
        if negb (ok return_code) then mret (return_code, [])
        else if negb (json_contains config_individual fn_joints) then drop_joints_and_return made INVALID_PARAM
        else configure_joints (json_elements (json_at config_individual fn_joints)) [] made
    end.
End factory.

(** ** Lifetimes *)

(** [sf_live]: the servos that exist.  [sf_named]: those the registry names. *)
Class ServoFactoryLaws (X J : Type) `{ServoFactory X J} := {
  sf_live : X → gset ptr;
  sf_named : X → gset ptr;
  sf_create_live : ∀ c w, wp (sf_create c) (λ p w', p ∉ sf_live w ∧ sf_live w' = {[p]} ∪ sf_live w ∧ sf_named w' = sf_named w) w;
  sf_model_live : ∀ p j w, wp (sf_init_config_model p j) (λ _ w', sf_live w' = sf_live w ∧ sf_named w' ⊆ {[p]} ∪ sf_named w) w;
  sf_individual_live : ∀ p j w, wp (sf_init_config_individual p j) (λ _ w', sf_live w' = sf_live w ∧ sf_named w' = sf_named w) w;
  sf_destroy_live : ∀ p w, wp (sf_destroy p) (λ _ w', sf_live w' = sf_live w ∖ {[p]} ∧ sf_named w' = sf_named w ∖ {[p]}) w;
}.
