(* ===== verification/JointFactoryFacts.v ===== *)
(** * Theorems on making joints

    Joints come whole, with as many servos as their configuration says and a reference
    servo among them, or not at all: then every servo made on the way is gone and the
    registry names none of them. *)

From S2P Require Import Prelude.
From S2P Require Import FloatSpec.
From S2P Require Import Control.
From S2P Require Import CanBus.
From S2P Require Import Servo.
From S2P Require Import ServoConfig.
From S2P Require Import ServoDm.
From S2P Require Import Joint.
From S2P Require Import DeviceConfig.
From S2P Require Import JointFactory.

#[local] Open Scope Z_scope.

(** ** What a configuration pass leaves alone *)

Section keeps_section.
Context {J : Type} `{JsonReader J} (config : J).

(** A computation that leaves [obs] of it alone. *)
Definition keeps {S O A} (obs : S → O) (m : St S A) : Prop := ∀ o j, obs j = o → wp m (λ _ j', obs j' = o) j.

Section keeps.
Context {S O : Type} (obs : S → O).

Lemma keeps_field {T} (get : J → string → option T) name (f : T → S → S) :
  (∀ v j, obs (f v j) = obs j) → keeps obs (get_field_value get config name f).
Proof.
  intros Hf o j Hj. unfold get_field_value, wp. destruct (json_contains _ _); [|done].
  destruct (get _ _); [|done]. cbn. by rewrite Hf.
Qed.

Lemma keeps_bind {A B} (m : St S A) (k : A → St S B) : keeps obs m → (∀ a, keeps obs (k a)) → keeps obs (m ≫= k).
Proof. intros Hm Hk o j Hj. wp_step. eapply wp_mono; [by apply Hm|]. cbv beta. intros a j' Hj'. by apply Hk. Qed.

Lemma keeps_ret {A} (a : A) : keeps obs (mret a).
Proof. intros o j Hj. by wp_step. Qed.

Lemma keeps_modify f : (∀ j, obs (f j) = obs j) → keeps obs (modify f).
Proof. intros Hf o j Hj. wp_step. by rewrite Hf. Qed.

Lemma keeps_get : keeps obs get_state.
Proof. intros o j Hj. by wp_step. Qed.

Lemma keeps_gets {A} (f : S → A) : keeps obs (gets f).
Proof. intros o j Hj. by wp_step. Qed.

Lemma keeps_if {A} (b : bool) (m1 m2 : St S A) : keeps obs m1 → keeps obs m2 → keeps obs (if b then m1 else m2).
Proof. by destruct b. Qed.

Lemma keeps_require m k : keeps obs m → keeps obs k → keeps obs (require m k).
Proof. intros Hm Hk. apply keeps_bind; [done|]. intros rc. apply keeps_if; [apply keeps_ret|done]. Qed.

Lemma wp_keeps {A} (m : St S A) Q o s : keeps obs m → obs s = o → (∀ a s', obs s' = o → Q a s') → wp m Q s.
Proof. intros Hm Hs HQ. eapply wp_mono; [by apply Hm|]. cbv beta. auto. Qed.
End keeps.
End keeps_section.

Ltac keeps := repeat first
  [ apply keeps_field; first [reflexivity|intros ? []; reflexivity] | apply keeps_require | apply keeps_bind; [|intros] | apply keeps_ret
  | apply keeps_get | apply keeps_gets | apply keeps_if | apply keeps_modify; intros; repeat case_match; reflexivity
  | progress case_match ].

Section lifetimes.
Context {X J : Type} `{JointServos X} `{JsonDocument J} `{ServoFactoryLaws X J}.
Context (undefined_servo : Servo) (has_driver : bool).

(** From [w] to [w'] the servos [ps] came into being, and nothing else changed but what
    the registry says about them. *)
Definition grown (ps : list ptr) (w w' : X) : Prop :=
  NoDup ps ∧ (∀ p, p ∈ ps → p ∉ sf_live w) ∧ sf_live w' = list_to_set ps ∪ sf_live w ∧
  sf_named w' ⊆ list_to_set ps ∪ sf_named w.

Lemma grown_nil w : grown [] w w.
Proof. repeat split; [constructor|set_solver..]. Qed.

Lemma grown_snoc ps w w1 w2 w3 p : grown ps w w1 → p ∉ sf_live w1 → sf_live w2 = {[p]} ∪ sf_live w1 →
  sf_named w2 = sf_named w1 → sf_live w3 = sf_live w2 → sf_named w3 ⊆ {[p]} ∪ sf_named w2 → grown (ps ++ [p]) w w3.
Proof.
  intros (Hnd & Hfresh & Hlive & Hnamed) Hp Hl Hn Hl3 Hn3. unfold grown. rewrite list_to_set_app_L, Hl3, Hl, Hlive. cbn.
  rewrite Hlive in Hp. split_and!.
  - apply NoDup_app. split_and!; [done|clear - Hp; set_solver|apply NoDup_singleton].
  - clear - Hp Hfresh. intros q [Hq|Hq%list_elem_of_singleton]%elem_of_app; [auto|]. subst. clear Hfresh. set_solver.
  - clear. set_solver.
  - rewrite Hn in Hn3. clear - Hn3 Hnamed. set_solver.
Qed.

Lemma grown_same ps w w1 w2 : grown ps w w1 → sf_live w2 = sf_live w1 → sf_named w2 = sf_named w1 → grown ps w w2.
Proof. intros (? & ? & ? & ?) Hl Hn. unfold grown. by rewrite Hl, Hn. Qed.

(** Joints made one after the other. *)
Lemma grown_trans ps qs w w1 w2 : grown ps w w1 → grown qs w1 w2 → grown (ps ++ qs) w w2.
Proof.
  intros (Hnd & Hfresh & Hlive & Hnamed) (Hnd2 & Hfresh2 & Hlive2 & Hnamed2). unfold grown.
  rewrite Hlive in *. rewrite list_to_set_app_L, Hlive2. split_and!.
  - apply NoDup_app. split_and!; [done| |done]. intros p Hp Hq. apply (Hfresh2 p Hq). clear - Hp. set_solver.
  - clear - Hfresh Hfresh2. intros p [Hp|Hp]%elem_of_app; [auto|]. intros Hl. apply (Hfresh2 p Hp). clear - Hl. set_solver.
  - clear. set_solver.
  - clear - Hnamed Hnamed2. set_solver.
Qed.

(** Nothing of what was made is left. *)
Definition unchanged (w w' : X) : Prop := sf_live w' = sf_live w ∧ sf_named w' ⊆ sf_named w.

Lemma drop_servos_spec ps w : wp (drop_servos (J := J) ps) (λ _ w', sf_live w' = sf_live w ∖ list_to_set ps ∧ sf_named w' = sf_named w ∖ list_to_set ps) w.
Proof.
  unfold drop_servos. revert w. induction ps as [|p ps IH]; intros w; cbn [each_]; [apply wp_ret; cbn; set_solver|].
  wp_step. eapply wp_mono; [apply sf_destroy_live|]. intros _ w1 [Hl Hn]. eapply wp_mono; [apply IH|].
  cbv beta. intros _ w2 [-> ->]. rewrite Hl, Hn. cbn. set_solver.
Qed.

Lemma drop_grown ps qs w w1 : grown ps w w1 → (∀ p, p ∈ qs ↔ p ∈ ps) → wp (drop_servos (J := J) qs) (λ _ w', unchanged w w') w1.
Proof.
  intros (Hnd & Hfresh & Hlive & Hnamed) Hq. eapply wp_mono; [apply drop_servos_spec|]. cbv beta. intros _ w2 [Hl Hn].
  unfold unchanged. rewrite Hl, Hn, Hlive. clear - Hfresh Hnamed Hq. set_solver.
Qed.

(** A function that makes [T]s, which own servos: all, of which [P] holds, or nothing. *)
Definition made_or_nothing {T} (owned : list T → list ptr) (P : list T → Prop) (w : X) (r : ReturnCode * list T) (w' : X) : Prop :=
  if ok (fst r) then P (snd r) ∧ grown (owned (snd r)) w w' else snd r = [] ∧ unchanged w w'.

Lemma drop_and_return_spec P ps qs rc w w1 : ok rc = false → grown ps w w1 → (∀ p, p ∈ qs ↔ p ∈ ps) →
  wp (drop_and_return (J := J) qs rc) (made_or_nothing id P w) w1.
Proof.
  intros Hrc Hg Hq. unfold drop_and_return. wp_step. eapply wp_mono; [by eapply drop_grown|]. cbv beta. intros _ w2 Hu.
  wp_step. unfold made_or_nothing. cbn. by rewrite Hrc.
Qed.

Lemma create_servos_made n configs : ∀ made w w1, grown made w w1 → (length made + length configs)%nat = n →
  wp (create_servos configs made) (made_or_nothing id (λ ps, length ps = n) w) w1.
Proof.
  induction configs as [|config configs IH]; intros made w w1 Hg Hlen; cbn [create_servos]; cbn [length] in Hlen.
  { wp_step. split; [cbn; lia|done]. }
  destruct (field _ _ _) as [model|]; [|by eapply drop_and_return_spec].
  destruct (servo_class model) as [c|]; [|by eapply drop_and_return_spec].
  wp_step. eapply wp_mono; [apply sf_create_live|]. intros p w2 (Hp & Hl & Hn). wp_step.
  eapply wp_mono; [apply sf_model_live|]. intros rc w3 [Hl3 Hn3]. cbv beta.
  assert (grown (made ++ [p]) w w3) as Hg' by by eapply grown_snoc.
  apply wp_if; intros Hrc; [|apply IH; [done|rewrite length_app; cbn; lia]]. apply negb_true_iff in Hrc.
  eapply drop_and_return_spec; [done|exact Hg'|set_solver].
Qed.

(** The servos [config] asks for. *)
Definition servo_count (config : J) : nat := length (json_elements (json_at config fn_servos)).

Lemma new_servos_made config w :
  wp (new_servos has_driver config) (made_or_nothing id (λ ps, length ps = servo_count config) w) w.
Proof.
  assert (∀ rc, ok rc = false → wp (mret (rc, [])) (made_or_nothing (T := ptr) id (λ ps, length ps = servo_count config) w) w) as Hf.
  { intros rc Hrc. wp_step. unfold made_or_nothing. cbn. rewrite Hrc. split; [done|]. unfold unchanged. set_solver. }
  unfold new_servos. apply wp_if; intros _; [by apply Hf|]. apply wp_if; intros _; [by apply Hf|].
  destruct (json_elements _) eqn:E; [by apply Hf|]. apply create_servos_made; [apply grown_nil|]. unfold servo_count. by rewrite E.
Qed.

(** ** Joints *)

Definition servos_of (js : list Joint) : list ptr := js ≫= servos_.

Lemma drop_joints_servos js (w : X) : drop_joints (J := J) js w = drop_servos (J := J) (servos_of js) w.
Proof.
  unfold drop_joints, drop_servos, servos_of. revert w. induction js as [|j js IH]; intros w; [done|]. cbn [each_ mbind list_bind].
  rewrite bind_run, IH. clear IH. revert w. induction (servos_ j) as [|p ps IH]; intros w; [done|]. cbn [each_ app].
  rewrite !bind_run. apply IH.
Qed.

Lemma drop_joints_wp js (Q : unit → X → Prop) w : wp (drop_servos (J := J) (servos_of js)) Q w → wp (drop_joints (J := J) js) Q w.
Proof. unfold wp. by rewrite drop_joints_servos. Qed.

Lemma drop_joints_and_return_spec P js rc w w1 : ok rc = false → grown (servos_of js) w w1 →
  wp (drop_joints_and_return (J := J) js rc) (made_or_nothing servos_of P w) w1.
Proof.
  intros Hrc Hg. unfold drop_joints_and_return. wp_step. apply drop_joints_wp.
  eapply wp_mono; [by eapply drop_grown|]. cbv beta. intros _ w2 Hu. wp_step. unfold made_or_nothing. cbn. by rewrite Hrc.
Qed.

(** ** The two configuration passes of a joint *)

Section passes.
Context (config : J).

Lemma init_model_keeps : keeps servos_ (Joint.init_config_model config).
Proof. unfold Joint.init_config_model, config_spring_and_limits, config_position_and_safety. keeps. Qed.

(** What the individual pass leaves: a reference servo, and velocities that are positive. *)
Definition configured (j : Joint) : Prop :=
  0 ≤ reference_servo_index_ j < Z.of_nat (length (servos_ j)) ∧
  not_positive (vel_max_ j) = false ∧ not_positive (accel_max_ j) = false ∧ not_positive (follow_vel_max_ j) = false.

Lemma init_individual_sound ps j : servos_ j = ps →
  wp (Joint.init_config_individual config) (λ rc j', servos_ j' = ps ∧ (ok rc = true → configured j')) j.
Proof.
  intros Hj. unfold Joint.init_config_individual. wp_step. apply (wp_keeps servos_ _ _ ps); [by keeps|done|]. clear j Hj.
  intros _ j Hj. wp_step. apply (wp_keeps servos_ _ _ ps); [by keeps|done|]. clear j Hj. intros _ j Hj.
  wp_step. wp_step. apply wp_if; intros Href; [by wp_step|]. apply orb_false_iff in Href as [Hlow Hhigh].
  set (obs := λ j, (servos_ j, reference_servo_index_ j)).
  wp_step. apply (wp_keeps obs _ _ (obs j)); [by keeps|done|]. intros _ j1 Hj1.
  wp_step. apply (wp_keeps obs _ _ (obs j)); [by keeps|done|]. clear j1 Hj1. intros _ j1 Hj1.
  wp_step. apply (wp_keeps obs _ _ (obs j)); [by keeps|done|]. clear j1 Hj1. intros rc j1 Hj1.
  wp_step. apply (wp_keeps obs _ _ (obs j)); [by keeps|done|]. clear j1 Hj1. intros _ j1 Hj1.
  injection Hj1 as Hs Hr. rewrite Hj in Hs. wp_step. wp_step. apply wp_if; intros Hpos; [by wp_step|].
  rewrite !orb_false_iff in Hpos. destruct Hpos as [[Hv Ha] Hf].
  assert (configured j1) as Hc.
  { split; [|done]. rewrite Hr, Hs. rewrite Hj in Hhigh. apply Z.ltb_ge in Hlow. apply Z.leb_gt in Hhigh. lia. }
  case_match; [|by wp_step]. apply wp_if; intros _; [by wp_step|]. by do 3 wp_step.
Qed.
End passes.

(** ** All joints *)

Lemma servos_of_snoc js j : servos_of (js ++ [j]) = servos_of js ++ servos_ j.
Proof. unfold servos_of. rewrite bind_app. cbn. by rewrite app_nil_r. Qed.

Lemma grown_unchanged ps w w1 w2 : grown ps w w1 → unchanged w1 w2 → grown ps w w2.
Proof. intros (Hnd & Hf & Hl & Hn) [Hl2 Hn2]. unfold grown. rewrite Hl2, Hl. split_and!; [done..|]. by etrans. Qed.

(** The joint has the servos that [config] asks for. *)
Definition has_servos (config : J) (j : Joint) : Prop := length (servos_ j) = servo_count config.

Lemma create_joints_made all configs : ∀ done_ made w w1, all = done_ ++ configs → Forall2 has_servos done_ made →
  grown (servos_of made) w w1 →
  wp (create_joints has_driver configs made) (made_or_nothing servos_of (Forall2 has_servos all) w) w1.
Proof.
  induction configs as [|config configs IH]; intros done_ made w w1 Hall Hmade Hg; cbn [create_joints].
  { wp_step. split; [|done]. subst all. by rewrite app_nil_r. }
  pose proof (init_model_keeps config [] (new_Joint []) eq_refl) as Hkeep. unfold wp in Hkeep.
  destruct (Joint.init_config_model config (new_Joint [])) as [rc j]. cbn in Hkeep.
  apply wp_if; intros Hrc; [apply drop_joints_and_return_spec; [by apply negb_true_iff|done]|].
  wp_step. eapply wp_mono; [apply new_servos_made|]. cbv beta. intros [rc2 servos] w2 Hservos.
  unfold made_or_nothing in Hservos. cbn [fst snd] in Hservos.
  apply wp_if; intros Hrc2; [apply negb_true_iff in Hrc2|apply negb_false_iff in Hrc2]; rewrite Hrc2 in Hservos.
  - destruct Hservos as [_ Hu]. apply drop_joints_and_return_spec; [done|]. by eapply grown_unchanged.
  - destruct Hservos as [Hlen Hg2]. eapply (IH (done_ ++ [config])).
    + subst all. by rewrite <- app_assoc.
    + apply Forall2_app; [done|]. by constructor.
    + rewrite servos_of_snoc. by eapply grown_trans.
Qed.

Lemma servos_individual_same config ps w :
  wp (servos_init_config_individual config ps) (λ _ w', sf_live w' = sf_live w ∧ sf_named w' = sf_named w) w.
Proof.
  unfold servos_init_config_individual. apply wp_if; intros _; [by wp_step|]. apply wp_if; intros _; [by wp_step|].
  set (R := λ w w' : X, sf_live w' = sf_live w ∧ sf_named w' = sf_named w).
  assert (PreOrder R) by (split; [done|]; intros a b c [] []; split; congruence).
  apply (steps_each _ R). intros [p j]. intros w0. apply (sf_individual_live p j w0).
Qed.

Lemma configure_joint_spec config j w :
  wp (configure_joint undefined_servo config j)
     (λ r w', sf_live w' = sf_live w ∧ sf_named w' = sf_named w ∧ servos_ (snd r) = servos_ j ∧
              (ok (fst r) = true → configured (snd r))) w.
Proof.
  unfold configure_joint. pose proof (init_individual_sound config (servos_ j) j eq_refl) as Hj. unfold wp in Hj.
  destruct (Joint.init_config_individual config j) as [rc j']. cbn in Hj. destruct Hj as [Hs Hc].
  apply wp_if; intros Hrc; [by wp_step; cbn; rewrite (proj1 (negb_true_iff _) Hrc)|].
  wp_step. eapply wp_mono; [apply servos_individual_same|]. cbv beta. intros rc2 w2 [Hl Hn].
  apply negb_false_iff in Hrc. apply wp_if; intros Hrc2; by repeat wp_step; cbn; auto.
Qed.

Lemma configure_joints_made all configs : ∀ configured_ rest w w1, Forall2 has_servos all (configured_ ++ rest) →
  Forall configured configured_ → grown (servos_of (configured_ ++ rest)) w w1 →
  wp (configure_joints undefined_servo configs configured_ rest)
     (made_or_nothing servos_of (λ js, Forall2 has_servos all js ∧ Forall configured js) w) w1.
Proof.
  induction configs as [|config configs IH]; intros configured_ [|j rest] w w1 Hall Hc Hg; cbn [configure_joints];
    try by apply drop_joints_and_return_spec.
  { wp_step. rewrite app_nil_r in *. done. }
  wp_step. eapply wp_mono; [apply configure_joint_spec|]. cbv beta. intros [rc j'] w2 (Hl & Hn & Hs & Hj). cbn [fst snd] in *.
  assert (grown (servos_of (configured_ ++ j' :: rest)) w w2) as Hg2.
  { eapply grown_same; [|done..]. unfold servos_of in *. rewrite bind_app in *. cbn in *. by rewrite Hs. }
  apply wp_if; intros Hrc; [apply drop_joints_and_return_spec; [by apply negb_true_iff|done]|].
  apply negb_false_iff in Hrc. apply IH; rewrite <- ?app_assoc; [|apply Forall_app; by auto|done].
  cbn. clear -Hall Hs. apply Forall2_app_inv_r in Hall as (a1 & a2 & Hleft & Hright & ->).
  apply Forall2_cons_inv_r in Hright as (c & a2' & Hc & Hright & ->). apply Forall2_app; [done|]. constructor; [|done].
  unfold has_servos. by rewrite Hs.
Qed.

Lemma new_joints_made config_model config_individual w :
  wp (new_joints undefined_servo has_driver config_model config_individual)
     (made_or_nothing servos_of (λ js, Forall2 has_servos (json_elements (json_at config_model fn_joints)) js ∧
                                       Forall configured js) w) w.
Proof.
  set (P := λ js, _). assert (∀ rc, ok rc = false → ∀ w1, unchanged w w1 → wp (mret (rc, [])) (made_or_nothing servos_of P w) w1) as Hf.
  { intros rc Hrc w1 Hu. wp_step. unfold made_or_nothing. cbn. by rewrite Hrc. }
  assert (unchanged w w) as Hw by done.
  unfold new_joints. apply wp_if; intros _; [by apply Hf|].
  destruct (json_elements _) as [|c cs]; [by apply Hf|].
  wp_step. eapply wp_mono; [apply (create_joints_made (c :: cs) (c :: cs) [] []); [done|done|apply grown_nil]|].
  cbv beta. intros [rc made] w1 Hmade. unfold made_or_nothing in Hmade. cbn [fst snd] in Hmade.
  apply wp_if; intros Hrc; [apply negb_true_iff in Hrc|apply negb_false_iff in Hrc]; rewrite Hrc in Hmade.
  { apply Hf; [done|apply Hmade]. }
  destruct Hmade as [Hall Hg]. apply wp_if; intros _; [by apply drop_joints_and_return_spec|].
  by apply configure_joints_made.
Qed.

(** [C20] Joints are made all or none.  [Joint::new_joints] gives one joint for each entry
    of the model configuration, with as many servos as the entry lists (at least one),
    all of them new and distinct, a reference servo among them, and velocity, follow and
    acceleration limits that are positive; and then these servos are the ones that came
    into being.  Or it fails, whichever of the configurations is at fault: then there is
    no joint, every servo made on the way is gone and the registry names none of them. *)
Theorem new_joints_all_or_nothing config_model config_individual w :
  wp (new_joints undefined_servo has_driver config_model config_individual)
     (λ '(return_code, js) w',
        if ok return_code then
          Forall2 has_servos (json_elements (json_at config_model fn_joints)) js ∧ Forall configured js ∧
          NoDup (servos_of js) ∧ (∀ p, p ∈ servos_of js → p ∉ sf_live w) ∧
          sf_live w' = list_to_set (servos_of js) ∪ sf_live w ∧ sf_named w' ⊆ list_to_set (servos_of js) ∪ sf_named w
        else js = [] ∧ sf_live w' = sf_live w ∧ sf_named w' ⊆ sf_named w) w.
Proof.
  eapply wp_mono; [apply new_joints_made|]. intros [rc js] w'. unfold made_or_nothing. cbn [fst snd].
  destruct (ok rc); [|done]. intros ([Hall Hc] & Hnd & Hfresh & Hlive & Hnamed). done.
Qed.
End lifetimes.

(** ** A bench of CAN servos

    Every servo is a [ServoDm] that enters the process's registry; the other laws of
    [JointServos] are trivial. *)

Record Bench := mkBench { bn_heap : gmap ptr Servo; bn_registry : Registry }.
#[export] Instance eta_Bench : Eta Bench := λ r, mkBench (bn_heap r) (bn_registry r).

Definition bench_servo (p : ptr) (b : Bench) : Servo := default (new_Servo follower_arm None) (bn_heap b !! p).
Definition bench_ok : St Bench ReturnCode := mret SUCCESS.

#[export] Instance bench_servos : JointServos Bench := {|
  js_servo := bench_servo;
  js_update := λ p f b, b <| bn_heap := alter f p (bn_heap b) |>;
  js_effective_pos_kp := λ p b, ServoDm.get_effective_pos_kp (bench_servo p b);
  js_read_hardware_values := λ _, bench_ok;
  js_park_safely := λ _, bench_ok;
  js_start_hardware := λ _, bench_ok;
  js_verify_position_fresh := λ _, bench_ok;
  js_verify_operational := λ _, bench_ok;
  js_change_control_mode_for_leader := λ _, bench_ok;
  js_change_control_mode_for_follower := λ _, bench_ok;
  js_move := λ _ _, bench_ok;
  js_move_with := λ _ _ _ _, bench_ok;
  js_apply_torque := λ _ _, bench_ok;
  js_apply_torque_with_damping := λ _ _, bench_ok;
  js_frame_age_ms := λ _, mret 0;
  js_mit_codec_report := λ p b, ServoDm.get_mit_codec_report (bench_servo p b);
|}.

Section bench.
Context {J : Type} `{JsonReader J}.

Definition bench_create : St Bench ptr := λ b,
  let p := fresh (dom (bn_heap b)) in (p, b <| bn_heap := <[p := new_Servo follower_arm None]> (bn_heap b) |>).
Definition bench_model (p : ptr) (config : J) : St Bench ReturnCode := λ b,
  let '(rc, (s, r)) := ServoDm_init_config_model p true config (bench_servo p b, bn_registry b) in
  (rc, mkBench (alter (λ _, s) p (bn_heap b)) r).
Definition bench_individual (p : ptr) (config : J) : St Bench ReturnCode := λ b,
  let '(rc, s) := ServoDm_init_config_individual true config (bench_servo p b) in
  (rc, b <| bn_heap := alter (λ _, s) p (bn_heap b) |>).
Definition bench_destroy (p : ptr) : St Bench unit := λ b,
  (tt, mkBench (delete p (bn_heap b)) (unregister_servo p (bn_registry b))).

#[export] Instance bench_factory : ServoFactory Bench J := {|
  sf_create := λ _, bench_create;
  sf_init_config_model := bench_model;
  sf_init_config_individual := bench_individual;
  sf_destroy := bench_destroy;
|}.

Definition named (r : Registry) : gset ptr := map_img (map_id_to_servo_ r).

Lemma keeps_lift_fst {A} (m : St Servo A) : keeps (S := SR) snd (lift_into fst (λ s '(_, r), (s, r)) m).
Proof. intros o [s r] Hr. unfold wp, lift_into. cbn. by destruct (m s). Qed.

Lemma named_register id i p r : named (register_servo_data_index id i p r) ⊆ {[p]} ∪ named r.
Proof. unfold named. cbn. apply map_img_insert_subseteq. Qed.

(** A servo's model pass names that servo at most. *)
Lemma init_model_named p config m sr :
  wp (ServoConfig.init_config_model p config m) (λ _ sr', named (snd sr') ⊆ {[p]} ∪ named (snd sr)) sr.
Proof.
  unfold ServoConfig.init_config_model. apply wp_require.
  apply (wp_keeps snd _ _ (snd sr)); [by keeps|done|]. intros rc sr1 Hr1. case_match; [|rewrite Hr1; set_solver].
  apply wp_require. apply (wp_keeps snd _ _ (snd sr)); [by keeps|done|]. clear sr1 Hr1. intros rc2 sr1 Hr1.
  case_match; [|rewrite Hr1; set_solver]. wp_step. wp_step. destruct sr1 as [s1 r1]. cbn in Hr1. subst r1.
  eapply (wp_keeps snd); [|reflexivity|].
  { repeat first [apply keeps_lift_fst|progress keeps]. }
  intros _ sr2 ->. cbn. apply named_register.
Qed.

#[export] Instance bench_laws : ServoFactoryLaws Bench J.
Proof.
  refine {| sf_live := λ b, dom (bn_heap b); sf_named := λ b, named (bn_registry b) |}.
  - intros c b. unfold sf_create, bench_factory, bench_create, wp. cbn. split_and!; [apply is_fresh|by rewrite dom_insert_L|done].
  - intros p config b. unfold wp. cbn. unfold bench_model.
    assert (wp (ServoDm_init_config_model p true config) (λ _ sr', named (snd sr') ⊆ {[p]} ∪ named (bn_registry b))
              (bench_servo p b, bn_registry b)) as Hn.
    { cbn [negb ServoDm_init_config_model]. unfold ServoDm_init_config_model. cbn [negb]. apply wp_require.
      eapply wp_mono; [apply init_model_named|]. cbv beta. intros rc [s r] Hn. case_match; [|done].
      unfold wp. repeat case_match; done. }
    unfold wp in Hn. destruct (ServoDm_init_config_model _ _ _ _) as [rc [s r]]. cbn in *. by rewrite dom_alter_L.
  - intros p config b. unfold wp. cbn. unfold bench_individual.
    destruct (ServoDm_init_config_individual _ _ _) as [rc s]. cbn. by rewrite dom_alter_L.
  - intros p b. unfold wp. cbn. split; [apply dom_delete_L|]. apply set_eq. intros q.
    unfold named. rewrite elem_of_difference, !elem_of_map_img, not_elem_of_singleton.
    setoid_rewrite (λ id, proj1 (unregister_lookup p (bn_registry b) id)).
    split.
    + intros [id Hid]. case_decide as E; [done|]. split; [by exists id|]. intros ->. done.
    + intros [[id Hid] Hq]. exists id. rewrite decide_False; [done|]. rewrite Hid. congruence.
Qed.
End bench.

(** Two joints, the first with two servos. *)
Definition bench_servo_config (id : Z) : Json :=
  JObject [(fn_servo_id, JInt id); (fn_servo_data_index, JInt (id - 1)); (fn_servo_model, JString val_servo_model_dm_4310)].
Definition bench_joint_config (id : Z) (servo_ids : list Z) : Json :=
  JObject [(fn_joint_id, JInt id); (fn_joint_vel_max, JInt 2); (fn_servos, JArray (bench_servo_config <$> servo_ids))].
Definition bench_config_model (last_joint : list Z) : Json :=
  JObject [(fn_joints, JArray [bench_joint_config 1 [1; 2]; bench_joint_config 2 last_joint])].
Definition bench_joint_individual (servo_count : nat) : Json :=
  JObject [(fn_joint_reference_servo_index, JInt 0); (fn_joint_accel_max, JInt 5); (fn_servos, JArray (replicate servo_count (JObject [])))].
Definition bench_config_individual : Json :=
  JObject [(fn_joints, JArray [bench_joint_individual 2; bench_joint_individual 1])].
Definition empty_bench : Bench := mkBench ∅ (mkRegistry ∅ ∅).

Definition bench_run (last_joint : list Z) : (ReturnCode * list Joint) * Bench :=
  new_joints (new_Servo follower_arm None) true (bench_config_model last_joint) bench_config_individual empty_bench.

Lemma bench_results : fst ∘ fst ∘ bench_run <$> [[3]; []; [3; 4]] = [SUCCESS; INVALID_PARAM; INVALID_PARAM].
Proof. by vm_compute. Qed.

(** The joints of a good configuration; one with a joint that lists no servo fails in the
    first pass, one that lists too many in the second. *)
Lemma new_joints_all_or_nothing_witness :
  fst ∘ fst ∘ bench_run <$> [[3]; []; [3; 4]] = [SUCCESS; INVALID_PARAM; INVALID_PARAM] ∧
  Forall (λ last_joint,
    wp (new_joints (new_Servo follower_arm None) true (bench_config_model last_joint) bench_config_individual)
       (λ '(return_code, js) w',
          if ok return_code then
            Forall2 has_servos (json_elements (json_at (bench_config_model last_joint) fn_joints)) js ∧ Forall configured js ∧
            NoDup (servos_of js) ∧ (∀ p, p ∈ servos_of js → p ∉ sf_live empty_bench) ∧
            sf_live w' = list_to_set (servos_of js) ∪ sf_live empty_bench ∧
            sf_named w' ⊆ list_to_set (servos_of js) ∪ sf_named empty_bench
          else js = [] ∧ sf_live w' = sf_live empty_bench ∧ sf_named w' ⊆ sf_named empty_bench) empty_bench) [[3]; []; [3; 4]].
Proof.
  split; [exact bench_results|].
  apply Forall_true. intros last_joint.
  apply (new_joints_all_or_nothing (new_Servo follower_arm None) true (bench_config_model last_joint) bench_config_individual empty_bench).
Defined.
