(* ===== verification/TopicInit.v ===== *)
(** * Making a topic (the constructor of TopicZmq and init_port of src/pi_topic_zmq.cpp,
    Topic::new_topic of src/pi_topic.cpp)

    The ports of the host are the parameter [N] with what [zmq::socket_t::bind] and
    [connect] do to them.  [init_port] gives the port a publisher got and those a
    subscriber connected to; the constructor notes them in [attached], by socket.  The
    high-water marks it sets are constants of [Topic]. *)

From S2P Require Import Prelude.
From S2P Require Import FloatSpec.
From S2P Require Import Control.
From S2P Require Import ServoConfig.
From S2P Require Import Topic.
From S2P Require Import Exceptions.
From S2P Require Import CommandLine.
From S2P Require Import DeviceConfig.

#[local] Open Scope string_scope.
#[local] Open Scope Z_scope.

Definition TOPIC_FOLLOWER_JOINT_INFO : string := "follower_joint_info".
Definition TOPIC_COMMAND_INFO : string := "command_info".
Definition TOPIC_DEVICE_INFO : string := "device_info".

Inductive BindResult := BOUND | ADDRESS_IN_USE | BIND_ERROR.

Inductive TopicSocket :=
| PUB_JOINT | PUB_FOLLOWER_JOINT | PUB_DEVICE_INFO | PUB_EFFECTOR_INFO | PUB_JOYSTICK
| SUB_JOINT | SUB_DIRECT_JOINT | SUB_FOLLOWER_JOINT | SUB_COMMAND.
#[export] Instance TopicSocket_eq_dec : EqDecision TopicSocket.
Proof. solve_decision. Defined.

(** Where a socket is: a publisher at its port, a subscriber connected to some. *)
Inductive Attachment := BoundTo (topic_name : list Z) (port : Z) | ConnectedTo (topic_name : list Z) (ports : list Z).

Record TopicBuilding (N : Type) := mkTopicBuilding {
  tb_ports : N;
  tb_topic : Topic;
  tb_attached : list (TopicSocket * Attachment);
}.
Arguments mkTopicBuilding {N}.
Arguments tb_ports {N}.
Arguments tb_topic {N}.
Arguments tb_attached {N}.
#[export] Instance eta_TopicBuilding N : Eta (TopicBuilding N) := λ r,
  mkTopicBuilding (tb_ports r) (tb_topic r) (tb_attached r).

(** [None]: the constructor of the base throws. *)
Definition control_period_from_frequency (control_frequency : Z) : option Z :=
  if control_frequency <=? 0 then None else Some (1000 `quot` control_frequency).

(** The topic's type: the command line's, or the configuration's. *)
Definition topic_type_of {J} `{JsonReader J} (values : J) (cla : CommandLineArgs) : option string :=
  if String.eqb (arg_topic_type cla) OPT_TOPIC_TYPE_UNDEFINED then field json_get_string values fn_topic_type
  else Some (arg_topic_type cla).

Section zmq.
Context {N : Type} (zmq_bind : Z → St N BindResult) (zmq_connect : Z → St N bool) (get_time_now : prof_time_t).
Local Abbreviation B := (TopicBuilding N).

(** ** Ports *)

(** The loop over the candidates of a publisher: the first free one. *)
Fixpoint bind_first (candidates : list Z) : Exc N Z :=
  match candidates with
  | [] => throw
  | joint_port_address :: candidates =>
      result ← lift (zmq_bind joint_port_address);
      match result with
      | BOUND => mret joint_port_address
      | ADDRESS_IN_USE => bind_first candidates
      | BIND_ERROR => throw
      end
  end.

Fixpoint connect_each (candidates : list Z) : Exc N unit :=
  match candidates with
  | [] => mret tt
  | joint_port_address :: candidates =>
      connected ← lift (zmq_connect joint_port_address);
      if connected : bool then connect_each candidates else throw
  end.

Definition on_ports {A} (m : Exc N A) : Exc B A := exc_into tb_ports (λ n b, b <| tb_ports := n |>) m.
Definition note (s : TopicSocket) (a : Attachment) : Exc B unit :=
  lift (modify (λ b, b <| tb_attached := (tb_attached b ++ [(s, a)])%list |>)).

Definition init_port_pub (s : TopicSocket) (topic_name : list Z) : Exc B unit :=
  port ← on_ports (bind_first (generate_port_candidates_from_topic topic_name kZmqPortProbeCandidatesPub));
  note s (BoundTo topic_name port).
Definition init_port_sub (s : TopicSocket) (topic_name : list Z) : Exc B unit :=
  let candidates := generate_port_candidates_from_topic topic_name kZmqPortProbeCandidatesSub in
  on_ports (connect_each candidates);;
  note s (ConnectedTo topic_name candidates).

(** ** The constructor *)

Definition set_topic (f : Topic → Topic) : Exc B unit := lift (modify (λ b, b <| tb_topic := f (tb_topic b) |>)).

(** The members before the body: open sockets, no messages. *)
Definition fresh_topic (cla : CommandLineArgs) (control_period : Z) : Topic := mkTopic
  true false true 0 control_period prof_time_zero
  (bytes_of_string (arg_topic_joint cla)) [] (bytes_of_string (arg_topic_state cla))
  (bytes_of_string (arg_topic_direct_command cla)) (bytes_of_string (arg_topic_lifecycle cla))
  (bytes_of_string (arg_topic_status cla)) []
  (Some []) (Some []) (Some []) (Some []) (Some []) (Some []) (Some []) (Some []) (Some []) (Some []) (Some []).

Definition or_default (name dflt : list Z) : list Z := if bool_decide (name = []) then dflt else name.

Section constructor.
Context (cla : CommandLineArgs).
Local Abbreviation unique base := (generate_unique_topic_name (bytes_of_string base)
  (bytes_of_string (arg_device_model cla)) (bytes_of_string (arg_device_id cla))).

Definition topic_names : Exc B unit :=
  set_topic (λ t, t <| pause_leader_command_listening_ := bool_decide (arg_role cla = FOLLOWER) |>
                    <| topic_state_ := or_default (topic_state_ t) (unique TOPIC_FOLLOWER_JOINT_INFO) |>
                    <| topic_lifecycle_ := or_default (topic_lifecycle_ t) (bytes_of_string TOPIC_COMMAND_INFO) |>
                    <| topic_status_ := or_default (topic_status_ t) (unique TOPIC_DEVICE_INFO) |>).

Definition leader_sockets (t : Topic) : Exc B unit :=
  init_port_pub PUB_JOINT (topic_joint_ t);;
  set_topic (λ t, t <| sub_direct_joint_ := None |>);;
  init_port_pub PUB_EFFECTOR_INFO (generate_unique_topic_name TOPIC_EFFECTOR_INFO
    (bytes_of_string (arg_device_model cla)) (bytes_of_string (arg_device_id cla)));;
  (if negb (String.eqb (arg_topic_joystick cla) OPT_DEFAULT_NONE) && negb (is_empty (arg_topic_joystick cla)) then
     set_topic (λ t, t <| topic_joystick_ := bytes_of_string (arg_topic_joystick cla) |>);;
     init_port_pub PUB_JOYSTICK (bytes_of_string (arg_topic_joystick cla))
   else set_topic (λ t, t <| pub_joystick_ := None |>));;
  (if negb (is_empty (arg_paired_follower_state_topic cla)) then
     set_topic (λ t, t <| topic_follower_joint_ := bytes_of_string (arg_paired_follower_state_topic cla) |>);;
     init_port_sub SUB_FOLLOWER_JOINT (bytes_of_string (arg_paired_follower_state_topic cla))
   else set_topic (λ t, t <| sub_follower_joint_ := None |>)).

Definition follower_sockets (t : Topic) : Exc B unit :=
  init_port_sub SUB_JOINT (topic_joint_ t);;
  (if negb (bool_decide (topic_direct_command_ t = [])) then init_port_sub SUB_DIRECT_JOINT (topic_direct_command_ t)
   else set_topic (λ t, t <| sub_direct_joint_ := None |>));;
  set_topic (λ t, t <| sub_joystick_left_ := None |> <| sub_joystick_right_ := None |>).

Definition attach_sockets (t : Topic) : Exc B unit :=
  init_port_pub PUB_DEVICE_INFO (topic_status_ t);;
  set_topic (λ t, t <| topic_follower_joint_ := topic_state_ t |>);;
  init_port_pub PUB_FOLLOWER_JOINT (topic_state_ t);;
  match arg_role cla with
  | LEADER => leader_sockets t
  | FOLLOWER => follower_sockets t
  | ROLE_UNKNOWN => mret tt
  end;;
  init_port_sub SUB_COMMAND (topic_lifecycle_ t);;
  set_topic (λ t, t <| prev_time_ := get_time_now |>).

Definition construct_sockets : Exc B unit := topic_names;; b ← lift get_state; attach_sockets (tb_topic b).

(** [TopicZmq::TopicZmq]. *)
Definition construct_topic : Exc N (Topic * list (TopicSocket * Attachment)) := λ n,
  match control_period_from_frequency (arg_control_frequency cla) with
  | None => (Thrown, n)
  | Some control_period =>
      let '(o, b) := construct_sockets (mkTopicBuilding n (fresh_topic cla control_period) []) in
      (match o with
       | Done _ => Done (tb_topic b, tb_attached b)
       | Thrown => Thrown
       | Exited code => Exited code
       end, tb_ports b)
  end.
End constructor.

(** [Topic::new_topic]; [None] is the null pointer. *)
Definition new_topic {J} `{JsonReader J} (values : J) (cla : CommandLineArgs)
    : Exc N (option (Topic * list (TopicSocket * Attachment))) :=
  match topic_type_of values cla with
  | None => mret None
  | Some topic_type =>
      if String.eqb topic_type val_topic_type_zmq then t ← construct_topic cla; mret (Some t) else mret None
  end.
End zmq.
