(* ===== verification/TopicInitFacts.v ===== *)
(** * Theorems on making topics

    A topic is wired as its role and its arguments say; a publisher takes the first
    free port of its name; whoever subscribes to that name is connected to it. *)

From S2P Require Import Prelude.
From S2P Require Import FloatSpec.
From S2P Require Import Control.
From S2P Require Import ServoConfig.
From S2P Require Import Topic.
From S2P Require Import Exceptions.
From S2P Require Import CommandLine.
From S2P Require Import DeviceConfig.
From S2P Require Import TopicInit.

#[local] Open Scope Z_scope.
#[local] Opaque generate_port_candidates_from_topic.

(** What ZeroMQ documents of a host's ports: binding takes a free one, connecting to an
    address needs no peer. *)
Class HostPorts {N} (zmq_bind : Z → St N BindResult) (zmq_connect : Z → St N bool) := {
  taken : N → gset Z;
  bind_free : ∀ p n, p ∉ taken n → wp (zmq_bind p) (λ r n', r = BOUND ∧ taken n' = {[p]} ∪ taken n) n;
  bind_taken : ∀ p n, p ∈ taken n → wp (zmq_bind p) (λ r n', r = ADDRESS_IN_USE ∧ taken n' = taken n) n;
  connect_keeps : ∀ p n, wp (zmq_connect p) (λ r n', r = true ∧ taken n' = taken n) n;
}.

Definition candidates (name : list Z) : list Z := generate_port_candidates_from_topic name kZmqPortProbeCandidatesPub.
Definition name_of (a : Attachment) : list Z := match a with BoundTo name _ | ConnectedTo name _ => name end.
Definition is_pub (s : TopicSocket) : bool :=
  match s with PUB_JOINT | PUB_FOLLOWER_JOINT | PUB_DEVICE_INFO | PUB_EFFECTOR_INFO | PUB_JOYSTICK => true | _ => false end.

(** The sockets of a node and their topics, by its arguments. *)
Section wiring.
Context (cla : CommandLineArgs).
Local Abbreviation arg f := (bytes_of_string (f cla)).
Local Abbreviation unique base := (generate_unique_topic_name base (arg arg_device_model) (arg arg_device_id)).

Definition state_topic : list Z := or_default (arg arg_topic_state) (unique (bytes_of_string TOPIC_FOLLOWER_JOINT_INFO)).
Definition status_topic : list Z := or_default (arg arg_topic_status) (unique (bytes_of_string TOPIC_DEVICE_INFO)).
Definition lifecycle_topic : list Z := or_default (arg arg_topic_lifecycle) (bytes_of_string TOPIC_COMMAND_INFO).

Definition role_wiring : list (TopicSocket * list Z) :=
  match arg_role cla with
  | LEADER =>
      [(PUB_JOINT, arg arg_topic_joint); (PUB_EFFECTOR_INFO, unique TOPIC_EFFECTOR_INFO)] ++
      (if negb (String.eqb (arg_topic_joystick cla) OPT_DEFAULT_NONE) && negb (is_empty (arg_topic_joystick cla))
       then [(PUB_JOYSTICK, arg arg_topic_joystick)] else []) ++
      (if negb (is_empty (arg_paired_follower_state_topic cla))
       then [(SUB_FOLLOWER_JOINT, arg arg_paired_follower_state_topic)] else [])
  | FOLLOWER =>
      (SUB_JOINT, arg arg_topic_joint) ::
      (if negb (bool_decide (arg arg_topic_direct_command = [])) then [(SUB_DIRECT_JOINT, arg arg_topic_direct_command)] else [])
  | ROLE_UNKNOWN => []
  end.
Definition wiring : list (TopicSocket * list Z) :=
  [(PUB_DEVICE_INFO, status_topic); (PUB_FOLLOWER_JOINT, state_topic)] ++ role_wiring ++ [(SUB_COMMAND, lifecycle_topic)].
End wiring.

Section host.
Context {N : Type} {zmq_bind : Z → St N BindResult} {zmq_connect : Z → St N bool} `{!HostPorts zmq_bind zmq_connect}.

Definition bound_ports (al : list (TopicSocket * Attachment)) : list Z :=
  omap (λ '(_, a), match a with BoundTo _ p => Some p | ConnectedTo _ _ => None end) al.

(** A publisher is at a port of its name that was free before and is its own; a
    subscriber is connected to every port of its name. *)
Definition attached_right (n0 n : N) (al : list (TopicSocket * Attachment)) : Prop :=
  NoDup (bound_ports al) ∧ (∀ p, p ∈ bound_ports al → p ∉ taken n0 ∧ p ∈ taken n) ∧ taken n0 ⊆ taken n ∧
  Forall (λ '(s, a), match a with
                     | BoundTo name p => is_pub s = true ∧ p ∈ candidates name
                     | ConnectedTo name ps => is_pub s = false ∧ ps = candidates name
                     end) al.

(** Every port of a topic to be published is in use. *)
Definition no_port_left (ws : list (TopicSocket * list Z)) (n : N) : Prop :=
  ∃ s name, (s, name) ∈ ws ∧ is_pub s = true ∧ Forall (λ p, p ∈ taken n) (candidates name).

Lemma bind_first_spec cs n :
  ends (bind_first zmq_bind cs) (λ o n', match o with
    | Done p => p ∈ cs ∧ p ∉ taken n ∧ taken n' = {[p]} ∪ taken n
    | Thrown => Forall (λ p, p ∈ taken n) cs ∧ taken n' = taken n
    | Exited _ => False
    end) n.
Proof.
  revert n. induction cs as [|p cs IH]; intros n; cbn [bind_first]; [by apply ends_throw|].
  ends_step. ends_step. destruct (decide (p ∈ taken n)) as [Hp|Hp].
  - eapply wp_mono; [by apply bind_taken|]. cbv beta. intros _ n1 [-> Ht]. eapply ends_mono; [apply IH|].
    cbv beta. rewrite Ht. intros [q| |code] n2; [|intros [? ?]; split; [by constructor|done]|done].
    intros (? & ? & ?). split_and!; [by constructor|done..].
  - eapply wp_mono; [by apply bind_free|]. cbv beta. intros _ n1 [-> Ht]. ends_step. split_and!; [constructor|done..].
Qed.

Lemma connect_each_spec cs n :
  ends (connect_each zmq_connect cs) (λ o n', match o with Done _ => taken n' = taken n | _ => False end) n.
Proof.
  revert n. induction cs as [|p cs IH]; intros n; cbn [connect_each]; [by ends_step|].
  ends_step. ends_step. eapply wp_mono; [apply connect_keeps|]. cbv beta. intros _ n1 [-> Ht]. cbv iota.
  eapply ends_mono; [apply IH|]. cbv beta. intros [[]| |] n2 Hn2; [|done..]. by rewrite Hn2.
Qed.

Local Abbreviation B := (TopicBuilding N).

(** So far the sockets [ws] are attached, all of them right. *)
Definition wired_so_far (n0 : N) (ws : list (TopicSocket * list Z)) (b : B) : Prop :=
  map (λ '(s, a), (s, name_of a)) (tb_attached b) = ws ∧ attached_right n0 (tb_ports b) (tb_attached b).

(** [m] attaches the sockets [ws], or one of them finds no port. *)
Definition attaches (ws : list (TopicSocket * list Z)) (m : Exc B unit) : Prop := ∀ n0 ws0 b, wired_so_far n0 ws0 b →
  ends m (λ o b', match o with
    | Done _ => wired_so_far n0 (ws0 ++ ws) b'
    | Thrown => no_port_left ws (tb_ports b')
    | Exited _ => False
    end) b.

Lemma no_port_left_sub ws ws' n : ws ⊆ ws' → no_port_left ws n → no_port_left ws' n.
Proof. intros Hs (s & name & Hin & H). exists s, name. auto. Qed.

Lemma attaches_bind ws1 ws2 m1 m2 : attaches ws1 m1 → attaches ws2 m2 → attaches (ws1 ++ ws2) (m1;; m2).
Proof.
  intros H1 H2 n0 ws0 b Hb. ends_step. eapply ends_mono; [by eapply H1|]. cbv beta. intros [[]| |] b1 Hb1; [|by eapply no_port_left_sub; [|done]; set_solver|done].
  eapply ends_mono; [by eapply H2|]. cbv beta. intros [[]| |] b2 Hb2; [by rewrite app_assoc|by eapply no_port_left_sub; [|done]; set_solver|done].
Qed.

Lemma attaches_topic f : attaches [] (set_topic (N := N) f).
Proof. intros n0 ws0 b Hb. unfold set_topic. ends_step. wp_step. rewrite app_nil_r. exact Hb. Qed.

Lemma attaches_nil : attaches [] (mret tt).
Proof. intros n0 ws0 b Hb. ends_step. by rewrite app_nil_r. Qed.

Lemma attaches_if (b : bool) ws1 ws2 m1 m2 : attaches ws1 m1 → attaches ws2 m2 → attaches (if b then ws1 else ws2) (if b then m1 else m2).
Proof. by destruct b. Qed.

Lemma attaches_pub s name : is_pub s = true → attaches [(s, name)] (init_port_pub zmq_bind s name).
Proof.
  intros Hs n0 ws0 b [Hmap (Hnd & Hown & Hsub & Hall)]. unfold init_port_pub, on_ports, note. ends_step. ends_step.
  eapply ends_mono; [apply bind_first_spec|]. cbv beta. intros [p| |code] n1.
  - intros (Hp & Hfree & Ht). ends_step. wp_step. split; cbn.
    + by rewrite map_app, Hmap.
    + unfold attached_right, bound_ports in *. rewrite omap_app. cbn. rewrite Ht. split_and!.
      * apply NoDup_app. split_and!; [done| |apply NoDup_singleton]. intros q Hq Eq%list_elem_of_singleton. subst q. by apply Hown in Hq as [].
      * intros q [Hq|Eq%list_elem_of_singleton]%elem_of_app; [apply Hown in Hq; clear -Hq; set_solver|]. subst q. split; [|set_solver]. clear -Hsub Hfree. set_solver.
      * clear -Hsub. set_solver.
      * apply Forall_app. split; [exact Hall|]. constructor; [split; [exact Hs|assumption || reflexivity]|constructor].
  - intros [Hall' Ht]. exists s, name. cbn. split_and!; [constructor|done|]. by rewrite Ht.
  - done.
Qed.

Lemma attaches_sub s name : is_pub s = false → attaches [(s, name)] (init_port_sub zmq_connect s name).
Proof.
  intros Hs n0 ws0 b [Hmap (Hnd & Hown & Hsub & Hall)]. unfold init_port_sub, on_ports, note. ends_step. ends_step.
  eapply ends_mono; [apply connect_each_spec|]. cbv beta. intros [[]| |code] n1; [|done..].
  intros Ht. ends_step. wp_step. split; cbn.
  - by rewrite map_app, Hmap.
  - unfold attached_right, bound_ports in *. rewrite omap_app. cbn. rewrite Ht, app_nil_r. split_and!; [done..|].
    apply Forall_app. split; [exact Hall|]. constructor; [split; [exact Hs|assumption || reflexivity]|constructor].
Qed.

Context (get_time_now : prof_time_t).

Lemma attach_sockets_attaches cla t : topic_status_ t = status_topic cla → topic_state_ t = state_topic cla →
  topic_lifecycle_ t = lifecycle_topic cla → topic_joint_ t = bytes_of_string (arg_topic_joint cla) →
  topic_direct_command_ t = bytes_of_string (arg_topic_direct_command cla) →
  attaches (wiring cla) (attach_sockets zmq_bind zmq_connect get_time_now cla t).
Proof.
  intros E1 E2 E3 E4 E5. unfold attach_sockets, wiring. rewrite E1, E2, E3.
  apply (attaches_bind [_] (_ :: _)); [by apply attaches_pub|].
  apply (attaches_bind [] (_ :: _)); [apply attaches_topic|].
  apply (attaches_bind [_]); [by apply attaches_pub|].
  apply attaches_bind.
  - unfold role_wiring, leader_sockets, follower_sockets. rewrite E4, E5. destruct (arg_role cla).
    + apply (attaches_bind [_] (_ :: _)); [by apply attaches_pub|].
      apply (attaches_bind [] (_ :: _)); [apply attaches_topic|].
      apply (attaches_bind [_]); [by apply attaches_pub|].
      apply attaches_bind; apply attaches_if; try apply attaches_topic.
      * apply (attaches_bind [] [_]); [apply attaches_topic|by apply attaches_pub].
      * apply (attaches_bind [] [_]); [apply attaches_topic|by apply attaches_sub].
    + apply (attaches_bind [_]); [by apply attaches_sub|].
      rewrite <- (app_nil_r (if negb _ then [_] else [])).
      apply attaches_bind; [|apply attaches_topic]. apply attaches_if; [by apply attaches_sub|apply attaches_topic].
    + apply attaches_nil.
  - apply (attaches_bind [_] []); [by apply attaches_sub|apply attaches_topic].
Qed.

Lemma construct_topic_spec cla n :
  ends (construct_topic zmq_bind zmq_connect get_time_now cla) (λ o n', match o with
    | Done (_, al) => map (λ '(s, a), (s, name_of a)) al = wiring cla ∧ attached_right n n' al
    | Thrown => arg_control_frequency cla ≤ 0 ∨ no_port_left (wiring cla) n'
    | Exited _ => False
    end) n.
Proof.
  unfold construct_topic, control_period_from_frequency. destruct (Z.leb_spec (arg_control_frequency cla) 0); [by left|].
  set (period := 1000 `quot` _). set (b0 := mkTopicBuilding n (fresh_topic cla period) []).
  assert (ends (construct_sockets zmq_bind zmq_connect get_time_now cla) (λ o b', match o with
    | Done _ => wired_so_far n (wiring cla) b'
    | Thrown => no_port_left (wiring cla) (tb_ports b')
    | Exited _ => False
    end) b0) as Hs.
  { unfold construct_sockets, topic_names, set_topic. ends_step. ends_step. wp_step. ends_step. ends_step. wp_step.
    set (b1 := b0 <| tb_topic := _ |>).
    assert (attaches (wiring cla) (attach_sockets zmq_bind zmq_connect get_time_now cla (tb_topic b1))) as Hatt by by apply attach_sockets_attaches.
    apply (Hatt n []). split; [done|]. unfold attached_right, bound_ports. cbn. split_and!; [constructor|set_solver|done|constructor]. }
  unfold ends in *. fold b0. destruct (construct_sockets zmq_bind zmq_connect get_time_now cla b0) as [o b1].
  destruct o; cbn [fst snd] in *; [exact Hs|by right|done].
Qed.

(** Whoever subscribes in [af] to what is published in [al] is connected to it. *)
Definition meet (al af : list (TopicSocket * Attachment)) : Prop :=
  ∀ s1 s2 name p ps, (s1, BoundTo name p) ∈ al → (s2, ConnectedTo name ps) ∈ af → p ∈ ps.

Lemma right_meet n0 n1 n2 n3 al af : attached_right n0 n1 al → attached_right n2 n3 af → meet al af.
Proof.
  intros (_ & _ & _ & Hl) (_ & _ & _ & Hf) s1 s2 name p ps H1 H2. rewrite Forall_forall in Hl, Hf.
  destruct (Hl _ H1) as [_ Hp]. destruct (Hf _ H2) as [_ Hps]. by subst ps.
Qed.

(** [C21] Nodes find each other.  A node's topic is made with the sockets that its role and
    arguments call for, each of its publishers at a port of its name that was free, no two
    at the same, each of its subscribers connected to all ports of its name; it throws only
    for a control frequency that is not positive or when every port of a name it publishes
    is in use.  Two nodes made this way at any times meet: whichever port a publisher of
    the one got, each subscriber of the other to that name is connected to it, both ways. *)
Theorem topics_meet cl cf n :
  ends (construct_topic zmq_bind zmq_connect get_time_now cl) (λ o n1, match o with
    | Done (_, al) =>
        map (λ '(s, a), (s, name_of a)) al = wiring cl ∧ attached_right n n1 al ∧
        ∀ n2, ends (construct_topic zmq_bind zmq_connect get_time_now cf) (λ o n3, match o with
          | Done (_, af) => map (λ '(s, a), (s, name_of a)) af = wiring cf ∧ attached_right n2 n3 af ∧ meet al af ∧ meet af al
          | Thrown => arg_control_frequency cf ≤ 0 ∨ no_port_left (wiring cf) n3
          | Exited _ => False
          end) n2
    | Thrown => arg_control_frequency cl ≤ 0 ∨ no_port_left (wiring cl) n1
    | Exited _ => False
    end) n.
Proof.
  eapply ends_mono; [apply construct_topic_spec|]. cbv beta. intros [[tl al]| |code] n1; [|done..].
  intros [Hwl Hl]. split_and!; [done..|]. intros n2.
  eapply ends_mono; [apply construct_topic_spec|]. cbv beta. intros [[tf af]| |code'] n3; [|done..].
  intros [Hwf Hf]. split_and!; [done..| |]; by eapply right_meet.
Qed.
End host.

(** ** A host *)

Definition host_bind (p : Z) : St (gset Z) BindResult := λ used,
  if bool_decide (p ∈ used) then (ADDRESS_IN_USE, used) else (BOUND, {[p]} ∪ used).
Definition host_connect (p : Z) : St (gset Z) bool := mret true.

#[export] Instance host_ports : HostPorts host_bind host_connect.
Proof.
  refine {| taken := id |}; intros p n.
  - intros Hp. unfold wp, host_bind. by rewrite bool_decide_eq_false_2.
  - intros Hp. unfold wp, host_bind. by rewrite bool_decide_eq_true_2.
  - done.
Defined.

Definition host_args (r : Role) : CommandLineArgs :=
  uninitialized_args <| arg_role := r |> <| arg_control_frequency := 100 |> <| arg_topic_joint := "joint_info" |>
    <| arg_topic_state := if bool_decide (r = LEADER) then "leader_state" else "follower_state" |>
    <| arg_topic_status := if bool_decide (r = LEADER) then "leader_status" else "follower_status" |>
    <| arg_topic_joystick := "None" |> <| arg_paired_follower_state_topic := "follower_state" |>.

(** The first port of the leader's command stream is taken. *)
Definition busy_host : gset Z := {[ hd 0 (candidates (bytes_of_string "joint_info")) ]}.
Definition host_leader := construct_topic host_bind host_connect prof_time_zero (host_args LEADER) busy_host.
Definition host_follower := construct_topic host_bind host_connect prof_time_zero (host_args FOLLOWER) (snd host_leader).
Definition attachments (o : Outcome (Topic * list (TopicSocket * Attachment))) : list (TopicSocket * Attachment) :=
  match o with Done (_, al) => al | _ => [] end.

Lemma host_results :
  lookup 1%nat (candidates (bytes_of_string "joint_info")) = head (omap (λ '(s, a),
    match s, a with PUB_JOINT, BoundTo _ p => Some p | _, _ => None end) (attachments (fst host_leader))) ∧
  length (attachments (fst host_leader)) = 6%nat ∧ length (attachments (fst host_follower)) = 4%nat.
Proof. vm_compute. done. Qed.

Lemma topics_meet_witness :
  lookup 1%nat (candidates (bytes_of_string "joint_info")) = head (omap (λ '(s, a),
    match s, a with PUB_JOINT, BoundTo _ p => Some p | _, _ => None end) (attachments (fst host_leader))) ∧
  (length (attachments (fst host_leader)) = 6%nat ∧ length (attachments (fst host_follower)) = 4%nat) ∧
  ends (construct_topic host_bind host_connect prof_time_zero (host_args LEADER)) (λ o n1, match o with
    | Done (_, al) =>
        map (λ '(s, a), (s, name_of a)) al = wiring (host_args LEADER) ∧ attached_right busy_host n1 al ∧
        ∀ n2, ends (construct_topic host_bind host_connect prof_time_zero (host_args FOLLOWER)) (λ o n3, match o with
          | Done (_, af) => map (λ '(s, a), (s, name_of a)) af = wiring (host_args FOLLOWER) ∧ attached_right n2 n3 af ∧ meet al af ∧ meet af al
          | Thrown => arg_control_frequency (host_args FOLLOWER) ≤ 0 ∨ no_port_left (wiring (host_args FOLLOWER)) n3
          | Exited _ => False
          end) n2
    | Thrown => arg_control_frequency (host_args LEADER) ≤ 0 ∨ no_port_left (wiring (host_args LEADER)) n1
    | Exited _ => False
    end) busy_host.
Proof.
  split; [exact (proj1 host_results)|split; [exact (proj2 host_results)|]].
  apply (topics_meet prof_time_zero (host_args LEADER) (host_args FOLLOWER) busy_host).
Defined.
