(* ===== verification/DeviceInit.v ===== *)
(** * Making devices (Device::Device, Device::init and Device::new_device of
    src/pi_device.cpp, Driver::new_driver, Algo::init and Algo::new_algo, the init of
    pi_device_arm.cpp and pi_device_fr3.cpp)

    [init] reads the two configurations of a device and makes its topic, its driver, its
    algorithm, its joints and, for an arm, its effector.  What it makes behind an
    interface is [DeviceParts]: constructors that may throw and, for the Pinocchio
    library, the rest of the initialisation.  The command line is the same for the
    constructor and for [init]. *)

From S2P Require Import Prelude.
From S2P Require Import FloatSpec.
From S2P Require Import Control.
From S2P Require Import Filters.
From S2P Require Import CanBus.
From S2P Require Import Servo.
From S2P Require Import ServoConfig.
From S2P Require Import Joint.
From S2P Require Import Device.
From S2P Require Import JointOwner.
From S2P Require Import DeviceArm.
From S2P Require Import DeviceEffector.
From S2P Require Import Robotiq.
From S2P Require Import DeviceFr3.
From S2P Require Import Exceptions.
From S2P Require Import CommandLine.
From S2P Require Import DeviceConfig.
From S2P Require Import JointFactory.

#[local] Open Scope string_scope.
#[local] Open Scope Z_scope.

(** ** What is made *)

Inductive DriverKind :=
| DRIVER_CAN_MIT | DRIVER_ARX_ENCODER | DRIVER_TROSSEN (controller_model : string) | DRIVER_FT | DRIVER_FR3.
#[export] Instance DriverKind_eq_dec : EqDecision DriverKind.
Proof. solve_decision. Defined.

Inductive AlgoKind := ALGO_BASE | ALGO_PINO.
#[export] Instance AlgoKind_eq_dec : EqDecision AlgoKind.
Proof. solve_decision. Defined.

Inductive DeviceKind := KIND_ARM (k : ArmKind) | KIND_FR3 | KIND_EFFECTOR (k : EffectorKind).
#[export] Instance DeviceKind_eq_dec : EqDecision DeviceKind.
Proof. solve_decision. Defined.

Record Algo := mkAlgo {
  algo_kind : AlgoKind;
  algo_control_frequency_ : Z;
  urdf_path_ : string;
  base_rpy_ : list f32;
}.
#[export] Instance eta_Algo : Eta Algo := λ r, mkAlgo (algo_kind r) (algo_control_frequency_ r) (urdf_path_ r) (base_rpy_ r).

Definition has_gravity_model (a : Algo) : bool := bool_decide (algo_kind a = ALGO_PINO).
Definition supports_torque_feed_forward (k : ArmKind) : bool := bool_decide (k = ARM_CAN).

Definition OPT_ALGO_TYPE_UNDEFINED : string := "undefined".

Section kinds.
Context {J : Type} `{JsonReader J} (values : J).
Local Abbreviation text := (field json_get_string values).

(** [None]: no driver. *)
Definition new_driver : option DriverKind :=
  driver_type ← text fn_driver_type;
  if String.eqb driver_type val_driver_type_can then Some DRIVER_CAN_MIT
  else if String.eqb driver_type val_driver_type_can_encoder then Some DRIVER_ARX_ENCODER
  else if String.eqb driver_type val_driver_type_trossen then DRIVER_TROSSEN <$> text fn_controller_model
  else if String.eqb driver_type val_driver_type_ft then Some DRIVER_FT
  else if String.eqb driver_type val_driver_type_fr3 then Some DRIVER_FR3
  else None.

(** The command line does not override the type "Algo". *)
Definition new_algo (cla : CommandLineArgs) : option AlgoKind :=
  algo_type ← text fn_algo_type;
  let algo_type :=
    if negb (String.eqb algo_type val_algo_type_algo) && negb (String.eqb (arg_algo_type cla) OPT_ALGO_TYPE_UNDEFINED)
    then arg_algo_type cla else algo_type in
  if String.eqb algo_type val_algo_type_none then None
  else if String.eqb algo_type val_algo_type_algo then Some ALGO_BASE
  else if String.eqb algo_type val_algo_type_pinocchio then Some ALGO_PINO
  else None.

Definition new_device (cla : CommandLineArgs) : option DeviceKind :=
  device_model_in_config ← text fn_device_model;
  if negb (String.eqb (arg_device_model cla) device_model_in_config) then None
  else
    device_type ← text fn_device_type;
    if String.eqb device_type val_device_type_arm then
      arm_type ← text fn_arm_type;
      if String.eqb arm_type val_arm_type_can then Some (KIND_ARM ARM_CAN)
      else if String.eqb arm_type val_arm_type_controller then Some (KIND_ARM ARM_CONTROLLER)
      else if String.eqb arm_type val_arm_type_serial then Some (KIND_ARM ARM_SERIAL)
      else if String.eqb arm_type val_arm_type_fr3 then Some KIND_FR3
      else None
    else if String.eqb device_type val_device_type_effector then
      effector_type ← text fn_effector_type;
      if String.eqb effector_type val_effector_type_can then Some (KIND_EFFECTOR EFFECTOR_CAN)
      else if String.eqb effector_type val_effector_type_controller then Some (KIND_EFFECTOR EFFECTOR_CONTROLLER)
      else if String.eqb effector_type val_effector_type_serial then Some (KIND_EFFECTOR EFFECTOR_SERIAL)
      else None
    else None.
End kinds.

Class DeviceParts (X J : Type) := {
  dp_read_file : string → option (option J);
  dp_new_topic : J → CommandLineArgs → Exc X bool;            (* Topic::new_topic; false: null *)
  dp_make_driver : DriverKind → CommandLineArgs → Exc X unit;
  dp_set_algo : option Algo → X → X;                          (* p_algo_ *)
  dp_pino_init : Algo → Z → St X ReturnCode;                  (* AlgoPino::init after Algo::init *)
  (* from p_effector_.reset(new ...) to the end of its init: its return code, its numbers of joints and servos *)
  dp_init_effector : DeviceKind → J → J → CommandLineArgs → DeviceMode → Z → Z → Exc X (ReturnCode * (Z * Z));
}.
#[export] Hint Mode DeviceParts ! - : typeclass_instances.

(** ** The base class *)

Record Building (X : Type) := mkBuilding { bd_base : DeviceBase; bd_world : X; bd_algo : option Algo }.
Arguments mkBuilding {X}.
Arguments bd_base {X}.
Arguments bd_world {X}.
Arguments bd_algo {X}.
#[export] Instance eta_Building X : Eta (Building X) := λ r, mkBuilding (bd_base r) (bd_world r) (bd_algo r).

Definition command_line_of (cla : CommandLineArgs) : CommandLine := mkCommandLine
  (arg_control_frequency cla) (arg_move_to_ready_vel_rad_s_normal cla) (arg_move_to_ready_vel_rad_s_error cla)
  (arg_emergency_shutdown_timeout_ms cla) (arg_dont_go_to_home_pos cla).

(** [Device::Device] and the members' initialisers. *)
Definition construct_Device (type : DeviceType) (cla : CommandLineArgs) : DeviceBase := mkDeviceBase
  (mkDevice ROLE_UNKNOWN MODE_NORMAL type (arg_msg_type cla) false false (arg_force_feedback cla >=?. f0) MTR_IDLE
    EMERGENCY_NONE false (arg_force_feedback cla) (arg_safety_feature_off cla) (arg_safety_torque_mode cla) [])
  true false false false false false 0 0 0 0 (arg_moving_mode cla) false false [] kGravityFloatAbortRadDefault
  0 (command_line_of cla) 0 0 false false false prof_time_zero false 0 (-1) (-1) ∅
  prof_time_zero prof_time_zero prof_time_zero false prof_time_zero.

Section algo.
Context {J : Type} `{JsonDocument J}.

Fixpoint push_rpy (elements : list J) : Exc Algo unit :=
  match elements with
  | [] => mret tt
  | e :: elements =>
      match json_to_float e with
      | None => throw
      | Some value => lift (modify (λ a, a <| base_rpy_ := (base_rpy_ a ++ [value])%list |>));; push_rpy elements
      end
  end.

Definition Algo_init (individual : J) (cla : CommandLineArgs) : Exc Algo ReturnCode :=
  lift (modify (λ a, a <| algo_control_frequency_ := arg_control_frequency cla |>));;
  if is_empty (arg_urdf_path cla) then mret INVALID_PARAM
  else
    lift (modify (λ a, a <| urdf_path_ := arg_urdf_path cla |>));;
    if negb (json_contains individual fn_base_rpy) then mret INVALID_PARAM
    else
      let rpy := json_elements (json_at individual fn_base_rpy) in
      if negb (bool_decide (length rpy = 3%nat)) then mret INVALID_PARAM
      else push_rpy rpy;; mret SUCCESS.
End algo.

Section init.
Context {X J : Type} `{JsonDocument J} `{DeviceParts X J}.
Local Abbreviation Bd := (Building X).

Definition bd_on_base (f : DeviceBase → DeviceBase) : Exc Bd unit := lift (modify (λ b, b <| bd_base := f (bd_base b) |>)).
Definition bd_on_world {A} (m : Exc X A) : Exc Bd A := exc_into bd_world (λ x b, b <| bd_world := x |>) m.

Section device.
Context (model individual : J) (cla : CommandLineArgs).

Definition planning_type : option string :=
  if String.eqb (arg_planning_type cla) OPT_PLANING_TYPE_DEFAULT then field json_get_string model fn_planning_type
  else Some (arg_planning_type cla).

(** A part is given by the owner, or made: [false] when that fails. *)
Definition init_topic (given : bool) : Exc Bd bool :=
  made ← if given then mret true else bd_on_world (dp_new_topic model cla);
  if made : bool then bd_on_base (λ d, d <| has_topic := true |> <| is_topic_created_by_this_ := negb given |>);; mret true
  else mret false.

Definition init_driver (given : bool) : Exc Bd bool :=
  made ← (if given then mret true
          else match new_driver model with
               | None => mret false
               | Some k => bd_on_world (dp_make_driver k cla);; mret true
               end);
  if made : bool then bd_on_base (λ d, d <| Device.has_driver := true |> <| is_driver_created_by_this_ := negb given |>);; mret true
  else mret false.

(** [dof]: what [get_dof()] gives before the joints are made. *)
Definition init_algo (dof : Z) : Exc Bd ReturnCode :=
  match new_algo model cla with
  | None => lift (modify (λ b, b <| bd_algo := None |> <| bd_world := dp_set_algo None (bd_world b) |>));; mret SUCCESS
  | Some k =>
      lift (modify (λ b, b <| bd_algo := Some (mkAlgo k 0 "" []) |>));;
      return_code ← exc_into (λ b, default (mkAlgo k 0 "" []) (bd_algo b)) (λ a b, b <| bd_algo := Some a |>)
                      (Algo_init individual cla);
      b ← lift get_state;
      lift (modify (λ b, b <| bd_world := dp_set_algo (bd_algo b) (bd_world b) |>));;
      match bd_algo b with
      | Some a =>
          if ok return_code && has_gravity_model a then bd_on_world (lift (dp_pino_init a dof)) else mret return_code
      | None => mret return_code
      end
  end.

Definition Device_init (topic_given driver_given : bool) (dof : Z) : Exc Bd ReturnCode :=
  bd_on_base (λ d, d <| control_frequency_ := arg_control_frequency cla |>);;
  match planning_type with
  | None => mret INVALID_PARAM
  | Some planning_type =>
      if negb (String.eqb planning_type val_planning_type_none) then mret NOT_SUPPORTED
      else
        let read_only := default false (field json_get_bool model fn_read_only) in
        bd_on_base (λ d, d <| view := (view d) <| is_read_only_ := read_only |> |>);;
        if read_only && bool_decide (arg_role cla = FOLLOWER) then mret NOT_SUPPORTED
        else
          topic ← init_topic topic_given;
          if negb topic then mret FAIL
          else
            driver ← init_driver driver_given;
            if negb driver then mret FAIL
            else
              return_code ← init_algo dof;
              if negb (ok return_code) then mret FAIL
              else
                bd_on_base (λ d, d <| view := (view d) <| role_ := arg_role cla |> |>);;
                mret SUCCESS
  end.
End device.
End init.
