(* ===== verification/ArmInit.v ===== *)
(** * The initialisation of an arm (DeviceArm::init of src/pi_device_arm.cpp)

    Cut where the source has its sections: the settings of the two configurations, the
    joints with their buffers, the effector, gravity compensation.  [undefined_servo] is
    what undefined behaviour gives ([Joint]). *)

From S2P Require Import Prelude.
From S2P Require Import FloatSpec.
From S2P Require Import Control.
From S2P Require Import Filters.
From S2P Require Import CanBus.
From S2P Require Import Servo.
From S2P Require Import ServoConfig.
From S2P Require Import Joint.
From S2P Require Import Device.
From S2P Require Import JointOwner.
From S2P Require Import DeviceArm.
From S2P Require Import Exceptions.
From S2P Require Import CommandLine.
From S2P Require Import DeviceConfig.
From S2P Require Import JointFactory.
From S2P Require Import DeviceInit.

#[local] Open Scope string_scope.
#[local] Open Scope Z_scope.

Record ArmBuilding (X : Type) := mkArmBuilding {
  ab_arm : Arm X;
  ab_algo : option Algo;
  ab_servo_num_ : Z;
  ab_dof_effector_ : Z;
  ab_servo_num_effector_ : Z;
  ab_servo_num_total_ : Z;
}.
Arguments mkArmBuilding {X}.
Arguments ab_arm {X}.
Arguments ab_algo {X}.
Arguments ab_servo_num_ {X}.
Arguments ab_dof_effector_ {X}.
Arguments ab_servo_num_effector_ {X}.
Arguments ab_servo_num_total_ {X}.
#[export] Instance eta_ArmBuilding X : Eta (ArmBuilding X) := λ r, mkArmBuilding
  (ab_arm r) (ab_algo r) (ab_servo_num_ r) (ab_dof_effector_ r) (ab_servo_num_effector_ r) (ab_servo_num_total_ r).

(** [DeviceArm::DeviceArm] of a kind. *)
Definition construct_Arm {X} (k : ArmKind) (x : X) (cla : CommandLineArgs) : Arm X := mkArm
  (construct_Device ARM cla) k x [] [] 0 ∅ [] [] [] [] [] [] [] [] [] [] [] [] prof_time_zero false false 0 0 0 ∅.

(** [Filter(FilterType::EMA)]; the type never throws. *)
Definition ema_filter : Filter :=
  default (mkFilter EMA None f0) (new_Filter EMA (lit32 2 10) 5 (lit32 1 100) f1).

(** The entries of [joint_id_to_pointer_]: the last joint of an id is found. *)
Fixpoint index_joints (i : nat) (js : list Joint) (m : gmap Z nat) : gmap Z nat :=
  match js with
  | [] => m
  | j :: js => index_joints (S i) js (<[i16 (Joint.id_ j) := i]> m)
  end.

Definition servo_total (js : list Joint) : Z := foldl (λ n j, n + Z.of_nat (length (servos_ j))) 0 js.

Section init.
Context {X J : Type} `{JsonDocument J} `{DeviceParts X J} `{!ServoFactory X J} `{JointServos X} `{ArmWorld X}.
Context (undefined_servo : Servo) (model individual : J) (cla : CommandLineArgs).
Local Abbreviation AB := (ArmBuilding X).

Definition ab_update (f : AB → AB) : Exc AB unit := lift (modify f).
Definition ab_on_arm (f : Arm X → Arm X) : Exc AB unit := ab_update (λ b, b <| ab_arm := f (ab_arm b) |>).
Definition ab_on_world {A} (m : Exc X A) : Exc AB A :=
  exc_into (λ b, current_world (ab_arm b)) (λ x b, b <| ab_arm := (ab_arm b) <| world := x |> |>) m.

(** The base class. *)
Definition ab_device_init (topic_given driver_given : bool) : Exc AB ReturnCode :=
  exc_into (λ b, mkBuilding (arm_base (ab_arm b)) (world (ab_arm b)) (ab_algo b))
    (λ d b, b <| ab_arm := (ab_arm b) <| arm_base := bd_base d |> <| world := bd_world d |> |> <| ab_algo := bd_algo d |>)
    (b ← lift get_state; Device_init model individual cla topic_given driver_given 0).

(** ** Settings *)

Fixpoint push_sequence (elements : list J) : Exc AB unit :=
  match elements with
  | [] => mret tt
  | e :: elements =>
      match json_to_int16 e with
      | None => throw
      | Some id =>
          ab_on_arm (λ a, a <| joint_init_sequence_ := (joint_init_sequence_ a ++ [id])%list |>);; push_sequence elements
      end
  end.

(** Whether the follower's gravity feed-forward is requested. *)
Definition follower_gravity_requested (configured : bool) : bool :=
  let override := arg_follower_gravity_compensation_override cla in
  if negb (String.eqb override OPT_FOLLOWER_GRAVITY_COMPENSATION_DEFAULT) then String.eqb override "true" else configured.

(** [None]: INVALID_PARAM ends [init]; otherwise what was requested. *)
Definition init_settings : Exc AB (option bool) :=
  if negb (json_contains model fn_joint_init_sequence) then mret None
  else
    push_sequence (json_elements (json_at model fn_joint_init_sequence));;
    match field json_get_bool individual fn_spring_effect, field json_get_bool individual fn_gravity_compensation,
          field json_get_bool individual fn_follower_gravity_compensation with
    | Some spring_effect, Some gravity_compensation, Some configured =>
        ab_on_arm (λ a, a <| arm_base := (arm_base a) <| enabled_spring_effect_ := spring_effect |> |>
                          <| enabled_gravity_compensation_ := gravity_compensation |>);;
        mret (Some (follower_gravity_requested configured))
    | _, _, _ => mret None
    end.

(** ** Joints *)

Definition with_buffers (a : Arm X) : Arm X :=
  let zeros := replicate (Z.to_nat (dof_ a)) f0 in
  a <| arm_tele_pos_ := zeros |> <| arm_tele_vel_ := zeros |> <| arm_tele_tor_ := zeros |>
    <| arm_follower_pos_ := zeros |> <| arm_follower_vel_ := zeros |> <| arm_follower_tor_ := zeros |>
    <| arm_follower_temperature_ := zeros |> <| arm_follower_idc_current_ := zeros |>
    <| follower_filters_ := replicate (Z.to_nat (dof_ a)) (ema_filter, ema_filter, ema_filter) |>.

Definition init_joints : Exc AB ReturnCode :=
  b ← lift get_state;
  '(return_code, js) ← ab_on_world (lift (new_joints undefined_servo (Device.has_driver (arm_base (ab_arm b))) model individual));
  if negb (ok return_code) then mret return_code
  else
    ab_on_arm (λ a, a <| joints_ := js |> <| joint_id_to_pointer_ := index_joints 0 js ∅ |>
                      <| dof_ := Z.of_nat (length js) |>);;
    let override := arg_torq_rescale_override cla in
    if negb (bool_decide (override = [])) && negb (bool_decide (length override = length js)) then mret INVALID_PARAM
    else
      (if negb (bool_decide (override = []))
       then ab_on_arm (λ a, a <| joints_ := zip_with (λ j v, j <| torq_rescale_ := v |>) (joints_ a) override |>)
       else mret tt);;
      ab_on_arm with_buffers;;
      ab_update (λ b, b <| ab_servo_num_ := servo_total (joints_ (ab_arm b)) |>);;
      mret SUCCESS.

(** ** Effector *)

Definition cla_effector : CommandLineArgs :=
  cla <| arg_device_config_type := CONFIG_EFFECTOR |> <| arg_device_model := arg_effector_model cla |>
      <| arg_device_id := arg_effector_id cla |>.

Definition init_effector : Exc AB ReturnCode :=
  if negb (is_empty (arg_effector_model cla)) && negb (String.eqb (arg_effector_model cla) val_effector_type_none) then
    let '(return_code, effector_model) := DeviceConfig_init_config_model (J := J) (dp_read_file (X := X)) cla_effector json_null in
    if negb (ok return_code) then mret return_code
    else
      '(return_code, effector_individual) ← (λ b,
        match DeviceConfig_init_config_individual (J := J) (dp_read_file (X := X)) cla_effector json_null with
        | (Done rc, values) => (Done (rc, values), b)
        | (Thrown, _) => (Thrown, b)
        | (Exited code, _) => (Exited code, b)
        end);
      if negb (ok return_code) then mret return_code
      else
        match new_device effector_model cla_effector with
        | None => mret FAIL
        | Some k =>
            b ← lift get_state;
            '(return_code, (dof, servo_num)) ← ab_on_world
              (dp_init_effector k effector_model effector_individual cla_effector (mode_ (view (arm_base (ab_arm b))))
                 (dof_ (ab_arm b)) (ab_servo_num_ b));
            if negb (ok return_code) then mret return_code
            else
              ab_update (λ b, b <| ab_dof_effector_ := dof |> <| ab_servo_num_effector_ := servo_num |>);;
              mret SUCCESS
        end
  else
    ab_update (λ b, b <| ab_dof_effector_ := 0 |> <| ab_servo_num_effector_ := 0 |>);; mret SUCCESS.

Definition init_totals : Exc AB unit :=
  ab_update (λ b,
    let dof_total := dof_ (ab_arm b) + ab_dof_effector_ b in
    b <| ab_arm := (ab_arm b) <| dof_total_ := dof_total |>
                     <| arm_target_tor_ := replicate (Z.to_nat dof_total) f0 |>
                     <| current_motor_positions_ := replicate (Z.to_nat dof_total) f0 |>
                     <| slew_goal_positions_ := replicate (Z.to_nat (dof_ (ab_arm b))) f0 |> |>
      <| ab_servo_num_total_ := ab_servo_num_ b + ab_servo_num_effector_ b |>).

(** ** Gravity compensation *)

Definition leader_gravity (a : Arm X) : Arm X :=
  if bool_decide (role_ (view (arm_base a)) = LEADER) then
    a <| enabled_gravity_compensation_ :=
           arg_leader_gravity_compensation cla && negb (is_read_only_ (view (arm_base a))) |>
  else a.

(** A read-only arm is no follower: [role_] is that of the arguments. *)
Definition follower_gravity (requested : bool) : Exc AB ReturnCode :=
  b ← lift get_state;
  match field json_get_string model fn_arm_type with
  | None => mret INVALID_PARAM
  | Some arm_type =>
      let is_controller_arm := String.eqb arm_type val_arm_type_controller in
      if bool_decide (role_ (view (arm_base (ab_arm b))) = FOLLOWER) && requested then
        if is_controller_arm then mret SUCCESS
        else if negb (supports_torque_feed_forward (kind_ (ab_arm b))) then mret NOT_SUPPORTED
        else if negb (match ab_algo b with Some a => has_gravity_model a | None => false end) then mret NOT_INITIALIZED
        else
          ab_on_arm (λ a, a <| enabled_gravity_compensation_ := true |>
                            <| arm_base := (arm_base a) <| follower_gravity_compensation_ := true |> |>);;
          mret SUCCESS
      else mret SUCCESS
  end.

Definition arm_init (topic_given driver_given : bool) : Exc AB ReturnCode :=
  or_return (ab_device_init topic_given driver_given)
  (settings ← init_settings;
   match settings with
   | None => mret INVALID_PARAM
   | Some requested =>
       or_return init_joints
       (or_return init_effector
       (init_totals;;
        ab_on_arm leader_gravity;;
        follower_gravity requested))
   end).
End init.
