(* ===== verification/ArmInitFacts.v ===== *)
(** * Theorems on the initialisation of arms

    An arm that is initialised has all its buffers, joints that can be used, and only
    roles and torques that its hardware can take. *)

From S2P Require Import Prelude.
From S2P Require Import FloatSpec.
From S2P Require Import Control.
From S2P Require Import Filters.
From S2P Require Import CanBus.
From S2P Require Import Servo.
From S2P Require Import ServoConfig.
From S2P Require Import Joint.
From S2P Require Import Device.
From S2P Require Import JointOwner.
From S2P Require Import DeviceArm.
From S2P Require Import Exceptions.
From S2P Require Import CommandLine.
From S2P Require Import DeviceConfig.
From S2P Require Import JointFactory.
From S2P Require Import JointFactoryFacts.
From S2P Require Import DeviceInit.
From S2P Require Import ArmInit.

#[local] Open Scope Z_scope.

(** ** What a computation that may throw leaves alone *)

Section ekeeps.
Context {S O : Type} (obs : S → O).

Definition ekeeps {A} (m : Exc S A) : Prop := ∀ s, ends m (λ _ s', obs s' = obs s) s.

Lemma ekeeps_ret {A} (a : A) : ekeeps (mret a).
Proof. by intros s. Qed.
Lemma ekeeps_throw {A} : ekeeps (A := A) throw.
Proof. by intros s. Qed.
Lemma ekeeps_bind {A B} (m : Exc S A) (k : A → Exc S B) : ekeeps m → (∀ a, ekeeps (k a)) → ekeeps (m ≫= k).
Proof.
  intros Hm Hk s. ends_step. eapply ends_mono; [apply Hm|]. cbv beta. intros [a| |code] s1 H1; [|done..].
  eapply ends_mono; [apply Hk|]. cbv beta. intros _ s2 H2. by rewrite H2.
Qed.
Lemma ekeeps_modify f : (∀ s, obs (f s) = obs s) → ekeeps (lift (modify f)).
Proof. intros Hf s. ends_step. wp_step. apply Hf. Qed.
Lemma ekeeps_get : ekeeps (lift get_state).
Proof. intros s. ends_step. by wp_step. Qed.
Lemma ekeeps_if {A} (b : bool) (m1 m2 : Exc S A) : ekeeps m1 → ekeeps m2 → ekeeps (if b then m1 else m2).
Proof. by destruct b. Qed.
Lemma ekeeps_into {T A} (proj : S → T) (inj : T → S → S) (m : Exc T A) : (∀ t s, obs (inj t s) = obs s) → ekeeps (exc_into proj inj m).
Proof. intros Hi s. unfold ends, exc_into. destruct (m (proj s)) as [o t]. apply Hi. Qed.

Lemma ends_keeps {A} (m : Exc S A) (Q : Outcome A → S → Prop) s :
  ekeeps m → (∀ o s', obs s' = obs s → Q o s') → ends m Q s.
Proof. intros Hm HQ. eapply ends_mono; [apply Hm|]. cbv beta. auto. Qed.
End ekeeps.

Ltac ekeeps := repeat first
  [ apply ekeeps_bind; [|intros] | apply ekeeps_ret | apply ekeeps_throw | apply ekeeps_get | apply ekeeps_if
  | apply ekeeps_modify; reflexivity | apply ekeeps_into; reflexivity | progress case_match ].

(** If [m] returns success, [Q] holds. *)
Definition succeeds {S} (m : Exc S ReturnCode) (Q : S → Prop) (s : S) : Prop :=
  ends m (λ o s', match o with Done rc => ok rc = true → Q s' | _ => True end) s.

Lemma succeeds_or_return {S} (m k : Exc S ReturnCode) Q s : succeeds m (succeeds k Q) s → succeeds (or_return m k) Q s.
Proof.
  intros Hm. unfold succeeds. ends_step. unfold succeeds in Hm.
  apply (ends_mono m (λ o s', match o with Done rc => ok rc = true → succeeds k Q s' | _ => True end)); [exact Hm|].
  intros [rc| |code] s1 H1; [|done..]. destruct (ok rc) eqn:E; [by apply H1|done].
Qed.

Lemma succeeds_not {S} rc Q (s : S) : ok rc = false → succeeds (mret rc) Q s.
Proof. intros Hrc. unfold succeeds. ends_step. by rewrite Hrc. Qed.

Lemma succeeds_keeping {S O} (obs : S → O) (m : Exc S ReturnCode) (Q : S → Prop) b :
  ekeeps obs m → succeeds m (λ b', obs b' = obs b → Q b') b → succeeds m Q b.
Proof.
  unfold succeeds, ends. intros Hk Hm. specialize (Hk b). unfold ends in Hk. destruct (m b) as [[rc| |code] b']; cbn in *; auto.
Qed.

Section init.
Context {X J : Type} `{JsonDocument J} `{DeviceParts X J} `{JointServos X} `{ArmWorld X} `{ServoFactoryLaws X J}.
Context (undefined_servo : Servo) (model individual : J) (cla : CommandLineArgs).

(** ** The base class *)

Definition base_obs (b : Building X) := (view (bd_base b), follower_gravity_compensation_ (bd_base b)).

Lemma init_topic_keeps given : ekeeps base_obs (init_topic (X := X) model cla given).
Proof. unfold init_topic, bd_on_world, bd_on_base. ekeeps. Qed.
Lemma init_driver_keeps given : ekeeps base_obs (init_driver (X := X) model cla given).
Proof. unfold init_driver, bd_on_world, bd_on_base. ekeeps. Qed.
Lemma init_algo_keeps dof : ekeeps base_obs (init_algo (X := X) model individual cla dof).
Proof. unfold init_algo, bd_on_world, bd_on_base. ekeeps. Qed.

(** The role is the one asked for, and a device without motors is no follower. *)
Definition role_fits (v : Device) : Prop := role_ v = arg_role cla ∧ (is_read_only_ v = true → arg_role cla ≠ FOLLOWER).

Lemma Device_init_fits topic_given driver_given dof b :
  succeeds (Device_init (X := X) model individual cla topic_given driver_given dof)
    (λ b', role_fits (view (bd_base b')) ∧
           follower_gravity_compensation_ (bd_base b') = follower_gravity_compensation_ (bd_base b)) b.
Proof.
  unfold succeeds, Device_init, bd_on_base. ends_step. ends_step. wp_step.
  destruct (planning_type _ _) as [planning|]; [|by ends_step]. ends_step; [by ends_step|]. ends_step. ends_step. wp_step.
  set (read_only := default false _). apply ends_if; intros Hrole; [by ends_step|].
  set (b0 := b <| bd_base := _ |> <| bd_base := _ |>).
  assert (is_read_only_ (view (bd_base b0)) = read_only ∧ follower_gravity_compensation_ (bd_base b0) = follower_gravity_compensation_ (bd_base b)) as [Hr Hf] by done.
  clearbody b0. ends_step. apply (ends_keeps base_obs); [apply init_topic_keeps|]. intros [topic| |code] b1 Hb1; [|done..].
  ends_step; [by ends_step|]. ends_step. apply (ends_keeps base_obs); [apply init_driver_keeps|]. intros [driver| |code] b2 Hb2; [|done..].
  ends_step; [by ends_step|]. ends_step. apply (ends_keeps base_obs); [apply init_algo_keeps|]. intros [rc| |code] b3 Hb3; [|done..].
  ends_step; [by ends_step|]. ends_step. ends_step. wp_step. ends_step. intros _.
  assert (base_obs b3 = base_obs b0) as E by congruence. injection E as Ev Ef. split; [split; [done|]|by rewrite <- Hf].
  cbn. rewrite Ev, Hr. intros Hread. rewrite Hread in Hrole. by apply bool_decide_eq_false in Hrole.
Qed.

(** ** The joints and their buffers *)

Definition joint_configs : list J := json_elements (json_at model fn_joints).
Local Abbreviation n_joints := (length joint_configs).

(** What [init_joints] makes of an arm. *)
Definition jointed (a : Arm X) : Prop :=
  Forall2 has_servos joint_configs (joints_ a) ∧ Forall configured (joints_ a) ∧
  (arg_torq_rescale_override cla ≠ [] → torq_rescale_ <$> joints_ a = arg_torq_rescale_override cla) ∧
  dof_ a = Z.of_nat n_joints ∧
  joint_id_to_pointer_ a = index_joints 0 (joints_ a) ∅ ∧
  Forall (λ l, l = replicate n_joints f0)
    [arm_tele_pos_ a; arm_tele_vel_ a; arm_tele_tor_ a; arm_follower_pos_ a; arm_follower_vel_ a; arm_follower_tor_ a;
     arm_follower_temperature_ a; arm_follower_idc_current_ a] ∧
  follower_filters_ a = replicate n_joints (ema_filter, ema_filter, ema_filter).

Definition rescaled (js : list Joint) (override : list f32) : list Joint := zip_with (λ j v, j <| torq_rescale_ := v |>) js override.

Lemma rescaled_torq js override : length override = length js → torq_rescale_ <$> rescaled js override = override.
Proof. revert js. induction override as [|v vs IH]; intros [|j js]; cbn; [done..|]. intros [= Hl]. f_equal. by apply IH. Qed.

Lemma rescaled_has_servos configs js override : length override = length js →
  Forall2 has_servos configs js → Forall2 has_servos configs (rescaled js override).
Proof.
  intros Hl Hall. revert override Hl. induction Hall as [|c j cs js Hj Hall IH]; intros [|v vs] Hl; cbn in *; try done.
  constructor; [exact Hj|]. apply IH. congruence.
Qed.

Lemma rescaled_configured js override : length override = length js → Forall configured js → Forall configured (rescaled js override).
Proof.
  intros Hl Hall. revert override Hl. induction Hall as [|j js Hj Hall IH]; intros [|v vs] Hl; cbn in *; try done.
  constructor; [exact Hj|]. apply IH. congruence.
Qed.

Lemma rescaled_index js override i m : length override = length js → index_joints i (rescaled js override) m = index_joints i js m.
Proof.
  revert js i m. induction override as [|v vs IH]; intros [|j js] i m Hl; cbn in *; try done. apply IH. congruence.
Qed.

(** What [init_joints] leaves alone. *)
Definition arm_obs (b : ArmBuilding X) :=
  (view (arm_base (ab_arm b)), follower_gravity_compensation_ (arm_base (ab_arm b)), kind_ (ab_arm b), ab_algo b).

Lemma init_joints_keeps : ekeeps arm_obs (init_joints undefined_servo model individual cla).
Proof. unfold init_joints, ab_on_world, ab_on_arm, ab_update. ekeeps. Qed.

Lemma with_buffers_jointed a js : Forall2 has_servos joint_configs js → Forall configured js → joints_ a = js →
  (arg_torq_rescale_override cla ≠ [] → torq_rescale_ <$> js = arg_torq_rescale_override cla) →
  dof_ a = Z.of_nat (length js) → joint_id_to_pointer_ a = index_joints 0 js ∅ → jointed (with_buffers a).
Proof.
  intros Hs Hc Hjs Ht Hd Hi. unfold jointed, with_buffers. cbn. rewrite Hjs, Hd, Nat2Z.id, Hi.
  rewrite <- (Forall2_length _ _ _ Hs). split_and!; first [done|repeat constructor].
Qed.

Lemma init_joints_jointed b : succeeds (init_joints undefined_servo model individual cla) (λ b', jointed (ab_arm b')) b.
Proof.
  unfold succeeds, init_joints, ab_on_world, ab_on_arm, ab_update. ends_step. ends_step. wp_step. ends_step. ends_step. ends_step.
  eapply wp_mono; [apply new_joints_made|]. cbv beta. intros [rc js] x Hx. unfold made_or_nothing in Hx. cbn [fst snd] in Hx.
  apply ends_if; intros Hrc; [ends_step; by rewrite (proj1 (negb_true_iff _) Hrc)|].
  apply negb_false_iff in Hrc. rewrite Hrc in Hx. destruct Hx as [[Hs Hc] _].
  ends_step. ends_step. wp_step. apply ends_if; intros Hlen; [by ends_step|].
  ends_step. destruct (decide (arg_torq_rescale_override cla = [])) as [Ho|Ho].
  - rewrite bool_decide_eq_true_2 by done. cbn [negb]. ends_step. ends_step. ends_step. wp_step. ends_step. ends_step. wp_step.
    ends_step. intros _. by apply (with_buffers_jointed _ js).
  - rewrite bool_decide_eq_false_2 in Hlen |- * by done. cbn [negb andb] in *. apply negb_false_iff, bool_decide_eq_true in Hlen.
    ends_step. wp_step. ends_step. ends_step. wp_step. ends_step. ends_step. wp_step. ends_step. intros _.
    apply (with_buffers_jointed _ (rescaled js (arg_torq_rescale_override cla))).
    + by apply rescaled_has_servos.
    + by apply rescaled_configured.
    + done.
    + intros _. by apply rescaled_torq.
    + cbn. unfold rescaled. by rewrite length_zip_with, Hlen, Nat.min_id.
    + cbn. by rewrite rescaled_index.
Qed.

(** Whom an id leads to. *)
Definition indexed (a : Arm X) : Prop :=
  (∀ id i, joint_id_to_pointer_ a !! id = Some i → ∃ j, joints_ a !! i = Some j ∧ i16 (Joint.id_ j) = id) ∧
  (∀ j, j ∈ joints_ a → is_Some (joint_id_to_pointer_ a !! i16 (Joint.id_ j))).

Lemma index_joints_lookup js : ∀ (k : nat) m id i, index_joints k js m !! id = Some i →
  (∃ j, (k ≤ i)%nat ∧ js !! (i - k)%nat = Some j ∧ i16 (Joint.id_ j) = id) ∨ m !! id = Some i.
Proof.
  induction js as [|j js IH]; intros k m id i Hi; cbn in *; [by right|].
  apply IH in Hi as [(j' & Hk & Hj & Hid)|Hi].
  - left. exists j'. split_and!; [lia| |done]. by replace (i - k)%nat with (S (i - S k)) by lia.
  - apply lookup_insert_Some in Hi as [[<- <-]|[_ Hi]]; [|by right]. left. exists j. by rewrite Nat.sub_diag.
Qed.

Lemma index_joints_keeps js : ∀ k m id, is_Some (m !! id) → is_Some (index_joints k js m !! id).
Proof.
  induction js as [|j js IH]; intros k m id Hm; cbn; [done|]. apply IH. rewrite lookup_insert_is_Some'. by right.
Qed.

Lemma index_joints_dom js : ∀ k m j, j ∈ js → is_Some (index_joints k js m !! i16 (Joint.id_ j)).
Proof.
  induction js as [|j0 js IH]; intros k m j Hj; [by apply not_elem_of_nil in Hj|]. cbn.
  apply elem_of_cons in Hj as [->|Hj]; [|by apply IH]. apply index_joints_keeps. by rewrite lookup_insert_eq.
Qed.

Lemma jointed_indexed a : jointed a → indexed a.
Proof.
  intros (_ & _ & _ & _ & Hi & _). unfold indexed. rewrite Hi. split.
  - intros id i Hid. apply index_joints_lookup in Hid as [(j & _ & Hj & Hid)|Hid]; [|by rewrite lookup_empty in Hid].
    rewrite Nat.sub_0_r in Hj. by exists j.
  - intros j Hj. by apply index_joints_dom.
Qed.

(** ** The effector, the totals, gravity *)

Definition no_world (x0 : X) (b : ArmBuilding X) := ((ab_arm b) <| world := x0 |>, ab_algo b).

Lemma init_effector_keeps x0 : ekeeps (no_world x0) (init_effector (J := J) cla).
Proof.
  unfold init_effector, ab_on_world, ab_update. ekeeps.
Qed.

Definition totals (b : ArmBuilding X) : Prop :=
  let a := ab_arm b in
  dof_total_ a = dof_ a + ab_dof_effector_ b ∧
  arm_target_tor_ a = replicate (Z.to_nat (dof_total_ a)) f0 ∧
  current_motor_positions_ a = replicate (Z.to_nat (dof_total_ a)) f0 ∧
  slew_goal_positions_ a = replicate (Z.to_nat (dof_ a)) f0 ∧
  ab_servo_num_total_ b = ab_servo_num_ b + ab_servo_num_effector_ b.

(** Gravity torque only where there are motors, a feed-forward and a model. *)
Definition gravity_fits (b : ArmBuilding X) : Prop :=
  let a := ab_arm b in
  (arg_role cla = LEADER →
   enabled_gravity_compensation_ a = arg_leader_gravity_compensation cla && negb (is_read_only_ (view (arm_base a)))) ∧
  (follower_gravity_compensation_ (arm_base a) = true →
   arg_role cla = FOLLOWER ∧ enabled_gravity_compensation_ a = true ∧ kind_ a = ARM_CAN ∧
   ∃ algo, ab_algo b = Some algo ∧ has_gravity_model algo = true).

(** What an initialised arm of a kind is. *)
Definition arm_initialised (k : ArmKind) (b : ArmBuilding X) : Prop :=
  jointed (ab_arm b) ∧ indexed (ab_arm b) ∧ totals b ∧ role_fits (view (arm_base (ab_arm b))) ∧ gravity_fits b ∧
  kind_ (ab_arm b) = k.

Lemma follower_gravity_fits k requested b :
  jointed (ab_arm b) → totals b → role_fits (view (arm_base (ab_arm b))) → kind_ (ab_arm b) = k →
  follower_gravity_compensation_ (arm_base (ab_arm b)) = false →
  (arg_role cla = LEADER → enabled_gravity_compensation_ (ab_arm b) =
     arg_leader_gravity_compensation cla && negb (is_read_only_ (view (arm_base (ab_arm b))))) →
  succeeds (follower_gravity (J := J) model requested) (arm_initialised k) b.
Proof.
  intros Hj Ht Hr Hk Hoff Hl. assert (arm_initialised k b) as Hb.
  { unfold arm_initialised, gravity_fits. rewrite Hoff. split_and!; try done. by apply jointed_indexed. }
  unfold succeeds, follower_gravity. ends_step. ends_step. wp_step. destruct (field _ _ _) as [arm_type|]; [|by ends_step].
  apply ends_if; intros Hreq; [|by ends_step]. ends_step; [by ends_step|]. apply ends_if; intros Hff; [by ends_step|].
  apply ends_if; intros Halgo; [by ends_step|]. unfold ab_on_arm, ab_update. ends_step. ends_step. wp_step. ends_step. intros _.
  apply andb_true_iff in Hreq as [Hrole _]. apply bool_decide_eq_true in Hrole. destruct Hr as [Hrole' Hread].
  apply negb_false_iff in Hff, Halgo. apply bool_decide_eq_true in Hff.
  unfold arm_initialised, gravity_fits. split_and!; try done.
  - by apply jointed_indexed.
  - cbn. congruence.
  - intros _. cbn. split_and!; [congruence|done|done|]. destruct (ab_algo b) as [algo|]; [by exists algo|done].
Qed.

Lemma ab_device_init_fits topic_given driver_given b :
  succeeds (ab_device_init (X := X) model individual cla topic_given driver_given)
    (λ b', role_fits (view (arm_base (ab_arm b'))) ∧ kind_ (ab_arm b') = kind_ (ab_arm b) ∧
           follower_gravity_compensation_ (arm_base (ab_arm b')) = follower_gravity_compensation_ (arm_base (ab_arm b))) b.
Proof.
  unfold ab_device_init, succeeds. apply ends_into. ends_step. ends_step. wp_step.
  eapply ends_mono; [apply Device_init_fits|]. cbv beta. intros [rc| |code] d Hd; [|done..].
  intros Hrc. destruct (Hd Hrc) as [Hr Hf]. split_and!; [exact Hr|done|exact Hf].
Qed.

Lemma init_settings_keeps : ekeeps arm_obs (init_settings (X := X) model individual cla).
Proof.
  assert (∀ l, ekeeps arm_obs (push_sequence (X := X) (J := J) l)) as Hp.
  { induction l as [|e l IH]; cbn [push_sequence]; unfold ab_on_arm, ab_update; ekeeps. exact IH. }
  unfold init_settings, ab_on_arm, ab_update. ekeeps. apply Hp.
Qed.

Lemma no_world_transfer x0 (P : Arm X → Prop) b b1 : (∀ a, P a ↔ P (a <| world := x0 |>)) →
  no_world x0 b1 = no_world x0 b → P (ab_arm b) → P (ab_arm b1).
Proof. unfold no_world. intros HP E Ha. apply HP. apply HP in Ha. congruence. Qed.

Lemma arm_tail_initialised k requested b : jointed (ab_arm b) → role_fits (view (arm_base (ab_arm b))) →
  kind_ (ab_arm b) = k → follower_gravity_compensation_ (arm_base (ab_arm b)) = false →
  succeeds (or_return (init_effector (J := J) cla)
    (init_totals;; ab_on_arm (leader_gravity cla);; follower_gravity (J := J) model requested)) (arm_initialised k) b.
Proof.
  intros Hj Hr Hk Hf. apply succeeds_or_return. set (x0 := world (ab_arm b)).
  unfold succeeds at 1. apply (ends_keeps (no_world x0)); [apply init_effector_keeps|].
  intros [rc| |code] b1 Hb1; [|done..]. intros _.
  apply (no_world_transfer x0 jointed b b1) in Hj; [|done|exact Hb1].
  apply (no_world_transfer x0 (λ a, role_fits (view (arm_base a))) b b1) in Hr; [|done|exact Hb1].
  apply (no_world_transfer x0 (λ a, kind_ a = k) b b1) in Hk; [|done|exact Hb1].
  apply (no_world_transfer x0 (λ a, follower_gravity_compensation_ (arm_base a) = false) b b1) in Hf; [|done|exact Hb1].
  clear Hb1 x0. clear b. cbv beta in *. unfold init_totals, ab_on_arm, ab_update, succeeds.
  ends_step. ends_step. wp_step. ends_step. ends_step. wp_step.
  set (b2 := b1 <| ab_arm := _ |> <| ab_servo_num_total_ := _ |>).
  assert (jointed (leader_gravity cla (ab_arm b2)) ∧ totals (b2 <| ab_arm := leader_gravity cla (ab_arm b2) |>) ∧
    arm_base (leader_gravity cla (ab_arm b2)) = arm_base (ab_arm b1) ∧ kind_ (leader_gravity cla (ab_arm b2)) = k) as (H6 & H7 & H8 & H9).
  { unfold leader_gravity. case_match; by split_and!. }
  set (b3 := b2 <| ab_arm := leader_gravity cla (ab_arm b2) |>).
  assert (view (arm_base (ab_arm b3)) = view (arm_base (ab_arm b1))) as Hview.
  { change (view (arm_base (leader_gravity cla (ab_arm b2))) = view (arm_base (ab_arm b1))). by rewrite H8. }
  apply (follower_gravity_fits k requested); [exact H6|exact H7| |exact H9| |].
  - by rewrite Hview.
  - change (follower_gravity_compensation_ (arm_base (leader_gravity cla (ab_arm b2))) = false). by rewrite H8.
  - intros Hrole. rewrite Hview. destruct Hr as [Hr _].
    change (enabled_gravity_compensation_ (leader_gravity cla (ab_arm b2)) =
      arg_leader_gravity_compensation cla && negb (is_read_only_ (view (arm_base (ab_arm b2))))).
    unfold leader_gravity. rewrite bool_decide_eq_true_2; [done|]. by rewrite <- Hrole, <- Hr.
Qed.

Lemma arm_init_initialised k (x : X) topic_given driver_given :
  succeeds (arm_init undefined_servo model individual cla topic_given driver_given) (arm_initialised k)
    (mkArmBuilding (construct_Arm k x cla) None 0 0 0 0).
Proof.
  unfold arm_init. set (b0 := mkArmBuilding _ _ _ _ _ _). apply succeeds_or_return.
  eapply ends_mono; [apply ab_device_init_fits|]. cbv beta.
  intros [rc| |code] b1 Hb1; [|done..]. intros Hrc. destruct (Hb1 Hrc) as (Hr & Hk & Hf). clear Hb1.
  unfold succeeds. ends_step. apply (ends_keeps arm_obs); [apply init_settings_keeps|].
  intros [[requested|]| |code] b2 Hb2; [|by ends_step|done..].
  change (succeeds (or_return (init_joints undefined_servo model individual cla)
    (or_return (init_effector (J := J) cla) (init_totals;; ab_on_arm (leader_gravity cla);; follower_gravity (J := J) model requested)))
    (arm_initialised k) b2).
  apply succeeds_or_return, (succeeds_keeping arm_obs); [apply init_joints_keeps|].
  eapply ends_mono; [apply init_joints_jointed|]. cbv beta. intros [rc3| |code] b3 Hb3; [|done..]. intros Hrc3 Hobs.
  assert (arm_obs b3 = arm_obs b1) as E by congruence. injection E as Ev Ef Ek _.
  apply arm_tail_initialised; [by apply Hb3|by rewrite Ev|by rewrite Ek, Hk|by rewrite Ef, Hf].
Qed.

(** A device without motors, asked to follow, is refused before anything is made. *)
Lemma read_only_follower_refused k (x : X) topic_given driver_given : arg_role cla = FOLLOWER →
  field json_get_bool model fn_read_only = Some true → planning_type model cla = Some val_planning_type_none →
  ends (arm_init undefined_servo model individual cla topic_given driver_given)
    (λ o b', o = Done NOT_SUPPORTED ∧ world (ab_arm b') = x) (mkArmBuilding (construct_Arm k x cla) None 0 0 0 0).
Proof.
  intros Hrole Hread Hplan. unfold arm_init, ab_device_init. ends_step. ends_step. ends_step. ends_step. wp_step.
  unfold Device_init, bd_on_base. ends_step. ends_step. wp_step. rewrite Hplan, Hread, Hrole. cbn [default negb].
  rewrite (proj2 (String.eqb_eq _ _) eq_refl). cbn [negb]. ends_step. ends_step. wp_step.
  rewrite bool_decide_eq_true_2 by done. cbn [andb]. by ends_step.
Qed.

(** [C19] Devices are what their hardware can be.  When [DeviceArm::init] succeeds the arm
    has a joint for each entry of its model configuration, with a servo to refer to and
    positive limits, each found under its id, and the rescales of the command line when
    there are any; every buffer the control loop indexes has an element for each joint
    (for each joint and that of the effector, where both are meant); its role is the one
    asked for.  An arm without motors is no follower and, as a leader, floats freely; a
    follower feeds gravity torque forward only on the hardware that takes it, with a
    dynamics model.  A follower without motors is refused before its topic, its driver or
    a servo is made. *)
Theorem initialised_arms_fit k (x : X) topic_given driver_given :
  succeeds (arm_init undefined_servo model individual cla topic_given driver_given) (arm_initialised k)
    (mkArmBuilding (construct_Arm k x cla) None 0 0 0 0) ∧
  (arg_role cla = FOLLOWER → field json_get_bool model fn_read_only = Some true →
   planning_type model cla = Some val_planning_type_none →
   ends (arm_init undefined_servo model individual cla topic_given driver_given)
     (λ o b', o = Done NOT_SUPPORTED ∧ world (ab_arm b') = x) (mkArmBuilding (construct_Arm k x cla) None 0 0 0 0)).
Proof. split; [apply arm_init_initialised|apply read_only_follower_refused]. Qed.
End init.

(** ** An arm on the bench

    The servos of [JointFactoryFacts], no effector, a topic and a driver that come to be,
    an algorithm that loads. *)

#[export] Instance bench_device_world : DeviceWorld Bench := {|
  dw_set_device := λ _ b, b;
  dw_now := mret 0;
  dw_usleep := λ _, mret tt;
  dw_group_read_hardware_values := bench_ok;
  dw_group_write_hardware_values := bench_ok;
  dw_driver_open := λ _, bench_ok;
  dw_driver_close := bench_ok;
  dw_driver_arm_comm_loss_protection := bench_ok;
  dw_has_algo := λ _, true;
  dw_topic_is_running := λ _, true;
  dw_topic_publish_joints := λ _, bench_ok;
  dw_topic_publish_info := λ _, bench_ok;
  dw_topic_sleep := bench_ok;
  dw_topic_stop := bench_ok;
  dw_topic_set_pause_leader_command_listening := λ _, mret tt;
|}.

#[export] Instance bench_arm_world : ArmWorld Bench := {|
  aw_dead_servo_ids := λ _, [];
  aw_gravity_compensation := λ _ t, mret (SUCCESS, t);
  aw_has_effector := λ _, false;
  aw_effector_role := λ _, ROLE_UNKNOWN;
  aw_effector_is_ready := λ _, true;
  aw_effector_servo_ids := λ _, (SUCCESS, []);
  aw_effector_last_failed_joint_id := λ _, -1;
  aw_effector_probe_failed_servo_id := mret (-1);
  aw_effector_force_to_be_ready := mret tt;
  aw_effector_request_move_to_ready_position := λ _, mret tt;
  aw_effector_set_control_mode := λ _ _, bench_ok;
  aw_effector_set_runtime_force_feedback := λ _ _, bench_ok;
  aw_effector_set_runtime_force_feedback_gain := λ _, bench_ok;
  aw_effector_park_safely := bench_ok;
  aw_effector_verify_servos_operational := bench_ok;
  aw_effector_start := λ _, bench_ok;
  aw_effector_stop := bench_ok;
  aw_effector_sleep := bench_ok;
  aw_effector_step := bench_ok;
  aw_effector_process_follower_msg := λ _, bench_ok;
  aw_effector_apply_action := λ _, bench_ok;
  aw_effector_get_observation := λ m, mret (SUCCESS, m);
|}.

#[export] Instance bench_parts : DeviceParts Bench Json := {|
  dp_read_file := λ _, None;
  dp_new_topic := λ _ _, mret true;
  dp_make_driver := λ _ _, mret tt;
  dp_set_algo := λ _ b, b;
  dp_pino_init := λ _ _, bench_ok;
  dp_init_effector := λ _ _ _ _ _ _ _, mret (SUCCESS, (0, 0));
|}.

(** The model of an arm of the given driver and its individual configuration: two joints
    and three servos. *)
Definition bench_arm_model (driver : string) (read_only : bool) : Json := JObject [
  (fn_planning_type, JString val_planning_type_none); (fn_read_only, JBool read_only);
  (fn_driver_type, JString driver); (fn_algo_type, JString val_algo_type_pinocchio);
  (fn_arm_type, JString val_arm_type_can); (fn_joint_init_sequence, JArray [JInt 2; JInt 1]);
  (fn_joints, JArray [bench_joint_config 1 [1; 2]; bench_joint_config 2 [3]])].
Definition bench_arm_individual : Json := JObject [
  (fn_base_rpy, JArray [JInt 0; JInt 0; JInt 0]); (fn_spring_effect, JBool false);
  (fn_gravity_compensation, JBool false); (fn_follower_gravity_compensation, JBool true);
  (fn_joints, JArray [bench_joint_individual 2; bench_joint_individual 1])].
Definition bench_args (r : Role) (override : list f32) : CommandLineArgs :=
  uninitialized_args <| arg_role := r |> <| arg_control_frequency := 100 |> <| arg_planning_type := OPT_PLANING_TYPE_DEFAULT |>
    <| arg_topic_type := val_topic_type_zmq |> <| arg_algo_type := OPT_ALGO_TYPE_UNDEFINED |> <| arg_urdf_path := "arm.urdf" |>
    <| arg_torq_rescale_override := override |>.

Definition bench_arm_init (driver : string) (read_only : bool) (r : Role) (override : list f32) :
    Outcome ReturnCode * ArmBuilding Bench :=
  arm_init (new_Servo follower_arm None) (bench_arm_model driver read_only) bench_arm_individual (bench_args r override) false false
    (mkArmBuilding (construct_Arm ARM_CAN empty_bench (bench_args r override)) None 0 0 0 0).

(** A follower with motors, one with a rescale for each joint and one with too few; a
    follower and a leader without motors; a driver that does not exist. *)
Lemma bench_arm_results :
  fst (bench_arm_init val_driver_type_can false FOLLOWER []) = Done SUCCESS ∧
  fst (bench_arm_init val_driver_type_can false FOLLOWER [f1; f1]) = Done SUCCESS ∧
  fst (bench_arm_init val_driver_type_can false FOLLOWER [f1]) = Done INVALID_PARAM ∧
  fst (bench_arm_init val_driver_type_can_encoder true FOLLOWER []) = Done NOT_SUPPORTED ∧
  fst (bench_arm_init val_driver_type_can_encoder true LEADER []) = Done SUCCESS ∧
  fst (bench_arm_init val_device_type_arm false FOLLOWER []) = Done FAIL.
Proof. vm_compute. done. Qed.

Lemma initialised_arms_fit_witness :
  (fst (bench_arm_init val_driver_type_can false FOLLOWER []) = Done SUCCESS ∧
   fst (bench_arm_init val_driver_type_can false FOLLOWER [f1; f1]) = Done SUCCESS ∧
   fst (bench_arm_init val_driver_type_can false FOLLOWER [f1]) = Done INVALID_PARAM ∧
   fst (bench_arm_init val_driver_type_can_encoder true FOLLOWER []) = Done NOT_SUPPORTED ∧
   fst (bench_arm_init val_driver_type_can_encoder true LEADER []) = Done SUCCESS ∧
   fst (bench_arm_init val_device_type_arm false FOLLOWER []) = Done FAIL) ∧
  succeeds (arm_init (new_Servo follower_arm None) (bench_arm_model val_driver_type_can false) bench_arm_individual
      (bench_args FOLLOWER []) false false)
    (arm_initialised (bench_arm_model val_driver_type_can false) (bench_args FOLLOWER []) ARM_CAN)
    (mkArmBuilding (construct_Arm ARM_CAN empty_bench (bench_args FOLLOWER [])) None 0 0 0 0) ∧
  ends (arm_init (new_Servo follower_arm None) (bench_arm_model val_driver_type_can_encoder true) bench_arm_individual
      (bench_args FOLLOWER []) false false)
    (λ o b', o = Done NOT_SUPPORTED ∧ world (ab_arm b') = empty_bench)
    (mkArmBuilding (construct_Arm ARM_CAN empty_bench (bench_args FOLLOWER [])) None 0 0 0 0).
Proof.
  split; [exact bench_arm_results|]. split.
  - apply (initialised_arms_fit (new_Servo follower_arm None) (bench_arm_model val_driver_type_can false) bench_arm_individual
      (bench_args FOLLOWER []) ARM_CAN empty_bench false false).
  - apply (initialised_arms_fit (new_Servo follower_arm None) (bench_arm_model val_driver_type_can_encoder true) bench_arm_individual
      (bench_args FOLLOWER []) ARM_CAN empty_bench false false); reflexivity.
Defined.
