(* ===== verification/EffectorInit.v ===== *)
(** * The initialisation of effectors and of the FR3 (DeviceEffector::init,
    DeviceEffectorSerial::init, DeviceFR3::init and the reset pose of DriverFR3)

    [p_arm] tells the numbers of joints and servos of the arm the effector is on; [None]
    without one. *)

From Stdlib Require Import Ascii.
From S2P Require Import Prelude.
From S2P Require Import FloatSpec.
From S2P Require Import Control.
From S2P Require Import Filters.
From S2P Require Import CanBus.
From S2P Require Import Servo.
From S2P Require Import ServoConfig.
From S2P Require Import Joint.
From S2P Require Import Device.
From S2P Require Import JointOwner.
From S2P Require Import DeviceEffector.
From S2P Require Import Robotiq.
From S2P Require Import DeviceFr3.
From S2P Require Import TextNumber.
From S2P Require Import Exceptions.
From S2P Require Import CommandLine.
From S2P Require Import DeviceConfig.
From S2P Require Import JointFactory.
From S2P Require Import DeviceInit.
From S2P Require Import ArmInit.

#[local] Open Scope string_scope.
#[local] Open Scope Z_scope.

Definition OPT_EFFECTOR_CONTROL_MODE_TORQUE : string := "torque".
Definition OPT_EFFECTOR_CONTROL_MODE_POSITION : string := "position".
Definition EPSILON : f32 := to_f32 (lit64 1 1000000).

Record EffectorBuilding (X : Type) := mkEffectorBuilding { eb_eff : Effector X; eb_algo : option Algo; eb_servo_num_ : Z }.
Arguments mkEffectorBuilding {X}.
Arguments eb_eff {X}.
Arguments eb_algo {X}.
Arguments eb_servo_num_ {X}.
#[export] Instance eta_EffectorBuilding X : Eta (EffectorBuilding X) := λ r,
  mkEffectorBuilding (eb_eff r) (eb_algo r) (eb_servo_num_ r).

Definition construct_Effector {X} (k : EffectorKind) (x : X) (cla : CommandLineArgs) : Effector X := mkEffector
  (construct_Device EFFECTOR cla) k x [] [] [] [] [] 0 false f0 f0 false f0 false false.

(** [None]: neither of the two. *)
Definition torque_mode_of (control_mode torque position : string) : option bool :=
  if String.eqb control_mode torque then Some true else if String.eqb control_mode position then Some false else None.

Section init.
Context {X J : Type} `{JsonDocument J} `{DeviceParts X J} `{!ServoFactory X J} `{JointServos X} `{EffectorWorld X}.
Context (undefined_servo : Servo) (model individual : J) (cla : CommandLineArgs) (p_arm : option (Z * Z)).
Local Abbreviation EB := (EffectorBuilding X).

Definition eb_update (f : EB → EB) : Exc EB unit := lift (modify f).
Definition eb_on_eff (f : Effector X → Effector X) : Exc EB unit := eb_update (λ b, b <| eb_eff := f (eb_eff b) |>).
Definition eb_with_eff {A} (m : St (Effector X) A) : Exc EB A := lift (lift_into eb_eff (λ e b, b <| eb_eff := e |>) m).
Definition set_torque_mode (torque : bool) (e : Effector X) : Effector X :=
  e <| eff_base := (eff_base e) <| view := (view (eff_base e)) <| effector_torque_mode_ := torque |> |> |>.

Definition eb_device_init (topic_given driver_given : bool) : Exc EB ReturnCode :=
  exc_into (λ b, mkBuilding (eff_base (eb_eff b)) (eff_world (eb_eff b)) (eb_algo b))
    (λ d b, b <| eb_eff := (eb_eff b) <| eff_base := bd_base d |> <| eff_world := bd_world d |> |> <| eb_algo := bd_algo d |>)
    (Device_init model individual cla topic_given driver_given 0).

(** ** Settings *)

Definition effector_open_at_min : bool :=
  match field json_get_bool individual fn_effector_open_at_min with
  | Some b => b
  | None => default false (field json_get_bool model fn_effector_open_at_min)
  end.

(** [None]: a mode that is neither. *)
Definition configured_torque_mode : option bool :=
  match field json_get_string individual fn_effector_control_mode with
  | Some control_mode => torque_mode_of control_mode val_effector_control_mode_torque val_effector_control_mode_position
  | None => Some false
  end.

Definition effector_settings : Exc EB ReturnCode :=
  eb_on_eff (λ e, e <| open_at_min_ := effector_open_at_min |>);;
  match configured_torque_mode with
  | None => mret INVALID_PARAM
  | Some torque =>
      eb_on_eff (set_torque_mode torque);;
      match field json_get_float individual fn_effector_grip_spring_offset with
      | Some v => eb_on_eff (λ e, e <| grip_spring_offset_ := v |>)
      | None => mret tt
      end;;
      eb_on_eff (λ e, e <| distance_to_torque_ :=
        default OPT_DISTANCE_TO_TORQUE_DEFAULT (field json_get_float individual fn_effector_dist_to_torque_const) |>);;
      match field json_get_bool individual fn_spring_effect with
      | None => mret INVALID_PARAM
      | Some spring_effect =>
          eb_on_eff (λ e, e <| eff_base := (eff_base e) <| enabled_spring_effect_ := spring_effect |> |>);;
          mret SUCCESS
      end
  end.

(** ** Joints *)

Definition effector_buffers (e : Effector X) : Effector X :=
  let dof := length (eff_joints_ e) in
  e <| start_index_joint_ := match p_arm with Some (arm_dof, _) => arm_dof | None => 0 end |>
    <| eff_tele_pos_ := replicate dof f0 |> <| eff_tele_vel_ := replicate dof f0 |> <| eff_tele_tor_ := replicate dof f0 |>.

Definition effector_joints : Exc EB ReturnCode :=
  b ← lift get_state;
  '(return_code, js) ← exc_into (λ b, current_world (eb_eff b)) (λ x b, b <| eb_eff := (eb_eff b) <| eff_world := x |> |>)
    (lift (new_joints undefined_servo (Device.has_driver (eff_base (eb_eff b))) model individual));
  if negb (ok return_code) then mret return_code
  else
    eb_on_eff (λ e, e <| eff_joints_ := js |>);;
    eb_update (λ b, b <| eb_servo_num_ := servo_total (eff_joints_ (eb_eff b)) |>);;
    eb_on_eff effector_buffers;;
    match new_ForceFeedback with
    | None => throw
    | Some f => eb_on_eff (λ e, e <| force_feedbacks_ := replicate (length (eff_joints_ e)) f |>);; mret SUCCESS
    end.

(** ** The command line *)

Definition distance_given : bool :=
  SFabs (to_f64 (arg_distance_to_torque cla) - f64_of_Z 2)%f64 >?. to_f64 EPSILON.

(** The limits are those of the first joint; what setting them returns is ignored. *)
Definition effector_overrides : Exc EB ReturnCode :=
  (if negb (arg_effector_max_pos cla =?. OPT_EFFECTOR_MAX_POS_DEFAULT)
   then eb_with_eff (with_joint 0 (set_pos_max_relative (arg_effector_max_pos cla)));; mret tt else mret tt);;
  (if negb (arg_effector_min_pos cla =?. OPT_EFFECTOR_MIN_POS_DEFAULT)
   then eb_with_eff (with_joint 0 (set_pos_min_relative (arg_effector_min_pos cla)));; mret tt else mret tt);;
  (if distance_given then eb_on_eff (λ e, e <| distance_to_torque_ := arg_distance_to_torque cla |>) else mret tt);;
  if negb (String.eqb (arg_effector_control_mode cla) OPT_EFFECTOR_CONTROL_MODE_UNDEFINED) then
    match torque_mode_of (arg_effector_control_mode cla) OPT_EFFECTOR_CONTROL_MODE_TORQUE OPT_EFFECTOR_CONTROL_MODE_POSITION with
    | None => mret INVALID_PARAM
    | Some torque => eb_on_eff (set_torque_mode torque);; mret SUCCESS
    end
  else mret SUCCESS.

Definition DeviceEffector_init (topic_given driver_given : bool) : Exc EB ReturnCode :=
  or_return (eb_device_init topic_given driver_given)
  (or_return effector_settings
  (or_return effector_joints
   effector_overrides)).

(** Without an arm the data indices of a serial effector start from 0. *)
Fixpoint number_servos (servo_data_index : Z) (ps : list ptr) (x : X) : X :=
  match ps with
  | [] => x
  | p :: ps => number_servos (servo_data_index + 1) ps (js_update p (λ s, s <| data_index_ := servo_data_index |>) x)
  end.

Definition DeviceEffectorSerial_init (topic_given driver_given : bool) : Exc EB ReturnCode :=
  or_return (DeviceEffector_init topic_given driver_given)
  ((match p_arm with
    | None => eb_on_eff (λ e, e <| eff_world := number_servos 0 (eff_joints_ e ≫= servos_) (eff_world e) |>)
    | Some _ => mret tt
    end);;
   mret SUCCESS).

Definition effector_init (topic_given driver_given : bool) : Exc EB ReturnCode :=
  b ← lift get_state;
  match eff_kind_ (eb_eff b) with
  | EFFECTOR_SERIAL => DeviceEffectorSerial_init topic_given driver_given
  | EFFECTOR_CAN | EFFECTOR_CONTROLLER => DeviceEffector_init topic_given driver_given
  end.
End init.

(** ** The FR3 *)

(** [parse_array]: the loop over the items that [getline] gives.  It takes an item before
    it looks at the index.  [None] throws. *)
Section parse.
Context (underflow_is_error : list Ascii.ascii → bool).

Definition array_value (item : list Ascii.ascii) : option f64 :=
  match stod underflow_is_error item with
  | StoValue value consumed =>
      if negb (bool_decide (consumed = length item)) || negb (isfinite value) then None else Some value
  | _ => None
  end.

(** The values, and the items that are left. *)
Fixpoint parse_items (size : nat) (items : list (list Ascii.ascii)) (result : list f64) : option (list f64 * list (list Ascii.ascii)) :=
  match items with
  | [] => Some (result, [])
  | item :: items =>
      if bool_decide (length result < size)%nat then
        value ← array_value item; parse_items size items (result ++ [value])%list
      else Some (result, items)
  end.

Definition parse_array (size : nat) (value : string) : option (list f64) :=
  '(result, items) ← parse_items size (getlines ","%char (word value)) [];
  if negb (bool_decide (length result = size)) || negb (bool_decide (items = [])) then None else Some result.
End parse.

Section fr3.
Context {X J : Type} `{JsonDocument J} `{DeviceParts X J}.
Context (model individual : J) (cla : CommandLineArgs).

Record FR3Building := mkFR3Building { fb_fr3 : DeviceFR3 X; fb_algo : option Algo }.
#[export] Instance eta_FR3Building : Eta FR3Building := λ r, mkFR3Building (fb_fr3 r) (fb_algo r).

Definition construct_FR3 (x : X) : DeviceFR3 X := mkDeviceFR3 (construct_Device ARM cla) x false false f1 f1.

Definition robotiq_config : RobotiqConfig := mkRobotiqConfig
  (if String.eqb (arg_robotiq_transport cla) "tcp" then TCP else RTU)
  (arg_robotiq_endpoint cla) (arg_robotiq_port cla) (arg_robotiq_baud_rate cla) (arg_robotiq_slave_id cla)
  (arg_robotiq_poll_frequency cla) (arg_robotiq_timeout_ms cla)
  (u8 (arg_robotiq_min_position_raw cla)) (u8 (arg_robotiq_max_position_raw cla)).

(** [set_robotiq] puts the gripper's transport in place; [given_kind] is the kind of a
    driver that is given. *)
Definition DeviceFR3_init (set_robotiq : RobotiqTransport → X → X) (topic_given : bool) (given_kind : option DriverKind) :
    Exc FR3Building ReturnCode :=
  or_return
    (exc_into (λ b, mkBuilding (fr3_base (fb_fr3 b)) (fr3_world (fb_fr3 b)) (fb_algo b))
      (λ d b, b <| fb_fr3 := (fb_fr3 b) <| fr3_base := bd_base d |> <| fr3_world := bd_world d |> |> <| fb_algo := bd_algo d |>)
      (Device_init model individual cla topic_given (bool_decide (is_Some given_kind)) 7))
  (let kind := match given_kind with Some k => Some k | None => new_driver model end in
   if negb (bool_decide (kind = Some DRIVER_FR3)) then mret NOT_INITIALIZED
   else
     lift (modify (λ b, b <| fb_fr3 := (fb_fr3 b) <| driver_fr3_ := true |> |>));;
     (if negb (is_empty (arg_robotiq_transport cla)) then
        lift (modify (λ b, b <| fb_fr3 := (fb_fr3 b)
          <| fr3_world := set_robotiq (new_RobotiqTransport robotiq_config) (fr3_world (fb_fr3 b)) |>
          <| robotiq_ := true |> <| robotiq_default_speed_ := arg_robotiq_default_speed cla |>
          <| robotiq_default_force_ := arg_robotiq_default_force cla |> |>))
      else mret tt);;
     mret SUCCESS).
End fr3.
