(* ===== verification/EffectorInitFacts.v ===== *)
(** * Theorems on the initialisation of effectors and the reset pose of the FR3 *)

From Stdlib Require Import Ascii.
From S2P Require Import Prelude.
From S2P Require Import FloatSpec.
From S2P Require Import Control.
From S2P Require Import Filters.
From S2P Require Import CanBus.
From S2P Require Import Servo.
From S2P Require Import ServoConfig.
From S2P Require Import Joint.
From S2P Require Import Device.
From S2P Require Import JointOwner.
From S2P Require Import DeviceEffector.
From S2P Require Import TextNumber.
From S2P Require Import Exceptions.
From S2P Require Import CommandLine.
From S2P Require Import DeviceConfig.
From S2P Require Import JointFactory.
From S2P Require Import JointFactoryFacts.
From S2P Require Import DeviceInit.
From S2P Require Import ArmInit.
From S2P Require Import ArmInitFacts.
From S2P Require Import EffectorInit.

#[local] Open Scope Z_scope.

(** ** The reset pose *)

Section parse.
Context (underflow_is_error : list ascii → bool).
Local Abbreviation array_value := (array_value underflow_is_error).
Local Abbreviation parse_items := (parse_items underflow_is_error).

Lemma parse_items_spec size items : ∀ acc, (length acc ≤ size)%nat →
  parse_items size items acc =
  (λ values, ((acc ++ values)%list, drop (S (size - length acc)) items)) <$> mapM array_value (take (size - length acc) items).
Proof.
  induction items as [|item items IH]; intros acc Hacc; cbn [EffectorInit.parse_items].
  { rewrite take_nil, drop_nil. cbn. by rewrite app_nil_r. }
  destruct (decide (length acc < size)%nat) as [Hlt|Hge].
  - rewrite bool_decide_eq_true_2 by done. replace (size - length acc)%nat with (S (size - S (length acc))) by lia.
    cbn [take drop mapM]. destruct (array_value item) as [v|]; [|done]. cbn [mbind option_bind].
    rewrite IH by (rewrite length_app; cbn; lia). replace (length (acc ++ [v])) with (S (length acc)) by (rewrite length_app; cbn; lia).
    destruct (mapM _ _) as [values|]; [|done]. cbn. by rewrite <- app_assoc.
  - rewrite bool_decide_eq_false_2 by done. replace (size - length acc)%nat with O by lia. cbn. by rewrite app_nil_r.
Qed.

(** The list is accepted when its first [size] items can be used and at most one follows
    them: that one is neither read nor checked. *)
Lemma parse_array_spec size value r :
  parse_array underflow_is_error size value = Some r ↔
  ∃ first extra, getlines ","%char (word value) = (first ++ extra)%list ∧ length first = size ∧
    mapM array_value first = Some r ∧ (length extra ≤ 1)%nat.
Proof.
  unfold parse_array. set (items := getlines _ _). rewrite parse_items_spec by (cbn; lia). cbn [length app]. rewrite Nat.sub_0_r.
  assert (∀ l values, mapM array_value l = Some values → length values = length l) as Hlen.
  { intros l values Hl. apply mapM_Some, Forall2_length in Hl. done. }
  split.
  - destruct (mapM _ _) as [values|] eqn:Ev; [|done]. cbn. case_match eqn:Hb; [done|]. intros [= <-].
    apply orb_false_iff in Hb as [H1%negb_false_iff%bool_decide_eq_true H2%negb_false_iff%bool_decide_eq_true].
    apply Hlen in Ev as Hl. exists (take size items), (drop size items). rewrite take_drop. split_and!; try done; [congruence|].
    apply (f_equal length) in H2. rewrite length_drop in *. cbn in H2. lia.
  - intros (first & extra & Hi & Hf & Hm & He). rewrite Hi, take_app_length' by done. rewrite Hm. cbn.
    apply Hlen in Hm as Hl. rewrite bool_decide_eq_true_2 by congruence. cbn.
    rewrite bool_decide_eq_true_2; [done|]. apply nil_length_inv. rewrite length_drop, length_app. lia.
Qed.
End parse.

(** Eight values for a pose of seven, the eighth not a number: accepted. *)
Example extra_value_ignored : parse_array (λ _, true) 7 "0,0,0,0,0,0,0,x" = Some (replicate 7 (S754_zero false)).
Proof. by vm_compute. Qed.
Example nine_values_refused : parse_array (λ _, true) 7 "0,0,0,0,0,0,0,0,0" = None ∧ parse_array (λ _, true) 7 "0,0,0,0,0,0" = None.
Proof. by vm_compute. Qed.

(** ** Effectors *)

Section init.
Context {X J : Type} `{JsonDocument J} `{DeviceParts X J} `{JointServos X} `{EffectorWorld X} `{ServoFactoryLaws X J}.
Context (undefined_servo : Servo) (model individual : J) (cla : CommandLineArgs) (p_arm : option (Z * Z)).
Local Abbreviation EB := (EffectorBuilding X).

Definition eff_mode_obs (b : EB) :=
  let v := view (eff_base (eb_eff b)) in
  (role_ v, is_read_only_ v, effector_torque_mode_ v, follower_gravity_compensation_ (eff_base (eb_eff b)),
   distance_to_torque_ (eb_eff b), grip_spring_offset_ (eb_eff b), open_at_min_ (eb_eff b)).
Definition eff_joints_obs (b : EB) :=
  (eff_joints_ (eb_eff b), eff_tele_pos_ (eb_eff b), eff_tele_vel_ (eb_eff b), eff_tele_tor_ (eb_eff b),
   force_feedbacks_ (eb_eff b), start_index_joint_ (eb_eff b)).

(** Joints with servos, a buffer entry and a force feedback for each. *)
Definition effector_jointed (b : EB) : Prop :=
  let e := eb_eff b in
  let configs := json_elements (json_at model fn_joints) in
  Forall2 has_servos configs (eff_joints_ e) ∧ Forall configured (eff_joints_ e) ∧
  Forall (λ l, l = replicate (length configs) f0) [eff_tele_pos_ e; eff_tele_vel_ e; eff_tele_tor_ e] ∧
  length (force_feedbacks_ e) = length configs ∧
  start_index_joint_ e = match p_arm with Some (arm_dof, _) => arm_dof | None => 0 end.

Lemma effector_joints_jointed b : succeeds (effector_joints undefined_servo model individual p_arm) effector_jointed b.
Proof.
  unfold succeeds, effector_joints, eb_on_eff, eb_update. ends_step. ends_step. wp_step. ends_step. ends_step. ends_step.
  eapply wp_mono; [apply new_joints_made|]. cbv beta. intros [rc js] x Hx. unfold made_or_nothing in Hx. cbn [fst snd] in Hx.
  apply ends_if; intros Hrc; [ends_step; by rewrite (proj1 (negb_true_iff _) Hrc)|].
  apply negb_false_iff in Hrc. rewrite Hrc in Hx. destruct Hx as [[Hs Hc] _].
  ends_step. ends_step. wp_step. ends_step. ends_step. wp_step. ends_step. ends_step. wp_step.
  destruct new_ForceFeedback as [f|]; [|by ends_step]. ends_step. ends_step. wp_step. ends_step. intros _.
  unfold effector_jointed. cbn. rewrite length_replicate, <- (Forall2_length _ _ _ Hs). by split_and!; repeat constructor.
Qed.

Lemma effector_joints_keeps : ekeeps eff_mode_obs (effector_joints undefined_servo model individual p_arm).
Proof. unfold effector_joints, eb_on_eff, eb_update. ekeeps. Qed.

(** Limits are set in a servo: the joint stays. *)
Lemma limit_keeps_joints {O} (obs : EB → O) (m : St (JointWorld X) ReturnCode) :
  (∀ b x js, js = eff_joints_ (eb_eff b) → obs (b <| eb_eff := (eb_eff b) <| eff_joints_ := js |> <| eff_world := x |> |>) = obs b) →
  (∀ w, joint (snd (m w)) = joint w) → ekeeps obs (eb_with_eff (with_joint 0 m)).
Proof.
  intros Hobs Hm b. unfold eb_with_eff, ends, lift, with_joint, lift_into, publish_view, modify, mbind, St_bind. cbn.
  match goal with |- context [m ?w] => specialize (Hm w); destruct (m w) as [rc w'] end. cbn in *. rewrite Hm.
  apply (Hobs b (hw w')). unfold the_joint. cbn. by destruct (eff_joints_ (eb_eff b)).
Qed.

Lemma set_reference_joint f (w : JointWorld X) : joint (snd (set_reference f w)) = joint w.
Proof. unfold set_reference, get_state, mbind, St_bind. cbn. by destruct (reference_ptr (joint w)). Qed.

Lemma limit_keeps {O} (obs : EB → O) (given : bool) (m : St (JointWorld X) ReturnCode) :
  (∀ b x js, js = eff_joints_ (eb_eff b) → obs (b <| eb_eff := (eb_eff b) <| eff_joints_ := js |> <| eff_world := x |> |>) = obs b) →
  (∀ w, joint (snd (m w)) = joint w) → ekeeps obs (if given then eb_with_eff (with_joint 0 m);; mret tt else mret tt).
Proof.
  intros Hobs Hm. apply ekeeps_if; [|apply ekeeps_ret]. apply ekeeps_bind; [by apply limit_keeps_joints|intros; apply ekeeps_ret].
Qed.

Lemma overrides_keep_joints : ekeeps eff_joints_obs (effector_overrides cla).
Proof.
  unfold effector_overrides, eb_on_eff, eb_update.
  apply ekeeps_bind; [apply limit_keeps; [by intros b x js ->|apply set_reference_joint]|intros _].
  apply ekeeps_bind; [apply limit_keeps; [by intros b x js ->|apply set_reference_joint]|intros _].
  apply ekeeps_bind; [|intros _]; [destruct (distance_given cla)|destruct (negb _); [destruct (torque_mode_of _ _ _)|]]; ekeeps.
Qed.

(** The mode and the distance of an initialised effector: the command line's, if given. *)
Definition effector_mode (configured : bool) : bool :=
  if String.eqb (arg_effector_control_mode cla) OPT_EFFECTOR_CONTROL_MODE_UNDEFINED then configured
  else String.eqb (arg_effector_control_mode cla) OPT_EFFECTOR_CONTROL_MODE_TORQUE.

Definition torque_mode (b : EB) : bool := effector_torque_mode_ (view (eff_base (eb_eff b))).
Definition role_obs (b : EB) :=
  let v := view (eff_base (eb_eff b)) in (role_ v, is_read_only_ v, follower_gravity_compensation_ (eff_base (eb_eff b))).

Lemma effector_settings_right b : succeeds (effector_settings model individual) (λ b',
  configured_torque_mode individual = Some (torque_mode b') ∧ open_at_min_ (eb_eff b') = effector_open_at_min model individual ∧
  distance_to_torque_ (eb_eff b') =
    default OPT_DISTANCE_TO_TORQUE_DEFAULT (field json_get_float individual fn_effector_dist_to_torque_const) ∧
  role_obs b' = role_obs b) b.
Proof.
  unfold succeeds, effector_settings, eb_on_eff, eb_update, torque_mode. ends_step. ends_step. wp_step.
  destruct (configured_torque_mode individual) as [torque|]; [|by ends_step]. ends_step. ends_step. wp_step. ends_step.
  destruct (field json_get_float individual fn_effector_grip_spring_offset) as [v|]; ends_step; try wp_step; ends_step; ends_step; wp_step;
    (destruct (field json_get_bool individual fn_spring_effect) as [spring|]; [|by ends_step]);
    ends_step; ends_step; wp_step; ends_step; by intros _.
Qed.

Lemma effector_overrides_right b : succeeds (effector_overrides cla) (λ b',
  torque_mode b' = effector_mode (torque_mode b) ∧ open_at_min_ (eb_eff b') = open_at_min_ (eb_eff b) ∧
  distance_to_torque_ (eb_eff b') = (if distance_given cla then arg_distance_to_torque cla else distance_to_torque_ (eb_eff b)) ∧
  role_obs b' = role_obs b) b.
Proof.
  unfold succeeds, effector_overrides. ends_step. apply (ends_keeps eff_mode_obs); [by apply limit_keeps, set_reference_joint|].
  intros [[]| |code] b1 Hb1; [|done..]. ends_step. apply (ends_keeps eff_mode_obs); [by apply limit_keeps, set_reference_joint|].
  intros [[]| |code] b2 Hb2; [|done..]. assert (eff_mode_obs b2 = eff_mode_obs b) as E by congruence. clear Hb1 Hb2.
  injection E as E1 E2 E3 E4 E5 E6 E7. unfold torque_mode, role_obs, effector_mode, eb_on_eff, eb_update.
  rewrite <- E1, <- E2, <- E3, <- E4, <- E5, <- E7. clear E1 E2 E3 E4 E5 E6 E7 b b1.
  ends_step. destruct (distance_given cla); ends_step; try wp_step;
    (destruct (String.eqb (arg_effector_control_mode cla) OPT_EFFECTOR_CONTROL_MODE_UNDEFINED); cbn [negb]; [by ends_step|]);
    unfold torque_mode_of; destruct (String.eqb (arg_effector_control_mode cla) OPT_EFFECTOR_CONTROL_MODE_TORQUE);
    [|destruct (String.eqb (arg_effector_control_mode cla) OPT_EFFECTOR_CONTROL_MODE_POSITION); [|by ends_step]
     | |destruct (String.eqb (arg_effector_control_mode cla) OPT_EFFECTOR_CONTROL_MODE_POSITION); [|by ends_step]];
    ends_step; ends_step; wp_step; ends_step; by intros _.
Qed.

Lemma jointed_obs b b' : eff_joints_obs b' = eff_joints_obs b → effector_jointed b → effector_jointed b'.
Proof. intros [= E1 E2 E3 E4 E5 E6] Hj. unfold effector_jointed in *. by rewrite E1, E2, E3, E4, E5, E6. Qed.

(** What an initialised effector is. *)
Definition effector_initialised (b : EB) : Prop :=
  effector_jointed b ∧ role_fits cla (view (eff_base (eb_eff b))) ∧
  follower_gravity_compensation_ (eff_base (eb_eff b)) = false ∧
  effector_mode <$> configured_torque_mode individual = Some (torque_mode b) ∧
  open_at_min_ (eb_eff b) = effector_open_at_min model individual ∧
  distance_to_torque_ (eb_eff b) =
    (if distance_given cla then arg_distance_to_torque cla
     else default OPT_DISTANCE_TO_TORQUE_DEFAULT (field json_get_float individual fn_effector_dist_to_torque_const)).

Lemma eb_device_init_fits topic_given driver_given b :
  succeeds (eb_device_init (X := X) model individual cla topic_given driver_given)
    (λ b', role_fits cla (view (eff_base (eb_eff b'))) ∧
           follower_gravity_compensation_ (eff_base (eb_eff b')) = follower_gravity_compensation_ (eff_base (eb_eff b))) b.
Proof.
  unfold eb_device_init, succeeds. apply ends_into. eapply ends_mono; [apply Device_init_fits|]. cbv beta.
  intros [rc| |code] d Hd; [|done..]. exact Hd.
Qed.

Lemma effector_init_base topic_given driver_given b : follower_gravity_compensation_ (eff_base (eb_eff b)) = false →
  succeeds (DeviceEffector_init undefined_servo model individual cla p_arm topic_given driver_given) effector_initialised b.
Proof.
  intros Hf0. unfold DeviceEffector_init. apply succeeds_or_return.
  eapply ends_mono; [apply eb_device_init_fits|]. intros [rc| |code] b1 Hb1; [|done..]. intros Hrc. destruct (Hb1 Hrc) as [Hr Hf]. clear Hb1 Hrc.
  apply succeeds_or_return.
  eapply ends_mono; [apply effector_settings_right|]. intros [rc2| |code] b2 Hb2; [|done..]. intros Hrc. destruct (Hb2 Hrc) as (Hm & Ho & Hd & Hobs). clear Hb2 Hrc.
  apply succeeds_or_return, (succeeds_keeping eff_mode_obs); [apply effector_joints_keeps|].
  eapply ends_mono; [apply effector_joints_jointed|]. intros [rc3| |code] b3 Hb3; [|done..]. intros Hrc Hobs3. specialize (Hb3 Hrc).
  apply (succeeds_keeping eff_joints_obs); [apply overrides_keep_joints|].
  eapply ends_mono; [apply effector_overrides_right|]. intros [rc4| |code] b4 Hb4; [|done..]. intros Hrc4 Hobs4.
  destruct (Hb4 Hrc4) as (Hm4 & Ho4 & Hd4 & Hobs4'). injection Hobs3 as E1 E2 E3 E4 E5 E6 E7.
  unfold role_obs in *. injection Hobs as E8 E9 E10. injection Hobs4' as E11 E12 E13. unfold torque_mode in *.
  unfold effector_initialised, torque_mode, role_fits in *. split_and!.
  - by eapply jointed_obs.
  - rewrite E11, E1, E8. apply Hr.
  - rewrite E12, E2, E9. apply Hr.
  - by rewrite E13, E4, E10, Hf.
  - by rewrite Hm, Hm4, E3.
  - by rewrite Ho4, E7.
  - rewrite Hd4, E5, Hd. done.
Qed.

(** Effectors are initialised as configured, the command line first. *)
Theorem initialised_effectors_fit k (x : X) topic_given driver_given :
  succeeds (effector_init undefined_servo model individual cla p_arm topic_given driver_given)
    effector_initialised (mkEffectorBuilding (construct_Effector k x cla) None 0).
Proof.
  unfold effector_init, succeeds. set (b0 := mkEffectorBuilding _ _ _). ends_step. ends_step. wp_step.
  destruct (eff_kind_ (eb_eff b0)); try by apply effector_init_base.
  apply succeeds_or_return. eapply ends_mono; [by apply effector_init_base|]. intros [rc| |code] b1 Hb1; [|done..].
  intros Hrc. specialize (Hb1 Hrc). unfold eb_on_eff, eb_update, succeeds. ends_step. destruct p_arm as [[]|]; ends_step; [by ends_step|].
  wp_step. ends_step. intros _. exact Hb1.
Qed.
End init.
