(* ===== verification/ControlMain.v ===== *)
(** * The process (main and ParentLivenessMonitor of src/pi_control_node.cpp)

    [main] makes the command line, the configurations and the device and runs it as
    [ControlNode] says; its exception handlers park the device.  The device is the class
    [MainDevice]; [history] is what happened to it, in order.  [exit] ends the process
    without unwinding, which the command line does before there is a device.

    The monitor is a thread that raises SIGTERM when the parent is gone; [polls] and
    [stop_requested] are what its n-th system call and its n-th look at the flag give. *)

From S2P Require Import Prelude.
From S2P Require Import FloatSpec.
From S2P Require Import Control.
From S2P Require Import ServoConfig.
From S2P Require Import Exceptions.
From S2P Require Import CommandLine.
From S2P Require Import DeviceConfig.
From S2P Require Import DeviceInit.

#[local] Open Scope Z_scope.

(** ** The monitor of the parent *)

Inductive ReadResult := READ_BYTE | READ_EOF | READ_INTERRUPTED | READ_FAILED.
(** [poll]: nothing within 100 ms, an error, or events. *)
Inductive PollResult :=
| POLL_TIMEOUT | POLL_INTERRUPTED | POLL_FAILED
| POLL_EVENTS (hangup_or_error readable : bool) (bytes_read : ReadResult).

(** One round sees that the parent is gone. *)
Definition parent_gone (p : PollResult) : bool :=
  match p with
  | POLL_TIMEOUT | POLL_INTERRUPTED => false
  | POLL_FAILED => true
  | POLL_EVENTS hangup_or_error readable bytes_read =>
      hangup_or_error || (readable && match bytes_read with READ_EOF | READ_FAILED => true | _ => false end)
  end.

Section monitor.
Context (polls : nat → PollResult) (stop_requested : nat → bool).

(** Whether SIGTERM was raised; [None]: still watching.  The flag is looked at twice in a
    round that sees the parent gone. *)
Fixpoint monitor (fuel round : nat) : option bool :=
  match fuel with
  | O => None
  | S fuel =>
      if stop_requested (2 * round)%nat then Some false
      else if parent_gone (polls round) then Some (negb (stop_requested (S (2 * round))))
      else monitor fuel (S round)
  end.

(** [start]: no thread without a descriptor. *)
Definition monitor_from (fd : Z) (fuel : nat) : option bool := if fd <? 0 then Some false else monitor fuel 0.
End monitor.

(** ** The program *)

Class MainDevice (D J : Type) := {
  md_new : DeviceKind → J → J → CommandLineArgs → D;
  md_init : Exc D ReturnCode;
  md_run : Exc D (option Z);          (* from start to the end of the loop and stop: [control_node] *)
  md_park_safely : St D ReturnCode;
  md_destroy : St D unit;
}.
#[export] Hint Mode MainDevice ! - : typeclass_instances.

Inductive MainEvent := DEVICE_MADE | DEVICE_INIT | DEVICE_RUN | DEVICE_PARKED | DEVICE_DESTROYED.
#[export] Instance MainEvent_eq_dec : EqDecision MainEvent.
Proof. solve_decision. Defined.

(** [destroyed] is what the device was when it had been destroyed. *)
Record Process (D : Type) := mkProcess { the_device : option D; destroyed : option D; history : list MainEvent }.
Arguments mkProcess {D}.
Arguments the_device {D}.
Arguments destroyed {D}.
Arguments history {D}.
#[export] Instance eta_Process D : Eta (Process D) := λ r, mkProcess (the_device r) (destroyed r) (history r).

Section main.
Context {D J : Type} `{JsonDocument J} `{MainDevice D J} (read_file : string → option (option J)).
Local Abbreviation P := (Process D).

Definition event (e : MainEvent) : Exc P unit := lift (modify (λ p, p <| history := (history p ++ [e])%list |>)).

(** On the device, if there is one. *)
Definition on_the_device {A} (absent : A) (m : Exc D A) : Exc P A := λ p,
  match the_device p with
  | None => (Done absent, p)
  | Some d => let '(o, d') := m d in (o, p <| the_device := Some d' |>)
  end.

(** The configurations: [None] ends the program with -1. *)
Definition read_configs (cla : CommandLineArgs) : Exc P (option (J * J)) :=
  let '(return_code, model) := DeviceConfig_init_config_model read_file cla json_null in
  if negb (ok return_code) then mret None
  else
    match DeviceConfig_init_config_individual read_file cla json_null with
    | (Done return_code, individual) => if negb (ok return_code) then mret None else mret (Some (model, individual))
    | (Thrown, _) => throw
    | (Exited code, _) => exit_with code
    end.

(** The body of [try]; [None] when [md_run] does not end. *)
Definition main_body (args : Outcome CommandLineArgs) : Exc P (option Z) :=
  cla ← (match args with Done cla => mret cla | Thrown => throw | Exited code => exit_with code end);
  configs ← read_configs cla;
  match configs with
  | None => mret (Some (-1))
  | Some (model, individual) =>
      match new_device model cla with
      | None => mret (Some (-1))
      | Some k =>
          lift (modify (λ p, p <| the_device := Some (md_new k model individual cla) |>));; event DEVICE_MADE;;
          event DEVICE_INIT;;
          return_code ← on_the_device NOT_INITIALIZED md_init;
          if negb (ok return_code) then mret (Some (-1))
          else event DEVICE_RUN;; on_the_device None md_run
      end
  end.

(** [p_device.reset()], or its end of scope. *)
Definition destroy_device : Exc P unit := λ p,
  match the_device p with
  | None => (Done tt, p)
  | Some d => (Done tt, mkProcess None (Some (snd (md_destroy d))) (history p ++ [DEVICE_DESTROYED]))
  end.
Definition park_device : Exc P unit := λ p,
  match the_device p with
  | None => (Done tt, p)
  | Some d => (Done tt, mkProcess (Some (snd (md_park_safely d))) (destroyed p) (history p ++ [DEVICE_PARKED]))
  end.

(** The exit code of the process; [None] when it runs on. *)
Definition main (args : Outcome CommandLineArgs) : P → option Z * P := λ p,
  match main_body args p with
  | (Done (Some code), p) => (Some code, snd (destroy_device p))
  | (Done None, p) => (None, p)
  | (Thrown, p) => (Some 1, snd ((park_device;; destroy_device) p))
  | (Exited code, p) => (Some code, p)
  end.
End main.
