(* ===== verification/ControlMainFacts.v ===== *)
(** * Theorems on the process *)

From S2P Require Import Prelude.
From S2P Require Import FloatSpec.
From S2P Require Import Control.
From S2P Require Import ServoConfig.
From S2P Require Import Exceptions.
From S2P Require Import CommandLine.
From S2P Require Import CommandLineFacts.
From S2P Require Import DeviceConfig.
From S2P Require Import Servo.
From S2P Require Import JointFactory.
From S2P Require Import JointFactoryFacts.
From S2P Require Import DeviceArm.
From S2P Require Import DeviceInit.
From S2P Require Import ArmInit.
From S2P Require Import ArmInitFacts.
From S2P Require Import ControlMain.

#[local] Open Scope Z_scope.

(** ** The monitor *)

Section monitor.
Context (polls : nat → PollResult) (stop_requested : nat → bool).
(** The flag is never taken back. *)
Context (Hstop : ∀ n m, (n ≤ m)%nat → stop_requested n = true → stop_requested m = true).

(** The first round that sees the parent gone raises SIGTERM, unless the program is
    stopping; the rounds before it do not, and a stop ends the thread at its next round. *)
Lemma monitor_spec fuel : ∀ round,
  monitor polls stop_requested fuel round =
  match filter (λ n, stop_requested (2 * n) || parent_gone (polls n))%nat (seq round fuel) with
  | [] => None
  | n :: _ => Some (negb (stop_requested (S (2 * n))))
  end.
Proof.
  induction fuel as [|fuel IH]; intros round; [done|]. cbn [monitor seq filter list_filter].
  destruct (stop_requested (2 * round)) eqn:Hs; cbn [orb].
  - rewrite decide_True by done. pose proof (Hstop _ (S (2 * round))%nat (Nat.le_succ_diag_r _) Hs) as E. by rewrite E.
  - destruct (parent_gone (polls round)); [by rewrite decide_True|]. rewrite decide_False by (intros []). apply IH.
Qed.
End monitor.

(** ** The life of the device *)

(** What becomes of the device of a process that ends with [code] ([None]: that runs on). *)
Inductive lifecycle : option Z → list MainEvent → Prop :=
| no_device code : code ∈ [-1; 1; 2] → lifecycle (Some code) []
| not_initialised : lifecycle (Some (-1)) [DEVICE_MADE; DEVICE_INIT; DEVICE_DESTROYED]
| init_threw : lifecycle (Some 1) [DEVICE_MADE; DEVICE_INIT; DEVICE_PARKED; DEVICE_DESTROYED]
| ran code : lifecycle (Some code) [DEVICE_MADE; DEVICE_INIT; DEVICE_RUN; DEVICE_DESTROYED]
| run_threw : lifecycle (Some 1) [DEVICE_MADE; DEVICE_INIT; DEVICE_RUN; DEVICE_PARKED; DEVICE_DESTROYED]
| running : lifecycle None [DEVICE_MADE; DEVICE_INIT; DEVICE_RUN].

Section main.
Context {D J : Type} `{JsonDocument J} `{MainDevice D J} (read_file : string → option (option J)).
(** Devices do not end the process themselves. *)
Context (Hinit : ∀ d : D, ends (md_init (J := J)) (λ o _, ∀ code, o ≠ Exited code) d).
Context (Hrun : ∀ d : D, ends (md_run (J := J)) (λ o _, ∀ code, o ≠ Exited code) d).

Definition fresh_process : Process D := mkProcess None None [].

(** Reading the configurations touches no device and does not end the process. *)
Lemma read_configs_process cla (Q : Outcome (option (J * J)) → Process D → Prop) p :
  (∀ o, (∀ code, o ≠ Exited code) → Q o p) → ends (read_configs read_file cla) Q p.
Proof.
  intros HQ. unfold read_configs. destruct (DeviceConfig_init_config_model _ _ _) as [rc model].
  ends_step; [ends_step; by apply HQ|]. unfold DeviceConfig_init_config_individual.
  assert (∀ rc' (individual : J), ends (if negb (ok rc') then mret None else mret (Some (model, individual))) Q p) as Hret.
  { intros rc' individual. ends_step; ends_step; by apply HQ. }
  unfold lift, may_throw, mbind, Exc_bind, mret, Exc_ret.
  repeat case_match; simplify_eq/=; try (apply ends_throw; by apply HQ); by apply HQ.
Qed.

(** The process after the body of [try]. *)
Definition body_history (o : Outcome (option Z)) (p : Process D) : Prop :=
  match the_device p with
  | None => history p = [] ∧ (o = Done (Some (-1)) ∨ o = Thrown ∨ o = Exited 2)
  | Some _ =>
      (history p = [DEVICE_MADE; DEVICE_INIT] ∧ (o = Done (Some (-1)) ∨ o = Thrown)) ∨
      (history p = [DEVICE_MADE; DEVICE_INIT; DEVICE_RUN] ∧ ∀ code, o ≠ Exited code)
  end.

Lemma main_body_history args : (∀ code, args = Exited code → code = 2) →
  ends (main_body read_file args) body_history fresh_process.
Proof.
  intros Hargs. assert (∀ o, o = Done (Some (-1)) ∨ o = Thrown ∨ o = Exited 2 → body_history o fresh_process) as Hnone by done.
  unfold main_body. ends_step. destruct args as [cla| |code]; [ends_step| |].
  2: { apply ends_throw, Hnone. by right; left. }
  2: { apply ends_exit, Hnone. right; right. by rewrite (Hargs code). }
  ends_step. apply read_configs_process.
  intros [[[model individual]|]| |code] Hc; [| | |by destruct (Hc code)].
  2: { ends_step. apply Hnone. by left. }
  2: { apply Hnone. by right; left. }
  destruct (new_device model cla) as [k|]; [|ends_step; apply Hnone; by left]. unfold event. do 3 (ends_step; ends_step; wp_step).
  ends_step. unfold on_the_device, ends at 1. cbn [the_device].
  specialize (Hinit (md_new k model individual cla)). unfold ends in Hinit.
  cbn. destruct (md_init (md_new k model individual cla)) as [[rc| |code] d1];
    cbn in Hinit |- *; [|by left; split; [|right]|by destruct (Hinit code)].
  ends_step; [ends_step; left; split; [done|by left]|]. do 1 (ends_step; ends_step; wp_step).
  unfold on_the_device, ends. cbn.
  specialize (Hrun d1); unfold ends in Hrun; destruct (md_run d1) as [o d2]. cbn in *. right. done.
Qed.

(** [C10] No device is left behind.  However the process goes (the command line refused,
    a configuration missing or malformed, [init] or the run failing or throwing), if it
    ends then the device that was made, if any, has been destroyed, last and once; if
    anything threw it was parked before; and it ends with 0 only when the device was
    initialised and its run said so. *)
Theorem device_lifecycle underflow_is_error parse_command_line argv :
  (∀ vm, parse_command_line allowed_options argv = Some vm → conforms vm) →
  let '(code, p) := main read_file (command_line_args underflow_is_error parse_command_line argv) fresh_process in
  lifecycle code (history p) ∧ (code ≠ None → the_device p = None).
Proof.
  intros Hp. unfold main.
  assert (∀ code, command_line_args underflow_is_error parse_command_line argv = Exited code → code = 2) as Hargs.
  { intros code. unfold command_line_args. destruct (parse_command_line _ _) as [vm|] eqn:Evm; [|by intros [= <-]].
    pose proof (read_arguments_ends underflow_is_error vm (Hp vm eq_refl)) as He. unfold ends, done_or_2 in He.
    destruct (read_arguments _ _ _) as [[[]| |c] a]; cbn in *; by intros [= <-]. }
  pose proof (main_body_history _ Hargs) as Hb. unfold ends, body_history in Hb.
  destruct (main_body read_file _ fresh_process) as [o p]. cbn [fst snd] in Hb.
  destruct (the_device p) as [d|] eqn:Ed.
  - unfold destroy_device, park_device, mbind, Exc_bind.
    destruct Hb as [[Hh [-> | ->]]|[Hh Ho]]; [| |destruct o as [[code|]| |code]; [| | |by destruct (Ho code)]];
      rewrite ?Ed; cbn; rewrite Hh; cbn; (split; [constructor|done]).
  - unfold destroy_device, park_device, mbind, Exc_bind.
    destruct Hb as [Hh [-> |[-> | ->]]]; cbn; rewrite ?Ed; cbn; rewrite ?Ed, ?Hh; (split; [constructor; set_solver|done]).
Qed.
End main.

(** ** An arm as the device of the process

    The arm of [ArmInitFacts] with its real initialisation; its run is left out. *)

Definition never_exits {S A} (m : Exc S A) : Prop := ∀ s, ends m (λ o _, ∀ code, o ≠ Exited code) s.

Section never_exits.
Context {S : Type}.
Lemma never_ret {A} (a : A) : never_exits (S := S) (mret a).
Proof. by intros s. Qed.
Lemma never_throw {A} : never_exits (S := S) (A := A) throw.
Proof. by intros s. Qed.
Lemma never_lift {A} (m : St S A) : never_exits (lift m).
Proof. intros s. unfold ends, lift. by destruct (m s). Qed.
Lemma never_bind {A B} (m : Exc S A) (k : A → Exc S B) : never_exits m → (∀ a, never_exits (k a)) → never_exits (m ≫= k).
Proof.
  intros Hm Hk s. ends_step. eapply ends_mono; [apply Hm|]. cbv beta. intros [a| |code] s1 H1; [apply Hk|done|by destruct (H1 code)].
Qed.
Lemma never_if {A} (b : bool) (m1 m2 : Exc S A) : never_exits m1 → never_exits m2 → never_exits (if b then m1 else m2).
Proof. by destruct b. Qed.
Lemma never_into {T A} (proj : S → T) (inj : T → S → S) (m : Exc T A) : never_exits m → never_exits (exc_into proj inj m).
Proof. intros Hm s. apply ends_into, Hm. Qed.
End never_exits.

Ltac never := repeat first
  [ apply never_bind; [|intros] | apply never_ret | apply never_throw | apply never_lift | apply never_if
  | apply never_into | progress case_match ].

Lemma never_rpy (l : list Json) : never_exits (push_rpy l).
Proof. induction l as [|e l IH]; cbn [push_rpy]; never. exact IH. Qed.
Lemma never_sequence (l : list Json) : never_exits (push_sequence (X := Bench) l).
Proof. induction l as [|e l IH]; cbn [push_sequence]; unfold ab_on_arm, ab_update; never. exact IH. Qed.

Lemma never_individual {J} `{JsonDocument J} read_file cla : never_exits (DeviceConfig_init_config_individual (J := J) read_file cla).
Proof. unfold DeviceConfig_init_config_individual. never. intros s. unfold ends, may_throw. by repeat case_match. Qed.

Lemma bench_arm_never_exits model individual cla topic_given driver_given :
  never_exits (arm_init (X := Bench) (J := Json) (new_Servo follower_arm None) model individual cla topic_given driver_given).
Proof.
  unfold arm_init, or_return, ab_device_init, Device_init, init_topic, init_driver, init_algo, Algo_init, init_settings, init_joints,
    init_effector, init_totals, follower_gravity, bd_on_world, bd_on_base, ab_on_world, ab_on_arm, ab_update.
  never; try first [apply never_rpy|apply never_sequence].
  match goal with E : ?individual_config = (Exited ?code, _) |- _ =>
    destruct (never_individual (J := Json) (dp_read_file (X := Bench)) (cla_effector cla) json_null code); unfold ends; by rewrite E end.
Qed.

Record BenchDevice := mkBenchDevice {
  bd_model : Json; bd_individual : Json; bd_args : CommandLineArgs; bd_arm : ArmBuilding Bench }.
#[export] Instance eta_BenchDevice : Eta BenchDevice := λ r, mkBenchDevice (bd_model r) (bd_individual r) (bd_args r) (bd_arm r).

Definition bench_park : St BenchDevice ReturnCode :=
  lift_into (λ d, ab_arm (bd_arm d)) (λ a d, d <| bd_arm := (bd_arm d) <| ab_arm := a |> |>) arm_park_safely.

#[export] Instance bench_device : MainDevice BenchDevice Json := {|
  md_new := λ k model individual cla, mkBenchDevice model individual cla
    (mkArmBuilding (construct_Arm (match k with KIND_ARM k => k | _ => ARM_CONTROLLER end) empty_bench cla) None 0 0 0 0);
  md_init := d ← lift get_state;
    exc_into bd_arm (λ b d, d <| bd_arm := b |>)
      (arm_init (new_Servo follower_arm None) (bd_model d) (bd_individual d) (bd_args d) false false);
  md_run := mret (Some 0);
  md_park_safely := bench_park;
  md_destroy := bench_park;; mret tt;
|}.

(** The files of the arm, and its command line. *)
Definition with_fields (fields : list (string * Json)) (j : Json) : Json :=
  match j with JObject fs => JObject (fields ++ fs) | _ => j end.
Definition bench_file (driver : string) (read_only : bool) (path : string) : option (option Json) :=
  let version := (fn_config_version, JString CURRENT_CONFIG_VERSION) in
  if String.eqb path "arm.json" then
    Some (Some (with_fields [version; (fn_device_model, JString "YAM"); (fn_device_type, JString val_device_type_arm)]
                  (bench_arm_model driver read_only)))
  else if String.eqb path "arm_01.json" then Some (Some (with_fields [version] bench_arm_individual))
  else None.
Definition bench_command_line : list (string * OptionValue) := [
  ("role", ValString "follower"); ("device_model", ValString "YAM"); ("device_id", ValString "01");
  ("logical_name", ValString "left"); ("control_frequency", ValInt 100); ("topic_type", ValString "ZMQ");
  ("topic_state", ValString "s"); ("topic_live_command", ValString "l"); ("topic_direct_command", ValString "d");
  ("topic_lifecycle", ValString "c"); ("topic_status", ValString "t"); ("arm_model_config", ValString "arm.json");
  ("arm_instance_config", ValString "arm_01.json"); ("control_port", ValString "can0"); ("urdf_path", ValString "yam.urdf")].

Definition bench_main (driver : string) (read_only : bool) (options : list (string * OptionValue)) : option Z * Process BenchDevice :=
  main (bench_file driver read_only) (command_line_args (λ _, true) (given_map options) []) fresh_process.

Lemma bench_main_results :
  prod_map id history (bench_main val_driver_type_can false bench_command_line) =
    (Some 0, [DEVICE_MADE; DEVICE_INIT; DEVICE_RUN; DEVICE_DESTROYED]) ∧
  prod_map id history (bench_main val_driver_type_can_encoder true bench_command_line) =
    (Some (-1), [DEVICE_MADE; DEVICE_INIT; DEVICE_DESTROYED]) ∧
  prod_map id history (bench_main val_driver_type_can false (("device_model", ValString "ARX") :: bench_command_line)) = (Some (-1), []) ∧
  prod_map id history (bench_main val_driver_type_can false (tail bench_command_line)) = (Some 2, []).
Proof. vm_compute. done. Qed.

Lemma device_lifecycle_witness :
  (prod_map id history (bench_main val_driver_type_can false bench_command_line) =
     (Some 0, [DEVICE_MADE; DEVICE_INIT; DEVICE_RUN; DEVICE_DESTROYED]) ∧
   prod_map id history (bench_main val_driver_type_can_encoder true bench_command_line) =
     (Some (-1), [DEVICE_MADE; DEVICE_INIT; DEVICE_DESTROYED]) ∧
   prod_map id history (bench_main val_driver_type_can false (("device_model", ValString "ARX") :: bench_command_line)) = (Some (-1), []) ∧
   prod_map id history (bench_main val_driver_type_can false (tail bench_command_line)) = (Some 2, [])) ∧
  let '(code, p) := bench_main val_driver_type_can false bench_command_line in
  lifecycle code (history p) ∧ (code ≠ None → the_device p = None).
Proof.
  split; [exact bench_main_results|].
  apply (device_lifecycle (D := BenchDevice) (J := Json) (bench_file val_driver_type_can false)).
  - intros d. cbn [md_init bench_device]. apply (never_bind (lift get_state)); [apply never_lift|]. intros a. apply never_into, bench_arm_never_exits.
  - intros d. cbn [md_run bench_device]. apply never_ret.
  - intros vm [= <-]. apply conformsb_conforms. vm_compute. reflexivity.
Defined.
